(* ===== verification/_CoqProject ===== *)
-Q . S2P
Prelude.v
OrdMap.v
RangeSet.v
Bytes.v
Serializer.v
Issue.v
BaseUint.v
CurrencyCode.v
Indexes.v
BigNum.v
STAmount.v
STAmountProps.v
STAmountText.v
STAmountArith.v
STAmountMulDiv.v
STAmountWire.v
Quality.v
Ter.v
Taker.v
TakerProps.v
Consensus.v
Fees.v
HashRouter.v
DeferredCredits.v
EntrySet.v
Directory.v
LedgerObjects.v
Threading.v
TrustLines.v
TrustLineProps.v
TrustLineClaims.v
OrderBook.v
OrderBookClaims.v
Tx.v
LedgerQueries.v
Transactor.v
Transactors.v
MiscTransactors.v
TransactionEngine.v
AccountLogic.v
ThreadingProps.v
TransactorSafe.v
EngineSafe.v
EngineClaims.v
PaymentClaims.v
TxSet.v
ConsensusApply.v
SHAMapNodeID.v
SHAMapTreeNode.v
SHAMap.v
SHAMapRep.v
SHAMapRead.v
SHAMapWrite.v
SHAMapDelete.v
SHAMapHash.v
SHAMapShare.v
SHAMapMerkle.v
SHAMapDelta.v
SHAMapClaims.v
