(* ===== verification/Prelude.v ===== *)
(** * Verification of skywelld's ledger core

    skywelld is a payment-network server: nodes keep a shared ledger of accounts, balances
    and offers, agree in rounds of consensus on the transactions to apply, and exchange
    everything in a binary format.  This library models the parts that decide what the
    ledger says, straight from the C++ under [src/src], and proves them correct.

    ** The program and its parts

    - _Amounts._  Every balance, price and fee is an [STAmount], a signed decimal with a
      64-bit mantissa and an exponent, or a count of native units.  Amounts are added,
      multiplied, compared, turned into offer rates and written as bytes and as text.
    - _Wire format._  [Serializer] appends and [SerialIter] reads big-endian integers,
      variable-length blobs and field identifiers; hashes and accounts are [base_uint]s;
      currencies have text codes; the entries of the ledger have 256-bit indexes.
    - _Ledger entries._  A [LedgerEntrySet] overlays the ledger while a transaction is applied,
      can be checkpointed, and is committed at the end.  On top of it are directories (chains of
      pages), trust lines, balances and transfers; [DeferredCredits] withholds what an account
      receives while a payment is worked out.
    - _Offers._  The [Taker] crosses offers of the order book at the offers' [Quality],
      limited by both parties' funds, directly or through the native currency as a bridge.  It
      gets them from an [OfferStream], which walks over the directories of a book with a
      [BookTip] and removes the offers that cannot be taken.
    - _Transactions._  The [TransactionEngine] applies a transaction to a ledger: a
      [Transactor] checks signature, sequence number and fee and then does the work of its kind
      (payments, account settings, trust lines, signer lists, tickets, batches, ...); the engine
      commits the entries, claims the fee of a failed transaction, or drops it.
    - _Hash trees._  Transactions and ledger states are [SHAMap]s, trees of 16-way nodes whose
      hash names their content; maps share nodes and copy them before a change; two maps are
      compared by skipping equal hashes.
    - _Consensus._  A [DisputedTx] counts the peers' votes on a transaction and moves our own
      vote; [ContinuousLedgerTiming] says when a ledger closes and when there is consensus; the
      agreed set is applied in canonical order, in passes ([CanonicalTXSet], [LedgerConsensus]).
    - _Fees._  [LoadFeeTrack] scales fees under load; [FeeVote] lets validators vote on the
      network's fee settings.
    - _Bookkeeping._  [RangeSet] records which ledgers are present; [HashRouter] suppresses
      messages already seen.

    ** The files

    - [Prelude] (this file): machine integers at their width ([u8] ... [u64], [s32], [s64] with
      their ranges and the hint database [mint]), the exception monad [result], tactics
      ([zlia], [zbool], [case_if]).
    - [OrdMap]: [std::map] with integer keys as the sorted list of its nodes, with the map laws.
    - [RangeSet]: [common/base/impl/RangeSet.cpp].  [Module RangeSet] keeps the code's map from
      first to last value; [rs_mem] is the set it stands for.
    - [Bytes]: big-endian byte lists.  [Serializer]: [protocol/impl/Serializer.cpp]; an iterator
      is the buffer with the code's three counters, readers are state transformers that may throw.
    - [Issue]: [protocol/Issue.h], [Book.h], [UintTypes.h].  [BaseUint]:
      [common/base/base_uint.h] and [strHex], on arrays of byte-swapped 32-bit words; [val] is the
      integer an array stands for.  [CurrencyCode]: [protocol/impl/UintTypes.cpp].  [Indexes]:
      [protocol/impl/Indexes.cpp] and the three index functions of [ledger/Ledger.cpp].
    - [BigNum]: the class of the OpenSSL operations the multiplication and division use, with
      their documented behaviour, and the instance on integers.
    - [STAmount]: [protocol/impl/STAmount.cpp], all definitions but the text form.
      [STAmountProps]: what [canonicalize] and [compare] do; [amount_val] is the number an amount
      stands for, in units of [10^-100].  [STAmountText]: [getText] and [setValue].
      [STAmountArith]: [+] and [-].  [STAmountMulDiv]: [multiply], [divide] and the rounding
      variants.  [STAmountWire]: the wire format and the rate encoding.
    - [Quality]: [transaction/book/impl/Quality.cpp].  [Taker]: [transaction/book/impl/Taker.cpp]
      and [Offer.h]; the ledger is the interface [LedgerView].  [TakerProps]: their theorems.
    - [Ter]: the result codes of [protocol/TER.h].
    - [Consensus]: [consensus/DisputedTx.cpp] ([Module DisputedTx]) and [ledger/LedgerTiming.cpp]
      ([Module LedgerTiming]).
    - [Fees]: [common/core/impl/LoadFeeTrackImp.h] ([Module LoadFeeTrack]) and
      [common/misc/FeeVoteImpl.cpp] ([Module FeeVote]).
    - [HashRouter]: [common/misc/HashRouter.cpp].
    - [DeferredCredits]: [ledger/DeferredCredits.cpp].  [EntrySet]: the entry cache of
      [ledger/LedgerEntrySet.cpp] with its entries as objects of a heap ([World]) that copies of
      a set share, and the commit of [transaction/tx/TransactionEngine.cpp]; [lookup_set] is the
      map a set stands for, [step] the relation of its operations.
    - [Directory]: the directory functions of [LedgerEntrySet.cpp]; [dir_rep] says that a map
      holds a directory with given pages.
    - [LedgerObjects]: the kinds of entries ([protocol/impl/LedgerFormats.cpp]) and the
      operations of a set as a state and error monad [M], with the rules ([wp]) that describe
      each by its effect on the map of entries.  [TrustLines]: balances, trust lines, transfers
      of [LedgerEntrySet.cpp].  [TrustLineProps] and [TrustLineClaims]: their theorems, and the
      small ledger the witnesses use.
    - [OrderBook]: [transaction/book/impl/BookTip.cpp] and [OfferStream.cpp]; the two views of a
      stream are two sets over one heap.  [OrderBookClaims]: their theorems.
    - [Tx]: transactions, their fields and flags ([protocol/STTx.h], [TxFlags.h],
      [impl/TxFormats.cpp]).  [LedgerQueries]: what transactors ask of a ledger
      ([ledger/Ledger.cpp], and [accountFundsCheck]).  [Transactor]: the base class
      ([transaction/transactors/Transactor.cpp]); an object is a record, its virtual functions
      the record [Virtual].  [Transactors]: [SetAccount], [SetRegularKey], [SetTrust], [SetREL],
      [SetSign].  [MiscTransactors]: [SetNickName], [Message], [AccountMerge], tickets, [Change],
      [ManageTransactor].  [TransactionEngine]: [Payment], [Operations], [Transactor::transact]
      and [applyTransaction].
    - [AccountLogic], [TransactorSafe], [EngineSafe]: a logic that follows one account through a
      computation, every transactor in it, and the engine in it.  [EngineClaims],
      [PaymentClaims]: the theorems on the engine.
    - [TxSet]: [common/misc/CanonicalTXSet.cpp] and the application of a set of
      [consensus/LedgerConsensus.cpp], over the interface [TxEngine].  [ConsensusApply]: the
      transaction engine as an instance of the interface.
    - [SHAMapNodeID], [SHAMapTreeNode], [SHAMap], [SHAMapDelta]: the files of
      [common/shamap/impl] of the same names; nodes are objects of a heap that maps share.
      [SHAMapRep]: what a tree stands for.  [SHAMapRead], [SHAMapWrite], [SHAMapDelete],
      [SHAMapHash], [SHAMapShare], [SHAMapMerkle]: what reading, changing, hashing and sharing do
      to it.  [SHAMapClaims]: the theorems on any sequence of operations.

    ** What is proved

    - Amounts: [canonicalize] on every mantissa and exponent (loss below one unit of the 16th
      digit, exact conditions for underflow and overflow) and that it establishes the canonical
      form; comparison is the order of the values; addition is exact on native amounts and
      within 11 units of the larger exponent on others, commutative, and subtraction is
      addition of the negation; products and quotients are right to one unit of the last digit;
      wire format, text form and offer rate read back, rates ordered as the quotients.
    - Ledger entries: the operations of a set refine operations on its map and keep its
      invariant; the commit writes exactly that map; a checkpoint is isolated from later work
      on a copy.  Different keys are hashed from different bytes.  Adding to and removing from a
      directory refine list operations on its pages, and a walk over it ends and misses nothing.
      Native transfers conserve the total; the three ways to credit a trust line agree; a line
      that is created and deleted leaves no trace.  Deferred credits are the sum of what was
      received.
    - Transactions: over any run of the engine the transactions of an account are applied in
      consecutive order of their sequence numbers, each once; no run leaves an account that
      nobody can sign for; the promise not to freeze is kept for ever.  A direct payment has
      exactly the effect it should on every entry of the ledger, and so has a transaction that
      fails and only pays its fee.
    - Offers: scaling an offer to a limit stays below the offer and the limit; a crossing keeps
      every flow within the taker's and owner's funds and the offer, bridged crossings balance
      in the middle, consumed offers shrink by what was taken.  Walking a book presents every
      offer once, best price first, and leaves the book empty and all directories in order.
    - Hash trees: any sequence of operations on a map is that sequence on a finite map; the hash
      names the content unless hashed strings collide; snapshots are isolated although nodes are
      shared; the comparison finds exactly the differences; nodes read back from both wire forms.
    - Applying a consensus set: the order is a function of the set; the passes end, and every
      transaction is settled or was refused in a final attempt.  With the transaction engine in
      place of the interface, the transactions of every account go in without gaps, in sequence.
    - Sets and maps: [setValue], [clearValue], [setRange], [getNext], [prevMissing] and the
      size of a [RangeSet] against the set of its members.
    - Wire: integers, field identifiers and variable-length blobs read back at any position; an
      iterator never leaves its buffer.  Order, arithmetic, bit operations and hexadecimal text
      of [base_uint]; currency codes read back.
    - Consensus and fees: vote counters count votes, the avalanche rule, soundness of declared
      consensus, progress of closing, the close-time resolution stays in its table, the fee
      multiplier stays in its range and makes progress, the winner of a fee vote.
    - Routing: a message is suppressed for the whole hold time and relayed once, and the expiry
      list stays bounded.

    ** Parameters and what is assumed of them

    The hash [sha512half] is a parameter; where a theorem needs it, it assumes that particular
    indexes differ ([good_root] for the pages of a directory, [account_apart] for an account,
    no collision among the strings hashed for two trees), and every such theorem has a witness
    with a concrete function.  [accountID] (the account of a public key) and [checkSign] are
    parameters without assumptions.  The calculation of a payment along paths,
    [skywellCalculate], is assumed to change of an account only its balance and owner count
    ([paths_frame]).  OpenSSL's integers are the class [BigNum].

    ** Bounds and fuel

    Loops are structural where the code's are.  The scaling loops of amounts take fuel:
    [scale_fuel] is 20, and 15 steps bring any non-zero 64-bit mantissa up to 16 digits and 4
    bring it down, so the fuel never runs out ([scale_up_spec], [scale_down_spec]); loops that
    align exponents get their exponent difference, which is the exact number of rounds.  The
    scans of a [RangeSet] get the size of the interval and are shown to end within it, and the
    search for the next ledger entry gets the size of the ledger.  A walk over a directory gets
    one step more than the ledger has entries, enough for every directory that is well formed
    ([visit_every_item]); stepping through a book takes the number of prices and of pages.  A descent in a hash tree gets 65 steps, one more than a tag has
    digits; the comparison of two trees gets 64 steps per item and 2 more; no result of the
    theorems is [out_of_fuel].

    ** Not modelled

    - Networking, storage, JSON, logging, the job queue and locks (each modelled operation runs
      under its object's lock): effects outside the process or without influence on the ledger.
    - Signatures and keys, which rest on OpenSSL, secp256k1 and ed25519; the metadata of
      transactions, which is written next to the ledger and read by clients only.
    - Payment paths ([transaction/paths]): the search and the calculation along paths; the
      calculation is a parameter of the engine, as above.
    - [STObject] and the parsing of transactions: a transaction here is its fields.
    - [LedgerMaster], the driver of a consensus round, validations and amendments: state
      machines over messages, timers and databases.
    - Synchronization of hash trees over the network and with the node store.

    The model also shows where the code does not do what its comments say: rounding up that rounds down, an overflow of native
    products, ranges whose last value is dropped, fee arithmetic that wraps, fees of failed
    transactions that nobody receives, checks that run before the members they read are set. *)

From stdpp Require Export prelude gmap strings pretty sorting.
From Stdlib Require Export ZArith Lia.

#[global] Open Scope Z_scope.

(** ** Arithmetic automation

    [zlia] is [lia] after the Euclidean equations of every [/] and [mod] have
    been added; [zbool] turns the boolean tests the code branches on into
    propositions. *)

Ltac zlia := Z.to_euclidean_division_equations; lia.

Ltac zbool :=
  repeat match goal with
  | H : (_ && _) = true |- _ => apply andb_true_iff in H as [? ?]
  | H : (_ || _) = false |- _ => apply orb_false_iff in H as [? ?]
  | H : (_ =? _) = true |- _ => apply Z.eqb_eq in H
  | H : (_ =? _) = false |- _ => apply Z.eqb_neq in H
  | H : (_ <? _) = true |- _ => apply Z.ltb_lt in H
  | H : (_ <? _) = false |- _ => apply Z.ltb_ge in H
  | H : (_ <=? _) = true |- _ => apply Z.leb_le in H
  | H : (_ <=? _) = false |- _ => apply Z.leb_gt in H
  | H : (_ >? _) = true |- _ => rewrite Z.gtb_lt in H
  | H : (_ >? _) = false |- _ => rewrite Z.gtb_ltb in H; apply Z.ltb_ge in H
  | H : (_ >=? _) = true |- _ => rewrite Z.geb_leb in H; apply Z.leb_le in H
  | H : (_ >=? _) = false |- _ => rewrite Z.geb_leb in H; apply Z.leb_gt in H
  | H : negb _ = true |- _ => apply negb_true_iff in H
  | H : negb _ = false |- _ => apply negb_false_iff in H
  end.

(** Case analysis on the test of the first [if] of the goal. *)
Ltac case_if :=
  match goal with
  | |- context [if ?b then _ else _] =>
      lazymatch type of b with bool => destruct b eqn:? end
  end.

Ltac case_if_in H :=
  match type of H with
  | context [if ?b then _ else _] =>
      lazymatch type of b with bool => destruct b eqn:? end
  end.

(** ** Machine integers

    A [w]-bit integer is a [Z]; each C++ conversion or arithmetic operation whose
    result may leave the type's range is followed by the corresponding reduction.
    The moduli are literals so that [lia] can use them. *)

Definition u8 (x : Z) : Z := x mod 256.
Definition u16 (x : Z) : Z := x mod 65536.
Definition u32 (x : Z) : Z := x mod 4294967296.
Definition u64 (x : Z) : Z := x mod 18446744073709551616.
Definition s32 (x : Z) : Z := (x + 2147483648) mod 4294967296 - 2147483648.
Definition s64 (x : Z) : Z :=
  (x + 9223372036854775808) mod 18446744073709551616 - 9223372036854775808.

Definition is_u8 (x : Z) : Prop := 0 <= x < 256.
Definition is_u16 (x : Z) : Prop := 0 <= x < 65536.
Definition is_u32 (x : Z) : Prop := 0 <= x < 4294967296.
Definition is_u64 (x : Z) : Prop := 0 <= x < 18446744073709551616.
Definition is_s32 (x : Z) : Prop := -2147483648 <= x < 2147483648.
Definition is_s64 (x : Z) : Prop := -9223372036854775808 <= x < 9223372036854775808.

Create HintDb mint.

Lemma u8_id x : is_u8 x → u8 x = x.
Proof. unfold is_u8, u8. intros. by apply Z.mod_small. Qed.
Lemma u16_id x : is_u16 x → u16 x = x.
Proof. unfold is_u16, u16. intros. by apply Z.mod_small. Qed.
Lemma u32_id x : is_u32 x → u32 x = x.
Proof. unfold is_u32, u32. intros. by apply Z.mod_small. Qed.
Lemma u64_id x : is_u64 x → u64 x = x.
Proof. unfold is_u64, u64. intros. by apply Z.mod_small. Qed.
Lemma s32_id x : is_s32 x → s32 x = x.
Proof. unfold is_s32, s32. intros. rewrite Z.mod_small; lia. Qed.
Lemma s64_id x : is_s64 x → s64 x = x.
Proof. unfold is_s64, s64. intros. rewrite Z.mod_small; lia. Qed.

Lemma u8_range x : is_u8 (u8 x).
Proof. unfold is_u8, u8. by apply Z.mod_pos_bound. Qed.
Lemma u16_range x : is_u16 (u16 x).
Proof. unfold is_u16, u16. by apply Z.mod_pos_bound. Qed.
Lemma u32_range x : is_u32 (u32 x).
Proof. unfold is_u32, u32. by apply Z.mod_pos_bound. Qed.
Lemma u64_range x : is_u64 (u64 x).
Proof. unfold is_u64, u64. by apply Z.mod_pos_bound. Qed.
Lemma s32_range x : is_s32 (s32 x).
Proof. unfold is_s32, s32. zlia. Qed.
Lemma s64_range x : is_s64 (s64 x).
Proof. unfold is_s64, s64. zlia. Qed.

#[export] Hint Resolve u8_range u16_range u32_range u64_range s32_range s64_range : mint.

(** [mint] removes the reductions whose argument [lia] shows to be in range. *)
Ltac mint_range := unfold is_u8, is_u16, is_u32, is_u64, is_s32, is_s64 in *; lia.
Ltac mint :=
  repeat first
    [ rewrite u64_id by mint_range | rewrite s64_id by mint_range
    | rewrite u32_id by mint_range | rewrite s32_id by mint_range
    | rewrite u16_id by mint_range | rewrite u8_id by mint_range ].
Ltac mint_in H :=
  repeat first
    [ rewrite u64_id in H by mint_range | rewrite s64_id in H by mint_range
    | rewrite u32_id in H by mint_range | rewrite s32_id in H by mint_range
    | rewrite u16_id in H by mint_range | rewrite u8_id in H by mint_range ].

(** ** Exceptions

    A function that can throw returns a [result]: a value, or the text of the
    [std::runtime_error] (or other exception) it throws. *)

Inductive result (A : Type) : Type :=
| Ok (a : A)
| Throw (what : string).
Arguments Ok {A} _.
Arguments Throw {A} _.

#[export] Instance result_ret : MRet result := λ A a, Ok a.
#[export] Instance result_bind : MBind result := λ A B f m,
  match m with Ok a => f a | Throw w => Throw w end.
#[export] Instance result_fmap : FMap result := λ A B f m,
  match m with Ok a => Ok (f a) | Throw w => Throw w end.
#[export] Instance result_eq_dec {A} `{EqDecision A} : EqDecision (result A).
Proof. solve_decision. Defined.

Lemma result_bind_Ok {A B} (f : A → result B) m b :
  (m ≫= f) = Ok b ↔ ∃ a, m = Ok a ∧ f a = Ok b.
Proof. destruct m; simpl; naive_solver. Qed.

Lemma result_bind_assoc {A B C} (m : result A) (f : A → result B) (g : B → result C) :
  ((m ≫= f) ≫= g) = (m ≫= λ a, f a ≫= g).
Proof. by destruct m. Qed.

Definition is_ok {A} (r : result A) : bool :=
  match r with Ok _ => true | Throw _ => false end.

(** Decompose a hypothesis [m ≫= f = Ok b]. *)
Ltac res_inv :=
  repeat match goal with
  | H : (_ ≫= _) = Ok _ |- _ => apply result_bind_Ok in H as (? & ? & ?)
  | H : Ok _ = Ok _ |- _ => injection H as H
  | H : Throw _ = Ok _ |- _ => discriminate H
  end.
