(* ===== verification/OrdMap.v ===== *)
(** * Ordered maps with integer keys

    The code's [std::map<integer, V>] as the list of its nodes in iteration order.
    [om_set] is [m[k] = v], [om_find] is [find]/[operator[]] read, [om_erase] is
    [erase(key)].  [om_sorted] is the container's own invariant (strictly increasing
    keys); the lemmas give the map laws under it. *)

From S2P Require Import Prelude.

Section ordmap.
  Context {V : Type}.
  Implicit Types (m : list (Z * V)) (k : Z) (v : V).

Fixpoint om_set (k : Z) (v : V) (m : list (Z * V)) : list (Z * V) :=
  match m with
  | [] => [(k, v)]
  | (k', v') :: m' =>
      if k <? k' then (k, v) :: m
      else if k =? k' then (k, v) :: m'
      else (k', v') :: om_set k v m'
  end.

Fixpoint om_find (k : Z) (m : list (Z * V)) : option V :=
  match m with
  | [] => None
  | (k', v') :: m' => if k =? k' then Some v' else om_find k m'
  end.

Fixpoint om_erase (k : Z) (m : list (Z * V)) : list (Z * V) :=
  match m with
  | [] => []
  | (k', v') :: m' => if k =? k' then m' else (k', v') :: om_erase k m'
  end.

Definition om_sorted (m : list (Z * V)) : Prop := StronglySorted Z.lt m.*1.

Lemma om_sorted_cons k v m :
  om_sorted ((k, v) :: m) ↔ om_sorted m ∧ Forall (λ p, k < p.1) m.
Proof.
  unfold om_sorted; simpl. split.
  - inversion 1; subst. rewrite Forall_fmap in H3. auto.
  - intros [? ?]. constructor; [done|]. by rewrite Forall_fmap.
Qed.

Lemma om_find_lt k m : Forall (λ p, k < p.1) m → om_find k m = None.
Proof.
  induction m as [|[k' v'] m IH]; simpl; [done|]. rewrite Forall_cons; simpl.
  intros [? ?]. case_if; zbool; [lia|auto].
Qed.

Lemma om_set_Forall (P : Z * V → Prop) k v m :
  P (k, v) → Forall P m → Forall P (om_set k v m).
Proof.
  induction m as [|[k' v'] m IH]; simpl; intros Hk Hm.
  { repeat constructor; done. }
  apply Forall_cons in Hm as [? ?]. repeat case_if; repeat constructor; auto.
Qed.

Lemma om_erase_Forall (P : Z * V → Prop) k m : Forall P m → Forall P (om_erase k m).
Proof.
  induction m as [|[k' v'] m IH]; simpl; intros Hm; [done|].
  apply Forall_cons in Hm as [? ?]. repeat case_if; repeat constructor; auto.
Qed.

Lemma om_set_sorted k v m : om_sorted m → om_sorted (om_set k v m).
Proof.
  induction m as [|[k' v'] m IH]; simpl; intros Hm.
  { apply om_sorted_cons. split; [constructor|constructor]. }
  pose proof Hm as [Hs Hall]%om_sorted_cons.
  repeat case_if; zbool; apply om_sorted_cons.
  - split; [done|]. constructor; [done|]. eapply Forall_impl; [done|]. simpl; lia.
  - subst. by split.
  - split; [auto|]. apply om_set_Forall; [simpl; lia|done].
Qed.

Lemma om_erase_sorted k m : om_sorted m → om_sorted (om_erase k m).
Proof.
  induction m as [|[k' v'] m IH]; simpl; intros Hm; [done|].
  pose proof Hm as [Hs Hall]%om_sorted_cons.
  case_if; [done|]. apply om_sorted_cons. split; [auto|]. by apply om_erase_Forall.
Qed.

Lemma om_find_set k v k' m :
  om_sorted m → om_find k' (om_set k v m) = if k' =? k then Some v else om_find k' m.
Proof.
  induction m as [|[k0 v0] m IH]; simpl; intros Hm; [done|].
  pose proof Hm as [Hs Hall]%om_sorted_cons.
  destruct (k <? k0) eqn:?; simpl; [done|].
  destruct (k =? k0) eqn:?; simpl; zbool.
  { subst. by destruct (k' =? k0). }
  rewrite IH by done. destruct (k' =? k0) eqn:?, (k' =? k) eqn:?; zbool; try done; lia.
Qed.

Lemma om_find_erase k k' m :
  om_sorted m → om_find k' (om_erase k m) = if k' =? k then None else om_find k' m.
Proof.
  induction m as [|[k0 v0] m IH]; simpl; intros Hm; [by destruct (k' =? k)|].
  pose proof Hm as [Hs Hall]%om_sorted_cons.
  destruct (k =? k0) eqn:?; simpl; zbool.
  { subst. destruct (k' =? k0) eqn:?; [|done]. zbool; subst. by apply om_find_lt. }
  rewrite IH by done. destruct (k' =? k0) eqn:?, (k' =? k) eqn:?; zbool; try done; lia.
Qed.

Lemma om_find_In k v m : om_sorted m → om_find k m = Some v ↔ (k, v) ∈ m.
Proof.
  induction m as [|[k0 v0] m IH]; simpl; intros Hm.
  { split; [done|]. by intros ?%not_elem_of_nil. }
  pose proof Hm as [Hs Hall]%om_sorted_cons. rewrite elem_of_cons.
  destruct (k =? k0) eqn:?; zbool; subst.
  - split; [naive_solver|]. intros [?|Hin]; [naive_solver|].
    rewrite Forall_forall in Hall. apply Hall in Hin. simpl in Hin; lia.
  - rewrite IH by done. naive_solver.
Qed.

Lemma om_erase_app k v l1 l2 :
  Forall (λ p, p.1 < k) l1 → om_erase k (l1 ++ (k, v) :: l2) = l1 ++ l2.
Proof.
  induction l1 as [|[k' v'] l1 IH]; simpl; [by rewrite Z.eqb_refl|].
  rewrite Forall_cons; simpl. intros [? ?]. case_if; zbool; [lia|]. by rewrite IH.
Qed.

Lemma om_set_app_replace k v v' l1 l2 :
  Forall (λ p, p.1 < k) l1 → om_set k v' (l1 ++ (k, v) :: l2) = l1 ++ (k, v') :: l2.
Proof.
  induction l1 as [|[k' w] l1 IH]; simpl.
  { by rewrite Z.ltb_irrefl, Z.eqb_refl. }
  rewrite Forall_cons; simpl. intros [? ?]. repeat case_if; zbool; try lia. by rewrite IH.
Qed.

Lemma om_set_app_insert k v l1 l2 :
  Forall (λ p, p.1 < k) l1 → Forall (λ p, k < p.1) l2 →
  om_set k v (l1 ++ l2) = l1 ++ (k, v) :: l2.
Proof.
  intros H1 H2. induction l1 as [|[k' w] l1 IH]; simpl.
  { destruct l2 as [|[k2 v2] l2]; [done|]. simpl.
    apply Forall_cons in H2 as [? _]. simpl in *. case_if; zbool; [done|lia]. }
  apply Forall_cons in H1 as [? ?]; simpl in *.
  repeat case_if; zbool; try lia. by rewrite IH.
Qed.

(** A sorted map splits around any key it does not hold. *)
Lemma om_split k m :
  om_sorted m → om_find k m = None →
  ∃ l1 l2, m = l1 ++ l2 ∧ Forall (λ p, p.1 < k) l1 ∧ Forall (λ p, k < p.1) l2.
Proof.
  induction m as [|[k' v'] m IH]; simpl; intros Hs Hf.
  { exists [], []. by split_and!. }
  pose proof Hs as [Hs' Hall]%om_sorted_cons.
  case_if_in Hf; [done|]. zbool. destruct (decide (k < k')).
  - exists [], ((k', v') :: m). split_and!; try done. constructor; [done|].
    eapply Forall_impl; [done|]. simpl; lia.
  - destruct (IH Hs' Hf) as (l1 & l2 & -> & ? & ?).
    exists ((k', v') :: l1), l2. split_and!; try done. constructor; [simpl; lia|done].
Qed.

(** A sorted map is known by its values. *)
Lemma om_ext m m' : om_sorted m → om_sorted m' → (∀ k, om_find k m = om_find k m') → m = m'.
Proof.
  revert m'. induction m as [|[k v] m IH]; intros [|[k' v'] m'] Hm Hm' H; [done|..].
  - specialize (H k'). simpl in H. by rewrite Z.eqb_refl in H.
  - specialize (H k). simpl in H. by rewrite Z.eqb_refl in H.
  - apply om_sorted_cons in Hm as [Hm Hk], Hm' as [Hm' Hk'].
    assert (k = k') as <-.
    { destruct (Z.lt_trichotomy k k') as [Hlt|[Heq|Hlt]]; [exfalso|done|exfalso].
      - specialize (H k). simpl in H. rewrite Z.eqb_refl, (proj2 (Z.eqb_neq k k')) in H by lia.
        rewrite om_find_lt in H; [done|]. eapply Forall_impl; [exact Hk'|]. simpl; lia.
      - specialize (H k'). simpl in H. rewrite Z.eqb_refl, (proj2 (Z.eqb_neq k' k)) in H by lia.
        rewrite om_find_lt in H; [done|]. eapply Forall_impl; [exact Hk|]. simpl; lia. }
    assert (v = v') as <- by (specialize (H k); simpl in H; rewrite Z.eqb_refl in H; congruence).
    f_equal. apply IH; [done..|]. intros j. destruct (decide (j = k)) as [->|Hj]; [by rewrite !om_find_lt|].
    specialize (H j). simpl in H. by rewrite (proj2 (Z.eqb_neq j k)) in H.
Qed.

End ordmap.

(** Increasing numbers are different. *)
Lemma sorted_nodup (l : list Z) : StronglySorted Z.lt l → NoDup l.
Proof. induction 1 as [|x l _ IH Hx]; constructor; [|done]. rewrite Forall_forall in Hx. intros H. specialize (Hx x H). lia. Qed.

Create HintDb ordmap.
#[export] Hint Resolve om_set_sorted om_erase_sorted : ordmap.
