(* ===== verification/RangeSet.v ===== *)
(** * RangeSet: the sparse set of ledger sequence numbers

    Model of [src/src/common/base/RangeSet.h] and [impl/RangeSet.cpp].  The state
    [mRanges : std::map<uint32, uint32>] is the ordered list of its (first, last)
    nodes.  [rs_ok] is what [checkInternalConsistency] asserts; [rs_mem] is the
    abstract set a [RangeSet] stands for, and the theorems refine every operation
    to an operation on that set. *)

From S2P Require Import Prelude OrdMap.

Module RangeSet.

Notation rangeset := (list (Z * Z)).

(** [RangeSet::absent] *)
Definition absent : Z := 4294967295.

Definition contains (it : Z * Z) (v : Z) : bool := (it.1 <=? v) && (it.2 >=? v).

Definition hasValue (rs : rangeset) (v : Z) : bool := existsb (λ it, contains it v) rs.

Definition getFirst (rs : rangeset) : Z :=
  match rs with [] => absent | it :: _ => it.1 end.

Fixpoint getNext (rs : rangeset) (v : Z) : Z :=
  match rs with
  | [] => absent
  | it :: rs' =>
      if it.1 >? v then it.1
      else if contains it (u32 (v + 1)) then u32 (v + 1)
      else getNext rs' v
  end.

Definition getLast (rs : rangeset) : Z :=
  match rev rs with [] => absent | it :: _ => it.2 end.

(** The loop of [getPrev], over the nodes in reverse order. *)
Fixpoint getPrev_loop (rev_rs : rangeset) (v : Z) : Z :=
  match rev_rs with
  | [] => absent
  | it :: rs' =>
      if it.2 <? v then it.2
      else if contains it (u32 (v + 1)) then u32 (v - 1)
      else getPrev_loop rs' v
  end.

Definition getPrev (rs : rangeset) (v : Z) : Z := getPrev_loop (rev rs) v.

Fixpoint prevMissing_loop (rev_rs : rangeset) (result : Z) : Z :=
  match rev_rs with
  | [] => result
  | cur :: rs' =>
      if contains cur result then u32 (cur.1 - 1) else prevMissing_loop rs' result
  end.

Definition prevMissing (rs : rangeset) (v : Z) : Z :=
  if v =? 0 then absent else prevMissing_loop (rev rs) (u32 (v - 1)).

(** [simplify] from the node [it] on; [l] holds the nodes after it. *)
Fixpoint simplify_from (it : Z * Z) (l : rangeset) : rangeset :=
  match l with
  | [] => [it]
  | nit :: l' =>
      if it.2 >=? u32 (nit.1 - 1)
      then simplify_from (it.1, Z.max it.2 nit.2) l'
      else it :: simplify_from nit l'
  end.

Definition simplify (rs : rangeset) : rangeset :=
  match rs with [] => [] | it :: l => simplify_from it l end.

Definition setValue (v : Z) (rs : rangeset) : rangeset :=
  if hasValue rs v then rs else simplify (om_set v v rs).

(** Outcome of the scan of [setRange]: the loop was left at a missing value, the
    function returned from inside it, or the fuel ran out. *)
Inductive scan := Gap (minV : Z) | Returned | NoFuel.

Fixpoint setRange_scan (fuel : nat) (rs : rangeset) (minV maxV : Z) : scan :=
  match fuel with
  | O => NoFuel
  | S fuel' =>
      if hasValue rs minV then
        let minV := u32 (minV + 1) in
        if minV >=? maxV then Returned else setRange_scan fuel' rs minV maxV
      else Gap minV
  end.

Definition setRange_fuel (maxV : Z) : nat := S (S (Z.to_nat maxV)).

(** [None] only when the fuel runs out, which [setRange_total] excludes. *)
Definition setRange (minV maxV : Z) (rs : rangeset) : option rangeset :=
  match setRange_scan (setRange_fuel maxV) rs minV maxV with
  | NoFuel => None
  | Returned => Some rs
  | Gap minV => Some (simplify (om_set minV maxV rs))
  end.

Definition clearValue (v : Z) (rs : rangeset) : rangeset :=
  match List.find (λ it, contains it v) rs with
  | None => rs
  | Some it =>
      if it.1 =? v then
        if it.2 =? v then om_erase it.1 rs
        else om_set (u32 (v + 1)) it.2 (om_erase it.1 rs)
      else if it.2 =? v then om_set it.1 (u32 (it.2 - 1)) rs
      else om_set (u32 (v + 1)) it.2 (om_set it.1 (u32 (v - 1)) rs)
  end.

(** [boost::lexical_cast<std::string>] of one node. *)
Definition node_string (it : Z * Z) : string :=
  if it.1 =? it.2 then pretty it.1 else (pretty it.1 +:+ "-" +:+ pretty it.2)%string.

Definition toString (rs : rangeset) : string :=
  let ret := foldl (λ ret it,
    ((if String.eqb ret "" then ret else ret +:+ ",") +:+ node_string it)%string) "" rs in
  if String.eqb ret "" then "empty" else ret.

Definition lebesgue_sum (rs : rangeset) : Z :=
  foldl (λ sum e, u64 (sum + u32 (e.2 - e.1))) (Z.of_nat (length rs)) rs.

(** The assertions of [checkInternalConsistency], as a test. *)
Fixpoint consistent_from (cur : Z * Z) (l : rangeset) : bool :=
  match l with
  | [] => true
  | next :: l' =>
      (cur.1 <=? cur.2) && (next.1 <=? next.2) && (u32 (cur.2 + 1) <? next.1)
      && consistent_from next l'
  end.

Definition checkInternalConsistency (rs : rangeset) : bool :=
  match rs with
  | [] => true
  | [it] => it.1 <=? it.2
  | it :: l => consistent_from it l
  end.

(** ** Invariant and abstraction *)

Definition node_ok (it : Z * Z) : Prop := 0 <= it.1 ∧ it.1 <= it.2 ∧ it.2 < 4294967296.
Definition gap (r s : Z * Z) : Prop := r.2 + 1 < s.1.
Definition before (r s : Z * Z) : Prop := r.1 < s.1.

Definition rs_ok (rs : rangeset) : Prop := Forall node_ok rs ∧ StronglySorted gap rs.

(** What holds between [mRanges[k] = v] and the end of [simplify]. *)
Definition rs_pre (rs : rangeset) : Prop := Forall node_ok rs ∧ StronglySorted before rs.

Definition rs_mem (rs : rangeset) (x : Z) : Prop := ∃ it, it ∈ rs ∧ it.1 <= x <= it.2.

Lemma contains_spec it v : contains it v = true ↔ it.1 <= v <= it.2.
Proof. unfold contains. rewrite andb_true_iff, Z.leb_le, Z.geb_le. lia. Qed.

Lemma hasValue_spec rs v : hasValue rs v = true ↔ rs_mem rs v.
Proof.
  unfold hasValue, rs_mem. rewrite existsb_exists.
  setoid_rewrite contains_spec. by setoid_rewrite list_elem_of_In.
Qed.

Lemma hasValue_false rs v : hasValue rs v = false ↔ ¬ rs_mem rs v.
Proof. rewrite <- hasValue_spec. by destruct (hasValue rs v). Qed.

Lemma rs_mem_nil x : rs_mem [] x ↔ False.
Proof. unfold rs_mem. split; [|done]. intros (it & Hin & _). by apply not_elem_of_nil in Hin. Qed.

Lemma rs_mem_cons it rs x : rs_mem (it :: rs) x ↔ (it.1 <= x <= it.2) ∨ rs_mem rs x.
Proof. unfold rs_mem. setoid_rewrite elem_of_cons. naive_solver. Qed.

Lemma rs_mem_app l1 l2 x : rs_mem (l1 ++ l2) x ↔ rs_mem l1 x ∨ rs_mem l2 x.
Proof. unfold rs_mem. setoid_rewrite elem_of_app. naive_solver. Qed.

Lemma rs_mem_bounds rs x : Forall node_ok rs → rs_mem rs x → is_u32 x.
Proof.
  intros Hall (it & Hin & Hx). rewrite Forall_forall in Hall.
  apply Hall in Hin. unfold node_ok, is_u32 in *. lia.
Qed.

Lemma rs_ok_cons it rs :
  rs_ok (it :: rs) ↔ node_ok it ∧ Forall (gap it) rs ∧ rs_ok rs.
Proof.
  unfold rs_ok. rewrite Forall_cons. split.
  - intros [[? ?] Hs]. apply StronglySorted_inv in Hs as [? ?]. auto.
  - intros (? & ? & ? & ?). split; [done|]. by constructor.
Qed.

Lemma rs_pre_cons it rs :
  rs_pre (it :: rs) ↔ node_ok it ∧ Forall (before it) rs ∧ rs_pre rs.
Proof.
  unfold rs_pre. rewrite Forall_cons. split.
  - intros [[? ?] Hs]. apply StronglySorted_inv in Hs as [? ?]. auto.
  - intros (? & ? & ? & ?). split; [done|]. by constructor.
Qed.

Lemma rs_ok_pre rs : rs_ok rs → rs_pre rs.
Proof.
  induction rs as [|it rs IH]; [by intros _; split; constructor|].
  rewrite rs_ok_cons, rs_pre_cons. intros (Hn & Hg & Hr). split; [done|].
  split; [|auto]. eapply Forall_impl; [exact Hg|]. unfold gap, before, node_ok in *. intros; lia.
Qed.

(** Everything beyond the first node of a consistent set lies beyond a gap. *)
Lemma rs_mem_after it rs x : rs_ok (it :: rs) → rs_mem rs x → it.2 + 1 < x.
Proof.
  rewrite rs_ok_cons. intros (_ & Hg & _) (s & Hin & Hx).
  rewrite Forall_forall in Hg. apply Hg in Hin. unfold gap in Hin. lia.
Qed.

(** ** Searching *)

Lemma getNext_min rs v :
  rs_ok rs → is_u32 v → v < absent →
  (getNext rs v = absent ∧ ∀ x, rs_mem rs x → x <= v ∨ x = absent)
  ∨ (rs_mem rs (getNext rs v) ∧ v < getNext rs v
     ∧ ∀ x, rs_mem rs x → v < x → getNext rs v <= x).
Proof.
  unfold absent. intros Hok Hv Hlt.
  induction rs as [|it rs IH]; simpl.
  { left. split; [done|]. intros x. by rewrite rs_mem_nil. }
  pose proof (λ x, rs_mem_after it rs x Hok) as Hafter.
  apply rs_ok_cons in Hok as (Hn & _ & Hok). unfold node_ok in Hn.
  specialize (IH Hok). setoid_rewrite rs_mem_cons. rewrite u32_id by mint_range.
  destruct (it.1 >? v) eqn:E1; zbool; [|destruct (contains it (v + 1)) eqn:E2].
  - right. split_and!; [lia|lia|]. intros x [?|?%Hafter]; lia.
  - apply contains_spec in E2. right. split_and!; [lia|lia|]. intros; lia.
  - assert (it.2 <= v).
    { destruct (decide (it.2 <= v)); [done|].
      exfalso. apply not_true_iff_false in E2. apply E2, contains_spec. lia. }
    destruct IH as [(? & ?)|(? & ? & ?)]; [left|right]; split_and!; auto;
      intros x [?|?]; auto; lia.
Qed.

Lemma rs_ok_snoc rs it :
  rs_ok (rs ++ [it]) ↔ rs_ok rs ∧ node_ok it ∧ Forall (λ r, gap r it) rs.
Proof.
  unfold rs_ok. rewrite Forall_app, StronglySorted_app, Forall_singleton. split.
  - intros ([? ?] & Hc & ? & _). split_and!; try done. apply Forall_forall.
    intros x Hx. apply (Hc x it); [done|]. by apply list_elem_of_singleton.
  - intros ((? & ?) & ? & Hg). split_and!; try done.
    + intros x y Hx ->%list_elem_of_singleton. by rewrite Forall_forall in Hg; apply Hg.
    + repeat constructor.
Qed.

Lemma prevMissing_loop_spec rs r :
  rs_ok rs → 0 <= r < absent →
  let m := prevMissing_loop (rev rs) r in
  (m = absent ∧ ∀ x, 0 <= x <= r → rs_mem rs x)
  ∨ (0 <= m <= r ∧ ¬ rs_mem rs m ∧ ∀ x, m < x <= r → rs_mem rs x).
Proof.
  unfold absent. simpl. intros Hok Hr. induction rs as [|it rs IH] using rev_ind.
  { simpl. right. rewrite rs_mem_nil. split_and!; try lia; tauto. }
  apply rs_ok_snoc in Hok as (Hok & Hn & Hg). specialize (IH Hok).
  rewrite rev_app_distr. simpl. unfold node_ok in Hn.
  setoid_rewrite rs_mem_app. setoid_rewrite rs_mem_cons. setoid_rewrite rs_mem_nil.
  assert (Hlow : ∀ x, rs_mem rs x → x + 1 < it.1).
  { intros x (s & Hin & Hs). rewrite Forall_forall in Hg. apply Hg in Hin.
    unfold gap in Hin. lia. }
  destruct (contains it r) eqn:E.
  - apply contains_spec in E. destruct (decide (it.1 = 0)) as [H0|H0].
    + left. rewrite H0. split; [done|]. intros; lia.
    + right. rewrite u32_id by mint_range. split_and!; [lia|lia| |intros; lia].
      intros [?%Hlow|[?|?]]; [lia|lia|done].
  - assert (¬ it.1 <= r <= it.2) by (rewrite <- contains_spec; by rewrite E).
    destruct IH as [(? & ?)|(? & ? & Hin)]; [left|right]; split_and!; auto; try lia.
    set (m := prevMissing_loop (rev rs) r) in *.
    intros [?|[?|?]]; [done| |done].
    assert (m < r) by lia. specialize (Hin r ltac:(lia)). apply Hlow in Hin. lia.
Qed.

(** ** simplify *)

Lemma simplify_from_head it l : ∃ b l', simplify_from it l = (it.1, b) :: l' ∧ it.2 <= b.
Proof.
  revert it. induction l as [|nit l IH]; intros it; simpl.
  { destruct it; naive_solver lia. }
  case_if; [|destruct it; naive_solver lia].
  destruct (IH (it.1, Z.max it.2 nit.2)) as (b & l' & -> & ?). simpl in *.
  eexists _, _. split; [done|]. lia.
Qed.

Lemma simplify_from_mem it l x :
  rs_pre (it :: l) → rs_mem (simplify_from it l) x ↔ rs_mem (it :: l) x.
Proof.
  revert it. induction l as [|nit l IH]; intros it Hpre; simpl; [done|].
  apply rs_pre_cons in Hpre as (Hn & Hb & Hpre).
  pose proof Hpre as (Hn' & Hb' & _)%rs_pre_cons.
  apply Forall_cons in Hb as [Hlt Hb]. unfold node_ok, before in *.
  rewrite u32_id by mint_range.
  case_if; zbool.
  - rewrite IH, !rs_mem_cons; simpl; [|].
    + destruct (Z.max_spec it.2 nit.2); lia || idtac.
      all: split; [intros [?|?]; [|tauto]|intros [?|[?|?]]; [left; lia|left; lia|tauto]].
      all: destruct (decide (x <= it.2)); [left; lia|right; left; lia].
    + apply rs_pre_cons. apply rs_pre_cons in Hpre as (? & ? & ?).
      split_and!; [unfold node_ok; simpl; lia| |done].
      eapply Forall_impl; [exact Hb'|]. unfold before; simpl; intros; lia.
  - rewrite rs_mem_cons, IH by done. by rewrite <- rs_mem_cons.
Qed.

Lemma simplify_from_ok it l : rs_pre (it :: l) → rs_ok (simplify_from it l).
Proof.
  revert it. induction l as [|nit l IH]; intros it Hpre; simpl.
  { apply rs_pre_cons in Hpre as (Hn & _ & _). apply rs_ok_cons.
    split_and!; [done|constructor|]. split; constructor. }
  apply rs_pre_cons in Hpre as (Hn & Hb & Hpre).
  pose proof Hpre as (Hn' & Hb' & Hp')%rs_pre_cons.
  apply Forall_cons in Hb as [Hlt Hb]. unfold node_ok, before in *.
  rewrite u32_id by mint_range.
  case_if; zbool.
  - apply IH, rs_pre_cons. split_and!; [unfold node_ok; simpl; lia| |done].
    eapply Forall_impl; [exact Hb'|]. unfold before; simpl; intros; lia.
  - pose proof (IH nit Hpre) as Hok. apply rs_ok_cons. split_and!; [done| |done].
    destruct (simplify_from_head nit l) as (b & l' & Heq & ?). rewrite Heq in Hok |- *.
    apply rs_ok_cons in Hok as (_ & Hg & _). constructor; [unfold gap; simpl; lia|].
    eapply Forall_impl; [exact Hg|]. unfold gap; simpl; intros; lia.
Qed.

Lemma simplify_spec rs :
  rs_pre rs → rs_ok (simplify rs) ∧ ∀ x, rs_mem (simplify rs) x ↔ rs_mem rs x.
Proof.
  destruct rs as [|it l]; simpl; intros Hpre.
  - split; [split; constructor|done].
  - split; [by apply simplify_from_ok|]. intros; by apply simplify_from_mem.
Qed.

(** ** Updates *)

Lemma rs_pre_sorted rs : rs_pre rs → om_sorted rs.
Proof.
  induction rs as [|[a b] rs IH]; [constructor|].
  rewrite rs_pre_cons, om_sorted_cons. intros (_ & ? & ?). auto.
Qed.

Lemma not_mem_find rs a : Forall node_ok rs → ¬ rs_mem rs a → om_find a rs = None.
Proof.
  intros Hall Hm. induction rs as [|[k b] rs IH]; simpl; [done|].
  apply Forall_cons in Hall as [Hn Hall]. rewrite rs_mem_cons in Hm.
  unfold node_ok in Hn; simpl in *. case_if; zbool; [lia|]. tauto.
Qed.

(** Inserting a node whose first value is missing, then simplifying. *)
Lemma insert_simplify a b rs :
  rs_ok rs → node_ok (a, b) → ¬ rs_mem rs a →
  rs_ok (simplify (om_set a b rs))
  ∧ ∀ x, rs_mem (simplify (om_set a b rs)) x ↔ a <= x <= b ∨ rs_mem rs x.
Proof.
  intros Hok Hn Hm. pose proof (rs_ok_pre _ Hok) as Hpre.
  destruct (om_split a rs) as (l1 & l2 & -> & H1 & H2).
  { by apply rs_pre_sorted. } { apply not_mem_find; [apply Hok|done]. }
  rewrite om_set_app_insert by done.
  assert (rs_pre (l1 ++ (a, b) :: l2)) as Hpre'.
  { destruct Hpre as [Hall Hs]. apply Forall_app in Hall as [? ?].
    apply StronglySorted_app in Hs as (Hc & ? & ?). split.
    - apply Forall_app. split; [done|]. by constructor.
    - apply StronglySorted_app. split_and!; [|done|].
      + intros x y Hx [->|Hy]%elem_of_cons; [|by apply Hc].
        rewrite Forall_forall in H1. by apply H1.
      + constructor; [done|]. exact H2. }
  destruct (simplify_spec _ Hpre') as [? Hmem]. split; [done|].
  intros x. rewrite Hmem, !rs_mem_app, rs_mem_cons. simpl. tauto.
Qed.

Lemma setRange_scan_total fuel rs minV maxV :
  minV < maxV → is_u32 maxV → 0 <= minV →
  (Z.to_nat (maxV - minV) < fuel)%nat →
  setRange_scan fuel rs minV maxV ≠ NoFuel.
Proof.
  revert minV. induction fuel as [|fuel IH]; intros minV ? ? ? ?; [lia|]. simpl.
  case_if; [|done]. rewrite u32_id by mint_range. case_if; zbool; [done|].
  apply IH; [lia|done|lia|lia].
Qed.

(** Where the scan of [setRange] stops. *)
Lemma setRange_scan_spec fuel rs minV maxV :
  0 <= minV → is_u32 maxV → maxV < absent → minV <= maxV →
  match setRange_scan fuel rs minV maxV with
  | NoFuel => True
  | Returned => ∀ x, minV <= x < maxV → rs_mem rs x
  | Gap g => minV <= g <= maxV ∧ ¬ rs_mem rs g ∧ ∀ x, minV <= x < g → rs_mem rs x
  end.
Proof.
  unfold absent. revert minV. induction fuel as [|fuel IH]; intros minV ? ? ? ?; simpl; [done|].
  destruct (hasValue rs minV) eqn:E.
  - apply hasValue_spec in E. rewrite u32_id by mint_range. case_if; zbool.
    + intros x ?. replace x with minV by lia. done.
    + specialize (IH (minV + 1)). destruct (setRange_scan fuel rs (minV + 1) maxV); [..|done].
      * destruct IH as (? & ? & Hx); [lia|done|lia|lia|]. split_and!; [lia|lia|done|].
        intros x ?. destruct (decide (x = minV)) as [->|]; [done|]. apply Hx; lia.
      * intros x ?. destruct (decide (x = minV)) as [->|]; [done|].
        apply IH; [lia|done|lia|lia|lia].
  - apply hasValue_false in E. split_and!; [lia|lia|done|lia].
Qed.

Lemma setRange_total_aux minV maxV rs :
  is_u32 minV → is_u32 maxV → setRange minV maxV rs ≠ None.
Proof.
  intros Hm HM. unfold setRange, setRange_fuel.
  assert (setRange_scan (S (S (Z.to_nat maxV))) rs minV maxV ≠ NoFuel) as Hf.
  { remember (S (Z.to_nat maxV)) as n. simpl. case_if; [|done]. case_if; [done|]. zbool.
    pose proof (u32_range (minV + 1)). subst n.
    apply setRange_scan_total; [lia|done|mint_range|mint_range]. }
  by destruct (setRange_scan _ _ _ _).
Qed.

(** The nodes around the one that contains [v]. *)
Lemma find_split_node rs v it :
  rs_ok rs → List.find (λ it, contains it v) rs = Some it →
  it.1 <= v <= it.2 ∧ node_ok it ∧
  ∃ l1 l2, rs = l1 ++ it :: l2 ∧ Forall (λ r, r.2 + 1 < it.1) l1
    ∧ Forall (λ r, it.2 + 1 < r.1) l2 ∧ Forall (λ r, r.1 < it.1) l1.
Proof.
  intros [Hall Hs] [Hin Hc]%find_some. apply list_elem_of_In in Hin.
  apply contains_spec in Hc. split; [done|].
  split. { rewrite Forall_forall in Hall. by apply Hall. }
  apply list_elem_of_split in Hin as (l1 & l2 & ->). exists l1, l2.
  apply StronglySorted_app in Hs as (Hx & _ & Hs).
  apply StronglySorted_inv in Hs as [_ Hg].
  apply Forall_app in Hall as [Hall _].
  assert (Forall (λ r, r.2 + 1 < it.1) l1) as Hl1.
  { apply Forall_forall. intros r Hr. apply (Hx r it); [done|]. apply elem_of_cons; auto. }
  split_and!; try done. apply Forall_forall. intros r Hr. rewrite Forall_forall in Hall, Hl1.
  specialize (Hall _ Hr). specialize (Hl1 _ Hr). unfold node_ok in Hall. simpl in *. lia.
Qed.

(** Replacing one node by consistent pieces of itself. *)
Lemma replace_node l1 it l2 mid :
  rs_ok (l1 ++ it :: l2) → rs_ok mid → Forall (λ r, it.1 <= r.1 ∧ r.2 <= it.2) mid →
  rs_ok (l1 ++ mid ++ l2).
Proof.
  intros [Hall Hs] [Hm Hms] Hsub.
  apply Forall_app in Hall as [? [? ?]%Forall_cons].
  apply StronglySorted_app in Hs as (Hx & ? & Hs).
  apply StronglySorted_inv in Hs as [? Hg]. split.
  { rewrite !Forall_app. auto. }
  rewrite Forall_forall in Hsub, Hg. unfold gap in *.
  apply StronglySorted_app; split_and!; [|done|apply StronglySorted_app; split_and!; try done].
  - intros x y Hin [Hy|Hy]%elem_of_app.
    + apply Hsub in Hy. specialize (Hx x it Hin). rewrite elem_of_cons in Hx. naive_solver lia.
    + apply Hx; [done|]. rewrite elem_of_cons. auto.
  - intros x y Hin Hy. apply Hsub in Hin. apply Hg in Hy. lia.
Qed.

(** What [clearValue] leaves of the node that contains [v]. *)
Definition cut (it : Z * Z) (v : Z) : rangeset :=
  (if it.1 =? v then [] else [(it.1, v - 1)]) ++ (if it.2 =? v then [] else [(v + 1, it.2)]).

Lemma cut_ok it v : node_ok it → it.1 <= v <= it.2 → rs_ok (cut it v).
Proof.
  unfold cut, node_ok. intros ? ?.
  repeat case_if; zbool; simpl; rewrite ?rs_ok_cons; unfold node_ok, gap; simpl;
    split_and!; repeat constructor; simpl; try lia.
Qed.

Lemma cut_mem it v x :
  it.1 <= v <= it.2 → rs_mem (cut it v) x ↔ it.1 <= x <= it.2 ∧ x ≠ v.
Proof.
  unfold cut. intros ?. rewrite rs_mem_app.
  repeat case_if; zbool; rewrite ?rs_mem_cons, ?rs_mem_nil; simpl; lia.
Qed.

Lemma clearValue_cut v rs it l1 l2 :
  node_ok it → it.1 <= v <= it.2 → rs = l1 ++ it :: l2 →
  List.find (λ it, contains it v) rs = Some it →
  Forall (λ r, r.1 < it.1) l1 → Forall (λ r, it.2 + 1 < r.1) l2 →
  clearValue v rs = l1 ++ cut it v ++ l2.
Proof.
  intros Hn Hv -> Hf H1 H2. unfold clearValue, cut. rewrite Hf.
  destruct it as [a b]. unfold node_ok in Hn. simpl in *.
  assert (Forall (λ r : Z * Z, r.1 < v + 1) l1) by (eapply Forall_impl; [exact H1|simpl; lia]).
  assert (Forall (λ r : Z * Z, v + 1 < r.1) l2) by (eapply Forall_impl; [exact H2|simpl; lia]).
  repeat case_if; zbool; subst; simpl; mint.
  - by apply om_erase_app.
  - rewrite om_erase_app by done. by apply om_set_app_insert.
  - by apply om_set_app_replace.
  - rewrite om_set_app_replace by done.
    rewrite (app_assoc l1 [(a, v - 1)] l2 : l1 ++ (a, v - 1) :: l2 = _).
    rewrite om_set_app_insert; [by rewrite <- app_assoc| |done].
    apply Forall_app. split; [done|]. repeat constructor. simpl. lia.
Qed.

Lemma clearValue_both v rs :
  rs_ok rs → rs_ok (clearValue v rs) ∧ ∀ x, rs_mem (clearValue v rs) x ↔ rs_mem rs x ∧ x ≠ v.
Proof.
  intros Hok. destruct (List.find (λ it, contains it v) rs) as [it|] eqn:Hf.
  - destruct (find_split_node _ _ _ Hok Hf) as (Hv & Hn & l1 & l2 & -> & Hl1 & Hl2 & Hk).
    rewrite (clearValue_cut v _ it l1 l2); try done. split.
    + eapply replace_node; [exact Hok|by apply cut_ok|].
      unfold cut. repeat case_if; zbool; repeat constructor; simpl; lia.
    + intros x. rewrite !rs_mem_app, rs_mem_cons, cut_mem by done.
      enough (rs_mem l1 v ∨ rs_mem l2 v → False) as Hno.
      { split; [|tauto]. intros [?|[?|?]]; split; try tauto; naive_solver. }
      intros [(r & Hin & ?)|(r & Hin & ?)].
      * rewrite Forall_forall in Hl1. apply Hl1 in Hin. lia.
      * rewrite Forall_forall in Hl2. apply Hl2 in Hin. lia.
  - unfold clearValue. rewrite Hf. split; [done|]. intros x. split; [|tauto].
    intros Hx. split; [done|]. intros ->. destruct Hx as (it & Hin & ?).
    eapply find_none in Hf; [|by apply list_elem_of_In].
    apply not_true_iff_false in Hf. apply Hf. by apply contains_spec.
Qed.

(** ** Counting: the values of a set, in increasing order *)

Definition values (rs : rangeset) : list Z :=
  rs ≫= λ it, seqZ it.1 (it.2 - it.1 + 1).

Lemma values_mem rs x : x ∈ values rs ↔ rs_mem rs x.
Proof.
  unfold values, rs_mem. rewrite list_elem_of_bind.
  split; intros (it & H1 & H2); exists it; rewrite ?elem_of_seqZ in *; split; auto; lia.
Qed.

Lemma values_nodup rs : rs_ok rs → NoDup (values rs).
Proof.
  induction rs as [|it rs IH]; [constructor|]. intros Hok.
  pose proof (λ x, rs_mem_after _ _ x Hok) as Hafter.
  apply rs_ok_cons in Hok as (? & ? & ?). unfold values; simpl. fold (values rs).
  apply NoDup_app. split_and!; [apply NoDup_seqZ| |auto].
  intros x Hx%elem_of_seqZ Hin%values_mem%Hafter. lia.
Qed.

Definition width_sum (rs : rangeset) : Z := foldr (λ e s, (e.2 - e.1) + s) 0 rs.

Lemma values_length rs :
  Forall node_ok rs → Z.of_nat (length (values rs)) = Z.of_nat (length rs) + width_sum rs.
Proof.
  induction rs as [|it rs IH]; [done|]. rewrite Forall_cons. intros [Hn Hall].
  unfold values in *; simpl. fold (width_sum rs). rewrite length_app, length_seqZ.
  unfold node_ok in Hn. specialize (IH Hall). unfold mbind in IH. lia.
Qed.

Lemma width_sum_bound rs lo :
  rs_ok rs → 0 <= lo <= 4294967296 → Forall (λ it, lo <= it.1) rs →
  0 <= width_sum rs ∧ Z.of_nat (length rs) + width_sum rs <= 4294967296 - lo.
Proof.
  revert lo. induction rs as [|it rs IH]; intros lo Hok Hlo Hall; simpl; [lia|].
  apply rs_ok_cons in Hok as (Hn & Hg & Hok). apply Forall_cons in Hall as [? Hall].
  unfold node_ok in Hn. fold (width_sum rs).
  destruct (IH (it.2 + 1) Hok); [lia| |lia].
  eapply Forall_impl; [exact Hg|]. unfold gap. intros; lia.
Qed.

Lemma lebesgue_foldl rs acc :
  Forall node_ok rs → 0 <= acc → acc + width_sum rs < 18446744073709551616 →
  foldl (λ sum e, u64 (sum + u32 (e.2 - e.1))) acc rs = acc + width_sum rs.
Proof.
  revert acc. induction rs as [|it rs IH]; intros acc Hall ? Hlt; simpl; [lia|].
  apply Forall_cons in Hall as [Hn Hall]. unfold node_ok in Hn. simpl in Hlt.
  fold (width_sum rs) in *.
  assert (0 <= width_sum rs).
  { clear -Hall. induction Hall as [|e l He _ IH]; simpl; [lia|]. fold (width_sum l).
    unfold node_ok in He. lia. }
  mint. rewrite IH; [lia|done|lia|lia].
Qed.

(** ** The assertions of the debug build *)

Lemma consistent_from_ok it l :
  rs_ok (it :: l) → consistent_from it l = true.
Proof.
  revert it. induction l as [|nit l IH]; intros it; [done|].
  rewrite rs_ok_cons. intros (Hn & Hg & Hok). simpl. rewrite IH by done.
  apply rs_ok_cons in Hok as (Hn' & _). apply Forall_cons in Hg as [Hg _].
  unfold node_ok, gap in *. rewrite u32_id by mint_range.
  apply andb_true_iff; split; [|done].
  rewrite !andb_true_iff, !Z.leb_le, Z.ltb_lt. lia.
Qed.

Lemma rs_ok_consistent rs : rs_ok rs → checkInternalConsistency rs = true.
Proof.
  destruct rs as [|it [|nit l]]; [done| |apply consistent_from_ok].
  rewrite rs_ok_cons. unfold node_ok. intros [? _]. simpl. apply Z.leb_le. lia.
Qed.

(** ** Theorems *)

(** [setValue] preserves the invariant that [checkInternalConsistency] asserts and
    adds exactly the given value to the set; [clearValue] preserves it and removes
    exactly the given value. *)
Theorem setValue_clearValue_refine (rs : rangeset) (v : Z) :
  rs_ok rs → is_u32 v →
  (rs_ok (setValue v rs) ∧ checkInternalConsistency (setValue v rs) = true
   ∧ ∀ x, hasValue (setValue v rs) x = (x =? v) || hasValue rs x)
  ∧ (rs_ok (clearValue v rs) ∧ checkInternalConsistency (clearValue v rs) = true
   ∧ ∀ x, hasValue (clearValue v rs) x = hasValue rs x && negb (x =? v)).
Proof.
  intros Hok Hv. split.
  - assert (rs_ok (setValue v rs) ∧ ∀ x, rs_mem (setValue v rs) x ↔ x = v ∨ rs_mem rs x) as [H1 H2].
    { unfold setValue. destruct (hasValue rs v) eqn:E.
      - apply hasValue_spec in E. split; [done|]. naive_solver.
      - apply hasValue_false in E. destruct (insert_simplify v v rs Hok) as [? Hm]; [|done|].
        + unfold node_ok, is_u32 in *; simpl; lia.
        + split; [done|]. intros x. rewrite Hm. naive_solver lia. }
    split_and!; [done|by apply rs_ok_consistent|]. intros x. apply eq_true_iff_eq.
    by rewrite orb_true_iff, !hasValue_spec, H2, Z.eqb_eq.
  - destruct (clearValue_both v rs Hok) as [H1 H2].
    split_and!; [done|by apply rs_ok_consistent|]. intros x. apply eq_true_iff_eq.
    by rewrite andb_true_iff, !hasValue_spec, H2, negb_true_iff, Z.eqb_neq.
Qed.

Lemma setValue_clearValue_witness :
  hasValue (clearValue 7 (setValue 8 [(5, 7); (9, 9)])) 6 = true ∧
  rs_ok (clearValue 7 [(5, 7); (9, 9)]).
Proof.
  assert (rs_ok [(5, 7); (9, 9)]) as Hok by
    (split; repeat constructor; unfold gap; simpl; lia).
  split; [reflexivity|].
  apply (setValue_clearValue_refine [(5, 7); (9, 9)] 7 Hok). unfold is_u32; lia.
Defined.

(** [setRange] always returns, preserves the invariant, never removes a value and
    adds only values of the closed interval; and it adds the whole closed interval
    unless all of it but its last value was already present (or the interval is one
    value that is present, when there is nothing to add). *)
Theorem setRange_refine (rs : rangeset) (minV maxV : Z) :
  rs_ok rs → is_u32 minV → minV <= maxV → maxV < absent →
  ∃ rs', setRange minV maxV rs = Some rs' ∧ rs_ok rs'
    ∧ (∀ x, rs_mem rs x → rs_mem rs' x)
    ∧ (∀ x, rs_mem rs' x → rs_mem rs x ∨ minV <= x <= maxV)
    ∧ ((minV = maxV ∨ ∃ y, minV <= y < maxV ∧ ¬ rs_mem rs y) →
       ∀ x, minV <= x <= maxV → rs_mem rs' x).
Proof.
  unfold absent. intros Hok Hm Hle Hlt.
  assert (is_u32 maxV) as HM by mint_range.
  pose proof (setRange_total_aux minV maxV rs Hm HM) as Htot.
  pose proof (setRange_scan_spec (setRange_fuel maxV) rs minV maxV ltac:(mint_range) HM Hlt Hle) as Hs.
  unfold setRange in *. destruct (setRange_scan _ _ _ _) as [g| |] eqn:E; [..|done].
  - destruct Hs as (Hg & Hng & Hbelow).
    destruct (insert_simplify g maxV rs Hok) as [Hok' Hmem]; [|done|].
    { unfold node_ok; simpl; mint_range. }
    eexists. split_and!; [done|done| | |].
    + intros x. rewrite Hmem. auto.
    + intros x. rewrite Hmem. intros [?|?]; [right; lia|auto].
    + intros _ x ?. rewrite Hmem. destruct (decide (g <= x)); [left; lia|right; apply Hbelow; lia].
  - eexists. split_and!; [done|done|auto|auto|].
    intros [->|(y & ? & Hy)] x ?; [|by destruct Hy; apply Hs].
    replace x with maxV by lia.
    unfold setRange_fuel in E. simpl in E. destruct (hasValue rs maxV) eqn:Ev; [|done].
    by apply hasValue_spec.
Qed.

Lemma setRange_refine_witness :
  ∃ rs', setRange 4 9 [(5, 6)] = Some rs' ∧ rs_mem rs' 7.
Proof.
  destruct (setRange_refine [(5, 6)] 4 9) as (rs' & H1 & _ & _ & _ & H2).
  - split; repeat constructor; simpl; lia.
  - unfold is_u32; lia.
  - lia.
  - unfold absent; lia.
  - exists rs'. split; [exact H1|]. apply H2; [|lia]. right. exists 4. split; [lia|].
    apply hasValue_false. reflexivity.
Defined.

(** [setRange] loses the last value of an interval whose other values are all
    present: on the set {5}, [setRange(5, 6)] returns without adding 6. *)
Theorem setRange_drops_last :
  setRange 5 6 [(5, 5)] = Some [(5, 5)] ∧ hasValue [(5, 5)] 6 = false.
Proof. split; reflexivity. Qed.

(** [getNext] returns the least member above its argument, or [absent] when there
    is none; [prevMissing] returns the greatest non-member below its argument, or
    [absent] when every smaller value is a member. *)
Theorem getNext_prevMissing_spec (rs : rangeset) (v : Z) :
  rs_ok rs → is_u32 v → v < absent →
  ((getNext rs v = absent ∧ ∀ x, rs_mem rs x → x <= v ∨ x = absent)
   ∨ (rs_mem rs (getNext rs v) ∧ v < getNext rs v
      ∧ ∀ x, rs_mem rs x → v < x → getNext rs v <= x))
  ∧ ((prevMissing rs v = absent ∧ ∀ x, 0 <= x < v → rs_mem rs x)
   ∨ (0 <= prevMissing rs v < v ∧ ¬ rs_mem rs (prevMissing rs v)
      ∧ ∀ x, prevMissing rs v < x < v → rs_mem rs x)).
Proof.
  intros Hok Hv Hlt. split; [by apply getNext_min|].
  unfold prevMissing, absent in *. destruct (v =? 0) eqn:E; zbool.
  { left. split; [done|]. lia. }
  rewrite u32_id by mint_range.
  destruct (prevMissing_loop_spec rs (v - 1) Hok) as [[-> ?]|(? & ? & ?)].
  { unfold absent; mint_range. }
  - left. split; [done|]. intros x ?. apply H. lia.
  - right. split_and!; [lia|lia|done|]. intros x ?. apply H1. lia.
Qed.

Lemma getNext_prevMissing_witness :
  getNext [(5, 7); (9, 9)] 7 = 9 ∧ prevMissing [(5, 7); (9, 9)] 8 = 4 ∧
  ¬ rs_mem [(5, 7); (9, 9)] (prevMissing [(5, 7); (9, 9)] 8).
Proof.
  split; [reflexivity|]. split; [reflexivity|].
  destruct (getNext_prevMissing_spec [(5, 7); (9, 9)] 8) as [_ [[H _]|(_ & H & _)]].
  - split; repeat constructor; unfold gap; simpl; lia.
  - unfold is_u32; lia.
  - unfold absent; lia.
  - discriminate H.
  - exact H.
Defined.

(** [getPrev] misses predecessors inside a range: it tests [v + 1] where the
    predecessor is [v - 1], so the member 9 below 10 in {5..10} is not found, and a
    value below the whole set can be reported as a predecessor that is no member. *)
Theorem getPrev_misses_predecessor :
  getPrev [(5, 10)] 10 = absent ∧ hasValue [(5, 10)] 9 = true
  ∧ getPrev [(5, 10)] 5 = 4 ∧ hasValue [(5, 10)] 4 = false.
Proof. repeat split; reflexivity. Qed.

(** [lebesgue_sum] is the number of members of the set. *)
Theorem lebesgue_sum_counts (rs : rangeset) :
  rs_ok rs →
  lebesgue_sum rs = Z.of_nat (length (values rs)) ∧ NoDup (values rs)
  ∧ ∀ x, x ∈ values rs ↔ hasValue rs x = true.
Proof.
  intros Hok. destruct (width_sum_bound rs 0 Hok) as [? ?]; [lia| |].
  { eapply Forall_impl; [apply Hok|]. unfold node_ok. simpl; lia. }
  split_and!.
  - unfold lebesgue_sum. rewrite lebesgue_foldl; [|apply Hok|lia|lia].
    rewrite values_length; [done|apply Hok].
  - by apply values_nodup.
  - intros x. by rewrite values_mem, hasValue_spec.
Qed.

Lemma lebesgue_sum_witness : lebesgue_sum [(5, 7); (9, 9)] = 4 ∧ NoDup (values [(5, 7); (9, 9)]).
Proof.
  split; [reflexivity|]. apply lebesgue_sum_counts.
  split; repeat constructor; unfold gap; simpl; lia.
Defined.

End RangeSet.
