(* ===== verification/Bytes.v ===== *)
(** * Big-endian byte strings

    [be_bytes n x] is the [n]-byte big-endian encoding of [x] and [be_val] its
    inverse; the shift-and-mask expressions of the serialization code reduce to
    these two functions by the lemmas of this file. *)

From S2P Require Import Prelude.

Notation byte_list l := (Forall is_u8 l).

Fixpoint be_bytes (n : nat) (x : Z) : list Z :=
  match n with
  | O => []
  | S n' => be_bytes n' (x / 256) ++ [x mod 256]
  end.

Definition be_val (l : list Z) : Z := foldl (λ acc b, acc * 256 + b) 0 l.

Lemma be_bytes_length n x : length (be_bytes n x) = n.
Proof. revert x. induction n as [|n IH]; intros x; simpl; [done|]. rewrite length_app, IH. simpl; lia. Qed.

Lemma be_bytes_byte_list n x : byte_list (be_bytes n x).
Proof.
  revert x. induction n as [|n IH]; intros x; simpl; [constructor|].
  apply Forall_app. split; [done|]. repeat constructor; apply u8_range.
Qed.

Lemma be_val_snoc l b : be_val (l ++ [b]) = be_val l * 256 + b.
Proof. unfold be_val. by rewrite foldl_app. Qed.

Lemma be_val_app l1 l2 : be_val (l1 ++ l2) = be_val l1 * 256 ^ Z.of_nat (length l2) + be_val l2.
Proof.
  induction l2 as [|b l2 IH] using rev_ind.
  - rewrite app_nil_r. simpl. unfold be_val at 3. simpl. lia.
  - rewrite app_assoc, !be_val_snoc, IH, length_app.
    rewrite Nat2Z.inj_add, Z.pow_add_r by lia. change (256 ^ Z.of_nat (length [b])) with 256. ring.
Qed.

Lemma be_val_bytes n x : be_val (be_bytes n x) = x mod 256 ^ Z.of_nat n.
Proof.
  revert x. induction n as [|n IH]; intros x; cbn [be_bytes]; [by rewrite Z.mod_1_r|].
  rewrite be_val_snoc, IH, Nat2Z.inj_succ, Z.pow_succ_r by lia.
  rewrite (Z.rem_mul_r x 256 (256 ^ Z.of_nat n)) by lia. ring.
Qed.

Lemma be_val_bytes_id n x : 0 <= x < 256 ^ Z.of_nat n → be_val (be_bytes n x) = x.
Proof. intros. rewrite be_val_bytes. by apply Z.mod_small. Qed.

Lemma be_val_bound l : byte_list l → 0 <= be_val l < 256 ^ Z.of_nat (length l).
Proof.
  induction l as [|b l IH] using rev_ind; intros Hl; [done|].
  apply Forall_app in Hl as [Hl Hb]. rewrite Forall_singleton in Hb. specialize (IH Hl).
  rewrite be_val_snoc, length_app, Nat2Z.inj_add, Z.pow_add_r by lia.
  change (256 ^ Z.of_nat (length [b])) with 256. unfold is_u8 in Hb. lia.
Qed.

Lemma be_bytes_val l : byte_list l → be_bytes (length l) (be_val l) = l.
Proof.
  induction l as [|b l IH] using rev_ind; intros Hl; [done|].
  apply Forall_app in Hl as [Hl Hb]. rewrite Forall_singleton in Hb.
  rewrite be_val_snoc, length_app, Nat.add_comm. simpl. unfold is_u8 in Hb.
  rewrite Z.div_add_l, Z.div_small by lia. rewrite Z.add_0_r, IH by done.
  rewrite Z.add_comm, Z.mod_add, Z.mod_small by lia. done.
Qed.

Lemma be_val_inj l1 l2 :
  byte_list l1 → byte_list l2 → length l1 = length l2 → be_val l1 = be_val l2 → l1 = l2.
Proof.
  intros H1 H2 Hl Hv. rewrite <- (be_bytes_val l1), <- (be_bytes_val l2) by done. by rewrite Hl, Hv.
Qed.

(** ** Shifts and masks *)

Lemma land_ff x : Z.land x 255 = x mod 256.
Proof. change 255 with (Z.ones 8). by rewrite Z.land_ones. Qed.

(** [x | (y << k)] when [x] fits in [k] bits. *)
Lemma lor_disjoint x y k : 0 <= k → 0 <= x < 2 ^ k → Z.lor x (Z.shiftl y k) = x + y * 2 ^ k.
Proof.
  intros Hk Hx. assert (Z.land x (Z.shiftl y k) = 0) as Hz.
  { apply Z.bits_inj'. intros n Hn. rewrite Z.land_spec, Z.bits_0.
    destruct (decide (n < k)); [rewrite Z.shiftl_spec_low by lia; apply andb_false_r|].
    destruct (decide (x = 0)) as [->|]; [by rewrite Z.bits_0|].
    rewrite (Z.bits_above_log2 x n); [done|lia|].
    apply Z.log2_lt_pow2; [lia|]. apply Z.lt_le_trans with (2 ^ k); [lia|].
    apply Z.pow_le_mono_r; lia. }
  by rewrite <- Z.lxor_lor, <- Z.add_nocarry_lxor, Z.shiftl_mul_pow2.
Qed.

Lemma lor_shift_byte a b : is_u8 b → Z.lor (Z.shiftl a 8) b = a * 256 + b.
Proof. intros. rewrite Z.lor_comm, lor_disjoint by (done || unfold is_u8 in *; lia). change (2 ^ 8) with 256. lia. Qed.

(** Reading one byte of a buffer; an index outside it is undefined behaviour in the
    code, and every theorem keeps its reads inside. *)
Definition byte_at (d : list Z) (i : Z) : Z := nth (Z.to_nat i) d 0.

Definition sub_bytes (d : list Z) (off len : Z) : list Z :=
  take (Z.to_nat len) (drop (Z.to_nat off) d).

Lemma byte_at_app_r d1 d2 i :
  Z.of_nat (length d1) <= i → byte_at (d1 ++ d2) i = byte_at d2 (i - Z.of_nat (length d1)).
Proof. unfold byte_at. intros. rewrite app_nth2 by lia. f_equal. lia. Qed.

Lemma byte_at_app_l d1 d2 i :
  0 <= i < Z.of_nat (length d1) → byte_at (d1 ++ d2) i = byte_at d1 i.
Proof. unfold byte_at. intros. by rewrite app_nth1 by lia. Qed.

Lemma sub_bytes_app d1 d2 d3 :
  sub_bytes (d1 ++ d2 ++ d3) (Z.of_nat (length d1)) (Z.of_nat (length d2)) = d2.
Proof. unfold sub_bytes. by rewrite !Nat2Z.id, drop_app_length, take_app_length. Qed.
