(* ===== verification/Serializer.v ===== *)
(** * Serializer and SerialIter: the canonical binary format

    Model of [src/src/protocol/Serializer.h] and [impl/Serializer.cpp].  A
    [Serializer] is its byte vector [mData]; every [add*] operation returns the
    offset at which it appended together with the new vector, every [get*]
    operation returns [None] where the code returns [false].  A [SerialIter] is a
    cursor whose [get*] operations throw.  The theorems are the round trips of the
    format: integers, field identifiers and variable-length blobs, through both
    readers. *)

From S2P Require Import Prelude Bytes.

Notation blob := (list Z).

Definition sizeZ (d : blob) : Z := Z.of_nat (length d).

(** ** Assembly *)

Definition addZeros (uBytes : nat) (d : blob) : Z * blob :=
  (s32 (sizeZ d), d ++ replicate uBytes 0).

Definition add8 (byte : Z) (d : blob) : Z * blob := (s32 (sizeZ d), d ++ [byte]).

Definition add16 (i : Z) (d : blob) : Z * blob :=
  (s32 (sizeZ d), d ++ [u8 (Z.shiftr i 8); u8 (Z.land i 255)]).

Definition add32 (i : Z) (d : blob) : Z * blob :=
  (s32 (sizeZ d),
   d ++ [u8 (Z.shiftr i 24); u8 (Z.land (Z.shiftr i 16) 255);
         u8 (Z.land (Z.shiftr i 8) 255); u8 (Z.land i 255)]).

Definition add64 (i : Z) (d : blob) : Z * blob :=
  (s32 (sizeZ d),
   d ++ [u8 (Z.shiftr i 56); u8 (Z.land (Z.shiftr i 48) 255);
         u8 (Z.land (Z.shiftr i 40) 255); u8 (Z.land (Z.shiftr i 32) 255);
         u8 (Z.land (Z.shiftr i 24) 255); u8 (Z.land (Z.shiftr i 16) 255);
         u8 (Z.land (Z.shiftr i 8) 255); u8 (Z.land i 255)]).

(** [add128], [add160], [add256] and [addBitString] append the big-endian bytes of a
    [base_uint]. *)
Definition addBitString (v : blob) (d : blob) : Z * blob := (s32 (sizeZ d), d ++ v).

Definition addRaw (v : blob) (d : blob) : Z * blob := (s32 (sizeZ d), d ++ v).

(** ** Disassembly at an offset *)

(** [e > mData.size ()] for an [int] [e], which is converted to [size_t]. *)
Definition past_end (d : blob) (e : Z) : bool := u64 e >? sizeZ d.

Definition get8 (d : blob) (offset : Z) : option Z :=
  if u64 offset >=? sizeZ d then None else Some (byte_at d offset).

(** [o <<= 8; o |= b] on 16, 32 and 64 bits *)
Definition shl_or16 (o b : Z) : Z := Z.lor (u16 (Z.shiftl o 8)) b.
Definition shl_or32 (o b : Z) : Z := Z.lor (u32 (Z.shiftl o 8)) b.
Definition shl_or64 (o b : Z) : Z := Z.lor (u64 (Z.shiftl o 8)) b.

Definition get16 (d : blob) (offset : Z) : option Z :=
  if past_end d (s32 (offset + 2)) then None
  else Some (shl_or16 (byte_at d offset) (byte_at d (offset + 1))).

Definition get32 (d : blob) (offset : Z) : option Z :=
  if past_end d (s32 (offset + 4)) then None
  else
    let at_ k := byte_at d (offset + k) in
    Some (shl_or32 (shl_or32 (shl_or32 (at_ 0) (at_ 1)) (at_ 2)) (at_ 3)).

Definition get64 (d : blob) (offset : Z) : option Z :=
  if past_end d (s32 (offset + 8)) then None
  else
    let at_ k := byte_at d (offset + k) in
    Some (shl_or64 (shl_or64 (shl_or64 (shl_or64 (shl_or64 (shl_or64 (shl_or64
      (at_ 0) (at_ 1)) (at_ 2)) (at_ 3)) (at_ 4)) (at_ 5)) (at_ 6)) (at_ 7)).

(** [getBitString<Bits>], and so [get128], [get160] and [get256], for [n = Bits / 8] *)
Definition getBitString (n : Z) (d : blob) (offset : Z) : option blob :=
  if past_end d (s32 (offset + n)) then None else Some (sub_bytes d offset n).

Definition getRaw (d : blob) (offset length : Z) : option blob :=
  if past_end d (s32 (offset + length)) then None else Some (sub_bytes d offset length).

Definition chop (bytes : Z) (d : blob) : option blob :=
  if past_end d bytes then None else Some (take (Z.to_nat (sizeZ d - bytes)) d).

(** ** Field identifiers *)

Definition addFieldID (type name : Z) (d : blob) : Z * blob :=
  (s32 (sizeZ d),
   d ++ (if type <? 16 then
           if name <? 16 then [u8 (Z.lor (Z.shiftl type 4) name)]
           else [u8 (Z.shiftl type 4); u8 name]
         else if name <? 16 then [u8 name; u8 type]
         else [u8 0; u8 type; u8 name])).

Definition getFieldID (d : blob) (offset : Z) : option (Z * Z) :=
  match get8 d offset with
  | None => None
  | Some type =>
      let name := Z.land type 15 in
      let type := Z.shiftr type 4 in
      '(type, offset) ←
        (if type =? 0 then
           match get8 d (offset + 1) with
           | None => None
           | Some type => if (type =? 0) || (type <? 16) then None else Some (type, offset + 1)
           end
         else Some (type, offset));
      if name =? 0 then
        match get8 d (offset + 1) with
        | None => None
        | Some name => if (name =? 0) || (name <? 16) then None else Some (type, name)
        end
      else Some (type, name)
  end.

(** ** Variable-length blobs *)

Definition encodeLengthLength (length : Z) : result Z :=
  if length <? 0 then Throw "len<0"
  else if length <=? 192 then Ok 1
  else if length <=? 12480 then Ok 2
  else if length <=? 918744 then Ok 3
  else Throw "len>918744".

Definition decodeLengthLength (b1 : Z) : result Z :=
  if b1 <? 0 then Throw "b1<0"
  else if b1 <=? 192 then Ok 1
  else if b1 <=? 240 then Ok 2
  else if b1 <=? 254 then Ok 3
  else Throw "b1>254".

Definition decodeVLLength1 (b1 : Z) : result Z :=
  if b1 <? 0 then Throw "b1<0" else if b1 >? 254 then Throw "b1>254" else Ok b1.

Definition decodeVLLength2 (b1 b2 : Z) : result Z :=
  if b1 <? 193 then Throw "b1<193" else if b1 >? 240 then Throw "b1>240"
  else Ok (193 + (b1 - 193) * 256 + b2).

Definition decodeVLLength3 (b1 b2 b3 : Z) : result Z :=
  if b1 <? 241 then Throw "b1<241" else if b1 >? 254 then Throw "b1>254"
  else Ok (12481 + (b1 - 241) * 65536 + b2 * 256 + b3).

Definition addEncoded (length : Z) (d : blob) : result (Z * blob) :=
  if length <=? 192 then Ok (addRaw [u8 length] d)
  else if length <=? 12480 then
    let length := length - 193 in
    Ok (addRaw [u8 (193 + u8 (Z.shiftr length 8)); u8 (Z.land length 255)] d)
  else if length <=? 918744 then
    let length := length - 12481 in
    Ok (addRaw [u8 (241 + u8 (Z.shiftr length 16)); u8 (Z.land (Z.shiftr length 8) 255);
                u8 (Z.land length 255)] d)
  else Throw "lenlen".

(** [addVL (Blob const&)] *)
Definition addVL (vector : blob) (d : blob) : result (Z * blob) :=
  '(ret, d) ← addEncoded (s32 (sizeZ vector)) d;
  Ok (ret, (addRaw vector d).2).

(** [getVLLength] inside the [try]: the length of the data and the offset behind the
    prefix; [None] where the code returns [false]. *)
Definition vl_prefix (d : blob) (b1 lenLen offset : Z) : option (Z * Z) :=
  let caught r offset := match r with Ok n => Some (n, offset) | Throw _ => None end in
  if lenLen =? 1 then caught (decodeVLLength1 b1) offset
  else if lenLen =? 2 then
    b2 ← get8 d offset;
    caught (decodeVLLength2 b1 b2) (offset + 1)
  else if lenLen =? 3 then
    b2 ← get8 d offset;
    b3 ← get8 d (offset + 1);
    caught (decodeVLLength3 b1 b2 b3) (offset + 2)
  else None.

(** The blob and [length]; [decodeLengthLength] is called outside the [try]. *)
Definition getVL (d : blob) (offset : Z) : result (option (blob * Z)) :=
  match get8 d offset with
  | None => Ok None
  | Some b1 =>
      lenLen ← decodeLengthLength b1;
      match vl_prefix d b1 lenLen (offset + 1) with
      | None => Ok None
      | Some (datLen, offset) =>
          Ok (match getRaw d offset datLen with
              | None => None
              | Some o => Some (o, lenLen + datLen)
              end)
      end
  end.

Definition getVLLength (d : blob) (offset : Z) : result (option Z) :=
  match get8 d offset with
  | None => Ok None
  | Some b1 =>
      lenLen ← decodeLengthLength b1;
      Ok (fst <$> vl_prefix d b1 lenLen (offset + 1))
  end.

(** ** SerialIter *)

(** [p_] is the index of the cursor in the buffer it was created on. *)
Record SerialIter := { si_buf : blob; si_p : Z; si_remain : Z; si_used : Z }.

Definition mkSerialIter (data : blob) : SerialIter :=
  {| si_buf := data; si_p := 0; si_remain := sizeZ data; si_used := 0 |}.

Definition si_reset (s : SerialIter) : SerialIter :=
  {| si_buf := si_buf s; si_p := si_p s - si_used s;
     si_remain := si_remain s + si_used s; si_used := 0 |}.

Definition si_empty (s : SerialIter) : bool := si_remain s =? 0.

Definition si_getBytesLeft (s : SerialIter) : Z := s32 (si_remain s).

(** Moving the cursor by [n] bytes *)
Definition si_advance (n : Z) (s : SerialIter) : SerialIter :=
  {| si_buf := si_buf s; si_p := si_p s + n;
     si_remain := si_remain s - n; si_used := si_used s + n |}.

Definition si_at (s : SerialIter) (k : Z) : Z := byte_at (si_buf s) (si_p s + k).

Definition si_get8 (s : SerialIter) : result (Z * SerialIter) :=
  if si_remain s <? 1 then Throw "invalid SerialIter get8"
  else Ok (si_at s 0, si_advance 1 s).

Definition si_get16 (s : SerialIter) : result (Z * SerialIter) :=
  if si_remain s <? 2 then Throw "invalid SerialIter get16"
  else Ok (u16 (Z.shiftl (si_at s 0) 8 + si_at s 1), si_advance 2 s).

Definition si_get32 (s : SerialIter) : result (Z * SerialIter) :=
  if si_remain s <? 4 then Throw "invalid SerialIter get32"
  else Ok (u32 (Z.shiftl (si_at s 0) 24 + Z.shiftl (si_at s 1) 16
                + Z.shiftl (si_at s 2) 8 + si_at s 3), si_advance 4 s).

Definition si_get64 (s : SerialIter) : result (Z * SerialIter) :=
  if si_remain s <? 8 then Throw "invalid SerialIter get64"
  else Ok (u64 (Z.shiftl (si_at s 0) 56 + Z.shiftl (si_at s 1) 48
                + Z.shiftl (si_at s 2) 40 + Z.shiftl (si_at s 3) 32
                + Z.shiftl (si_at s 4) 24 + Z.shiftl (si_at s 5) 16
                + Z.shiftl (si_at s 6) 8 + si_at s 7), si_advance 8 s).

(** [getBitString<Bits>] for [n = Bits / 8] *)
Definition si_getBitString (n : Z) (s : SerialIter) : result (blob * SerialIter) :=
  if si_remain s <? n then Throw "invalid SerialIter getBitString"
  else Ok (sub_bytes (si_buf s) (si_p s) n, si_advance n s).

Definition si_getFieldID (s : SerialIter) : result (Z * Z * SerialIter) :=
  '(type, s) ← si_get8 s;
  let name := Z.land type 15 in
  let type := Z.shiftr type 4 in
  '(type, s) ←
    (if type =? 0 then
       '(type, s) ← si_get8 s;
       if (type =? 0) || (type <? 16)
       then Throw ("gFID: uncommon type out of range " +:+ pretty type)
       else Ok (type, s)
     else Ok (type, s));
  if name =? 0 then
    '(name, s) ← si_get8 s;
    if (name =? 0) || (name <? 16)
    then Throw ("gFID: uncommon name out of range " +:+ pretty name)
    else Ok (type, name, s)
  else Ok (type, name, s).

(** [getRawHelper]: the comparison with [remain_] converts [size] to [size_t]. *)
Definition si_getRaw (size : Z) (s : SerialIter) : result (blob * SerialIter) :=
  if si_remain s <? u64 size then Throw "invalid SerialIter getRaw"
  else Ok (sub_bytes (si_buf s) (si_p s) size, si_advance size s).

Definition si_getVLDataLength (s : SerialIter) : result (Z * SerialIter) :=
  '(b1, s) ← si_get8 s;
  lenLen ← decodeLengthLength b1;
  if lenLen =? 1 then
    datLen ← decodeVLLength1 b1; Ok (datLen, s)
  else if lenLen =? 2 then
    '(b2, s) ← si_get8 s;
    datLen ← decodeVLLength2 b1 b2; Ok (datLen, s)
  else
    '(b2, s) ← si_get8 s;
    '(b3, s) ← si_get8 s;
    datLen ← decodeVLLength3 b1 b2 b3; Ok (datLen, s).

Definition si_getVL (s : SerialIter) : result (blob * SerialIter) :=
  '(size, s) ← si_getVLDataLength s;
  si_getRaw size s.

(** ** Encoders as big-endian bytes *)

(** Each byte of an encoder is a digit to base 256. *)
Ltac bytes_digits :=
  repeat f_equal; rewrite ?land_ff, ?Z.shiftr_div_pow2 by lia; unfold u8;
  rewrite ?Z.mod_mod by lia; repeat rewrite Z.div_div by lia; reflexivity.

Lemma add16_bytes i d : (add16 i d).2 = d ++ be_bytes 2 i.
Proof. unfold add16. simpl. bytes_digits. Qed.

Lemma add32_bytes i d : (add32 i d).2 = d ++ be_bytes 4 i.
Proof. unfold add32. simpl. bytes_digits. Qed.

Lemma add64_bytes i d : (add64 i d).2 = d ++ be_bytes 8 i.
Proof. unfold add64. simpl. bytes_digits. Qed.

(** ** Decoders as big-endian values *)

Lemma shl_or16_val o b : 0 <= o < 256 → is_u8 b → shl_or16 o b = o * 256 + b.
Proof.
  intros Ho Hb. unfold shl_or16. rewrite u16_id; [by apply lor_shift_byte|].
  rewrite Z.shiftl_mul_pow2 by lia. unfold is_u16. simpl. lia.
Qed.

Lemma shl_or32_val o b : 0 <= o < 16777216 → is_u8 b → shl_or32 o b = o * 256 + b.
Proof.
  intros Ho Hb. unfold shl_or32. rewrite u32_id; [by apply lor_shift_byte|].
  rewrite Z.shiftl_mul_pow2 by lia. unfold is_u32. simpl. lia.
Qed.

Lemma shl_or64_val o b : 0 <= o < 72057594037927936 → is_u8 b → shl_or64 o b = o * 256 + b.
Proof.
  intros Ho Hb. unfold shl_or64. rewrite u64_id; [by apply lor_shift_byte|].
  rewrite Z.shiftl_mul_pow2 by lia. unfold is_u64. simpl. lia.
Qed.

Lemma byte_at_is_u8 d i : byte_list d → is_u8 (byte_at d i).
Proof.
  intros Hd. unfold byte_at. destruct (nth_in_or_default (Z.to_nat i) d 0) as [Hin| ->].
  - rewrite Forall_forall in Hd. apply Hd. by apply list_elem_of_In.
  - unfold is_u8. lia.
Qed.

(** The condition every reader checks, for offsets that are not negative. *)
Lemma past_end_false d off n :
  0 <= off → 0 <= n → off + n <= sizeZ d → off + n < 2147483648 →
  past_end d (s32 (off + n)) = false.
Proof.
  intros. unfold past_end. mint. destruct (Z.gtb_spec (off + n) (sizeZ d)); [lia|done].
Qed.

Lemma past_end_true d off n :
  0 <= off → 0 <= n → sizeZ d < off + n → off + n < 2147483648 →
  past_end d (s32 (off + n)) = true.
Proof.
  intros. unfold past_end. mint. by apply Z.gtb_lt.
Qed.

Lemma byte_at_mid pre mid post k :
  0 <= k < sizeZ mid → byte_at (pre ++ mid ++ post) (sizeZ pre + k) = byte_at mid k.
Proof.
  unfold sizeZ. intros ?. rewrite byte_at_app_r by lia. rewrite byte_at_app_l by lia.
  f_equal. lia.
Qed.

Lemma byte_at_mid0 pre mid post :
  0 < sizeZ mid → byte_at (pre ++ mid ++ post) (sizeZ pre) = byte_at mid 0.
Proof. intros. rewrite <- (Z.add_0_r (sizeZ pre)). apply byte_at_mid. lia. Qed.

Lemma sizeZ_app d1 d2 : sizeZ (d1 ++ d2) = sizeZ d1 + sizeZ d2.
Proof. unfold sizeZ. rewrite length_app. lia. Qed.

Lemma sizeZ_nonneg d : 0 <= sizeZ d.
Proof. unfold sizeZ. lia. Qed.

Lemma sizeZ_be_bytes n x : sizeZ (be_bytes n x) = Z.of_nat n.
Proof. unfold sizeZ. by rewrite be_bytes_length. Qed.

(** A list of known length as its elements *)
Ltac explode l :=
  repeat (let b := fresh "b" in destruct l as [|b l]; [discriminate|]);
  destruct l; [|discriminate].

(** The bytes of [mid] in [pre ++ mid ++ post], for an explicit [mid] *)
Ltac read_mid :=
  repeat first [rewrite byte_at_mid by (unfold sizeZ; simpl; lia)
               | rewrite byte_at_mid0 by (unfold sizeZ; simpl; lia)];
  unfold byte_at; simpl.

(** Evaluates a nest of shift-and-or steps [f], innermost first. *)
Ltac shl_vals f lem :=
  repeat match goal with
  | |- context [f ?o ?b] =>
      lazymatch o with
      | context [f] => fail
      | _ => rewrite (lem o b) by (unfold is_u8; lia)
      end
  end; unfold be_val; simpl.

Lemma past_end_mid pre mid post n :
  sizeZ mid = n → sizeZ (pre ++ mid) < 2147483648 →
  past_end (pre ++ mid ++ post) (s32 (sizeZ pre + n)) = false.
Proof.
  intros Hn Hlt. pose proof (sizeZ_nonneg pre). pose proof (sizeZ_nonneg post).
  pose proof (sizeZ_nonneg mid). rewrite sizeZ_app in Hlt.
  apply past_end_false; rewrite ?sizeZ_app; lia.
Qed.

Lemma get8_mid pre b post :
  sizeZ pre < 2147483648 → get8 (pre ++ [b] ++ post) (sizeZ pre) = Some b.
Proof.
  intros Hlt. pose proof (sizeZ_nonneg pre). pose proof (sizeZ_nonneg post).
  unfold get8. rewrite u64_id by mint_range. rewrite !sizeZ_app. case_if; zbool.
  - unfold sizeZ in *. simpl in *. lia.
  - by read_mid.
Qed.

Lemma get16_mid pre mid post :
  length mid = 2%nat → byte_list mid → sizeZ (pre ++ mid) < 2147483648 →
  get16 (pre ++ mid ++ post) (sizeZ pre) = Some (be_val mid).
Proof.
  intros Hl Hb Hlt. unfold get16. rewrite past_end_mid by first [exact Hlt|unfold sizeZ; lia].
  explode mid. rewrite !Forall_cons in Hb. destruct_and!. unfold is_u8 in *. read_mid.
  by shl_vals shl_or16 shl_or16_val.
Qed.

Lemma get32_mid pre mid post :
  length mid = 4%nat → byte_list mid → sizeZ (pre ++ mid) < 2147483648 →
  get32 (pre ++ mid ++ post) (sizeZ pre) = Some (be_val mid).
Proof.
  intros Hl Hb Hlt. unfold get32. rewrite past_end_mid by first [exact Hlt|unfold sizeZ; lia].
  explode mid. rewrite !Forall_cons in Hb. destruct_and!. unfold is_u8 in *. read_mid.
  by shl_vals shl_or32 shl_or32_val.
Qed.

Lemma get64_mid pre mid post :
  length mid = 8%nat → byte_list mid → sizeZ (pre ++ mid) < 2147483648 →
  get64 (pre ++ mid ++ post) (sizeZ pre) = Some (be_val mid).
Proof.
  intros Hl Hb Hlt. unfold get64. rewrite past_end_mid by first [exact Hlt|unfold sizeZ; lia].
  explode mid. rewrite !Forall_cons in Hb. destruct_and!. unfold is_u8 in *. read_mid.
  by shl_vals shl_or64 shl_or64_val.
Qed.

Lemma getRaw_mid pre mid post :
  sizeZ (pre ++ mid) < 2147483648 →
  getRaw (pre ++ mid ++ post) (sizeZ pre) (sizeZ mid) = Some mid.
Proof.
  intros Hlt. unfold getRaw. rewrite past_end_mid by done.
  f_equal. unfold sizeZ. apply sub_bytes_app.
Qed.

(** ** The cursor on a split buffer *)

(** A cursor standing between the consumed bytes [pre] and the rest. *)
Definition si_on (pre rest : blob) : SerialIter :=
  {| si_buf := pre ++ rest; si_p := sizeZ pre; si_remain := sizeZ rest; si_used := sizeZ pre |}.

Lemma si_on_init d : mkSerialIter d = si_on [] d.
Proof. done. Qed.

Lemma si_reset_on pre rest : si_reset (si_on pre rest) = mkSerialIter (pre ++ rest).
Proof. unfold si_reset, si_on, mkSerialIter. simpl. rewrite sizeZ_app. f_equal; lia. Qed.

Lemma si_on_advance pre mid rest :
  si_advance (sizeZ mid) (si_on pre (mid ++ rest)) = si_on (pre ++ mid) rest.
Proof.
  unfold si_advance, si_on. simpl. rewrite !sizeZ_app, app_assoc. f_equal; lia.
Qed.

Lemma si_on_advance_n pre mid rest n :
  sizeZ mid = n → si_advance n (si_on pre (mid ++ rest)) = si_on (pre ++ mid) rest.
Proof. intros <-. apply si_on_advance. Qed.

Lemma si_get8_on pre b rest : si_get8 (si_on pre (b :: rest)) = Ok (b, si_on (pre ++ [b]) rest).
Proof.
  unfold si_get8. rewrite <- (si_on_advance_n pre [b] rest 1) by done. simpl si_remain.
  change (b :: rest) with ([b] ++ rest). rewrite sizeZ_app. pose proof (sizeZ_nonneg rest).
  case_if; zbool; [unfold sizeZ in *; simpl in *; lia|].
  unfold si_at. simpl. change (b :: rest) with ([b] ++ rest).
  by rewrite byte_at_mid by (unfold sizeZ; simpl; lia).
Qed.

(** Opens a reader of [n] bytes on [si_on pre (mid ++ rest)]. *)
Ltac si_open :=
  match goal with
  | |- context [si_remain ?s <? ?n] =>
      simpl si_remain; rewrite sizeZ_app;
      match goal with |- context [sizeZ ?mid + sizeZ ?rest <? _] =>
        pose proof (sizeZ_nonneg rest);
        replace (sizeZ mid + sizeZ rest <? n) with false
          by (symmetry; apply Z.ltb_ge; unfold sizeZ in *; lia) end
  end.

Lemma si_at_on pre mid rest k :
  0 <= k < sizeZ mid → si_at (si_on pre (mid ++ rest)) k = byte_at mid k.
Proof. apply byte_at_mid. Qed.

(** The shifted sum of the bytes of [mid] is its big-endian value. *)
Ltac si_value mid Hb :=
  explode mid; rewrite !Forall_cons in Hb; destruct_and!; unfold is_u8 in *;
  rewrite ?Z.shiftl_mul_pow2 by lia; unfold be_val, byte_at;
  repeat match goal with |- context [Z.to_nat ?n] =>
    let v := eval vm_compute in (Z.to_nat n) in change (Z.to_nat n) with v end;
  cbn [nth foldl];
  repeat match goal with |- context [2 ^ ?n] =>
    let v := eval vm_compute in (2 ^ n) in change (2 ^ n) with v end;
  mint; do 2 f_equal; lia.

Lemma si_get16_on pre mid rest :
  length mid = 2%nat → byte_list mid →
  si_get16 (si_on pre (mid ++ rest)) = Ok (be_val mid, si_on (pre ++ mid) rest).
Proof.
  intros Hl Hb. unfold si_get16. si_open.
  rewrite (si_on_advance_n pre mid rest 2) by (unfold sizeZ; lia).
  rewrite !si_at_on by (unfold sizeZ; lia). si_value mid Hb.
Qed.

Lemma si_get32_on pre mid rest :
  length mid = 4%nat → byte_list mid →
  si_get32 (si_on pre (mid ++ rest)) = Ok (be_val mid, si_on (pre ++ mid) rest).
Proof.
  intros Hl Hb. unfold si_get32. si_open.
  rewrite (si_on_advance_n pre mid rest 4) by (unfold sizeZ; lia).
  rewrite !si_at_on by (unfold sizeZ; lia). si_value mid Hb.
Qed.

Lemma si_get64_on pre mid rest :
  length mid = 8%nat → byte_list mid →
  si_get64 (si_on pre (mid ++ rest)) = Ok (be_val mid, si_on (pre ++ mid) rest).
Proof.
  intros Hl Hb. unfold si_get64. si_open.
  rewrite (si_on_advance_n pre mid rest 8) by (unfold sizeZ; lia).
  rewrite !si_at_on by (unfold sizeZ; lia). si_value mid Hb.
Qed.

Lemma sub_bytes_mid pre mid rest n :
  sizeZ mid = n → sub_bytes (pre ++ mid ++ rest) (sizeZ pre) n = mid.
Proof. intros <-. apply sub_bytes_app. Qed.

Lemma si_getBitString_on pre mid rest n :
  sizeZ mid = n →
  si_getBitString n (si_on pre (mid ++ rest)) = Ok (mid, si_on (pre ++ mid) rest).
Proof.
  intros Hn. unfold si_getBitString. si_open.
  rewrite (si_on_advance_n pre mid rest n) by done. simpl si_buf. simpl si_p.
  by rewrite sub_bytes_mid.
Qed.

Lemma si_getRaw_on pre mid rest n :
  sizeZ mid = n → n < 18446744073709551616 →
  si_getRaw n (si_on pre (mid ++ rest)) = Ok (mid, si_on (pre ++ mid) rest).
Proof.
  intros Hn Hlt. pose proof (sizeZ_nonneg mid). unfold si_getRaw.
  rewrite u64_id by mint_range. si_open.
  rewrite (si_on_advance_n pre mid rest n) by done. simpl si_buf. simpl si_p.
  by rewrite sub_bytes_mid.
Qed.

(** ** Variable-length prefixes *)

(** What the readers rely on in a length prefix. *)
Definition vl_code (L : Z) (enc : blob) : Prop :=
  byte_list enc ∧ encodeLengthLength L = Ok (sizeZ enc) ∧
  match enc with
  | [b1] => decodeLengthLength b1 = Ok 1 ∧ decodeVLLength1 b1 = Ok L
  | [b1; b2] => decodeLengthLength b1 = Ok 2 ∧ decodeVLLength2 b1 b2 = Ok L
  | [b1; b2; b3] => decodeLengthLength b1 = Ok 3 ∧ decodeVLLength3 b1 b2 b3 = Ok L
  | _ => False
  end.

(** Evaluates the range tests of the length codecs. *)
Ltac vl_tests :=
  repeat match goal with
  | |- context [?a <? ?b] => first
      [ replace (a <? b) with true by (symmetry; apply Z.ltb_lt; zlia)
      | replace (a <? b) with false by (symmetry; apply Z.ltb_ge; zlia) ]
  | |- context [?a <=? ?b] => first
      [ replace (a <=? b) with true by (symmetry; apply Z.leb_le; zlia)
      | replace (a <=? b) with false by (symmetry; apply Z.leb_gt; zlia) ]
  | |- context [?a >? ?b] => first
      [ replace (a >? b) with false by (symmetry; rewrite Z.gtb_ltb; apply Z.ltb_ge; zlia) ]
  end.

Lemma addEncoded_code L :
  0 <= L <= 918744 →
  ∃ enc, (∀ d, addEncoded L d = Ok (addRaw enc d)) ∧ vl_code L enc.
Proof.
  intros HL. unfold addEncoded. destruct (L <=? 192) eqn:E1; zbool.
  { eexists. split; [done|]. rewrite u8_id by mint_range. unfold vl_code, encodeLengthLength,
      decodeLengthLength, decodeVLLength1. vl_tests. repeat constructor; lia. }
  destruct (L <=? 12480) eqn:E2; zbool.
  { eexists. split; [done|]. rewrite land_ff, Z.shiftr_div_pow2 by lia. change (2 ^ 8) with 256.
    rewrite (u8_id ((L - 193) / 256)) by (unfold is_u8; zlia).
    rewrite (u8_id (193 + _)) by (unfold is_u8; zlia).
    rewrite (u8_id ((L - 193) mod 256)) by apply u8_range.
    unfold vl_code, encodeLengthLength, decodeLengthLength, decodeVLLength2.
    vl_tests. repeat constructor; unfold is_u8; [zlia..|]. f_equal. zlia. }
  destruct (L <=? 918744) eqn:E3; zbool; [|lia].
  eexists. split; [done|]. rewrite !land_ff, !Z.shiftr_div_pow2 by lia.
  change (2 ^ 8) with 256. change (2 ^ 16) with 65536.
  rewrite (u8_id ((L - 12481) / 65536)) by (unfold is_u8; zlia).
  rewrite (u8_id (241 + _)) by (unfold is_u8; zlia).
  rewrite (u8_id (_ mod 256)) by apply u8_range.
  rewrite (u8_id (_ mod 256)) by apply u8_range.
  unfold vl_code, encodeLengthLength, decodeLengthLength, decodeVLLength3.
  vl_tests. repeat constructor; unfold is_u8; [zlia..|]. f_equal. zlia.
Qed.

Lemma get8_at pre l post k b :
  0 <= k → l !! Z.to_nat k = Some b → sizeZ (pre ++ l) < 2147483648 →
  get8 (pre ++ l ++ post) (sizeZ pre + k) = Some b.
Proof.
  intros Hk Hl Hlt. pose proof (lookup_lt_Some _ _ _ Hl). pose proof (sizeZ_nonneg pre).
  pose proof (sizeZ_nonneg post). rewrite sizeZ_app in Hlt. unfold get8.
  rewrite u64_id by (unfold sizeZ in *; mint_range). rewrite !sizeZ_app.
  case_if; zbool; [unfold sizeZ in *; lia|].
  rewrite byte_at_mid by (unfold sizeZ; lia). unfold byte_at.
  f_equal. by apply nth_lookup_Some.
Qed.

(** A length prefix is read back by both readers, whatever follows it. *)
Lemma vl_prefix_code L enc pre post :
  vl_code L enc → sizeZ (pre ++ enc) < 2147483648 →
  ∃ b1, get8 (pre ++ enc ++ post) (sizeZ pre) = Some b1
    ∧ decodeLengthLength b1 = Ok (sizeZ enc)
    ∧ vl_prefix (pre ++ enc ++ post) b1 (sizeZ enc) (sizeZ pre + 1)
      = Some (L, sizeZ (pre ++ enc)).
Proof.
  intros (Hb & _ & Hdec) Hlt. pose proof (λ k b Hk H, get8_at pre enc post k b Hk H Hlt) as Hg.
  rewrite sizeZ_app. unfold vl_prefix.
  destruct enc as [|b1 [|b2 [|b3 [|]]]]; try done; destruct Hdec as [H1 H2]; exists b1;
    pose proof (Hg 0 b1 ltac:(lia) eq_refl) as Hg0; rewrite Z.add_0_r in Hg0;
    (split; [done|]); (split; [done|]); unfold sizeZ at 1 2 3 4; simpl.
  - rewrite H2. do 2 f_equal.
  - pose proof (Hg 1 b2 ltac:(lia) eq_refl) as Hg1. simpl in Hg1. rewrite Hg1. simpl.
    rewrite H2. do 2 f_equal. unfold sizeZ; simpl; lia.
  - pose proof (Hg 1 b2 ltac:(lia) eq_refl) as Hg1. pose proof (Hg 2 b3 ltac:(lia) eq_refl) as Hg2.
    simpl in Hg1, Hg2. rewrite Hg1. simpl.
    replace (sizeZ pre + 1 + 1) with (sizeZ pre + 2) by lia. rewrite Hg2. simpl.
    rewrite H2. do 2 f_equal. unfold sizeZ; simpl; lia.
Qed.

Lemma si_getVLDataLength_code L enc pre rest :
  vl_code L enc →
  si_getVLDataLength (si_on pre (enc ++ rest)) = Ok (L, si_on (pre ++ enc) rest).
Proof.
  intros (Hb & _ & Hdec). unfold si_getVLDataLength.
  destruct enc as [|b1 [|b2 [|b3 [|]]]]; try done; destruct Hdec as [H1 H2]; simpl;
    rewrite si_get8_on; simpl; rewrite H1; simpl.
  - by rewrite H2.
  - rewrite si_get8_on; simpl. rewrite H2. simpl. by rewrite <- app_assoc.
  - rewrite si_get8_on; simpl. rewrite si_get8_on; simpl. rewrite H2. simpl.
    by rewrite <- !app_assoc.
Qed.

Lemma addVL_code v d :
  sizeZ v <= 918744 →
  ∃ enc, vl_code (sizeZ v) enc ∧ addVL v d = Ok (s32 (sizeZ d), d ++ enc ++ v).
Proof.
  intros Hv. pose proof (sizeZ_nonneg v).
  destruct (addEncoded_code (sizeZ v)) as (enc & Henc & Hc); [lia|].
  exists enc. split; [done|]. unfold addVL. rewrite s32_id by mint_range. rewrite Henc. simpl.
  by rewrite <- app_assoc.
Qed.

Lemma getVL_code enc v pre post :
  vl_code (sizeZ v) enc → sizeZ (pre ++ enc ++ v) < 2147483648 →
  getVL (pre ++ (enc ++ v) ++ post) (sizeZ pre) = Ok (Some (v, sizeZ enc + sizeZ v)).
Proof.
  intros Hc Hlt. rewrite <- app_assoc.
  pose proof (sizeZ_nonneg v). pose proof (sizeZ_nonneg enc).
  rewrite !sizeZ_app in Hlt. unfold getVL.
  destruct (vl_prefix_code _ enc pre (v ++ post) Hc) as (b1 & H1 & H2 & H3).
  { rewrite sizeZ_app; lia. }
  rewrite H1, H2. simpl. rewrite H3.
  rewrite app_assoc, getRaw_mid by (rewrite !sizeZ_app; lia). done.
Qed.

(** ** Cursor discipline *)

(** [f] consumes a prefix of what is left, or throws. *)
Definition si_moves {A} (f : SerialIter → result (A * SerialIter)) : Prop :=
  ∀ pre rest, match f (si_on pre rest) with
  | Ok (_, s') => ∃ c rest', rest = c ++ rest' ∧ s' = si_on (pre ++ c) rest'
  | Throw _ => True
  end.

Lemma si_moves_advance pre rest n :
  0 <= n <= sizeZ rest →
  ∃ c rest', rest = c ++ rest' ∧ si_advance n (si_on pre rest) = si_on (pre ++ c) rest'.
Proof.
  intros Hn. exists (take (Z.to_nat n) rest), (drop (Z.to_nat n) rest).
  rewrite take_drop. split; [done|].
  rewrite <- (si_on_advance_n pre (take (Z.to_nat n) rest) _ n), take_drop; [done|].
  unfold sizeZ in *. rewrite length_take. lia.
Qed.

Lemma si_moves_bind {A B} (f : SerialIter → result (A * SerialIter))
    (g : A → SerialIter → result (B * SerialIter)) :
  si_moves f → (∀ a, si_moves (g a)) →
  si_moves (λ s, '(a, s) ← f s; g a s).
Proof.
  intros Hf Hg pre rest. specialize (Hf pre rest). simpl.
  destruct (f (si_on pre rest)) as [[a s']|w]; simpl; [|done].
  destruct Hf as (c & rest' & -> & ->). specialize (Hg a (pre ++ c) rest').
  destruct (g a (si_on (pre ++ c) rest')) as [[b s'']|w]; [|done].
  destruct Hg as (c' & rest'' & -> & ->). exists (c ++ c'), rest''. by rewrite !app_assoc.
Qed.

Lemma si_moves_ret {A} (r : result A) :
  si_moves (λ s, a ← r; Ok (a, s)).
Proof.
  intros pre rest. destruct r; simpl; [|done]. exists [], rest. by rewrite app_nil_r.
Qed.

Lemma si_moves_lift {A B} (r : result A) (g : A → SerialIter → result (B * SerialIter)) :
  (∀ a, si_moves (g a)) → si_moves (λ s, a ← r; g a s).
Proof. intros Hg. destruct r; simpl; [apply Hg|]. by intros pre rest. Qed.

(** The readers of a fixed number of bytes. *)
Lemma si_moves_fixed {A} n (v : SerialIter → A) w :
  0 <= n → si_moves (λ s, if si_remain s <? n then Throw w else Ok (v s, si_advance n s)).
Proof.
  intros Hn pre rest. simpl. destruct (sizeZ rest <? n) eqn:E; [done|]. zbool.
  apply si_moves_advance. lia.
Qed.

Lemma si_get8_moves : si_moves si_get8.
Proof. by apply si_moves_fixed. Qed.
Lemma si_get16_moves : si_moves si_get16.
Proof. by apply si_moves_fixed. Qed.
Lemma si_get32_moves : si_moves si_get32.
Proof. by apply si_moves_fixed. Qed.
Lemma si_get64_moves : si_moves si_get64.
Proof. by apply si_moves_fixed. Qed.
Lemma si_getBitString_moves n : 0 <= n → si_moves (si_getBitString n).
Proof. intros. by apply si_moves_fixed. Qed.
Lemma si_getRaw_moves n : 0 <= n < 18446744073709551616 → si_moves (si_getRaw n).
Proof. intros ?. unfold si_getRaw. rewrite u64_id by mint_range. apply si_moves_fixed; lia. Qed.

Create HintDb sermoves.
#[export] Hint Resolve si_get8_moves si_moves_bind si_moves_ret si_moves_lift : sermoves.

Lemma si_moves_throw {A} w : si_moves (λ s, Throw w : result (A * SerialIter)).
Proof. by intros pre rest. Qed.

Lemma si_moves_ok {A} (a : A) : si_moves (λ s, Ok (a, s)).
Proof. intros pre rest. exists [], rest. by rewrite app_nil_r. Qed.

Lemma si_moves_if {A} (b : bool) (f g : SerialIter → result (A * SerialIter)) :
  si_moves f → si_moves g → si_moves (λ s, if b then f s else g s).
Proof. by destruct b. Qed.

#[export] Hint Resolve si_moves_throw si_moves_ok si_moves_if : sermoves.

Lemma si_getVLDataLength_moves : si_moves si_getVLDataLength.
Proof.
  unfold si_getVLDataLength. apply si_moves_bind; [apply si_get8_moves|]. intros b1.
  apply si_moves_lift. intros lenLen. repeat apply si_moves_if; auto with sermoves.
Qed.

Lemma si_getFieldID_moves : si_moves si_getFieldID.
Proof.
  unfold si_getFieldID. apply si_moves_bind; [apply si_get8_moves|]. intros b1.
  apply (si_moves_bind (λ s, if Z.shiftr b1 4 =? 0 then _ else _)).
  - apply si_moves_if; auto with sermoves.
  - intros type. apply si_moves_if; [|apply (si_moves_ok (type, _))].
    apply (si_moves_bind si_get8); [auto with sermoves|]. intros.
    apply si_moves_if; [auto with sermoves|]. apply (si_moves_ok (type, _)).
Qed.

(** The shape of an encoded field identifier. *)
Definition fid_code (type name : Z) (enc : blob) : Prop :=
  match enc with
  | [] => False
  | b1 :: tl =>
      let t0 := Z.shiftr b1 4 in
      let n0 := Z.land b1 15 in
      tl = (if t0 =? 0 then [type] else []) ++ (if n0 =? 0 then [name] else [])
      ∧ (if t0 =? 0 then 16 <= type else type = t0)
      ∧ (if n0 =? 0 then 16 <= name else name = n0)
  end.

(** The first byte of a field identifier, taken apart. *)
Lemma fid_byte x y :
  0 <= x < 16 → 0 <= y < 16 →
  u8 (Z.lor (Z.shiftl x 4) y) = x * 16 + y
  ∧ Z.land (x * 16 + y) 15 = y ∧ Z.shiftr (x * 16 + y) 4 = x.
Proof.
  intros Hx Hy. change 15 with (Z.ones 4).
  rewrite Z.land_ones, Z.shiftr_div_pow2, Z.lor_comm, lor_disjoint by lia.
  change (2 ^ 4) with 16. rewrite u8_id by mint_range. split_and!; zlia.
Qed.

Lemma addFieldID_code type name d :
  0 < type < 256 → 0 < name < 256 →
  ∃ enc, addFieldID type name d = (s32 (sizeZ d), d ++ enc)
    ∧ fid_code type name enc ∧ 1 <= sizeZ enc <= 3.
Proof.
  intros Ht Hn. unfold addFieldID. eexists. split; [done|]. unfold fid_code.
  destruct (type <? 16) eqn:E1; zbool; destruct (name <? 16) eqn:E2; zbool.
  - destruct (fid_byte type name) as (-> & -> & ->); [lia..|].
    repeat (case_if; zbool; [lia|]). unfold sizeZ; simpl. split_and!; (done || lia).
  - rewrite <- (Z.lor_0_r (Z.shiftl type 4)).
    destruct (fid_byte type 0) as (-> & -> & ->); [lia..|]. rewrite u8_id by mint_range.
    case_if; zbool; [lia|]. unfold sizeZ; simpl. split_and!; (done || lia).
  - destruct (fid_byte 0 name) as (_ & H1 & H2); [lia..|]. rewrite !u8_id by mint_range.
    rewrite Z.mul_0_l, Z.add_0_l in H1, H2. rewrite H1, H2. simpl. case_if; zbool; [lia|].
    unfold sizeZ; simpl. split_and!; (done || lia).
  - rewrite !(u8_id type), !(u8_id name) by mint_range. unfold sizeZ. simpl. split_and!; (done || lia).
Qed.

Lemma getFieldID_code type name enc d post :
  fid_code type name enc → sizeZ (d ++ enc) < 2147483648 →
  getFieldID (d ++ enc ++ post) (sizeZ d) = Some (type, name).
Proof.
  intros Hc Hlt. destruct enc as [|b1 tl]; [done|]. destruct Hc as (-> & Ht & Hn).
  pose proof (λ k b Hk H, get8_at d _ post k b Hk H Hlt) as Hg. unfold getFieldID.
  pose proof (Hg 0 b1 ltac:(lia) eq_refl) as Hg0. rewrite Z.add_0_r in Hg0. rewrite Hg0.
  destruct (Z.shiftr b1 4 =? 0) eqn:E1, (Z.land b1 15 =? 0) eqn:E2; simpl in *; rewrite ?E2.
  - pose proof (Hg 1 type ltac:(lia) eq_refl) as Hg1. pose proof (Hg 2 name ltac:(lia) eq_refl) as Hg2.
    simpl in Hg1, Hg2. rewrite Hg1. vl_tests.
    replace (type =? 0) with false by (symmetry; apply Z.eqb_neq; lia). simpl.
    rewrite ?E2. replace (sizeZ d + 1 + 1) with (sizeZ d + 2) by lia. rewrite Hg2. vl_tests.
    by replace (name =? 0) with false by (symmetry; apply Z.eqb_neq; lia).
  - pose proof (Hg 1 type ltac:(lia) eq_refl) as Hg1. simpl in Hg1. rewrite Hg1. vl_tests.
    replace (type =? 0) with false by (symmetry; apply Z.eqb_neq; lia). simpl. rewrite ?E2. by subst.
  - pose proof (Hg 1 name ltac:(lia) eq_refl) as Hg1. simpl in Hg1. rewrite Hg1. vl_tests.
    replace (name =? 0) with false by (symmetry; apply Z.eqb_neq; lia). by subst.
  - by subst.
Qed.

Lemma si_getFieldID_code type name enc d post :
  fid_code type name enc →
  si_getFieldID (si_on d (enc ++ post)) = Ok (type, name, si_on (d ++ enc) post).
Proof.
  intros Hc. destruct enc as [|b1 tl]; [done|]. destruct Hc as (-> & Ht & Hn).
  unfold si_getFieldID. simpl. rewrite si_get8_on. simpl.
  destruct (Z.shiftr b1 4 =? 0) eqn:E1, (Z.land b1 15 =? 0) eqn:E2; simpl in *;
    rewrite ?si_get8_on; simpl; vl_tests;
    rewrite ?(proj2 (Z.eqb_neq type 0)) by lia; simpl; rewrite ?E2; simpl;
    rewrite ?si_get8_on; simpl; vl_tests;
    rewrite ?(proj2 (Z.eqb_neq name 0)) by lia; simpl; rewrite <- ?app_assoc; by subst.
Qed.

Lemma si_get8_inv s b s' :
  si_get8 s = Ok (b, s') → byte_list (si_buf s) → is_u8 b ∧ byte_list (si_buf s').
Proof.
  unfold si_get8. case_if; [done|]. intros [= <- <-] Hb. split; [|done]. by apply byte_at_is_u8.
Qed.

Lemma si_getVLDataLength_range s n s' :
  byte_list (si_buf s) → si_getVLDataLength s = Ok (n, s') → 0 <= n <= 929984.
Proof.
  intros Hb H. unfold si_getVLDataLength in H.
  apply result_bind_Ok in H as ([b1 s1] & H1 & H).
  destruct (si_get8_inv _ _ _ H1 Hb) as [Hb1 Hs1]. unfold is_u8 in Hb1.
  apply result_bind_Ok in H as (lenLen & Hl & H).
  unfold decodeLengthLength in Hl.
  repeat case_if_in Hl; try discriminate; injection Hl as <-; simpl in H; zbool.
  - unfold decodeVLLength1 in H. repeat case_if_in H; try discriminate.
    zbool. injection H as <- _. lia.
  - apply result_bind_Ok in H as ([b2 s2] & H2 & H).
    destruct (si_get8_inv _ _ _ H2 Hs1) as [Hb2 _]. unfold is_u8 in Hb2.
    unfold decodeVLLength2 in H. repeat case_if_in H; try discriminate.
    zbool. injection H as <- _. lia.
  - apply result_bind_Ok in H as ([b2 s2] & H2 & H).
    destruct (si_get8_inv _ _ _ H2 Hs1) as [Hb2 Hs2]. unfold is_u8 in Hb2.
    apply result_bind_Ok in H as ([b3 s3] & H3 & H).
    destruct (si_get8_inv _ _ _ H3 Hs2) as [Hb3 _]. unfold is_u8 in Hb3.
    unfold decodeVLLength3 in H. repeat case_if_in H; try discriminate.
    zbool. injection H as <- _. lia.
Qed.

(** ** Theorems *)

(** Integers of 8, 16, 32 and 64 bits and raw bit strings appended by [Serializer]
    are read back unchanged at the returned offset, whatever is appended later, and
    nothing before that offset changes. *)
Theorem integers_roundtrip (d post : blob) (i8 i16 i32 i64 : Z) (v : blob) :
  is_u8 i8 → is_u16 i16 → is_u32 i32 → is_u64 i64 → sizeZ d + sizeZ v + 8 < 2147483648 →
  (let '(off, d') := add8 i8 d in get8 (d' ++ post) off = Some i8 ∧ d `prefix_of` d')
  ∧ (let '(off, d') := add16 i16 d in get16 (d' ++ post) off = Some i16 ∧ d `prefix_of` d')
  ∧ (let '(off, d') := add32 i32 d in get32 (d' ++ post) off = Some i32 ∧ d `prefix_of` d')
  ∧ (let '(off, d') := add64 i64 d in get64 (d' ++ post) off = Some i64 ∧ d `prefix_of` d')
  ∧ (let '(off, d') := addBitString v d in
     getBitString (sizeZ v) (d' ++ post) off = Some v ∧ d `prefix_of` d').
Proof.
  intros H8 H16 H32 H64 Hlt. pose proof (sizeZ_nonneg d). pose proof (sizeZ_nonneg v).
  assert (∀ n x, Z.of_nat n <= 8 → sizeZ (d ++ be_bytes n x) < 2147483648) as Hsz.
  { intros. rewrite sizeZ_app, sizeZ_be_bytes. lia. }
  split_and!.
  - unfold add8. rewrite s32_id by mint_range. rewrite <- app_assoc, get8_mid by lia.
    split; [done|by apply prefix_app_r].
  - pose proof (add16_bytes i16 d) as Hd. unfold add16 in *. cbn [snd] in Hd. rewrite Hd.
    rewrite s32_id by mint_range. rewrite <- app_assoc, get16_mid by
      first [apply be_bytes_length|apply be_bytes_byte_list|apply Hsz; lia].
    rewrite be_val_bytes_id by (unfold is_u16 in *; simpl; lia).
    split; [done|by apply prefix_app_r].
  - pose proof (add32_bytes i32 d) as Hd. unfold add32 in *. cbn [snd] in Hd. rewrite Hd.
    rewrite s32_id by mint_range. rewrite <- app_assoc, get32_mid by
      first [apply be_bytes_length|apply be_bytes_byte_list|apply Hsz; lia].
    rewrite be_val_bytes_id by (unfold is_u32 in *; simpl; lia).
    split; [done|by apply prefix_app_r].
  - pose proof (add64_bytes i64 d) as Hd. unfold add64 in *. cbn [snd] in Hd. rewrite Hd.
    rewrite s32_id by mint_range. rewrite <- app_assoc, get64_mid by
      first [apply be_bytes_length|apply be_bytes_byte_list|apply Hsz; lia].
    rewrite be_val_bytes_id by (unfold is_u64 in *; simpl; lia).
    split; [done|by apply prefix_app_r].
  - unfold addBitString. rewrite s32_id by mint_range. rewrite <- app_assoc.
    split; [|by apply prefix_app_r]. apply getRaw_mid. rewrite sizeZ_app. lia.
Qed.

Lemma integers_roundtrip_witness :
  get64 ((add64 72623859790382856 [9; 9]).2 ++ [7]) 2 = Some 72623859790382856.
Proof.
  apply (integers_roundtrip [9; 9] [7] 1 2 3 72623859790382856 []);
    unfold is_u8, is_u16, is_u32, is_u64, sizeZ; simpl; lia.
Defined.

(** A field identifier with type and name in 1..255 is encoded in one to three
    bytes and decoded to the same pair, by [Serializer::getFieldID] at its offset and
    by [SerialIter::getFieldID], which consumes exactly the bytes written. *)
Theorem fieldID_roundtrip (d post : blob) (type name : Z) :
  0 < type < 256 → 0 < name < 256 → sizeZ d + 3 < 2147483648 →
  ∃ enc, addFieldID type name d = (sizeZ d, d ++ enc) ∧ 1 <= sizeZ enc <= 3
    ∧ getFieldID (d ++ enc ++ post) (sizeZ d) = Some (type, name)
    ∧ si_getFieldID (si_on d (enc ++ post)) = Ok (type, name, si_on (d ++ enc) post).
Proof.
  intros Ht Hn Hlt. pose proof (sizeZ_nonneg d).
  destruct (addFieldID_code type name d Ht Hn) as (enc & Heq & Hc & Hl).
  exists enc. rewrite Heq, s32_id by mint_range. split_and!; try lia; try done.
  - apply getFieldID_code; [done|]. rewrite sizeZ_app. lia.
  - by apply si_getFieldID_code.
Qed.

Lemma fieldID_roundtrip_witness :
  (addFieldID 17 4 [1; 2]).2 = [1; 2; 4; 17] ∧
  ∃ enc, addFieldID 17 4 [1; 2] = (sizeZ [1; 2], [1; 2] ++ enc) ∧ 1 <= sizeZ enc <= 3
    ∧ getFieldID ([1; 2] ++ enc ++ [5]) (sizeZ [1; 2]) = Some (17, 4)
    ∧ si_getFieldID (si_on [1; 2] (enc ++ [5])) = Ok (17, 4, si_on ([1; 2] ++ enc) [5]).
Proof.
  split; [reflexivity|].
  apply (fieldID_roundtrip [1; 2] [5] 17 4); unfold sizeZ; simpl; lia.
Defined.

(** A blob of at most 918744 bytes is appended with a length prefix of
    [encodeLengthLength] bytes and read back unchanged, with its total length, by
    [Serializer::getVL] and by [SerialIter::getVL], whatever follows it; a longer blob
    makes [addVL] throw. *)
Theorem vl_roundtrip (d v post : blob) :
  sizeZ d + sizeZ v + 3 < 2147483648 →
  (sizeZ v <= 918744 →
   ∃ enc, addVL v d = Ok (sizeZ d, d ++ enc ++ v)
     ∧ encodeLengthLength (sizeZ v) = Ok (sizeZ enc)
     ∧ getVL (d ++ (enc ++ v) ++ post) (sizeZ d) = Ok (Some (v, sizeZ enc + sizeZ v))
     ∧ getVLLength (d ++ (enc ++ v) ++ post) (sizeZ d) = Ok (Some (sizeZ v))
     ∧ si_getVL (si_on d ((enc ++ v) ++ post)) = Ok (v, si_on (d ++ enc ++ v) post))
  ∧ (918744 < sizeZ v → addVL v d = Throw "lenlen").
Proof.
  intros Hlt. pose proof (sizeZ_nonneg d). pose proof (sizeZ_nonneg v). split; intros Hv.
  - destruct (addVL_code v d Hv) as (enc & Hc & Heq). exists enc.
    assert (sizeZ enc <= 3) as Hl3.
    { destruct Hc as (_ & _ & Hc). destruct enc as [|? [|? [|? [|]]]]; try done; unfold sizeZ; simpl; lia. }
    rewrite Heq, s32_id by mint_range. split_and!; try done.
    + apply Hc.
    + apply getVL_code; [done|]. rewrite !sizeZ_app. lia.
    + rewrite <- app_assoc. unfold getVLLength.
      destruct (vl_prefix_code _ enc d (v ++ post) Hc) as (b1 & H1 & H2 & H3);
        [rewrite sizeZ_app; lia|].
      rewrite H1, H2. simpl. by rewrite H3.
    + rewrite <- app_assoc. unfold si_getVL.
      rewrite (si_getVLDataLength_code _ _ _ _ Hc). simpl.
      rewrite si_getRaw_on by lia. by rewrite <- app_assoc.
  - unfold addVL, addEncoded. rewrite s32_id by mint_range.
    vl_tests. done.
Qed.

Lemma vl_roundtrip_witness :
  ∃ enc, addVL (replicate 200 7) [1] = Ok (1, [1] ++ enc ++ replicate 200 7)
    ∧ si_getVL (si_on [1] ((enc ++ replicate 200 7) ++ [9]))
      = Ok (replicate 200 7, si_on ([1] ++ enc ++ replicate 200 7) [9]).
Proof.
  destruct (vl_roundtrip [1] (replicate 200 7) [9]) as [H _].
  - vm_compute. reflexivity.
  - destruct H as (enc & H1 & _ & _ & _ & H2); [vm_compute; discriminate|].
    exists enc. split; [exact H1|exact H2].
Defined.

(** C34: Every reader of [SerialIter] either throws or consumes a prefix of the bytes
    that are left: it never moves the cursor outside its buffer, and [reset] brings
    it back to the start. *)
Theorem serialIter_stays_inside (pre rest : blob) (n : Z) :
  byte_list (pre ++ rest) → 0 <= n < 18446744073709551616 →
  let inside {A} (r : result (A * SerialIter)) :=
    match r with
    | Ok (_, s') => (∃ c rest', rest = c ++ rest' ∧ s' = si_on (pre ++ c) rest')
                    ∧ si_reset s' = mkSerialIter (pre ++ rest)
    | Throw _ => True
    end in
  let s := si_on pre rest in
  inside (si_get8 s) ∧ inside (si_get16 s) ∧ inside (si_get32 s) ∧ inside (si_get64 s)
  ∧ inside (si_getBitString n s) ∧ inside (si_getRaw n s) ∧ inside (si_getFieldID s)
  ∧ inside (si_getVL s).
Proof.
  intros Hb Hn inside s.
  assert (∀ A (f : SerialIter → result (A * SerialIter)), si_moves f → inside A (f s)) as Hin.
  { intros A f Hf. specialize (Hf pre rest). subst s inside. simpl.
    destruct (f (si_on pre rest)) as [[a s']|w]; [|done]. split; [done|].
    destruct Hf as (c & rest' & -> & ->). rewrite si_reset_on. by rewrite app_assoc. }
  split_and!; [apply Hin, si_get8_moves|apply Hin, si_get16_moves|apply Hin, si_get32_moves
    |apply Hin, si_get64_moves|apply Hin, si_getBitString_moves; lia|by apply Hin, si_getRaw_moves
    |apply Hin, si_getFieldID_moves|].
  - unfold inside, si_getVL. pose proof (si_getVLDataLength_moves pre rest) as Hm. fold s in Hm.
    destruct (si_getVLDataLength s) as [[L s1]|w] eqn:E; simpl; [|done].
    pose proof (si_getVLDataLength_range s L s1 Hb E) as HL.
    destruct Hm as (c & rest' & Hr & ->).
    pose proof (si_getRaw_moves L ltac:(lia) (pre ++ c) rest') as Hm.
    destruct (si_getRaw L _) as [[b s']|w]; [|done]. destruct Hm as (c' & rest'' & -> & ->).
    split.
    + exists (c ++ c'), rest''. by rewrite Hr, !app_assoc.
    + rewrite si_reset_on, Hr. by rewrite !app_assoc.
Qed.

Lemma serialIter_stays_inside_witness :
  si_get16 (si_on [1] [2; 3; 4]) = Ok (515, si_on [1; 2; 3] [4]) ∧
  match si_getVL (si_on [1] [2; 3; 4]) with
  | Ok (_, s') => si_reset s' = mkSerialIter [1; 2; 3; 4]
  | Throw _ => False
  end.
Proof.
  split; [reflexivity|].
  destruct (serialIter_stays_inside [1] [2; 3; 4] 0) as (_ & _ & _ & _ & _ & _ & _ & H);
    [repeat constructor; unfold is_u8; lia|lia|].
  destruct (si_getVL (si_on [1] [2; 3; 4])) as [[b s']|w] eqn:E; [apply H|discriminate E].
Defined.
