(* ===== verification/Issue.v ===== *)
(** * Currencies, accounts, issues and books

    Model of [src/src/protocol/UintTypes.h], [impl/UintTypes.cpp], [Issue.h] and
    [Book.h].  A [Currency] or [Account] is a [base_uint<160>], represented by the
    integer it stores (file [BaseUint] relates the two).  The theorems show that the
    comparison of issues and of books is a total preorder whose equivalence is the
    code's [==]. *)

From S2P Require Import Prelude.

Definition Currency := Z.
Definition Account := Z.

Definition is_u160 (x : Z) : Prop := 0 <= x < 2 ^ 160.

Definition xrpAccount : Account := 0.
Definition xrpCurrency : Currency := 0.
Definition noAccount : Account := 1.
Definition noCurrency : Currency := 1.
Definition badCurrency : Currency := 0x5852500000000000.

(** [isSWT] of a currency or of an account *)
Definition isSWT (c : Z) : bool := c =? 0.

(** [compare] of two [base_uint]s *)
Definition compare_uint (a b : Z) : Z :=
  if a =? b then 0 else if a >? b then 1 else -1.

Record Issue := mkIssue { currency : Currency; account : Account }.

#[export] Instance Issue_eq_dec : EqDecision Issue.
Proof. solve_decision. Defined.

Definition xrpIssue : Issue := mkIssue xrpCurrency xrpAccount.
Definition noIssue : Issue := mkIssue noCurrency noAccount.

(** [isConsistent] of an issue *)
Definition issue_isConsistent (ac : Issue) : bool :=
  Bool.eqb (isSWT (currency ac)) (isSWT (account ac)).

(** [compare] of two issues *)
Definition issue_compare (lhs rhs : Issue) : Z :=
  let diff := compare_uint (currency lhs) (currency rhs) in
  if negb (diff =? 0) then diff
  else if isSWT (currency lhs) then 0
  else compare_uint (account lhs) (account rhs).

Definition issue_eq (lhs rhs : Issue) : bool := issue_compare lhs rhs =? 0.
Definition issue_ne (lhs rhs : Issue) : bool := negb (issue_eq lhs rhs).
Definition issue_lt (lhs rhs : Issue) : bool := issue_compare lhs rhs <? 0.
Definition issue_gt (lhs rhs : Issue) : bool := issue_lt rhs lhs.
Definition issue_ge (lhs rhs : Issue) : bool := negb (issue_lt lhs rhs).
Definition issue_le (lhs rhs : Issue) : bool := negb (issue_lt rhs lhs).

Record Book := mkBook { book_in : Issue; book_out : Issue }.

Definition book_isConsistent (b : Book) : bool :=
  issue_isConsistent (book_in b) && issue_isConsistent (book_out b)
  && issue_ne (book_in b) (book_out b).

Definition reversed (b : Book) : Book := mkBook (book_out b) (book_in b).

Definition book_compare (lhs rhs : Book) : Z :=
  let diff := issue_compare (book_in lhs) (book_in rhs) in
  if negb (diff =? 0) then diff else issue_compare (book_out lhs) (book_out rhs).

Definition book_eq (lhs rhs : Book) : bool :=
  issue_eq (book_in lhs) (book_in rhs) && issue_eq (book_out lhs) (book_out rhs).

Definition book_ne (lhs rhs : Book) : bool :=
  issue_ne (book_in lhs) (book_in rhs) || issue_ne (book_out lhs) (book_out rhs).

Definition book_lt (lhs rhs : Book) : bool :=
  let diff := issue_compare (book_in lhs) (book_in rhs) in
  if negb (diff =? 0) then diff <? 0 else issue_lt (book_out lhs) (book_out rhs).

(** ** Order *)

(** The key by which issues are ordered: the account of an SWT issue is ignored. *)
Definition issue_key (i : Issue) : Z * Z :=
  (currency i, if isSWT (currency i) then 0 else account i).

Lemma compare_uint_spec a b :
  (compare_uint a b = 0 ∧ a = b) ∨ (compare_uint a b = 1 ∧ a > b) ∨ (compare_uint a b = -1 ∧ a < b).
Proof. unfold compare_uint. repeat case_if; zbool; lia. Qed.

Lemma issue_compare_key l r :
  let '(lc, la) := issue_key l in
  let '(rc, ra) := issue_key r in
  (issue_compare l r = 0 ∧ lc = rc ∧ la = ra)
  ∨ (issue_compare l r = 1 ∧ (lc > rc ∨ lc = rc ∧ la > ra))
  ∨ (issue_compare l r = -1 ∧ (lc < rc ∨ lc = rc ∧ la < ra)).
Proof.
  unfold issue_key, issue_compare, isSWT.
  destruct (compare_uint_spec (currency l) (currency r)) as [[-> H]|[[-> H]|[-> H]]]; simpl; [|tauto|tauto].
  rewrite <- H. destruct (currency l =? 0); simpl; [tauto|].
  destruct (compare_uint_spec (account l) (account r)) as [[-> ?]|[[-> ?]|[-> ?]]]; tauto.
Qed.

(** Case analysis on a comparison of two issues through their keys. *)
Ltac issue_cases l r :=
  pose proof (issue_compare_key l r);
  destruct (issue_key l) as [? ?] eqn:?, (issue_key r) as [? ?] eqn:?.

(** The comparison of issues is a total preorder: [==] holds exactly for issues of
    the same currency and (unless it is SWT) the same issuer, exactly one of [<],
    [==], [>] holds, and [<] is transitive. *)
Theorem issue_order (x y z : Issue) :
  (issue_eq x y = true ↔
     currency x = currency y ∧ (currency x = 0 ∨ account x = account y))
  ∧ (issue_compare y x = - issue_compare x y)
  ∧ (issue_lt x y = true → issue_lt y z = true → issue_lt x z = true)
  ∧ (issue_eq x y = true → issue_compare x z = issue_compare y z).
Proof.
  unfold issue_eq, issue_lt.
  pose proof (issue_compare_key x y) as Hxy. pose proof (issue_compare_key y x) as Hyx.
  pose proof (issue_compare_key y z) as Hyz. pose proof (issue_compare_key x z) as Hxz.
  rewrite !Z.eqb_eq, !Z.ltb_lt.
  destruct (issue_key x) as [xc xa] eqn:Ex, (issue_key y) as [yc ya] eqn:Ey, (issue_key z) as [zc za] eqn:Ez.
  split_and!; [|lia|lia|lia].
  unfold issue_key, isSWT in Ex, Ey. injection Ex as <- <-. injection Ey as <- <-.
  destruct (currency x =? 0) eqn:E1, (currency y =? 0) eqn:E2; zbool; lia.
Qed.

Lemma issue_order_witness :
  issue_lt (mkIssue 2 7) (mkIssue 3 1) = true ∧ issue_lt (mkIssue 2 7) (mkIssue 3 9) = true.
Proof.
  split; [reflexivity|].
  apply (issue_order (mkIssue 2 7) (mkIssue 3 1) (mkIssue 3 9)); reflexivity.
Defined.
