(* ===== verification/BaseUint.v ===== *)
(** * base_uint: fixed-width big integers

    Model of [src/src/common/base/base_uint.h] and [strHex.h]/[impl/strHex.cpp].  A
    [base_uint<Bits>] is the array [pn] of its [Bits / 32] machine words, each holding four
    bytes of the big-endian number; the host is little-endian, so the bytes of a word are
    in reverse order and [be32toh]/[htobe32] swap them.  The theorems relate the word loops
    to the integer the object stands for ([val]), which is how the rest of the development
    represents it. *)

From S2P Require Import Prelude Bytes.

(** The bytes of a word in memory, and the conversion to and from big-endian *)
Definition word_bytes (w : Z) : list Z := rev (be_bytes 4 w).
Definition bswap32 (w : Z) : Z := be_val (word_bytes w).

(** [begin () .. end ()]: the bytes of the object *)
Definition bytes_of (pn : list Z) : list Z := concat (map word_bytes pn).

(** Writing bytes into the object *)
Fixpoint of_bytes (l : list Z) : list Z :=
  match l with
  | a :: b :: c :: d :: r => be_val [d; c; b; a] :: of_bytes r
  | _ => []
  end.

Definition bu_zero (width : nat) : list Z := replicate width 0.

(** [operator= (std::uint64_t)]: the last two words *)
Definition bu_of_u64 (width : nat) (uHost : Z) : list Z :=
  bu_zero (width - 2) ++ [bswap32 (u32 (Z.shiftr uHost 32)); bswap32 (u32 uHost)].

Definition bu_signum (pn : list Z) : Z := if existsb (λ w, negb (w =? 0)) pn then 1 else 0.

(** [~pn[i]] on 32 bits *)
Definition bu_not (pn : list Z) : list Z := map (λ w, Z.lxor w 4294967295) pn.
Definition bu_xor (a b : list Z) : list Z := zip_with Z.lxor a b.
Definition bu_and (a b : list Z) : list Z := zip_with Z.land a b.
Definition bu_or (a b : list Z) : list Z := zip_with Z.lor a b.

(** The loops run from the last word to the first: [l] is the array reversed. *)
Fixpoint incr_loop (l : list Z) : list Z :=
  match l with
  | [] => []
  | w :: r =>
      let w' := bswap32 (u32 (bswap32 w + 1)) in
      if negb (w' =? 0) then w' :: r else w' :: incr_loop r
  end.
Definition bu_incr (pn : list Z) : list Z := rev (incr_loop (rev pn)).

Fixpoint decr_loop (l : list Z) : list Z :=
  match l with
  | [] => []
  | prev :: r =>
      let w' := bswap32 (u32 (bswap32 prev - 1)) in
      if negb (prev =? 0) then w' :: r else w' :: decr_loop r
  end.
Definition bu_decr (pn : list Z) : list Z := rev (decr_loop (rev pn)).

Fixpoint add_loop (carry : Z) (a b : list Z) : list Z :=
  match a, b with
  | wa :: ra, wb :: rb =>
      let n := u64 (carry + bswap32 wa + bswap32 wb) in
      bswap32 (Z.land n 4294967295) :: add_loop (Z.shiftr n 32) ra rb
  | _, _ => []
  end.
Definition bu_add (a b : list Z) : list Z := rev (add_loop 0 (rev a) (rev b)).

(** [compare]: [std::mismatch] on the bytes *)
Fixpoint compare_bytes (a b : list Z) : Z :=
  match a, b with
  | x :: a, y :: b => if x =? y then compare_bytes a b else if x >? y then 1 else -1
  | _, _ => 0
  end.
Definition bu_compare (a b : list Z) : Z := compare_bytes (bytes_of a) (bytes_of b).

Definition bu_lt (a b : list Z) : bool := bu_compare a b <? 0.
Definition bu_le (a b : list Z) : bool := bu_compare a b <=? 0.
Definition bu_gt (a b : list Z) : bool := bu_compare a b >? 0.
Definition bu_ge (a b : list Z) : bool := bu_compare a b >=? 0.
Definition bu_eq (a b : list Z) : bool := bu_compare a b =? 0.
Definition bu_ne (a b : list Z) : bool := negb (bu_compare a b =? 0).

(** ** Hexadecimal text: characters are their codes *)

Definition charHex (digit : Z) : Z := if digit <? 10 then 48 + digit else 65 + (digit - 10).

Definition charUnHex (c : Z) : Z :=
  if (48 <=? c) && (c <? 58) then c - 48
  else if (65 <=? c) && (c <? 71) then 10 + (c - 65)
  else if (97 <=? c) && (c <? 103) then 10 + (c - 97)
  else -1.

Definition strHex (l : list Z) : list Z :=
  concat (map (λ c, [charHex (Z.shiftr c 4); charHex (Z.land c 15)]) l).

Definition bu_to_string (pn : list Z) : list Z := strHex (bytes_of pn).

Definition isspace (c : Z) : bool := (c =? 32) || ((9 <=? c) && (c <=? 13)).
Definition is_hex (c : Z) : bool := negb (charUnHex c =? -1).

Fixpoint skip_while (p : Z → bool) (l : list Z) : list Z :=
  match l with c :: r => if p c then skip_while p r else l | [] => [] end.
Fixpoint take_while (p : Z → bool) (l : list Z) : list Z :=
  match l with c :: r => if p c then c :: take_while p r else [] | [] => [] end.

(** The characters up to the terminating NUL *)
Definition c_str (l : list Z) : list Z := take_while (λ c, negb (c =? 0)) l.

(** [while (pBegin != pEnd)] over pairs of digits *)
Fixpoint hex_pairs (l : list Z) : list Z :=
  match l with
  | h :: lo :: r => u8 (Z.lor (Z.shiftl (charUnHex h) 4) (charUnHex lo)) :: hex_pairs r
  | [h] => [u8 (Z.lor (Z.shiftl (charUnHex h) 4) 0)]
  | [] => []
  end.

(** [SetHex (psz, bStrict)]: the new value and whether the whole text was read *)
Definition SetHex (width : nat) (str : list Z) (bStrict : bool) : list Z * bool :=
  let size := (4 * width)%nat in
  let psz := c_str str in
  let psz := if negb bStrict then skip_while isspace psz else psz in
  let psz := match psz with
             | c0 :: c1 :: r =>
                 if negb bStrict && (c0 =? 48) && ((c1 =? 120) || (c1 =? 88)) then r else psz
             | _ => psz
             end in
  let digits := take_while is_hex psz in
  let rest := skip_while is_hex psz in
  let digits := if (2 * size <? length digits)%nat then drop (length digits - 2 * size) digits else digits in
  let out := if Nat.odd (length digits)
             then match digits with h :: r => charUnHex h :: hex_pairs r | [] => [] end
             else hex_pairs digits in
  (of_bytes (replicate (size - length out) 0 ++ out), match rest with [] => true | _ => false end).

(** [SetHexExact]: exactly two digits per byte; a failure leaves the object partly
    overwritten, here with its old bytes behind the new ones. *)
Fixpoint exact_loop (n : nat) (str : list Z) (done : list Z) : list Z * bool :=
  match n with
  | O => (done, true)
  | S n =>
      let cHigh := charUnHex (nth 0 str 0) in
      let cLow := charUnHex (nth 1 str 0) in
      if (cHigh =? -1) || (cLow =? -1) then (done, false)
      else exact_loop n (drop 2 str) (done ++ [u8 (Z.lor (Z.shiftl cHigh 4) cLow)])
  end.
Definition SetHexExact (pn : list Z) (str : list Z) : list Z * bool :=
  let size := (4 * length pn)%nat in
  let '(out, ok) := exact_loop size (c_str str) [] in
  (of_bytes (out ++ drop (length out) (bytes_of pn)), ok).

(** ** The integer an object stands for *)

Definition val (pn : list Z) : Z := be_val (bytes_of pn).
Definition words (pn : list Z) : Prop := Forall is_u32 pn.

Lemma word_bytes_length w : length (word_bytes w) = 4%nat.
Proof. unfold word_bytes. by rewrite length_rev, be_bytes_length. Qed.

Lemma word_bytes_byte_list w : byte_list (word_bytes w).
Proof. unfold word_bytes. apply Forall_rev, be_bytes_byte_list. Qed.

Lemma bswap32_range w : is_u32 (bswap32 w).
Proof.
  pose proof (be_val_bound (word_bytes w) (word_bytes_byte_list w)) as H.
  rewrite word_bytes_length in H. exact H.
Qed.

Lemma bswap32_involutive w : is_u32 w → bswap32 (bswap32 w) = w.
Proof.
  intros Hw. unfold bswap32 at 1, word_bytes at 1.
  pose proof (be_bytes_val (word_bytes w) (word_bytes_byte_list w)) as H.
  rewrite word_bytes_length in H. unfold bswap32. rewrite H. unfold word_bytes. rewrite rev_involutive.
  by apply be_val_bytes_id.
Qed.

Lemma word_bytes_bswap x : is_u32 x → word_bytes (bswap32 x) = be_bytes 4 x.
Proof.
  intros Hx. unfold bswap32, word_bytes at 1.
  pose proof (be_bytes_val (word_bytes x) (word_bytes_byte_list x)) as H.
  rewrite word_bytes_length in H. rewrite H. unfold word_bytes. by rewrite rev_involutive.
Qed.

Lemma bswap32_zero w : is_u32 w → (w =? 0) = (bswap32 w =? 0).
Proof.
  intros Hw. destruct (w =? 0) eqn:E; zbool; [by subst|].
  symmetry. apply Z.eqb_neq. intros Hz. apply E. rewrite <- (bswap32_involutive w Hw), Hz. done.
Qed.

Lemma bytes_of_app a b : bytes_of (a ++ b) = bytes_of a ++ bytes_of b.
Proof. unfold bytes_of. by rewrite map_app, concat_app. Qed.

Lemma bytes_of_cons w pn : bytes_of (w :: pn) = word_bytes w ++ bytes_of pn.
Proof. done. Qed.

Lemma bytes_of_length pn : length (bytes_of pn) = (4 * length pn)%nat.
Proof.
  induction pn as [|w pn IH]; [done|].
  rewrite bytes_of_cons, length_app, word_bytes_length, IH. simpl. lia.
Qed.

Lemma bytes_of_byte_list pn : byte_list (bytes_of pn).
Proof.
  induction pn as [|w pn IH]; [constructor|]. rewrite bytes_of_cons.
  apply Forall_app. split; [apply word_bytes_byte_list|done].
Qed.

Lemma val_snoc pn w : val (pn ++ [w]) = val pn * 4294967296 + bswap32 w.
Proof.
  unfold val. rewrite bytes_of_app, be_val_app, bytes_of_length, bytes_of_cons. simpl length.
  by rewrite (app_nil_r (word_bytes w) : word_bytes w ++ bytes_of [] = _).
Qed.

Lemma val_range pn : 0 <= val pn < 2 ^ (32 * Z.of_nat (length pn)).
Proof.
  unfold val. pose proof (be_val_bound (bytes_of pn) (bytes_of_byte_list pn)) as H.
  rewrite bytes_of_length in H. replace (32 * Z.of_nat (length pn)) with (8 * Z.of_nat (4 * length pn)) by lia.
  rewrite Z.pow_mul_r by lia. exact H.
Qed.

(** Objects of one width with the same integer are the same. *)
Lemma word_bytes_inj a b : is_u32 a → is_u32 b → word_bytes a = word_bytes b → a = b.
Proof.
  intros Ha Hb H. rewrite <- (bswap32_involutive a Ha), <- (bswap32_involutive b Hb). unfold bswap32 at 2 4. by rewrite H.
Qed.

Lemma bytes_of_inj a b : words a → words b → length a = length b → bytes_of a = bytes_of b → a = b.
Proof.
  intros Ha. revert b. induction Ha as [|x a Hx Ha IH]; intros b Hb Hl He; destruct b as [|y b]; try done.
  inversion_clear Hb. rewrite !bytes_of_cons in He.
  apply app_inj_1 in He as [He1 He2]; [|by rewrite !word_bytes_length].
  f_equal; [by apply word_bytes_inj|]. apply IH; [done|by injection Hl|exact He2].
Qed.

Lemma val_inj a b : words a → words b → length a = length b → val a = val b → a = b.
Proof.
  intros Ha Hb Hl Hv. apply bytes_of_inj; [done..|].
  apply be_val_inj; auto using bytes_of_byte_list. by rewrite !bytes_of_length, Hl.
Qed.

(** ** Arithmetic *)

(** The value of a reversed array. *)
Definition lval (l : list Z) : Z := val (rev l).
Lemma lval_cons w l : lval (w :: l) = lval l * 4294967296 + bswap32 w.
Proof. unfold lval. simpl rev. apply val_snoc. Qed.

Definition modulus (l : list Z) : Z := 2 ^ (32 * Z.of_nat (length l)).
Lemma modulus_cons w l : modulus (w :: l) = 4294967296 * modulus l.
Proof.
  unfold modulus. simpl length. rewrite Nat2Z.inj_succ. replace (32 * Z.succ (Z.of_nat (length l)))
    with (32 + 32 * Z.of_nat (length l)) by lia. by rewrite Z.pow_add_r by lia.
Qed.
Lemma lval_range l : 0 <= lval l < modulus l.
Proof. unfold lval, modulus. rewrite <- length_rev. apply val_range. Qed.

Lemma word_set x : is_u32 x → is_u32 (bswap32 x) ∧ bswap32 (bswap32 x) = x.
Proof. split; [apply bswap32_range|by apply bswap32_involutive]. Qed.

Lemma incr_loop_spec l :
  words l → words (incr_loop l) ∧ length (incr_loop l) = length l
  ∧ lval (incr_loop l) = (lval l + 1) mod modulus l.
Proof.
  induction 1 as [|w l Hw Hl IH]; [by repeat constructor|]. destruct IH as (IHw & IHl & IHv).
  pose proof (lval_range l) as Hr. pose proof (bswap32_range w) as Hb. unfold is_u32 in Hb.
  set (x := u32 (bswap32 w + 1)). assert (is_u32 x) as Hx by apply u32_range.
  destruct (word_set x Hx) as [Hwx Hxx]. cbn [incr_loop]. fold x.
  rewrite (bswap32_zero _ Hwx), Hxx.
  destruct (x =? 0) eqn:E; zbool; cbn [negb].
  - split; [by constructor|]. split; [simpl; congruence|].
    rewrite lval_cons, Hxx, E, IHv, lval_cons, modulus_cons.
    assert (bswap32 w = 4294967295) as -> by (unfold x, u32 in E; zlia).
    destruct (decide (lval l + 1 = modulus l)) as [He|He].
    + rewrite He, Z.mod_same by lia. symmetry.
      replace (lval l * 4294967296 + 4294967295 + 1) with (1 * (4294967296 * modulus l)) by lia.
      rewrite Z.mod_mul; lia.
    + rewrite !Z.mod_small by lia. lia.
  - split; [by constructor|]. split; [done|].
    rewrite !lval_cons, Hxx, modulus_cons.
    assert (bswap32 w + 1 < 4294967296).
    { destruct (decide (bswap32 w + 1 = 4294967296)) as [He|]; [|lia].
      exfalso. apply E. unfold x. by rewrite He. }
    unfold x. rewrite u32_id by mint_range. rewrite Z.mod_small by nia. lia.
Qed.

Lemma decr_loop_spec l :
  words l → words (decr_loop l) ∧ length (decr_loop l) = length l
  ∧ lval (decr_loop l) = (lval l - 1) mod modulus l.
Proof.
  induction 1 as [|w l Hw Hl IH]; [by repeat constructor|]. destruct IH as (IHw & IHl & IHv).
  pose proof (lval_range l) as Hr. pose proof (bswap32_range w) as Hb. unfold is_u32 in Hb.
  set (x := u32 (bswap32 w - 1)). assert (is_u32 x) as Hx by apply u32_range.
  destruct (word_set x Hx) as [Hwx Hxx]. cbn [decr_loop]. fold x.
  rewrite (bswap32_zero w Hw). destruct (bswap32 w =? 0) eqn:E; zbool; cbn [negb].
  - split; [by constructor|]. split; [simpl; congruence|].
    rewrite lval_cons, Hxx, IHv, lval_cons, modulus_cons, E.
    assert (x = 4294967295) as -> by (unfold x; by rewrite E).
    destruct (decide (lval l = 0)) as [He|He].
    + rewrite He. rewrite <- (Z.mod_unique (0 - 1) (modulus l) (-1) (modulus l - 1)) by (try left; lia).
      apply Z.mod_unique with (-1); lia.
    + rewrite !Z.mod_small by lia. lia.
  - split; [by constructor|]. split; [done|].
    rewrite !lval_cons, Hxx, modulus_cons.
    assert (x = bswap32 w - 1) as -> by (apply u32_id; mint_range).
    rewrite Z.mod_small by nia. lia.
Qed.

Lemma add_loop_spec c a b :
  words a → words b → length a = length b → 0 <= c <= 1 →
  words (add_loop c a b) ∧ length (add_loop c a b) = length a
  ∧ lval (add_loop c a b) = (lval a + lval b + c) mod modulus a.
Proof.
  intros Ha. revert c b. induction Ha as [|x a Hx Ha IH]; intros c b Hb Hl Hc;
    destruct b as [|y b]; try done.
  { split_and!; [constructor|done|]. unfold modulus. simpl. by rewrite Z.mod_1_r. }
  inversion_clear Hb. cbn [add_loop].
  pose proof (bswap32_range x) as Hbx. pose proof (bswap32_range y) as Hby. unfold is_u32 in Hbx, Hby.
  rewrite u64_id by mint_range. set (n := c + bswap32 x + bswap32 y).
  rewrite Z.shiftr_div_pow2 by lia. change (2 ^ 32) with 4294967296.
  change 4294967295 with (Z.ones 32). rewrite Z.land_ones by lia. change (2 ^ 32) with 4294967296.
  destruct (IH (n / 4294967296) b) as (IHw & IHl & IHv); [done|by injection Hl|unfold n; zlia|].
  assert (is_u32 (n mod 4294967296)) as Hn by (unfold is_u32; by apply Z.mod_pos_bound).
  destruct (word_set _ Hn) as [Hw1 Hw2].
  split; [by constructor|]. split; [simpl; congruence|].
  rewrite lval_cons, Hw2, IHv, !lval_cons, modulus_cons.
  assert (0 < modulus a) by (pose proof (lval_range a); lia).
  rewrite (Z.rem_mul_r (lval a * 4294967296 + bswap32 x + (lval b * 4294967296 + bswap32 y) + c)) by lia.
  replace (lval a * 4294967296 + bswap32 x + (lval b * 4294967296 + bswap32 y) + c)
    with (n + (lval a + lval b) * 4294967296) by (unfold n; lia).
  rewrite Z.mod_add, Z.div_add by lia. replace (n / 4294967296 + (lval a + lval b)) with (lval a + lval b + n / 4294967296) by lia.
  lia.
Qed.

Lemma lval_rev l : lval (rev l) = val l.
Proof. unfold lval. by rewrite rev_involutive. Qed.
Lemma words_rev l : words l → words (rev l).
Proof. apply Forall_rev. Qed.
Lemma modulus_rev l : modulus (rev l) = modulus l.
Proof. unfold modulus. by rewrite length_rev. Qed.

(** The carry loops of [++], [--] and [+=] on byte-swapped words are addition of
    1, of -1 and of the operand modulo [2^Bits], for every width. *)
Theorem base_uint_arith a b :
  words a → words b → length a = length b →
  (words (bu_incr a) ∧ length (bu_incr a) = length a ∧ val (bu_incr a) = (val a + 1) mod modulus a)
  ∧ (words (bu_decr a) ∧ length (bu_decr a) = length a ∧ val (bu_decr a) = (val a - 1) mod modulus a)
  ∧ (words (bu_add a b) ∧ length (bu_add a b) = length a
     ∧ val (bu_add a b) = (val a + val b) mod modulus a).
Proof.
  intros Ha Hb Hl. unfold bu_incr, bu_decr, bu_add.
  destruct (incr_loop_spec (rev a) (words_rev a Ha)) as (H1 & H2 & H3).
  destruct (decr_loop_spec (rev a) (words_rev a Ha)) as (H4 & H5 & H6).
  destruct (add_loop_spec 0 (rev a) (rev b)) as (H7 & H8 & H9);
    [by apply words_rev|by apply words_rev|by rewrite !length_rev|lia|].
  rewrite !lval_rev, !modulus_rev, ?Z.add_0_r in *. unfold lval in *. rewrite length_rev in *.
  split; [|split]; (split; [by apply words_rev|split; [by rewrite ?length_rev|done]]).
Qed.

Lemma base_uint_arith_witness :
  val (bu_incr [0; 4294967295]) = 4294967296 ∧ val (bu_decr [0; 0]) = 18446744073709551615.
Proof.
  assert (words [0; 4294967295]) as H1 by (by repeat apply Forall_cons_2).
  assert (words [0; 0]) as H2 by (by repeat apply Forall_cons_2).
  destruct (base_uint_arith [0; 4294967295] [0; 0] H1 H2 eq_refl) as ((_ & _ & ->) & _ & _).
  destruct (base_uint_arith [0; 0] [0; 0] H2 H2 eq_refl) as (_ & (_ & _ & ->) & _).
  vm_compute. done.
Defined.

(** ** Order *)

Lemma compare_bytes_spec a b :
  byte_list a → byte_list b → length a = length b →
  compare_bytes a b = Z.sgn (be_val a - be_val b).
Proof.
  intros Ha. revert b. induction Ha as [|x a Hx Ha IH]; intros b Hb Hl; destruct b as [|y b]; try done.
  inversion_clear Hb. injection Hl as Hl. cbn [compare_bytes].
  change (x :: a) with ([x] ++ a). change (y :: b) with ([y] ++ b). rewrite !be_val_app, Hl.
  unfold be_val at 1 3. simpl foldl. rewrite !Z.add_0_l.
  pose proof (be_val_bound a Ha) as Hra. pose proof (be_val_bound b ltac:(done)) as Hrb. rewrite Hl in Hra.
  set (B := 256 ^ Z.of_nat (length b)) in *. unfold is_u8 in *.
  destruct (x =? y) eqn:E; zbool; [subst; rewrite IH by done; f_equal; lia|].
  destruct (x >? y) eqn:E2; zbool.
  - symmetry. apply Z.sgn_pos. nia.
  - symmetry. apply Z.sgn_neg. nia.
Qed.

Lemma bu_of_u64_val width x :
  (2 <= width)%nat → is_u64 x → val (bu_of_u64 width x) = x ∧ words (bu_of_u64 width x)
  ∧ length (bu_of_u64 width x) = width.
Proof.
  intros Hw Hx. unfold bu_of_u64, bu_zero. rewrite Z.shiftr_div_pow2 by lia. change (2 ^ 32) with 4294967296.
  assert (∀ n, val (replicate n 0) = 0) as Hz.
  { induction n as [|n IHn]; [done|]. replace (S n) with (n + 1)%nat by lia.
    rewrite replicate_add. simpl. rewrite val_snoc, IHn. done. }
  split; [|split].
  - change ([bswap32 (u32 (x / 4294967296)); bswap32 (u32 x)])
      with ([bswap32 (u32 (x / 4294967296))] ++ [bswap32 (u32 x)]).
    rewrite app_assoc, !val_snoc, Hz, !bswap32_involutive by apply u32_range. unfold u32, is_u64 in *. zlia.
  - apply Forall_app. split; [by apply Forall_replicate|]. repeat constructor; apply bswap32_range.
  - rewrite length_app, length_replicate. simpl. lia.
Qed.

(** [compare] on objects of one width is the comparison of the integers, and so are
    the six operators; assigning a 64-bit number stores that number; [signum] is 0 exactly
    at 0.  This is what lets the development represent identifiers as integers. *)
Theorem base_uint_order a b :
  words a → words b → length a = length b →
  bu_compare a b = Z.sgn (val a - val b)
  ∧ bu_eq a b = bool_decide (a = b) ∧ bu_ne a b = negb (bu_eq a b)
  ∧ bu_lt a b = bool_decide (val a < val b) ∧ bu_le a b = bool_decide (val a <= val b)
  ∧ bu_gt a b = bu_lt b a ∧ bu_ge a b = bu_le b a
  ∧ bu_signum a = Z.sgn (val a)
  ∧ (∀ x, is_u64 x → (2 <= length a)%nat → val (bu_of_u64 (length a) x) = x).
Proof.
  intros Ha Hb Hl.
  assert (∀ a b, length a = length b → bu_compare a b = Z.sgn (val a - val b)) as Hcmp.
  { clear. intros a b Hl. apply compare_bytes_spec; [apply bytes_of_byte_list..|].
    by rewrite !bytes_of_length, Hl. }
  unfold bu_eq, bu_ne, bu_lt, bu_le, bu_gt, bu_ge. rewrite !Hcmp by done.
  split; [done|]. split; [|split; [done|]].
  { case_bool_decide as E; [subst; by rewrite Z.sub_diag|].
    apply Z.eqb_neq. intros Hz. apply E, val_inj; try done. lia. }
  rewrite Z.gtb_ltb, Z.geb_leb.
  assert (∀ n, (Z.sgn n <? 0) = bool_decide (n < 0)) as S1.
  { intros n. case_bool_decide; [apply Z.ltb_lt|apply Z.ltb_ge]; lia. }
  assert (∀ n, (Z.sgn n <=? 0) = bool_decide (n <= 0)) as S2.
  { intros n. case_bool_decide; [apply Z.leb_le|apply Z.leb_gt]; lia. }
  assert (∀ n, (0 <? Z.sgn n) = bool_decide (0 < n)) as S3.
  { intros n. case_bool_decide; [apply Z.ltb_lt|apply Z.ltb_ge]; lia. }
  assert (∀ n, (0 <=? Z.sgn n) = bool_decide (0 <= n)) as S4.
  { intros n. case_bool_decide; [apply Z.leb_le|apply Z.leb_gt]; lia. }
  rewrite S1, S2, S3, S4, S1, S2. split_and!; try (apply bool_decide_ext; lia).
  - clear -Ha. unfold bu_signum. induction a as [|w a IH] using rev_ind; [done|].
    apply Forall_app in Ha as [Ha Hw]. rewrite Forall_singleton in Hw. specialize (IH Ha).
    rewrite val_snoc, existsb_app. simpl. rewrite (bswap32_zero w Hw).
    pose proof (val_range a). pose proof (bswap32_range w). unfold is_u32 in *.
    destruct (existsb _ a); simpl in *; [lia|]. destruct (bswap32 w =? 0) eqn:E; zbool; simpl; lia.
  - intros x Hx Hw. by apply bu_of_u64_val.
Qed.

Lemma base_uint_order_witness :
  bu_compare [0; 16777216] [16777216; 0] = -1.
Proof.
  assert (words [0; 16777216]) as H1 by (by repeat apply Forall_cons_2).
  assert (words [16777216; 0]) as H2 by (by repeat apply Forall_cons_2).
  destruct (base_uint_order [0; 16777216] [16777216; 0] H1 H2 eq_refl) as [-> _]. reflexivity.
Defined.

(** ** Bitwise operations *)

Lemma testbit_snoc a b n :
  is_u8 b → 0 <= n → Z.testbit (a * 256 + b) n = if n <? 8 then Z.testbit b n else Z.testbit a (n - 8).
Proof.
  intros Hb Hn. replace (a * 256 + b) with (Z.lor b (Z.shiftl a 8)).
  2:{ rewrite lor_disjoint by (done || exact Hb). change (2 ^ 8) with 256. lia. }
  rewrite Z.lor_spec, Z.shiftl_spec by done. destruct (Z.ltb_spec n 8).
  - rewrite (Z.testbit_neg_r _ (n - 8)) by lia. apply orb_false_r.
  - rewrite <- (Z.mod_small b (2 ^ 8)) by exact Hb. by rewrite Z.mod_pow2_bits_high by lia.
Qed.

(** An operation that works bit by bit. *)
Class BitOp (op : Z → Z → Z) (f : bool → bool → bool) : Prop := {
  bitop_spec : ∀ x y n, 0 <= n → Z.testbit (op x y) n = f (Z.testbit x n) (Z.testbit y n);
  bitop_false : f false false = false
}.

#[export] Instance lxor_bitop : BitOp Z.lxor xorb.
Proof. split; [intros; apply Z.lxor_spec|done]. Qed.
#[export] Instance land_bitop : BitOp Z.land andb.
Proof. split; [intros; apply Z.land_spec|done]. Qed.
#[export] Instance lor_bitop : BitOp Z.lor orb.
Proof. split; [intros; apply Z.lor_spec|done]. Qed.

Section bitop.
  Context (op : Z → Z → Z) (f : bool → bool → bool) {B : BitOp op f}.

Lemma bitop_mod x y k : 0 <= k → op x y mod 2 ^ k = op (x mod 2 ^ k) (y mod 2 ^ k).
Proof.
  intros Hk. apply Z.bits_inj'. intros n Hn. rewrite (bitop_spec (BitOp := B)) by done. destruct (Z.ltb_spec n k).
  - rewrite !Z.mod_pow2_bits_low by lia. by apply bitop_spec.
  - rewrite !Z.mod_pow2_bits_high by lia. symmetry. apply bitop_false.
Qed.

Lemma bitop_div x y k : 0 <= k → op x y / 2 ^ k = op (x / 2 ^ k) (y / 2 ^ k).
Proof.
  intros Hk. apply Z.bits_inj'. intros n Hn. rewrite (bitop_spec (BitOp := B)) by done.
  rewrite !Z.div_pow2_bits by done. apply bitop_spec. lia.
Qed.

Lemma bitop_u8 x y : is_u8 x → is_u8 y → is_u8 (op x y).
Proof.
  intros Hx Hy. pose proof (bitop_mod x y 8 ltac:(lia)) as H. change (2 ^ 8) with 256 in H.
  rewrite (Z.mod_small x), (Z.mod_small y) in H by done. rewrite <- H. unfold is_u8. by apply Z.mod_pos_bound.
Qed.

Lemma bitop_zero : op 0 0 = 0.
Proof.
  apply Z.bits_inj'. intros n Hn. rewrite (bitop_spec (BitOp := B)) by done.
  rewrite Z.bits_0. apply bitop_false.
Qed.

Lemma bitop_snoc a b c d :
  is_u8 b → is_u8 d → op (a * 256 + b) (c * 256 + d) = op a c * 256 + op b d.
Proof.
  intros Hb Hd. apply Z.bits_inj'. intros n Hn.
  rewrite (bitop_spec (BitOp := B)), !testbit_snoc by auto using bitop_u8.
  destruct (Z.ltb_spec n 8); symmetry; apply bitop_spec; lia.
Qed.

Lemma be_bytes_bitop n x y : be_bytes n (op x y) = zip_with op (be_bytes n x) (be_bytes n y).
Proof.
  revert x y. induction n as [|n IH]; intros x y; [done|]. cbn [be_bytes].
  rewrite zip_with_app by (by rewrite !be_bytes_length). simpl zip_with. f_equal.
  - rewrite <- IH. f_equal. apply (bitop_div x y 8). lia.
  - f_equal. unfold u8. apply (bitop_mod x y 8). lia.
Qed.

Lemma be_val_bitop a b :
  byte_list a → byte_list b → length a = length b →
  be_val (zip_with op a b) = op (be_val a) (be_val b).
Proof.
  intros Ha. revert b. induction a as [|x a IH] using rev_ind; intros b Hb Hl.
  { destruct b; [|done]. symmetry. apply bitop_zero. }
  destruct b as [|y b _] using rev_ind; [rewrite length_app in Hl; simpl in Hl; lia|].
  rewrite !length_app in Hl. simpl in Hl.
  apply Forall_app in Ha as [Ha Hx]. apply Forall_app in Hb as [Hb Hy]. rewrite Forall_singleton in Hx, Hy.
  rewrite zip_with_app by lia. simpl zip_with. rewrite !be_val_snoc, IH by (done || lia).
  by rewrite bitop_snoc.
Qed.

Lemma rev_zip_with (a b : list Z) : length a = length b → rev (zip_with op a b) = zip_with op (rev a) (rev b).
Proof.
  revert b. induction a as [|x a IH]; intros [|y b] Hl; try done. simpl.
  rewrite IH by (simpl in Hl; lia). rewrite zip_with_app; [done|]. rewrite !length_rev. simpl in Hl; lia.
Qed.

Lemma bytes_of_bitop a b :
  length a = length b → bytes_of (zip_with op a b) = zip_with op (bytes_of a) (bytes_of b).
Proof.
  revert b. induction a as [|x a IH]; intros [|y b] Hl; try done.
  change (zip_with op (x :: a) (y :: b)) with (op x y :: zip_with op a b).
  rewrite !bytes_of_cons, zip_with_app by (by rewrite !word_bytes_length).
  rewrite IH by (simpl in Hl; lia). f_equal. unfold word_bytes.
  rewrite be_bytes_bitop, rev_zip_with by (by rewrite !be_bytes_length). done.
Qed.

Lemma val_bitop a b : length a = length b → val (zip_with op a b) = op (val a) (val b).
Proof.
  intros Hl. unfold val. rewrite bytes_of_bitop by done.
  apply be_val_bitop; auto using bytes_of_byte_list. by rewrite !bytes_of_length, Hl.
Qed.

End bitop.

Lemma val_ones n : val (replicate n 4294967295) = Z.ones (32 * Z.of_nat n).
Proof.
  induction n as [|n IH]; [done|]. replace (S n) with (n + 1)%nat by lia.
  rewrite replicate_add. simpl. rewrite val_snoc, IH. rewrite !Z.ones_equiv.
  replace (32 * Z.of_nat (n + 1)) with (32 * Z.of_nat n + 32) by lia.
  rewrite Z.pow_add_r by lia. change (bswap32 4294967295) with 4294967295. change (2 ^ 32) with 4294967296. lia.
Qed.

Lemma lxor_ones x k : 0 <= k → 0 <= x < 2 ^ k → Z.lxor x (Z.ones k) = 2 ^ k - 1 - x.
Proof.
  intros Hk Hx. rewrite Z.sub_1_r, <- Z.ones_equiv. rewrite Z.sub_nocarry_ldiff.
  - apply Z.bits_inj'. intros n Hn. rewrite Z.lxor_spec, Z.ldiff_spec.
    destruct (Z.ltb_spec n k).
    + rewrite Z.ones_spec_low by lia. by destruct (Z.testbit x n).
    + rewrite Z.ones_spec_high, <- (Z.mod_small x (2 ^ k)), Z.mod_pow2_bits_high by lia. done.
  - apply Z.bits_inj'. intros n Hn. rewrite Z.ldiff_spec, Z.bits_0. destruct (Z.ltb_spec n k).
    + rewrite Z.ones_spec_low by lia. apply andb_false_r.
    + rewrite <- (Z.mod_small x (2 ^ k)), Z.mod_pow2_bits_high by lia. done.
Qed.

(** The word-wise [^], [&], [|] and [~] are the bitwise operations on the integers,
    although the words are byte-swapped. *)
Theorem base_uint_bits a b :
  words a → words b → length a = length b →
  val (bu_xor a b) = Z.lxor (val a) (val b) ∧ val (bu_and a b) = Z.land (val a) (val b)
  ∧ val (bu_or a b) = Z.lor (val a) (val b) ∧ val (bu_not a) = modulus a - 1 - val a.
Proof.
  intros Ha Hb Hl. unfold bu_xor, bu_and, bu_or, bu_not.
  rewrite (val_bitop Z.lxor xorb), (val_bitop Z.land andb), (val_bitop Z.lor orb) by done.
  split_and!; try done.
  replace (map (λ w, Z.lxor w 4294967295) a) with (zip_with Z.lxor a (replicate (length a) 4294967295)).
  - rewrite (val_bitop Z.lxor xorb) by (by rewrite length_replicate). rewrite val_ones.
    apply lxor_ones; [lia|apply val_range].
  - clear. induction a as [|x a IH]; [done|]. simpl. by rewrite IH.
Qed.

Lemma base_uint_bits_witness :
  val (bu_not [0; 16777216]) = 18446744073709551614.
Proof.
  assert (words [0; 16777216]) as H1 by (by repeat apply Forall_cons_2).
  destruct (base_uint_bits [0; 16777216] [0; 16777216] H1 H1 eq_refl) as (_ & _ & _ & ->). reflexivity.
Defined.

(** ** Hexadecimal round trip *)

Lemma charHex_cases d : 0 <= d < 16 → charUnHex (charHex d) = d ∧ (48 <= charHex d < 58 ∨ 65 <= charHex d < 71).
Proof.
  intros Hd. unfold charHex. destruct (d <? 10) eqn:E; zbool; unfold charUnHex.
  - rewrite (proj2 (Z.leb_le 48 _)), (proj2 (Z.ltb_lt _ 58)) by lia. simpl. lia.
  - rewrite (proj2 (Z.leb_le 48 _)), (proj2 (Z.ltb_ge _ 58)), (proj2 (Z.leb_le 65 _)), (proj2 (Z.ltb_lt _ 71)) by lia.
    simpl. lia.
Qed.

Definition hex_text (l : list Z) : Prop := Forall (λ c, 48 <= c < 58 ∨ 65 <= c < 71) l.

Lemma strHex_cons c l : strHex (c :: l) = charHex (Z.shiftr c 4) :: charHex (Z.land c 15) :: strHex l.
Proof. done. Qed.

Lemma nibbles c : is_u8 c → 0 <= Z.shiftr c 4 < 16 ∧ 0 <= Z.land c 15 < 16
  ∧ Z.lor (Z.shiftl (Z.shiftr c 4) 4) (Z.land c 15) = c.
Proof.
  intros Hc. unfold is_u8 in Hc. change 15 with (Z.ones 4). rewrite Z.land_ones, Z.shiftr_div_pow2 by lia.
  change (2 ^ 4) with 16. rewrite Z.lor_comm, lor_disjoint; [|lia|change (2 ^ 4) with 16; zlia].
  change (2 ^ 4) with 16. zlia.
Qed.

Lemma strHex_text l : byte_list l → hex_text (strHex l) ∧ length (strHex l) = (2 * length l)%nat
  ∧ hex_pairs (strHex l) = l.
Proof.
  induction 1 as [|c l Hc Hl IH]; [by repeat constructor|]. destruct IH as (IH1 & IH2 & IH3).
  destruct (nibbles c Hc) as (Hh & Hlo & Hcomb). rewrite strHex_cons.
  destruct (charHex_cases _ Hh) as [Eh Rh], (charHex_cases _ Hlo) as [El Rl].
  split; [by repeat apply Forall_cons_2|]. split; [simpl; lia|].
  cbn [hex_pairs]. rewrite Eh, El, Hcomb, IH3. by rewrite u8_id.
Qed.

Lemma take_while_all p l : Forall (λ c, p c = true) l → take_while p l = l ∧ skip_while p l = [].
Proof. induction 1 as [|c l Hc Hl [IH1 IH2]]; simpl; [done|]. by rewrite Hc, IH1, IH2. Qed.

Lemma hex_text_char c : 48 <= c < 58 ∨ 65 <= c < 71 →
  is_hex c = true ∧ isspace c = false ∧ negb (c =? 0) = true ∧ (c =? 120) || (c =? 88) = false.
Proof.
  intros Hc. unfold is_hex, isspace, charUnHex.
  destruct (c =? 120) eqn:E1, (c =? 88) eqn:E2, (c =? 0) eqn:E3, (c =? 32) eqn:E4; zbool; try lia.
  destruct (48 <=? c) eqn:L1, (c <? 58) eqn:L2, (65 <=? c) eqn:L3, (c <? 71) eqn:L4,
    (9 <=? c) eqn:L5, (c <=? 13) eqn:L6; zbool; try lia; simpl; split_and!; try done;
    apply negb_true_iff, Z.eqb_neq; lia.
Qed.

Lemma of_bytes_of pn : words pn → of_bytes (bytes_of pn) = pn.
Proof.
  induction 1 as [|w pn Hw Hp IH]; [done|]. rewrite bytes_of_cons.
  pose proof (word_bytes_length w) as Hl.
  assert (be_val (rev (word_bytes w)) = w) as Hv.
  { unfold word_bytes. rewrite rev_involutive. by apply be_val_bytes_id. }
  destruct (word_bytes w) as [|a [|b [|c [|d [|? ?]]]]]; try done. simpl in *. by rewrite Hv, IH.
Qed.

Lemma bytes_of_of_bytes n l :
  byte_list l → length l = (4 * n)%nat →
  bytes_of (of_bytes l) = l ∧ words (of_bytes l) ∧ length (of_bytes l) = n.
Proof.
  revert l. induction n as [|n IH]; intros l Hb Hl.
  { destruct l; [|done]. by repeat constructor. }
  destruct l as [|a [|b [|c [|d l]]]]; simpl in Hl; try lia. cbn [of_bytes].
  do 4 apply Forall_cons in Hb as [? Hb].
  destruct (IH l Hb) as (IH1 & IH2 & IH3); [lia|].
  assert (byte_list [d; c; b; a]) as H4 by (by repeat apply Forall_cons_2).
  rewrite bytes_of_cons, IH1. split; [|split; [|simpl; lia]].
  - unfold word_bytes. pose proof (be_bytes_val [d; c; b; a] H4) as E. cbn [length] in E. by rewrite E.
  - apply Forall_cons_2; [|done]. pose proof (be_val_bound [d; c; b; a] H4) as H5. exact H5.
Qed.

Lemma hex_roundtrip pn old strict :
  words pn → length old = length pn →
  SetHex (length pn) (bu_to_string pn) strict = (pn, true)
  ∧ SetHexExact old (bu_to_string pn) = (pn, true).
Proof.
  intros Hp Hlen. unfold bu_to_string.
  destruct (strHex_text (bytes_of pn) (bytes_of_byte_list pn)) as (Ht & Hl & Hpairs).
  rewrite bytes_of_length in Hl. set (s := strHex (bytes_of pn)) in *.
  assert (c_str s = s) as Hc.
  { refine (proj1 (take_while_all _ s _)). eapply Forall_impl; [exact Ht|]. intros c. apply hex_text_char. }
  assert (take_while is_hex s = s ∧ skip_while is_hex s = []) as [Htk Hsk].
  { apply take_while_all. eapply Forall_impl; [exact Ht|]. intros c. apply hex_text_char. }
  split.
  - unfold SetHex. rewrite Hc.
    assert (skip_while isspace s = s) as Hsp.
    { inversion Ht as [|c l Hcc Hll Heq]; [done|]. simpl. by rewrite (proj1 (proj2 (hex_text_char c Hcc))). }
    rewrite Hsp. replace (if negb strict then s else s) with s by (by destruct strict).
    replace (match s with c0 :: c1 :: r => if negb strict && (c0 =? 48) && ((c1 =? 120) || (c1 =? 88)) then r else s
             | _ => s end) with s.
    2:{ inversion Ht as [|c0 l Hcc Hll Heq]; [done|]. inversion Hll as [|c1 l' Hc1 Hl' Heq']; [done|].
        destruct (hex_text_char c1 Hc1) as (_ & _ & _ & ->). by rewrite andb_false_r. }
    rewrite Htk, Hsk. replace (2 * (4 * length pn) <? length s)%nat with false
      by (symmetry; apply Nat.ltb_ge; lia).
    assert (Nat.odd (length s) = false) as -> by (by rewrite Hl, Nat.odd_mul).
    rewrite Hpairs, bytes_of_length, Nat.sub_diag. cbn [replicate app]. by rewrite of_bytes_of.
  - unfold SetHexExact. rewrite Hc, Hlen.
    assert (∀ l done, byte_list l → exact_loop (length l) (strHex l) done = (done ++ l, true)) as Hloop.
    { induction l as [|c l IH]; intros dn Hb; [by rewrite app_nil_r|]. inversion_clear Hb.
      destruct (nibbles c ltac:(done)) as (Hh & Hlo & Hcomb). rewrite strHex_cons. cbn [exact_loop length nth drop].
      rewrite (proj1 (charHex_cases _ Hh)), (proj1 (charHex_cases _ Hlo)), Hcomb.
      rewrite (proj2 (Z.eqb_neq _ (-1))), (proj2 (Z.eqb_neq _ (-1))) by lia. cbn [orb].
      rewrite u8_id by done. rewrite drop_0, IH, <- app_assoc by done. done. }
    pose proof (Hloop (bytes_of pn) [] (bytes_of_byte_list pn)) as Hx. rewrite bytes_of_length in Hx.
    fold s in Hx. rewrite Hx. cbn [app].
    rewrite (drop_ge (bytes_of old)) by (rewrite !bytes_of_length; lia).
    by rewrite app_nil_r, of_bytes_of.
Qed.

(** [SetHex] reads back what [to_string] prints, in both modes and whatever the
    object held, and reports success; [SetHexExact] does too. *)
Theorem base_uint_hex_roundtrip pn old strict :
  words pn → length old = length pn →
  SetHex (length pn) (bu_to_string pn) strict = (pn, true)
  ∧ SetHexExact old (bu_to_string pn) = (pn, true).
Proof. apply hex_roundtrip. Qed.

Lemma base_uint_hex_roundtrip_witness :
  SetHex 2 (bu_to_string [3735928559; 16777216]) false = ([3735928559; 16777216], true).
Proof.
  assert (words [3735928559; 16777216]) as H by (by repeat apply Forall_cons_2).
  apply (base_uint_hex_roundtrip [3735928559; 16777216] [0; 0] false H eq_refl).
Defined.
