(* ===== verification/CurrencyCode.v ===== *)
(** * Text form of currencies

    Model of [to_string (Currency)] and [to_currency] of
    [src/src/protocol/impl/UintTypes.cpp].  A text is the list of its character codes; a
    currency is its 160-bit integer. *)

From S2P Require Import Prelude Bytes Serializer Issue BaseUint.

(** "SWT", of [SystemParameters.h] *)
Definition systemCurrencyCode : list Z := [83; 87; 84].

(** "FFFFFFFFFFFFFFFFFFFFFFFF000000FFFFFFFFFF" *)
Definition sIsoBits : Z := 0xFFFFFFFFFFFFFFFFFFFFFFFF000000FFFFFFFFFF.

Definition is_lower (c : Z) : bool := (97 <=? c) && (c <=? 122).
Definition is_upper (c : Z) : bool := (65 <=? c) && (c <=? 90).
Definition is_digit (c : Z) : bool := (48 <=? c) && (c <=? 57).

(** "<>(){}[]|?!@#$%^&*" *)
Definition punctuation : list Z := [60; 62; 40; 41; 123; 125; 91; 93; 124; 63; 33; 64; 35; 36; 37; 94; 38; 42].

Definition allowed_character (c : Z) : bool :=
  is_lower c || is_upper c || is_digit c || existsb (Z.eqb c) punctuation.

Definition toupper (c : Z) : Z := if is_lower c then c - 32 else c.

(** The three characters at offset 12 of the 20 bytes *)
Definition iso_code (c : Currency) : list Z := sub_bytes (be_bytes 20 c) 12 3.

Definition currency_to_string (c : Currency) : list Z :=
  if c =? 0 then systemCurrencyCode
  else if c =? noCurrency then [49]
  else if (Z.land c sIsoBits =? 0)
          && (negb (bool_decide (iso_code c = systemCurrencyCode)) && forallb allowed_character (iso_code c))
  then iso_code c
  else strHex (be_bytes 20 c).

(** [to_currency (Currency&, code)]: whether the text is a currency, and the value left in
    the reference, which holds [old] before *)
Definition to_currency (old : Currency) (code : list Z) : bool * Currency :=
  if bool_decide (code = []) || bool_decide (code = systemCurrencyCode) then (true, 0)
  else if (length code =? 3)%nat then
    let codeBlob := map toupper code in
    let s := (addZeros 12 []).2 in
    let s := (addRaw codeBlob s).2 in
    let s := (addZeros 2 s).2 in
    let s := (addZeros 3 s).2 in
    (true, match getBitString 20 s 0 with Some b => be_val b | None => old end)
  else if (length code =? 40)%nat then
    let '(pn, ok) := SetHex 5 code false in (ok, val pn)
  else (false, old).

(** [Currency to_currency (code)] *)
Definition to_currency_or_none (code : list Z) : Currency :=
  let '(ok, c) := to_currency 0 code in if (ok : bool) then c else noCurrency.

(** ** Bytes of a currency *)

Lemma be_bytes_split n m x : be_bytes (n + m) x = be_bytes n (x / 256 ^ Z.of_nat m) ++ be_bytes m x.
Proof.
  revert x. induction m as [|m IH]; intros x.
  { rewrite Nat.add_0_r, app_nil_r. change (256 ^ Z.of_nat 0) with 1. by rewrite Z.div_1_r. }
  rewrite Nat.add_succ_r. cbn [be_bytes]. rewrite IH, <- app_assoc. do 2 f_equal.
  rewrite Z.div_div, Nat2Z.inj_succ, Z.pow_succ_r by lia. done.
Qed.

(** A currency whose bits outside the code are all zero. *)
Lemma iso_currency c :
  is_u160 c → Z.land c sIsoBits = 0 → ∃ i, 0 <= i < 2 ^ 24 ∧ c = i * 2 ^ 40.
Proof.
  intros Hc Hz.
  assert (∀ m, Z.land sIsoBits m = m → Z.land c m = 0) as Hsub.
  { intros m Hm. by rewrite <- Hm, Z.land_assoc, Hz, Z.land_0_l. }
  assert (c mod 2 ^ 40 = 0) as Hlow.
  { rewrite <- Z.land_ones by lia. by apply Hsub. }
  assert (c / 2 ^ 64 = 0) as Hhigh.
  { pose proof (Hsub (Z.shiftl (Z.ones 96) 64) eq_refl) as H.
    apply (f_equal (λ x, Z.shiftr x 64)) in H. rewrite Z.shiftr_land, Z.shiftr_shiftl_l in H by lia.
    change (Z.shiftl (Z.ones 96) (64 - 64)) with (Z.ones 96) in H.
    rewrite Z.land_ones, !Z.shiftr_div_pow2 in H by lia. change (0 / 2 ^ 64) with 0 in H.
    unfold is_u160 in Hc.
    rewrite Z.mod_small in H; [done|]. split; [apply Z.div_pos; lia|].
    apply Z.div_lt_upper_bound; [lia|]. rewrite <- Z.pow_add_r by lia. apply Hc. }
  exists (c / 2 ^ 40). unfold is_u160 in Hc. pose proof (Z.div_mod c (2 ^ 40) ltac:(lia)).
  pose proof (Z.div_mod c (2 ^ 64) ltac:(lia)). pose proof (Z.mod_pos_bound c (2 ^ 64) ltac:(lia)).
  split; [split; [apply Z.div_pos; lia|]|lia].
  apply Z.div_lt_upper_bound; [lia|]. rewrite <- Z.pow_add_r by lia. change (40 + 24) with 64. lia.
Qed.

Lemma iso_code_of i : 0 <= i < 2 ^ 24 → iso_code (i * 2 ^ 40) = be_bytes 3 i.
Proof.
  intros Hi. unfold iso_code. change 20%nat with (12 + (3 + 5))%nat. rewrite !be_bytes_split.
  change (256 ^ Z.of_nat 5) with (2 ^ 40). rewrite Z.div_mul by lia.
  pose proof (sub_bytes_app (be_bytes 12 (i * 2 ^ 40 / 256 ^ Z.of_nat (3 + 5))) (be_bytes 3 i)
    (be_bytes 5 (i * 2 ^ 40))) as H.
  rewrite !be_bytes_length in H. exact H.
Qed.

(** What [to_currency] builds from three characters. *)
Lemma code_currency i :
  0 <= i < 2 ^ 24 →
  be_val (replicate 12 0 ++ be_bytes 3 i ++ replicate 2 0 ++ replicate 3 0) = i * 2 ^ 40.
Proof.
  intros Hi. rewrite !be_val_app. rewrite (be_val_bytes_id 3 i) by exact Hi.
  change (be_val (replicate 12 0)) with 0. change (be_val (replicate 2 0)) with 0.
  change (be_val (replicate 3 0)) with 0. rewrite !length_app, be_bytes_length, !length_replicate. simpl Z.of_nat. lia.
Qed.

Lemma to_currency_three old code :
  length code = 3%nat → code ≠ systemCurrencyCode → byte_list (map toupper code) →
  to_currency old code = (true, be_val (map toupper code) * 2 ^ 40).
Proof.
  intros Hl Hne Hb. unfold to_currency.
  rewrite (bool_decide_eq_false_2 (code = [])) by (by destruct code).
  rewrite (bool_decide_eq_false_2 _ Hne), Hl. cbn [orb Nat.eqb]. f_equal.
  unfold addZeros, addRaw. cbn [snd app].
  set (up := map toupper code) in *. assert (length up = 3%nat) as Hup by (unfold up; by rewrite length_map).
  assert (0 <= be_val up < 2 ^ 24) as Hr.
  { pose proof (be_val_bound up Hb) as H. rewrite Hup in H. exact H. }
  unfold getBitString, past_end, sizeZ. rewrite !length_app, !length_replicate, Hup.
  change (u64 (s32 (0 + 20)) >? Z.of_nat (12 + 3 + 2 + 3)) with false. cbn match. unfold sub_bytes.
  rewrite <- (code_currency (be_val up) Hr), <- Hup, be_bytes_val by done. f_equal.
  rewrite <- !app_assoc. cbn [replicate app]. destruct up as [|a [|b [|c [|]]]]; try done.
Qed.

(** Printing and reading a hexadecimal currency. *)
Lemma to_currency_hex old c :
  is_u160 c → to_currency old (strHex (be_bytes 20 c)) = (true, c).
Proof.
  intros Hc. destruct (bytes_of_of_bytes 5 (be_bytes 20 c)) as (Hb & Hw & Hl);
    [apply be_bytes_byte_list|apply be_bytes_length|].
  set (pn := of_bytes (be_bytes 20 c)) in *.
  destruct (strHex_text (be_bytes 20 c) (be_bytes_byte_list 20 c)) as (_ & Hlen & _).
  rewrite be_bytes_length in Hlen. unfold to_currency.
  rewrite !bool_decide_eq_false_2 by (intros He; rewrite He in Hlen; done). rewrite Hlen. cbn [orb Nat.eqb Nat.mul Nat.add].
  destruct (hex_roundtrip pn pn false Hw eq_refl) as [H _]. unfold bu_to_string in H. rewrite Hb, Hl in H.
  rewrite H. f_equal. unfold val. rewrite Hb. by apply be_val_bytes_id.
Qed.

Lemma toupper_bytes l : byte_list l → byte_list (map toupper l).
Proof.
  induction 1 as [|x l Hx Hl IH]; [constructor|]. apply Forall_cons_2; [|done].
  unfold toupper, is_lower. case_if; [|done]. zbool. unfold is_u8 in *. lia.
Qed.

Lemma toupper_lower l : existsb is_lower l = true → map toupper l ≠ l.
Proof.
  induction l as [|x l IH]; simpl; [done|]. intros [H|H]%orb_true_iff [= H1 H2]; [|by apply IH].
  unfold toupper in H1. rewrite H in H1. lia.
Qed.

(** A currency survives being printed and read back, unless its code has lower-case
    letters, which [to_currency] turns into upper case: it is then read as another
    currency, although [to_string] accepts lower case on purpose. *)
Theorem currency_roundtrip c :
  is_u160 c →
  (forallb (λ ch, negb (is_lower ch)) (iso_code c) = true ∨ Z.land c sIsoBits ≠ 0 →
     to_currency_or_none (currency_to_string c) = c)
  ∧ (Z.land c sIsoBits = 0 → forallb allowed_character (iso_code c) = true →
     existsb is_lower (iso_code c) = true →
     to_currency_or_none (currency_to_string c) ≠ c).
Proof.
  intros Hc. assert (∀ l, forallb (λ ch, negb (is_lower ch)) l = true → map toupper l = l) as Hup.
  { induction l as [|x l IH]; simpl; [done|]. intros [H1 H2]%andb_true_iff.
    rewrite (IH H2). unfold toupper. by destruct (is_lower x). }
  assert (∀ i, byte_list (be_bytes 3 i)) as Hbl by (intros; apply be_bytes_byte_list).
  assert (noCurrency = 1) as Hno by done.
  split.
  - intros Hcond. unfold currency_to_string.
    destruct (c =? 0) eqn:E0; zbool; [by subst|]. destruct (c =? noCurrency) eqn:E1; zbool; [by subst|].
    destruct (Z.land c sIsoBits =? 0) eqn:E2; zbool; cbn [andb];
      [|unfold to_currency_or_none; by rewrite to_currency_hex].
    destruct (negb _ && forallb allowed_character (iso_code c)) eqn:E3;
      [|unfold to_currency_or_none; by rewrite to_currency_hex].
    zbool. destruct Hcond as [Hlow|]; [|done].
    destruct (iso_currency c Hc E2) as (i & Hi & ->). rewrite iso_code_of in * by done.
    unfold to_currency_or_none. rewrite to_currency_three.
    + rewrite Hup by done. by rewrite be_val_bytes_id.
    + apply be_bytes_length.
    + by eapply bool_decide_eq_false_1.
    + rewrite Hup by done. apply Hbl.
  - intros E2 Hall Hex. unfold currency_to_string.
    destruct (iso_currency c Hc E2) as (i & Hi & ->). rewrite iso_code_of in * by done.
    assert (i ≠ 0) as Hi0 by (intros ->; by vm_compute in Hex).
    rewrite (proj2 (Z.eqb_neq (i * 2 ^ 40) 0)) by lia. rewrite Hno, (proj2 (Z.eqb_neq (i * 2 ^ 40) 1)) by lia.
    rewrite E2, Hall, Z.eqb_refl. cbn [andb]. rewrite andb_true_r.
    assert (be_bytes 3 i ≠ systemCurrencyCode) as Hne by (intros He; by rewrite He in Hex).
    rewrite (bool_decide_eq_false_2 _ Hne). cbn [negb]. unfold to_currency_or_none.
    rewrite to_currency_three; [|apply be_bytes_length|done|by apply toupper_bytes].
    intros He. assert (be_val (map toupper (be_bytes 3 i)) = be_val (be_bytes 3 i)) as Hv.
    { rewrite (be_val_bytes_id 3 i) by exact Hi. lia. }
    apply be_val_inj in Hv; [|by apply toupper_bytes|done|by rewrite length_map].
    by apply (toupper_lower _ Hex).
Qed.

Lemma currency_roundtrip_witness :
  to_currency_or_none (currency_to_string 0x5553440000000000) = 0x5553440000000000
  ∧ to_currency_or_none (currency_to_string 0x7573640000000000) ≠ 0x7573640000000000.
Proof.
  split.
  - apply currency_roundtrip; [by unfold is_u160|by left].
  - apply currency_roundtrip; [by unfold is_u160|done..].
Defined.

(** The currency that [badCurrency] forbids is, according to its comment, the one
    that looks like the system currency "SWT"; its value is the code "XRP", and the
    currency with the code "SWT" is not refused by it. *)
Theorem badCurrency_is_xrp :
  to_currency_or_none [88; 82; 80] = badCurrency
  ∧ ∃ c, iso_code c = systemCurrencyCode ∧ Z.land c sIsoBits = 0 ∧ c ≠ badCurrency.
Proof. split; [by vm_compute|]. exists (0x535754 * 2 ^ 40). by vm_compute. Qed.
