(* ===== verification/Indexes.v ===== *)
(** * Ledger indexes

    Model of [src/src/protocol/impl/Indexes.cpp], of the index functions of
    [src/src/ledger/Ledger.cpp] and of the name spaces of [src/src/protocol/LedgerFormats.h]: how the 256-bit index of each kind of ledger entry is
    made.  Most are half of the SHA-512 hash of a serialized key; the hash function is a
    parameter, and the theorem about keys shows that two different keys never give it the same
    bytes.  The index of a page of an order book carries the price in its last 8 bytes; the
    theorem about them shows that the pages of a book are adjacent and ordered by price. *)

From S2P Require Import Prelude Bytes Issue BaseUint.

(** ** [LedgerNameSpace] *)

Definition spaceAccount : Z := 97.
Definition spaceDirNode : Z := 100.
Definition spaceGenerator : Z := 103.
Definition spaceSkywell : Z := 114.
Definition spaceTrust : Z := 116.
Definition spaceOffer : Z := 111.
Definition spaceOwnerDir : Z := 79.
Definition spaceBookDir : Z := 66.
Definition spaceSkipList : Z := 115.
Definition spaceAmendment : Z := 102.
Definition spaceFee : Z := 101.
Definition spaceIssuer : Z := 105.
Definition spaceManageFee : Z := 109.
Definition spaceBlackList : Z := 108.
Definition spaceTicket : Z := 84.
Definition spaceSign : Z := 83.
Definition spaceNickname : Z := 110.

(** [Serializer::add16], [add32], [add64], [add160] and [add256] append big-endian bytes. *)
Definition add16 (x : Z) : list Z := be_bytes 2 x.
Definition add32 (x : Z) : list Z := be_bytes 4 x.
Definition add64 (x : Z) : list Z := be_bytes 8 x.
Definition add160 (x : Z) : list Z := be_bytes 20 x.
Definition add256 (x : Z) : list Z := be_bytes 32 x.

(** ** Prices in indexes *)

(** The last 8 bytes of the index are replaced. *)
Definition getQualityIndex (uBase uNodeDir : Z) : Z := uBase / 2 ^ 64 * 2 ^ 64 + uNodeDir.
Definition getQualityNext (uBase : Z) : Z := (uBase + 0x10000000000000000) mod 2 ^ 256.
Definition getQuality (uBase : Z) : Z := uBase mod 2 ^ 64.

Section indexes.
  (** [Serializer::getSHA512Half] *)
  Variable sha512half : list Z → Z.

Definition getLedgerHashIndex : Z := sha512half (add16 spaceSkipList).
Definition getLedgerHashIndex_of (desiredLedgerIndex : Z) : Z :=
  sha512half (add16 spaceSkipList ++ add32 (Z.shiftr desiredLedgerIndex 16)).
Definition getLedgerAmendmentIndex : Z := sha512half (add16 spaceAmendment).
Definition getLedgerFeeIndex : Z := sha512half (add16 spaceFee).
Definition getAccountRootIndex (account : Account) : Z := sha512half (add16 spaceAccount ++ add160 account).
Definition getGeneratorIndex (uGeneratorID : Account) : Z :=
  sha512half (add16 spaceGenerator ++ add160 uGeneratorID).
Definition getBookBase (book : Book) : Z :=
  getQualityIndex
    (sha512half (add16 spaceBookDir ++ add160 (currency (book_in book)) ++ add160 (currency (book_out book))
                 ++ add160 (account (book_in book)) ++ add160 (account (book_out book)))) 0.
Definition getOfferIndex (account : Account) (uSequence : Z) : Z :=
  sha512half (add16 spaceOffer ++ add160 account ++ add32 uSequence).
Definition getOwnerDirIndex (account : Account) : Z := sha512half (add16 spaceOwnerDir ++ add160 account).
Definition getDirNodeIndex (uDirRoot uNodeIndex : Z) : Z :=
  if negb (uNodeIndex =? 0)
  then sha512half (add16 spaceDirNode ++ add256 uDirRoot ++ add64 uNodeIndex)
  else uDirRoot.
Definition getTicketIndex (account : Account) (uSequence : Z) : Z :=
  sha512half (add16 spaceTicket ++ add160 account ++ add32 uSequence).
Definition getSkywellStateIndex (a b : Account) (currency : Currency) : Z :=
  sha512half (add16 spaceSkywell ++ (if a <? b then add160 a ++ add160 b else add160 b ++ add160 a)
              ++ add160 currency).
Definition getSkywellStateIndex_issue (a : Account) (issue : Issue) : Z :=
  getSkywellStateIndex a (account issue) (currency issue).
Definition getTrustStateIndex (a b : Account) (uType : Z) (issuer : Account) (currency : Currency) : Z :=
  sha512half (add16 spaceTrust ++ (if a <? b then add160 a ++ add160 b else add160 b ++ add160 a)
              ++ add32 uType ++ add160 issuer ++ add160 currency).
Definition getSignStateIndex (a : Account) : Z := sha512half (add16 spaceSign ++ add160 a).
Definition getNickNameIndex (a : Account) : Z := sha512half (add16 spaceNickname ++ add160 a).
Definition getBlackListIndex (uAccountID : Account) : Z := sha512half (add16 spaceBlackList ++ add160 uAccountID).
Definition getLedgerManageFeeIndex : Z := sha512half (add16 spaceManageFee).
Definition getLedgerManageIssuerIndex : Z := sha512half (add16 spaceIssuer).

End indexes.

(** ** Keys *)

Inductive LedgerKey :=
  | keySkipList
  | keySkipPage (desired : Z)
  | keyAmendments
  | keyFees
  | keyAccount (a : Account)
  | keyGenerator (a : Account)
  | keyBook (b : Book)
  | keyOffer (a : Account) (seq : Z)
  | keyOwnerDir (a : Account)
  | keyDirPage (root n : Z)
  | keyTicket (a : Account) (seq : Z)
  | keyState (a b : Account) (cur : Currency)
  | keyTrust (a b : Account) (type : Z) (issuer : Account) (cur : Currency)
  | keySigners (a : Account)
  | keyNickname (a : Account)
  | keyBlackList (a : Account)
  | keyManageFee
  | keyManageIssuer.

Definition key_index (h : list Z → Z) (k : LedgerKey) : Z :=
  match k with
  | keySkipList => getLedgerHashIndex h
  | keySkipPage n => getLedgerHashIndex_of h n
  | keyAmendments => getLedgerAmendmentIndex h
  | keyFees => getLedgerFeeIndex h
  | keyAccount a => getAccountRootIndex h a
  | keyGenerator a => getGeneratorIndex h a
  | keyBook b => getBookBase h b
  | keyOffer a s => getOfferIndex h a s
  | keyOwnerDir a => getOwnerDirIndex h a
  | keyDirPage r n => getDirNodeIndex h r n
  | keyTicket a s => getTicketIndex h a s
  | keyState a b c => getSkywellStateIndex h a b c
  | keyTrust a b t i c => getTrustStateIndex h a b t i c
  | keySigners a => getSignStateIndex h a
  | keyNickname a => getNickNameIndex h a
  | keyBlackList a => getBlackListIndex h a
  | keyManageFee => getLedgerManageFeeIndex h
  | keyManageIssuer => getLedgerManageIssuerIndex h
  end.

(** The values have the widths of the code; page 0 of a directory is its root and is not hashed. *)
Definition key_ok (k : LedgerKey) : Prop :=
  match k with
  | keySkipList | keyAmendments | keyFees | keyManageFee | keyManageIssuer => True
  | keySkipPage n => is_u32 n
  | keyAccount a | keyGenerator a | keyOwnerDir a | keySigners a | keyNickname a | keyBlackList a => is_u160 a
  | keyBook b =>
      is_u160 (currency (book_in b)) ∧ is_u160 (account (book_in b))
      ∧ is_u160 (currency (book_out b)) ∧ is_u160 (account (book_out b))
  | keyOffer a s | keyTicket a s => is_u160 a ∧ is_u32 s
  | keyDirPage r n => 0 <= r < 2 ^ 256 ∧ is_u64 n ∧ n ≠ 0
  | keyState a b c => is_u160 a ∧ is_u160 b ∧ is_u160 c
  | keyTrust a b t i c => is_u160 a ∧ is_u160 b ∧ is_u32 t ∧ is_u160 i ∧ is_u160 c
  end.

(** What a key is meant to identify: a line between two accounts has no direction, and a page
    of the skip list covers 65536 ledgers. *)
Definition same_key (k k' : LedgerKey) : Prop :=
  match k, k' with
  | keySkipPage n, keySkipPage n' => n / 65536 = n' / 65536
  | keyState a b c, keyState a' b' c' => (a = a' ∧ b = b' ∨ a = b' ∧ b = a') ∧ c = c'
  | keyTrust a b t i c, keyTrust a' b' t' i' c' =>
      (a = a' ∧ b = b' ∨ a = b' ∧ b = a') ∧ t = t' ∧ i = i' ∧ c = c'
  | _, _ => k = k'
  end.

(** The bytes that are hashed for a key *)
Definition preimage (k : LedgerKey) : list Z :=
  match k with
  | keySkipList => add16 spaceSkipList
  | keySkipPage n => add16 spaceSkipList ++ add32 (Z.shiftr n 16)
  | keyAmendments => add16 spaceAmendment
  | keyFees => add16 spaceFee
  | keyAccount a => add16 spaceAccount ++ add160 a
  | keyGenerator a => add16 spaceGenerator ++ add160 a
  | keyBook b =>
      add16 spaceBookDir ++ add160 (currency (book_in b)) ++ add160 (currency (book_out b))
      ++ add160 (account (book_in b)) ++ add160 (account (book_out b))
  | keyOffer a s => add16 spaceOffer ++ add160 a ++ add32 s
  | keyOwnerDir a => add16 spaceOwnerDir ++ add160 a
  | keyDirPage r n => add16 spaceDirNode ++ add256 r ++ add64 n
  | keyTicket a s => add16 spaceTicket ++ add160 a ++ add32 s
  | keyState a b c => add16 spaceSkywell ++ add160 (Z.min a b) ++ add160 (Z.max a b) ++ add160 c
  | keyTrust a b t i c =>
      add16 spaceTrust ++ add160 (Z.min a b) ++ add160 (Z.max a b) ++ add32 t ++ add160 i ++ add160 c
  | keySigners a => add16 spaceSign ++ add160 a
  | keyNickname a => add16 spaceNickname ++ add160 a
  | keyBlackList a => add16 spaceBlackList ++ add160 a
  | keyManageFee => add16 spaceManageFee
  | keyManageIssuer => add16 spaceIssuer
  end.

(** ** Lemmas *)

Lemma be_bytes_inj n x y :
  0 <= x < 256 ^ Z.of_nat n → 0 <= y < 256 ^ Z.of_nat n → be_bytes n x = be_bytes n y → x = y.
Proof. intros Hx Hy H. rewrite <- (be_val_bytes_id n x), <- (be_val_bytes_id n y), H by done. done. Qed.

Lemma be_app_inj n x y l l' :
  0 <= x < 256 ^ Z.of_nat n → 0 <= y < 256 ^ Z.of_nat n → be_bytes n x ++ l = be_bytes n y ++ l' → x = y ∧ l = l'.
Proof.
  intros Hx Hy H. apply app_inj_1 in H as [H ->]; [|by rewrite !be_bytes_length].
  split; [by eapply be_bytes_inj|done].
Qed.

Lemma min_max_pair a b a' b' :
  Z.min a b = Z.min a' b' → Z.max a b = Z.max a' b' → a = a' ∧ b = b' ∨ a = b' ∧ b = a'.
Proof. lia. Qed.

Lemma sorted_pair (a b : Z) l :
  (if a <? b then add160 a ++ add160 b else add160 b ++ add160 a) ++ l = add160 (Z.min a b) ++ add160 (Z.max a b) ++ l.
Proof.
  destruct (Z.ltb_spec a b); rewrite <- app_assoc.
  - by rewrite Z.min_l, Z.max_r by lia.
  - by rewrite Z.min_r, Z.max_l by lia.
Qed.

(** A field at the front of two equal strings: read it off *)
Ltac read_fields :=
  repeat match goal with
  | H : be_bytes ?n ?x ++ _ = be_bytes ?n ?y ++ _ |- _ =>
      apply be_app_inj in H as [? H]; [|cbn; unfold is_u160, is_u32, is_u64 in *; lia..]
  | H : be_bytes ?n ?x = be_bytes ?n ?y |- _ =>
      apply be_bytes_inj in H; [|cbn; unfold is_u160, is_u32, is_u64 in *; lia..]
  end.

Lemma preimage_inj k k' : key_ok k → key_ok k' → preimage k = preimage k' → same_key k k'.
Proof.
  unfold preimage, add16, add32, add64, add160, add256.
  destruct k as [ | | | | | |[[c1 a1] [c2 a2]]| | | | | | | | | | |], k' as [ | | | | | |[[c3 a3] [c4 a4]]| | | | | | | | | | |];
    cbn [key_ok book_in book_out currency account]; intros Hk Hk' H; try discriminate H; cbn [same_key]; try done;
    (apply app_inj_1 in H as [_ H]; [|done]).
  all: rewrite ?Z.shiftr_div_pow2 in H by lia; change (2 ^ 16) with 65536 in H.
  all: destruct_and?; try (apply be_bytes_inj in H; [|cbn; unfold is_u160, is_u32 in *; lia..]; by subst).
  all: read_fields; subst; try done.
  - unfold is_u32 in *.
    pose proof (Z.div_lt_upper_bound desired 65536 65536 ltac:(lia) ltac:(lia)).
    pose proof (Z.div_lt_upper_bound desired0 65536 65536 ltac:(lia) ltac:(lia)).
    pose proof (Z.div_pos desired 65536 ltac:(lia) ltac:(lia)). pose proof (Z.div_pos desired0 65536 ltac:(lia) ltac:(lia)).
    apply be_bytes_inj in H; cbn; lia.
  - split; [by apply min_max_pair|done].
  - split_and!; [by apply min_max_pair|done..].
Qed.

Lemma same_key_preimage k k' : same_key k k' → preimage k = preimage k'.
Proof.
  destruct k, k'; cbn [same_key]; try done; try (by intros [=]; subst).
  - intros H. cbn [preimage]. rewrite !Z.shiftr_div_pow2 by lia. by change (2 ^ 16) with 65536; rewrite H.
  - intros [[[-> ->]|[-> ->]] ->]; [done|]. cbn [preimage]. by rewrite Z.min_comm, Z.max_comm.
  - intros ([[-> ->]|[-> ->]] & -> & -> & ->); [done|]. cbn [preimage]. by rewrite Z.min_comm, Z.max_comm.
Qed.

Lemma key_index_hash h k :
  key_ok k → key_index h k = match k with keyBook _ => getQualityIndex (h (preimage k)) 0 | _ => h (preimage k) end.
Proof.
  destruct k; cbn [key_ok]; intros Hk; try done; cbn [key_index preimage].
  - unfold getDirNodeIndex. by rewrite (proj2 (Z.eqb_neq n 0)) by apply Hk.
  - unfold getSkywellStateIndex. by rewrite sorted_pair.
  - unfold getTrustStateIndex. by rewrite sorted_pair.
Qed.

(** ** The properties *)

(** C16: the index of every kind of entry is the hash of its key (of a book, with the price
    cleared), and two keys are hashed from the same bytes exactly when they identify the same
    entry: any two entries with the same index would be a collision of the hash function. *)
Theorem index_keys_distinct h k k' :
  key_ok k → key_ok k' →
  key_index h k = match k with keyBook _ => getQualityIndex (h (preimage k)) 0 | _ => h (preimage k) end
  ∧ (preimage k = preimage k' ↔ same_key k k').
Proof.
  intros Hk Hk'. split; [by apply key_index_hash|]. split; [by apply preimage_inj|apply same_key_preimage].
Qed.

Lemma index_keys_distinct_witness :
  preimage (keyState 7 9 5) = preimage (keyState 9 7 5) ∧ preimage (keyAccount 7) ≠ preimage (keyOwnerDir 7).
Proof.
  assert (∀ a, a = 7 ∨ a = 9 ∨ a = 5 → is_u160 a) as Hu by (unfold is_u160; lia).
  split.
  - apply (index_keys_distinct be_val (keyState 7 9 5) (keyState 9 7 5)); [cbn; split_and!; apply Hu; lia..|].
    split; [by right|done].
  - intros H. apply (index_keys_distinct be_val (keyAccount 7) (keyOwnerDir 7)) in H; [done|apply Hu; lia..].
Defined.

(** The price put in an index is read back, leaves the other 24 bytes alone and orders the
    indexes of one book; they lie between the base and [getQualityNext] of it, which no index
    of another book does. *)
Theorem quality_index_order base q q' :
  0 <= base < 2 ^ 256 - 2 ^ 64 → is_u64 q → is_u64 q' →
  let i := getQualityIndex base q in
  getQuality i = q
  ∧ getQualityIndex i q' = getQualityIndex base q'
  ∧ (i < getQualityIndex base q' ↔ q < q')
  ∧ getQualityIndex base 0 <= i < getQualityNext (getQualityIndex base 0)
  ∧ (∀ j, 0 <= j < 2 ^ 256 → getQualityIndex base 0 <= j < getQualityNext (getQualityIndex base 0) →
       j = getQualityIndex base (getQuality j)).
Proof.
  intros Hb Hq Hq'. unfold is_u64 in *. unfold getQuality, getQualityNext, getQualityIndex.
  change (2 ^ 64) with 18446744073709551616 in *. change 0x10000000000000000 with 18446744073709551616.
  change (2 ^ 256) with 115792089237316195423570985008687907853269984665640564039457584007913129639936 in *.
  pose proof (Z.div_mod base 18446744073709551616 ltac:(lia)) as Hdm.
  pose proof (Z.mod_pos_bound base 18446744073709551616 ltac:(lia)) as Hm.
  set (K := base / 18446744073709551616) in *. clearbody K.
  assert ((K * 18446744073709551616 + q) mod 18446744073709551616 = q) as ->.
  { rewrite Z.add_comm, Z_mod_plus_full. apply Z.mod_small. lia. }
  rewrite Z.div_add_l, (Z.div_small q) by lia. rewrite (Z.mod_small (K * 18446744073709551616 + 0 + _)) by lia.
  split; [done|]. split; [lia|]. split; [lia|]. split; [lia|]. intros j Hj Hr.
  assert (K = j / 18446744073709551616) as ->; [|pose proof (Z.div_mod j 18446744073709551616 ltac:(lia)); lia].
  apply (Z.div_unique_pos j _ K (j - K * 18446744073709551616)); lia.
Qed.

Lemma quality_index_order_witness :
  getQuality (getQualityIndex (2 ^ 200 + 77) 5) = 5 ∧ getQualityIndex (2 ^ 200 + 77) 5 < getQualityIndex (2 ^ 200 + 77) 6.
Proof.
  destruct (quality_index_order (2 ^ 200 + 77) 5 6) as (H1 & _ & H2 & _); [by split|by split|by split|].
  split; [exact H1|apply H2; lia].
Defined.

(** The constant of [getQualityNext] is what the text constructor of [uint256] reads. *)
Example quality_next_constant :
  val (SetHex 8 (49 :: repeat 48 16) false).1 = 0x10000000000000000.
Proof. vm_compute. reflexivity. Qed.
