(* ===== verification/BigNum.v ===== *)
(** * The arbitrary-precision integers of OpenSSL

    [src/src/crypto/impl/CBigNum.cpp] wraps OpenSSL's BIGNUM, which is not part of
    the sources: its word operations are an interface here.  The laws state their
    documented behaviour (exact arithmetic while memory can be allocated; division
    by a non-zero word truncates; [BN_get_word] returns all ones when the value does
    not fit in a word).  [zBigNum] shows that the laws can be met. *)

From S2P Require Import Prelude.

Class BigNum := {
  bn : Type;
  bn_val : bn → Z;
  bn_new : bn;                              (** [CBigNum v;] *)
  BN_add_word64 : bn → Z → option bn;       (** [None]: the call reports an error *)
  BN_mul_word64 : bn → Z → option bn;
  BN_div_word64 : bn → Z → option bn;
  BN_getuint64 : bn → Z;
  bn_new_val : bn_val bn_new = 0;
  bn_add_spec : ∀ v w, 0 <= bn_val v → is_u64 w →
    ∃ v', BN_add_word64 v w = Some v' ∧ bn_val v' = bn_val v + w;
  bn_mul_spec : ∀ v w, 0 <= bn_val v → is_u64 w →
    ∃ v', BN_mul_word64 v w = Some v' ∧ bn_val v' = bn_val v * w;
  bn_div_spec : ∀ v w, 0 <= bn_val v → is_u64 w → w ≠ 0 →
    ∃ v', BN_div_word64 v w = Some v' ∧ bn_val v' = bn_val v / w;
  bn_get_small : ∀ v, is_u64 (bn_val v) → BN_getuint64 v = bn_val v;
  bn_get_large : ∀ v, 18446744073709551616 <= bn_val v → BN_getuint64 v = 18446744073709551615;
}.

#[local] Obligation Tactic := idtac.

#[export] Program Instance zBigNum : BigNum := {|
  bn := Z; bn_val v := v; bn_new := 0;
  BN_add_word64 v w := Some (v + w);
  BN_mul_word64 v w := Some (v * w);
  BN_div_word64 v w := if w =? 0 then None else Some (v / w);
  BN_getuint64 v := if v <? 18446744073709551616 then v else 18446744073709551615;
|}.
Next Obligation. reflexivity. Qed.
Next Obligation. simpl. eauto. Qed.
Next Obligation. simpl. eauto. Qed.
Next Obligation. intros v w ? ? Hw. simpl. rewrite (proj2 (Z.eqb_neq w 0) Hw). eauto. Qed.
Next Obligation. intros v [? ?]. simpl. by rewrite (proj2 (Z.ltb_lt v _)). Qed.
Next Obligation. intros v ?. simpl. by rewrite (proj2 (Z.ltb_ge v _)). Qed.
