(* ===== verification/STAmount.v ===== *)
(** * STAmount: decimal floating-point amounts

    Model of [src/src/protocol/STAmount.h] and [impl/STAmount.cpp]: the record, its
    constructors, [canonicalize], the arithmetic ([+], [-], [multiply], [divide],
    [mulRound], [divRound]), the comparisons, offer rates and the wire format.  The
    field name every [STBase] carries ([SField]) has no influence on any of these and
    is left out.  Signed 32-bit exponents stay far inside their range, so they are
    plain integers; 64-bit mantissas are reduced wherever the code computes with
    them.  Theorems are in [STAmountProps] and [STAmountArith]. *)

From S2P Require Import Prelude Bytes Serializer Issue BigNum.

Record STAmount := mkSTAmount {
  mIssue : Issue;
  mValue : Z;
  mOffset : Z;
  mIsNative : bool;
  mIsNegative : bool
}.

#[export] Instance STAmount_eq_dec : EqDecision STAmount.
Proof. solve_decision. Defined.

Definition tenTo14 : Z := 100000000000000.
Definition tenTo14m1 : Z := tenTo14 - 1.
Definition tenTo17 : Z := tenTo14 * 1000.

Definition cMinOffset : Z := -96.
Definition cMaxOffset : Z := 80.
Definition cMinValue : Z := 1000000000000000.
Definition cMaxValue : Z := 9999999999999999.
Definition cMaxNative : Z := 9000000000000000000.
Definition cMaxNativeN : Z := 100000000000000000.
Definition cNotNative : Z := 9223372036854775808.
Definition cPosNative : Z := 4611686018427387904.

(** ** Observers *)

Definition amount_isSWT (a : STAmount) : bool := isSWT (currency (mIssue a)).

Definition signum (a : STAmount) : Z :=
  if mValue a =? 0 then 0 else if mIsNegative a then -1 else 1.

(** [a == zero], [a != zero], ... compare [signum] with 0. *)
Definition is_zero (a : STAmount) : bool := signum a =? 0.

Definition isDefault (a : STAmount) : bool := (mValue a =? 0) && mIsNative a.

Definition isLegalNet (a : STAmount) : bool := negb (mIsNative a) || (mValue a <=? cMaxNativeN).

(** ** canonicalize *)

Definition set_val (a : STAmount) (v o : Z) : STAmount :=
  mkSTAmount (mIssue a) v o (mIsNative a) (mIsNegative a).
Definition set_native (a : STAmount) (b : bool) : STAmount :=
  mkSTAmount (mIssue a) (mValue a) (mOffset a) b (mIsNegative a).
Definition set_negative (a : STAmount) (b : bool) : STAmount :=
  mkSTAmount (mIssue a) (mValue a) (mOffset a) (mIsNative a) b.

(** [while (mOffset < 0) { mValue /= 10; ++mOffset; }] *)
Fixpoint native_down (fuel : nat) (v o : Z) : Z * Z :=
  match fuel with
  | O => (v, o)
  | S f => if o <? 0 then native_down f (v / 10) (o + 1) else (v, o)
  end.

(** [while (mOffset > 0) { mValue *= 10; --mOffset; }] *)
Fixpoint native_up (fuel : nat) (v o : Z) : Z * Z :=
  match fuel with
  | O => (v, o)
  | S f => if o >? 0 then native_up f (u64 (v * 10)) (o - 1) else (v, o)
  end.

(** [while ((mValue < cMinValue) && (mOffset > cMinOffset)) ...] *)
Fixpoint scale_up (fuel : nat) (v o : Z) : Z * Z :=
  match fuel with
  | O => (v, o)
  | S f =>
      if (v <? cMinValue) && (o >? cMinOffset) then scale_up f (u64 (v * 10)) (o - 1)
      else (v, o)
  end.

(** [while (mValue > cMaxValue) ...] *)
Fixpoint scale_down (fuel : nat) (v o : Z) : result (Z * Z) :=
  match fuel with
  | O => Ok (v, o)
  | S f =>
      if v >? cMaxValue then
        if o >=? cMaxOffset then Throw "value overflow" else scale_down f (v / 10) (o + 1)
      else Ok (v, o)
  end.

(** At most 15 steps bring a non-zero mantissa up to [cMinValue], at most 20 bring a
    64-bit one down to [cMaxValue] (lemmas [scale_up_spec], [scale_down_spec]). *)
Definition scale_fuel : nat := 20.

Definition canonicalize (a : STAmount) : result STAmount :=
  if amount_isSWT a then
    let a := set_native a true in
    if mValue a =? 0 then Ok (set_negative (set_val a (mValue a) 0) false)
    else
      let '(v, o) := native_down (Z.to_nat (- mOffset a)) (mValue a) (mOffset a) in
      let '(v, o) := native_up (Z.to_nat o) v o in
      if v >? cMaxNativeN then Throw "Native currency amount out of range"
      else Ok (set_val a v o)
  else
    let a := set_native a false in
    if mValue a =? 0 then Ok (set_negative (set_val a (mValue a) (-100)) false)
    else
      let '(v, o) := scale_up scale_fuel (mValue a) (mOffset a) in
      '(v, o) ← scale_down scale_fuel v o;
      let '(v, o) := if (o <? cMinOffset) || (v <? cMinValue) then (0, 0) else (v, o) in
      if o >? cMaxOffset then Throw "value overflow" else Ok (set_val a v o).

(** ** Constructors *)

(** [STAmount (Issue const&, uint64 mantissa, int exponent, bool negative)], and the
    same with a field name *)
Definition mkAmount (issue : Issue) (mantissa exponent : Z) (negative : bool) : result STAmount :=
  canonicalize (mkSTAmount issue mantissa exponent false negative).

(** [STAmount (Issue const&)] *)
Definition mkZero (issue : Issue) : result STAmount := mkAmount issue 0 0 false.

(** [set (int64)] *)
Definition set_s64 (a : STAmount) (v : Z) : STAmount :=
  if v <? 0 then set_val (set_negative a true) (u64 (- v)) (mOffset a)
  else set_val (set_negative a false) (u64 v) (mOffset a).

(** [STAmount (SField const&, int64 mantissa)]: native, not canonicalized *)
Definition mkNativeS (mantissa : Z) : STAmount :=
  set_s64 (mkSTAmount xrpIssue 0 0 true false) mantissa.

(** [STAmount (SField const&, uint64 mantissa, bool negative)] *)
Definition mkNativeU (mantissa : Z) (negative : bool) : STAmount :=
  mkSTAmount xrpIssue mantissa 0 true negative.

(** [STAmount (uint64 mantissa, bool negative)] *)
Definition mkNative (mantissa : Z) (negative : bool) : STAmount :=
  mkSTAmount xrpIssue mantissa 0 true (negb (mantissa =? 0) && negative).

(** [STAmount (Issue const&, int64 mantissa, int exponent)] *)
Definition mkAmountS (issue : Issue) (mantissa exponent : Z) : result STAmount :=
  canonicalize (set_s64 (mkSTAmount issue 0 exponent false false) mantissa).

Definition createFromInt64 (value : Z) : STAmount :=
  if value >=? 0 then mkNativeU (u64 value) false else mkNativeU (u64 (- value)) true.

Definition zeroed (a : STAmount) : result STAmount := mkZero (mIssue a).

(** ** Modification *)

Definition negate (a : STAmount) : STAmount :=
  if is_zero a then a else set_negative a (negb (mIsNegative a)).

(** [clear ()] and [operator= (Zero)] *)
Definition clear (a : STAmount) : STAmount :=
  set_negative (set_val a 0 (if mIsNative a then 0 else -100)) false.

Definition setIssue (a : STAmount) (issue : Issue) : STAmount :=
  mkSTAmount issue (mValue a) (mOffset a) (isSWT (currency issue)) (mIsNegative a).

Definition clear_issue (a : STAmount) (issue : Issue) : STAmount := clear (setIssue a issue).

Definition setIssuer (a : STAmount) (uIssuer : Account) : STAmount :=
  setIssue a (mkIssue (currency (mIssue a)) uIssuer).

Definition setSNValue (a : STAmount) (v : Z) : result STAmount :=
  if negb (mIsNative a) then Throw "not native"
  else if v >? 0 then Ok (set_val (set_negative a false) (u64 v) (mOffset a))
  else Ok (set_val (set_negative a true) (u64 (- v)) (mOffset a)).

Definition roundSelf (a : STAmount) : result STAmount :=
  if mIsNative a then Ok a
  else
    let valueDigits := mValue a mod 1000000000 in
    if valueDigits =? 1 then
      let a := set_val a (u64 (mValue a - 1)) (mOffset a) in
      if mValue a <? cMinValue then canonicalize a else Ok a
    else if valueDigits =? 999999999 then
      let a := set_val a (u64 (mValue a + 1)) (mOffset a) in
      if mValue a >? cMaxValue then canonicalize a else Ok a
    else Ok a.

(** ** Native values *)

Definition getSNValue (a : STAmount) : result Z :=
  if negb (mIsNative a) then Throw "amount is not native!"
  else
    let ret := s64 (mValue a) in
    Ok (if mIsNegative a then s64 (- ret) else ret).

Definition getNValue (a : STAmount) : result Z :=
  if negb (mIsNative a) then Throw "amount is not native!"
  else if mIsNegative a then Throw "amount is negative!"
  else Ok (mValue a).

(** ** Comparison *)

Definition isComparable (a t : STAmount) : bool :=
  if mIsNative a then mIsNative t
  else if mIsNative t then false
  else currency (mIssue a) =? currency (mIssue t).

Definition throwComparable (a t : STAmount) : result () :=
  if isComparable a t then Ok () else Throw "amounts are not comparable".

Definition compare (lhs rhs : STAmount) : Z :=
  if negb (Bool.eqb (mIsNegative lhs) (mIsNegative rhs)) then
    (if mIsNegative lhs then -1 else 1)
  else if mValue lhs =? 0 then
    (if mIsNegative rhs then 1 else if negb (mValue rhs =? 0) then -1 else 0)
  else if mValue rhs =? 0 then 1
  else if mOffset lhs >? mOffset rhs then (if mIsNegative lhs then -1 else 1)
  else if mOffset lhs <? mOffset rhs then (if mIsNegative lhs then 1 else -1)
  else if mValue lhs >? mValue rhs then (if mIsNegative lhs then -1 else 1)
  else if mValue lhs <? mValue rhs then (if mIsNegative lhs then 1 else -1)
  else 0.

Definition op_eq (lhs rhs : STAmount) : bool :=
  isComparable lhs rhs && Bool.eqb (mIsNegative lhs) (mIsNegative rhs)
  && (mOffset lhs =? mOffset rhs) && (mValue lhs =? mValue rhs).

Definition op_ne (lhs rhs : STAmount) : bool :=
  negb (mOffset lhs =? mOffset rhs) || negb (mValue lhs =? mValue rhs)
  || negb (Bool.eqb (mIsNegative lhs) (mIsNegative rhs)) || negb (isComparable lhs rhs).

Definition op_lt (lhs rhs : STAmount) : result bool :=
  _ ← throwComparable lhs rhs; Ok (compare lhs rhs <? 0).
Definition op_gt (lhs rhs : STAmount) : result bool :=
  _ ← throwComparable lhs rhs; Ok (compare lhs rhs >? 0).
Definition op_le (lhs rhs : STAmount) : result bool :=
  _ ← throwComparable lhs rhs; Ok (compare lhs rhs <=? 0).
Definition op_ge (lhs rhs : STAmount) : result bool :=
  _ ← throwComparable lhs rhs; Ok (compare lhs rhs >=? 0).

(** Comparison with, and addition of, an unsigned number of native units *)
Definition lt_u64 (lhs : STAmount) (rhs : Z) : result bool :=
  v ← getSNValue lhs; Ok (v <? s64 rhs).
Definition gt_u64 (lhs : STAmount) (rhs : Z) : result bool :=
  v ← getSNValue lhs; Ok (v >? s64 rhs).
Definition le_u64 (lhs : STAmount) (rhs : Z) : result bool :=
  v ← getSNValue lhs; Ok (v <=? s64 rhs).
Definition ge_u64 (lhs : STAmount) (rhs : Z) : result bool :=
  v ← getSNValue lhs; Ok (v >=? s64 rhs).

Definition add_u64 (lhs : STAmount) (rhs : Z) : result STAmount :=
  v ← getSNValue lhs; Ok (mkNativeS (s64 (v + s64 rhs))).
Definition sub_u64 (lhs : STAmount) (rhs : Z) : result STAmount :=
  v ← getSNValue lhs; Ok (mkNativeS (s64 (v - s64 rhs))).

(** Unary minus *)
Definition op_neg (value : STAmount) : STAmount :=
  if mValue value =? 0 then value
  else mkSTAmount (mIssue value) (mValue value) (mOffset value) (mIsNative value)
         (negb (mIsNegative value)).

(** ** Addition and subtraction *)

(** [while (ov < target) { vv /= 10; ++ov; }]: signed division truncates. *)
Fixpoint align (fuel : nat) (vv ov target : Z) : Z * Z :=
  match fuel with
  | O => (vv, ov)
  | S f => if ov <? target then align f (Z.quot vv 10) (ov + 1) target else (vv, ov)
  end.

(** The signed mantissa [vv] of an operand *)
Definition signed_mantissa (a : STAmount) : Z :=
  let vv := s64 (mValue a) in if mIsNegative a then s64 (- vv) else vv.

Definition op_add (v1 v2 : STAmount) : result STAmount :=
  _ ← throwComparable v1 v2;
  if is_zero v2 then Ok v1
  else if is_zero v1 then mkAmount (mIssue v1) (mValue v2) (mOffset v2) (mIsNegative v2)
  else if mIsNative v1 then
    s1 ← getSNValue v1; s2 ← getSNValue v2; Ok (mkNativeS (s64 (s1 + s2)))
  else
    let '(vv1, ov1) := align (Z.to_nat (mOffset v2 - mOffset v1))
                         (signed_mantissa v1) (mOffset v1) (mOffset v2) in
    let '(vv2, ov2) := align (Z.to_nat (ov1 - mOffset v2)) (signed_mantissa v2) (mOffset v2) ov1 in
    let fv := s64 (vv1 + vv2) in
    if (fv >=? -10) && (fv <=? 10) then mkZero (mIssue v1)
    else if fv >=? 0 then mkAmount (mIssue v1) (u64 fv) ov1 false
    else mkAmount (mIssue v1) (u64 (- fv)) ov1 true.

Definition op_sub (v1 v2 : STAmount) : result STAmount :=
  _ ← throwComparable v1 v2;
  if is_zero v2 then Ok v1
  else if mIsNative v2 then
    s1 ← getSNValue v1; s2 ← getSNValue v2; Ok (createFromInt64 (s64 (s1 - s2)))
  else
    let '(vv1, ov1) := align (Z.to_nat (mOffset v2 - mOffset v1))
                         (signed_mantissa v1) (mOffset v1) (mOffset v2) in
    let '(vv2, ov2) := align (Z.to_nat (ov1 - mOffset v2)) (signed_mantissa v2) (mOffset v2) ov1 in
    let fv := s64 (vv1 - vv2) in
    if (fv >=? -10) && (fv <=? 10) then mkZero (mIssue v1)
    else if fv >=? 0 then mkAmount (mIssue v1) (u64 fv) ov1 false
    else mkAmount (mIssue v1) (u64 (- fv)) ov1 true.

(** ** Multiplication and division *)

(** [while (val < cMinValue) { val *= 10; --offset; }], which brings the mantissa of a
    native amount into range *)
Fixpoint norm_native (fuel : nat) (val offset : Z) : Z * Z :=
  match fuel with
  | O => (val, offset)
  | S f => if val <? cMinValue then norm_native f (u64 (val * 10)) (offset - 1) else (val, offset)
  end.

(** The operand of a multiplication or division: its mantissa and exponent, normalized
    when it is native *)
Definition operand (a : STAmount) : Z * Z :=
  if mIsNative a then norm_native scale_fuel (mValue a) (mOffset a) else (mValue a, mOffset a).

Definition bn_error {A} (o : option A) : result A :=
  match o with Some a => Ok a | None => Throw "internal bn error" end.

(** The product of two native amounts as a native amount *)
Definition native_product (v1 v2 : STAmount) : result STAmount :=
  s1 ← getSNValue v1; s2 ← getSNValue v2;
  let minV := u64 (if s1 <? s2 then s1 else s2) in
  let maxV := u64 (if s1 <? s2 then s2 else s1) in
  if minV >? 3000000000 then Throw "Native value overflow"
  else if u64 (Z.shiftr maxV 32 * minV) >? 2095475792 then Throw "Native value overflow"
  else Ok (mkNativeU (u64 (minV * maxV)) false).

Definition canonicalizeRound_native (fuel : nat) (value offset loops : Z) : Z * Z * Z :=
  (fix go fuel value offset loops :=
    match fuel with
    | O => (value, offset, loops)
    | S f => if offset <? -1 then go f (value / 10) (offset + 1) (loops + 1)
             else (value, offset, loops)
    end) fuel value offset loops.

Fixpoint canonicalizeRound_iou (fuel : nat) (value offset : Z) : Z * Z :=
  match fuel with
  | O => (value, offset)
  | S f => if value >? 10 * cMaxValue then canonicalizeRound_iou f (value / 10) (offset + 1)
           else (value, offset)
  end.

Definition canonicalizeRound (native : bool) (value offset : Z) (roundUp : bool) : Z * Z :=
  if negb roundUp then (value, offset)
  else if native then
    if offset <? 0 then
      let '(value, offset, loops) :=
        canonicalizeRound_native (Z.to_nat (- offset)) value offset 0 in
      let value := u64 (value + (if loops >=? 2 then 9 else 10)) in
      (value / 10, offset + 1)
    else (value, offset)
  else if value >? cMaxValue then
    let '(value, offset) := canonicalizeRound_iou scale_fuel value offset in
    let value := u64 (value + 9) in
    (value / 10, offset + 1)
  else (value, offset).

Section arith.
  Context {BN : BigNum}.

Definition divide (num den : STAmount) (issue : Issue) : result STAmount :=
  if is_zero den then Throw "division by zero"
  else if is_zero num then mkZero issue
  else
    let '(numVal, numOffset) := operand num in
    let '(denVal, denOffset) := operand den in
    v ← bn_error (BN_add_word64 bn_new numVal);
    v ← bn_error (BN_mul_word64 v tenTo17);
    v ← bn_error (BN_div_word64 v denVal);
    mkAmount issue (u64 (BN_getuint64 v + 5)) (numOffset - denOffset - 17)
      (negb (Bool.eqb (mIsNegative num) (mIsNegative den))).

Definition multiply (v1 v2 : STAmount) (issue : Issue) : result STAmount :=
  if is_zero v1 || is_zero v2 then mkZero issue
  else if mIsNative v1 && mIsNative v2 && isSWT (currency issue) then native_product v1 v2
  else
    let '(value1, offset1) := operand v1 in
    let '(value2, offset2) := operand v2 in
    v ← bn_error (BN_add_word64 bn_new value1);
    v ← bn_error (BN_mul_word64 v value2);
    v ← bn_error (BN_div_word64 v tenTo14);
    mkAmount issue (u64 (BN_getuint64 v + 7)) (offset1 + offset2 + 14)
      (negb (Bool.eqb (mIsNegative v1) (mIsNegative v2))).

Definition mulRound (v1 v2 : STAmount) (issue : Issue) (roundUp : bool) : result STAmount :=
  if is_zero v1 || is_zero v2 then mkZero issue
  else if mIsNative v1 && mIsNative v2 && isSWT (currency issue) then native_product v1 v2
  else
    let '(value1, offset1) := operand v1 in
    let '(value2, offset2) := operand v2 in
    let resultNegative := negb (Bool.eqb (mIsNegative v1) (mIsNegative v2)) in
    let up := negb (Bool.eqb resultNegative roundUp) in
    v ← bn_error (BN_add_word64 bn_new value1);
    v ← bn_error (BN_mul_word64 v value2);
    let v := if up then default v (BN_add_word64 v tenTo14m1) else v in
    v ← bn_error (BN_div_word64 v tenTo14);
    let '(amount, offset) :=
      canonicalizeRound (isSWT (currency issue)) (BN_getuint64 v) (offset1 + offset2 + 14) up in
    mkAmount issue amount offset resultNegative.

Definition divRound (num den : STAmount) (issue : Issue) (roundUp : bool) : result STAmount :=
  if is_zero den then Throw "division by zero"
  else if is_zero num then mkZero issue
  else
    let '(numVal, numOffset) := operand num in
    let '(denVal, denOffset) := operand den in
    let resultNegative := negb (Bool.eqb (mIsNegative num) (mIsNegative den)) in
    let up := negb (Bool.eqb resultNegative roundUp) in
    v ← bn_error (BN_add_word64 bn_new numVal);
    v ← bn_error (BN_mul_word64 v tenTo17);
    let v := if up then default v (BN_add_word64 v (u64 (denVal - 1))) else v in
    v ← bn_error (BN_div_word64 v denVal);
    let '(amount, offset) :=
      canonicalizeRound (isSWT (currency issue)) (BN_getuint64 v) (numOffset - denOffset - 17) up in
    mkAmount issue amount offset resultNegative.

(** ** Offer rates *)

(** Every exception of [divide] is swallowed. *)
Definition getRate (offerOut offerIn : STAmount) : Z :=
  if is_zero offerOut then 0
  else match divide offerIn offerOut noIssue with
       | Ok r =>
           if is_zero r then 0
           else Z.lor (u64 (Z.shiftl (u64 (mOffset r + 100)) 56)) (mValue r)
       | Throw _ => 0
       end.

End arith.

Definition amountFromRate (uRate : Z) : result STAmount := mkAmount noIssue uRate (-9) false.

(** [rate & ~(255ull << 56)] keeps the low 56 bits. *)
Definition amountFromQuality (rate : Z) : result STAmount :=
  if rate =? 0 then mkZero noIssue
  else
    let mantissa := Z.ldiff rate (Z.shiftl 255 56) in
    let exponent := s32 (Z.shiftr rate 56) - 100 in
    mkAmount noIssue mantissa exponent false.

Definition isUserTum (c : Currency) : bool := c >=? 2 ^ 159.

(** ** Wire format *)

(** The 64-bit word of [add (Serializer&)] *)
Definition amount_word (a : STAmount) : Z :=
  if mIsNative a then
    if negb (mIsNegative a) then Z.lor (mValue a) cPosNative else mValue a
  else if is_zero a then cNotNative
  else if mIsNegative a then
    Z.lor (mValue a) (u64 (Z.shiftl (u64 (mOffset a + 512 + 97)) 54))
  else Z.lor (mValue a) (u64 (Z.shiftl (u64 (mOffset a + 512 + 256 + 97)) 54)).

(** [add (Serializer& s)] *)
Definition serialize (a : STAmount) (d : blob) : blob :=
  let d := (add64 (amount_word a) d).2 in
  if mIsNative a then d
  else
    let d := (addBitString (be_bytes 20 (currency (mIssue a))) d).2 in
    (addBitString (be_bytes 20 (account (mIssue a))) d).2.

(** [STAmount (SerialIter& sit, SField const&)] *)
Definition deserialize (sit : SerialIter) : result (STAmount * SerialIter) :=
  '(value, sit) ← si_get64 sit;
  if Z.land value cNotNative =? 0 then
    if negb (Z.land value cPosNative =? 0) then
      Ok (mkSTAmount xrpIssue (Z.ldiff value cPosNative) 0 true false, sit)
    else if value =? 0 then Throw "negative zero is not canonical"
    else Ok (mkSTAmount xrpIssue value 0 true true, sit)
  else
    '(c, sit) ← si_getBitString 20 sit;
    let cur := be_val c in
    if isSWT cur then Throw "invalid native currency"
    else
      '(a, sit) ← si_getBitString 20 sit;
      let acc := be_val a in
      if isSWT acc then Throw "invalid native account"
      else
        let issue := mkIssue cur acc in
        let offset := s32 (Z.shiftr value 54) in
        let value := Z.ldiff value (Z.shiftl 1023 54) in
        if negb (value =? 0) then
          let isNegative := Z.land offset 256 =? 0 in
          let offset := Z.land offset 255 - 97 in
          if (value <? cMinValue) || (value >? cMaxValue)
             || (offset <? cMinOffset) || (offset >? cMaxOffset)
          then Throw "invalid currency value"
          else
            r ← canonicalize (mkSTAmount issue value offset false isNegative); Ok (r, sit)
        else if negb (offset =? 512) then Throw "invalid currency value"
        else r ← canonicalize (mkSTAmount issue 0 0 false false); Ok (r, sit).

(** [isEquivalent] of two amounts *)
Definition isEquivalent (a t : STAmount) : bool := op_eq t a.
