(* ===== verification/STAmountProps.v ===== *)
(** * Canonical form, order and wire format of amounts

    The value of an amount is [mantissa * 10^offset].  Statements about values use a
    bias [b] large enough that every exponent is non-negative ([sval b v o] is
    [v * 10^(o + b)]), which keeps them inside the integers. *)

From S2P Require Import Prelude Bytes Serializer Issue BigNum STAmount.

(** ** Powers of ten *)

Definition sval (b v o : Z) : Z := v * 10 ^ (o + b).

Lemma p10_pos n : 0 <= n → 0 < 10 ^ n.
Proof. intros. by apply Z.pow_pos_nonneg. Qed.

Lemma p10_split a b : 0 <= a → 0 <= b → 10 ^ (a + b) = 10 ^ a * 10 ^ b.
Proof. intros. by apply Z.pow_add_r. Qed.

Lemma p10_succ n : 0 <= n → 10 ^ (n + 1) = 10 * 10 ^ n.
Proof. intros. rewrite p10_split by lia. change (10 ^ 1) with 10. lia. Qed.

(** Moving a factor [10^k] between mantissa and exponent. *)
Lemma sval_shift b v o k : 0 <= k → 0 <= o + b → sval b (v * 10 ^ k) o = sval b v (o + k).
Proof.
  intros. unfold sval. replace (o + k + b) with (k + (o + b)) by lia.
  rewrite (p10_split k (o + b)) by lia. ring.
Qed.

Lemma sval_le b v w o : 0 <= o + b → v <= w → sval b v o <= sval b w o.
Proof. intros ? ?. unfold sval. pose proof (p10_pos (o + b)). nia. Qed.

Lemma sval_lt b v w o : 0 <= o + b → v < w → sval b v o < sval b w o.
Proof. intros ? ?. unfold sval. pose proof (p10_pos (o + b)). nia. Qed.

Lemma sval_lt_inv b v w o : 0 <= o + b → sval b v o < sval b w o → v < w.
Proof. intros ? ?. unfold sval in *. pose proof (p10_pos (o + b)). nia. Qed.

(** ** The loops *)

Lemma scale_up_spec fuel v o :
  0 < v → ∃ k, 0 <= k ∧ scale_up fuel v o = (v * 10 ^ k, o - k)
    ∧ (v < cMinValue ∧ v * 10 ^ k < 10 * cMinValue ∨ k = 0)
    ∧ (cMinOffset <= o - k ∨ k = 0)
    ∧ (10 ^ Z.of_nat fuel * v >= cMinValue → cMinValue <= v * 10 ^ k ∨ o - k <= cMinOffset).
Proof.
  revert v o. induction fuel as [|f IH]; intros v o Hv; cbn [scale_up].
  { exists 0. rewrite Z.mul_1_r, Z.sub_0_r. split_and!; try lia; auto. }
  destruct ((v <? cMinValue) && (o >? cMinOffset)) eqn:E.
  - zbool. unfold cMinValue, cMinOffset in *. rewrite u64_id by mint_range.
    destruct (IH (v * 10) (o - 1)) as (k & Hk & -> & Hb & Ho & Hf); [lia|].
    exists (k + 1). rewrite p10_succ by lia. rewrite Nat2Z.inj_succ, Z.pow_succ_r in * by lia.
    replace (v * (10 * 10 ^ k)) with (v * 10 * 10 ^ k) by ring.
    split_and!; [lia|f_equal; lia| |lia|lia].
    left. split; [lia|]. destruct Hb as [?| ->]; [lia|]. lia.
  - exists 0. rewrite Z.mul_1_r, Z.sub_0_r. split_and!; try lia; auto.
Qed.

Lemma scale_down_spec fuel v o :
  0 <= v → v < 10 ^ Z.of_nat fuel * (cMaxValue + 1) →
  (∃ k, 0 <= k ∧ scale_down fuel v o = Ok (v / 10 ^ k, o + k)
     ∧ v / 10 ^ k <= cMaxValue ∧ (cMinValue <= v / 10 ^ k ∨ k = 0)
     ∧ (o + k <= cMaxOffset ∨ k = 0))
  ∨ (∃ k, 0 <= k ∧ scale_down fuel v o = Throw "value overflow"
     ∧ cMaxValue < v / 10 ^ k ∧ cMaxOffset <= o + k).
Proof.
  revert v o. induction fuel as [|f IH]; intros v o Hv Hlt; cbn [scale_down].
  { left. exists 0. rewrite Z.div_1_r, Z.add_0_r. simpl in Hlt. split_and!; auto; lia. }
  assert (∀ k, 0 <= k → v / 10 ^ (k + 1) = v / 10 / 10 ^ k) as Hdiv.
  { intros k Hk. pose proof (p10_pos k). rewrite Z.div_div, p10_succ by lia. done. }
  destruct (v >? cMaxValue) eqn:E; zbool.
  - destruct (o >=? cMaxOffset) eqn:E2; zbool.
    { right. exists 0. rewrite Z.div_1_r, Z.add_0_r. split_and!; auto; lia. }
    rewrite Nat2Z.inj_succ, Z.pow_succ_r in Hlt by lia.
    destruct (IH (v / 10) (o + 1)) as [(k & Hk & -> & H1 & H2 & H3)|(k & Hk & -> & H1 & H2)].
    + zlia.
    + unfold cMaxValue in *. zlia.
    + left. exists (k + 1). rewrite Hdiv by done.
      split_and!; [lia|do 2 f_equal; lia|done| |].
      * left. destruct H2 as [?| ->]; [done|]. rewrite Z.div_1_r in *.
        unfold cMinValue, cMaxValue in *. zlia.
      * unfold cMaxOffset in *. lia.
    + right. exists (k + 1). rewrite Hdiv by done. split_and!; auto; lia.
  - left. exists 0. rewrite Z.div_1_r, Z.add_0_r. split_and!; auto; lia.
Qed.

#[global] Arguments scale_up : simpl never.
#[global] Arguments scale_down : simpl never.

Lemma native_down_spec v o :
  o <= 0 → native_down (Z.to_nat (- o)) v o = (v / 10 ^ (- o), 0).
Proof.
  intros Ho. remember (Z.to_nat (- o)) as n eqn:Hn. revert v o Ho Hn.
  induction n as [|n IH]; intros v o Ho Hn; simpl native_down.
  { replace o with 0 by lia. by rewrite Z.div_1_r. }
  destruct (o <? 0) eqn:E; zbool; [|lia].
  rewrite IH by lia. f_equal. rewrite Z.div_div by (try apply p10_pos; lia).
  rewrite <- p10_succ by lia. do 2 f_equal. lia.
Qed.

Lemma native_down_id v o n : 0 <= o → native_down n v o = (v, o).
Proof. intros. destruct n; simpl; [done|]. case_if; zbool; [lia|done]. Qed.

Lemma native_up_spec v o :
  0 <= o → (native_up (Z.to_nat o) v o).2 = 0
  ∧ (0 <= v → v * 10 ^ o < 18446744073709551616 →
     native_up (Z.to_nat o) v o = (v * 10 ^ o, 0)).
Proof.
  intros Ho. remember (Z.to_nat o) as n eqn:Hn. revert v o Ho Hn.
  induction n as [|n IH]; intros v o Ho Hn; simpl native_up.
  { replace o with 0 by lia. by rewrite Z.mul_1_r. }
  destruct (o >? 0) eqn:E; zbool; [|lia].
  split; [apply IH; lia|]. intros Hv Hlt.
  assert (10 ^ o = 10 * 10 ^ (o - 1)) as Hp.
  { rewrite <- p10_succ by lia. f_equal. lia. }
  pose proof (p10_pos (o - 1) ltac:(lia)). rewrite Hp in Hlt.
  rewrite u64_id by (unfold is_u64; nia).
  destruct (IH (v * 10) (o - 1) ltac:(lia) ltac:(lia)) as [_ Hup].
  rewrite Hup by nia. rewrite Hp. f_equal. ring.
Qed.

(** Scaling up multiplies modulo [2^64]: the loop has no overflow test. *)
Lemma native_up_mod v o :
  is_u64 v → 0 <= o → native_up (Z.to_nat o) v o = (u64 (v * 10 ^ o), 0).
Proof.
  intros Hv Ho. remember (Z.to_nat o) as n eqn:Hn. revert v o Hv Ho Hn.
  induction n as [|n IH]; intros v o Hv Ho Hn; simpl native_up.
  { replace o with 0 by lia. by rewrite Z.mul_1_r, u64_id. }
  destruct (o >? 0) eqn:E; zbool; [|lia].
  rewrite IH by (apply u64_range || lia). f_equal. unfold u64.
  rewrite Z.mul_mod_idemp_l by done. f_equal.
  rewrite <- Z.mul_assoc, <- p10_succ by lia. do 2 f_equal. lia.
Qed.

Lemma sval_exp_le b v o o' : 0 <= v → 0 <= o + b → o <= o' → sval b v o <= sval b v o'.
Proof.
  intros. unfold sval. pose proof (Z.pow_le_mono_r 10 (o + b) (o' + b) ltac:(lia) ltac:(lia)).
  pose proof (p10_pos (o + b)). nia.
Qed.

(** Truncated division loses less than one unit of the new exponent. *)
Lemma sval_div b v o k :
  0 <= v → 0 <= k → 0 <= o + b →
  sval b (v / 10 ^ k) (o + k) <= sval b v o < sval b (v / 10 ^ k + 1) (o + k).
Proof.
  intros Hv Hk Hb. rewrite <- !(sval_shift b _ o k) by lia. pose proof (p10_pos k Hk).
  split; [apply sval_le|apply sval_lt]; try lia.
  - rewrite Z.mul_comm. by apply Z.mul_div_le.
  - pose proof (Z.mod_pos_bound v (10 ^ k) ltac:(lia)). pose proof (Z.div_mod v (10 ^ k) ltac:(lia)). nia.
Qed.

(** [cMinValue * 10^(n+1)] and [(cMaxValue + 1) * 10^n] are the same power of ten. *)
Lemma sval_boundary b n : 0 <= n + b → sval b cMinValue (n + 1) = sval b (cMaxValue + 1) n.
Proof.
  intros. unfold sval, cMinValue, cMaxValue. replace (n + 1 + b) with (n + b + 1) by lia.
  rewrite p10_succ by lia. ring.
Qed.

(** ** canonicalize on issued currencies *)

(** The two outcomes of [canonicalize] on a non-zero magnitude [v * 10^o]. *)
Inductive canon_iou (v o : Z) : result (Z * Z) → Prop :=
| canon_normal v' o' :
    cMinValue <= v' <= cMaxValue → cMinOffset <= o' <= cMaxOffset →
    (∀ b, 0 <= o + b → 0 <= o' + b → sval b v' o' <= sval b v o < sval b (v' + 1) o') →
    canon_iou v o (Ok (v', o'))
| canon_underflow :
    (∀ b, 0 <= o + b → 0 <= cMinOffset + b → sval b v o < sval b cMinValue cMinOffset) →
    canon_iou v o (Ok (0, 0))
| canon_overflow w :
    (∀ b, 0 <= o + b → 0 <= cMaxOffset + b → sval b (cMaxValue + 1) cMaxOffset <= sval b v o) →
    canon_iou v o (Throw w).

(** The part of [canonicalize] after the tests for SWT and zero. *)
Definition canon_mantissa (v o : Z) : result (Z * Z) :=
  let '(v, o) := scale_up scale_fuel v o in
  '(v, o) ← scale_down scale_fuel v o;
  let '(v, o) := if (o <? cMinOffset) || (v <? cMinValue) then (0, 0) else (v, o) in
  if o >? cMaxOffset then Throw "value overflow" else Ok (v, o).

Lemma canonicalize_iou a :
  amount_isSWT a = false → mValue a ≠ 0 →
  canonicalize a = ('(v, o) ← canon_mantissa (mValue a) (mOffset a);
                    Ok (mkSTAmount (mIssue a) v o false (mIsNegative a))).
Proof.
  intros Hs Hv. unfold canonicalize, canon_mantissa. rewrite Hs. cbn [set_native mValue mOffset].
  rewrite (proj2 (Z.eqb_neq _ _) Hv).
  destruct (scale_up scale_fuel (mValue a) (mOffset a)) as [v o].
  destruct (scale_down scale_fuel v o) as [[v' o']|w]; [|reflexivity].
  cbn [mbind result_bind].
  destruct ((o' <? cMinOffset) || (v' <? cMinValue)); case_if; reflexivity.
Qed.

(** After [scale_up] a mantissa that was scaled needs no [scale_down]. *)
Lemma canon_mantissa_scaled v o :
  0 < v < 18446744073709551616 →
  ∃ k1 k2, 0 <= k1 ∧ 0 <= k2 ∧ (k1 = 0 ∨ k2 = 0) ∧
    let v1 := v * 10 ^ k1 in let o1 := o - k1 in
    (cMinOffset <= o1 ∨ k1 = 0) ∧ (cMinValue <= v1 ∨ o1 <= cMinOffset) ∧
    ((canon_mantissa v o =
        (let '(v, o) := if (o1 + k2 <? cMinOffset) || (v1 / 10 ^ k2 <? cMinValue)
                        then (0, 0) else (v1 / 10 ^ k2, o1 + k2) in
         if o >? cMaxOffset then Throw "value overflow" else Ok (v, o))
      ∧ v1 / 10 ^ k2 <= cMaxValue ∧ (cMinValue <= v1 / 10 ^ k2 ∨ k2 = 0)
      ∧ (o1 + k2 <= cMaxOffset ∨ k2 = 0))
     ∨ (canon_mantissa v o = Throw "value overflow" ∧ k1 = 0
        ∧ cMaxValue < v / 10 ^ k2 ∧ cMaxOffset <= o + k2)).
Proof.
  intros Hv. unfold canon_mantissa.
  destruct (scale_up_spec scale_fuel v o) as (k1 & Hk1 & -> & Hb & Ho & Hf); [lia|].
  assert (cMinValue <= v * 10 ^ k1 ∨ o - k1 <= cMinOffset) as Hdone.
  { apply Hf. unfold scale_fuel, cMinValue. change (10 ^ Z.of_nat 20) with 100000000000000000000. lia. }
  pose proof (p10_pos k1 Hk1).
  assert (v * 10 ^ k1 < 18446744073709551616) as Hlt.
  { destruct Hb as [[_ Hb]| ->]; unfold cMinValue in *; lia. }
  destruct (scale_down_spec scale_fuel (v * 10 ^ k1) (o - k1))
    as [(k2 & Hk2 & Heq & H1 & H2 & H3)|(k2 & Hk2 & Heq & H1 & H2)].
  { nia. }
  { unfold scale_fuel, cMaxValue. change (10 ^ Z.of_nat 20) with 100000000000000000000. lia. }
  - exists k1, k2. rewrite Heq. cbn [mbind result_bind].
    split_and!; try done; [|left; split_and!; done].
    destruct Hb as [[_ Hb]| ->]; [|auto]. right.
    destruct H2 as [H2| ->]; [|done]. destruct (decide (k2 = 0)); [done|exfalso].
    assert (10 <= 10 ^ k2) by (apply (Z.pow_le_mono_r 10 1 k2); lia).
    assert (v * 10 ^ k1 / 10 ^ k2 < cMinValue).
    { apply Z.div_lt_upper_bound; [lia|]. unfold cMinValue in *. nia. }
    lia.
  - exists k1, k2. assert (k1 = 0) as ->.
    { destruct Hb as [[_ Hb]| ->]; [exfalso|done]. pose proof (p10_pos k2 Hk2).
      assert (v * 10 ^ k1 / 10 ^ k2 <= v * 10 ^ k1) by (apply Z.div_le_upper_bound; nia).
      unfold cMinValue, cMaxValue in *. lia. }
    rewrite Z.mul_1_r, Z.sub_0_r in *. rewrite Heq.
    split_and!; try done; auto 10.
Qed.

Lemma canon_mantissa_spec v o :
  0 < v < 18446744073709551616 → canon_iou v o (canon_mantissa v o).
Proof.
  intros Hv. destruct (canon_mantissa_scaled v o Hv)
    as (k1 & k2 & Hk1 & Hk2 & H0 & Ho1 & Hdone & [(-> & Hm & Hk & Hx)|(-> & -> & Hm & Hx)]).
  - set (v1 := v * 10 ^ k1) in *. set (v2 := v1 / 10 ^ k2) in *. set (o2 := o - k1 + k2) in *.
    pose proof (p10_pos k1 Hk1). assert (0 < v1) by (subst v1; nia).
    (* the value is preserved up to the truncation of [k2] digits *)
    assert (∀ b, 0 <= o + b → 0 <= o2 + b → sval b v2 o2 <= sval b v o < sval b (v2 + 1) o2) as Hval.
    { intros b Hb Hb2. destruct H0 as [-> | ->].
      - subst v2 v1 o2. rewrite Z.mul_1_r, Z.sub_0_r in *. apply sval_div; lia.
      - subst v2 o2. rewrite Z.div_1_r, Z.add_0_r in *. subst v1.
        replace (sval b v o) with (sval b (v * 10 ^ k1) (o - k1))
          by (rewrite sval_shift by lia; f_equal; lia).
        split; [lia|]. apply sval_lt; lia. }
    destruct ((o2 <? cMinOffset) || (v2 <? cMinValue)) eqn:E; simpl.
    + apply canon_underflow. intros b Hb Hbm. apply orb_true_iff in E.
      destruct (decide (o2 < cMinOffset)) as [Hlow|Hlow].
      * assert (k1 = 0) as -> by (unfold o2 in *; lia). assert (0 <= o2 + b) by (unfold o2; lia).
        destruct (Hval b Hb ltac:(done)) as [_ Hlt].
        apply Z.lt_le_trans with (1 := Hlt).
        replace cMinOffset with (cMinOffset - 1 + 1) by lia. rewrite sval_boundary by lia.
        etransitivity; [apply sval_le with (w := cMaxValue + 1); lia|].
        apply sval_exp_le; unfold cMaxValue; lia.
      * assert (v2 < cMinValue) by (destruct E as [E|E]; zbool; lia).
        assert (k2 = 0) as -> by lia. subst v2 o2. rewrite Z.div_1_r, Z.add_0_r in *.
        assert (o - k1 = cMinOffset) as Heq by (unfold cMinOffset in *; lia).
        destruct (Hval b Hb ltac:(lia)) as [_ Hlt].
        apply Z.lt_le_trans with (1 := Hlt). rewrite Heq. apply sval_le; lia.
    + apply orb_false_iff in E as [E1 E2]. zbool.
      destruct (o2 >? cMaxOffset) eqn:E3; zbool.
      * apply canon_overflow. intros b Hb Hbm. unfold cMaxOffset in *.
        destruct (Hval b Hb ltac:(lia)) as [Hle _].
        etransitivity; [|exact Hle]. rewrite <- sval_boundary by lia.
        etransitivity; [apply sval_exp_le with (o' := o2); unfold cMinValue; lia|].
        apply sval_le; lia.
      * apply canon_normal; [lia|lia|done].
  - apply canon_overflow. intros b Hb Hbm.
    destruct (sval_div b v o k2) as [Hle _]; [lia|lia|lia|].
    etransitivity; [|exact Hle].
    etransitivity; [apply sval_exp_le with (o' := o + k2); unfold cMaxValue in *; lia|].
    apply sval_le; lia.
Qed.

(** ** Canonical amounts *)

(** The representation invariant: what [canonicalize] is documented to produce
    (comment at the top of [STAmount.h]). *)
Definition canonical (a : STAmount) : bool :=
  if amount_isSWT a then
    mIsNative a && (0 <=? mValue a) && (mValue a <=? cMaxNativeN) && (mOffset a =? 0)
    && (negb (mValue a =? 0) || negb (mIsNegative a))
  else
    negb (mIsNative a)
    && (if mValue a =? 0 then (mOffset a =? -100) && negb (mIsNegative a)
        else (cMinValue <=? mValue a) && (mValue a <=? cMaxValue)
             && (cMinOffset <=? mOffset a) && (mOffset a <=? cMaxOffset)).

(** The shape of a canonical amount. *)
Inductive canonical_shape (a : STAmount) : Prop :=
| shape_native :
    amount_isSWT a = true → mIsNative a = true → 0 <= mValue a <= cMaxNativeN →
    mOffset a = 0 → (mValue a = 0 → mIsNegative a = false) → canonical_shape a
| shape_zero :
    amount_isSWT a = false → mIsNative a = false → mValue a = 0 → mOffset a = -100 →
    mIsNegative a = false → canonical_shape a
| shape_iou :
    amount_isSWT a = false → mIsNative a = false → cMinValue <= mValue a <= cMaxValue →
    cMinOffset <= mOffset a <= cMaxOffset → canonical_shape a.

Lemma canonical_iff a : canonical a = true ↔ canonical_shape a.
Proof.
  unfold canonical. split.
  - intros H. destruct (amount_isSWT a) eqn:Es; zbool.
    + apply shape_native; try done.
      intros Hz. match goal with H : _ || _ = true |- _ => apply orb_true_iff in H as [H|H] end; zbool; done.
    + destruct (mValue a =? 0) eqn:Ez; zbool; [by apply shape_zero|by apply shape_iou].
  - intros [Hs Hn Hv Ho Hneg|Hs Hn Hv Ho Hneg|Hs Hn Hv Ho]; rewrite Hs, Hn; simpl.
    + rewrite Ho, (proj2 (Z.leb_le _ _) (proj1 Hv)), (proj2 (Z.leb_le _ _) (proj2 Hv)). simpl.
      destruct (mValue a =? 0) eqn:Ez; [|done]. zbool. by rewrite Hneg.
    + by rewrite Hv, Ho, Hneg.
    + unfold cMinValue, cMaxValue, cMinOffset, cMaxOffset in *.
      destruct (mValue a =? 0) eqn:Ez; zbool; [lia|].
      rewrite !andb_true_iff, !Z.leb_le. lia.
Qed.

(** The mantissa of a native amount at exponent 0: truncated when the exponent is
    negative, and reduced modulo [2^64] when it is not. *)
Definition native_value (a : STAmount) : Z :=
  if mOffset a <? 0 then mValue a / 10 ^ (- mOffset a) else u64 (mValue a * 10 ^ mOffset a).

(** What [canonicalize] makes of an amount, case by case. *)
Inductive canonicalized (a : STAmount) : result STAmount → Prop :=
| cz_zero r :
    mValue a = 0 → r = mkSTAmount (mIssue a) 0 (if amount_isSWT a then 0 else -100) (amount_isSWT a) false →
    canonicalized a (Ok r)
| cz_native :
    amount_isSWT a = true → mValue a ≠ 0 → native_value a <= cMaxNativeN →
    canonicalized a (Ok (mkSTAmount (mIssue a) (native_value a) 0 true (mIsNegative a)))
| cz_native_range :
    amount_isSWT a = true → mValue a ≠ 0 → cMaxNativeN < native_value a →
    canonicalized a (Throw "Native currency amount out of range")
| cz_iou r :
    amount_isSWT a = false → mValue a ≠ 0 → canon_iou (mValue a) (mOffset a) r →
    canonicalized a ('(v, o) ← r; Ok (mkSTAmount (mIssue a) v o false (mIsNegative a))).

Lemma canonicalize_native a :
  amount_isSWT a = true → mValue a ≠ 0 →
  canonicalize a =
    (let '(v, o) := native_down (Z.to_nat (- mOffset a)) (mValue a) (mOffset a) in
     let '(v, o) := native_up (Z.to_nat o) v o in
     if v >? cMaxNativeN then Throw "Native currency amount out of range"
     else Ok (mkSTAmount (mIssue a) v o true (mIsNegative a))).
Proof.
  intros Hs Hv. unfold canonicalize. rewrite Hs. cbn [set_native mValue mOffset].
  by rewrite (proj2 (Z.eqb_neq _ _) Hv).
Qed.

Lemma canonicalize_native_value a :
  amount_isSWT a = true → is_u64 (mValue a) → mValue a ≠ 0 →
  canonicalize a =
    if native_value a >? cMaxNativeN then Throw "Native currency amount out of range"
    else Ok (mkSTAmount (mIssue a) (native_value a) 0 true (mIsNegative a)).
Proof.
  intros Hs Hu Hz. rewrite canonicalize_native by done.
  assert ((let '(v, o) := native_down (Z.to_nat (- mOffset a)) (mValue a) (mOffset a) in
           native_up (Z.to_nat o) v o) = (native_value a, 0)) as Hw.
  { unfold native_value. destruct (mOffset a <? 0) eqn:E; zbool.
    - by rewrite native_down_spec by lia.
    - rewrite native_down_id by done. by apply native_up_mod. }
  destruct (native_down _ _ _) as [v o]. by rewrite Hw.
Qed.

Lemma canonicalize_zero a :
  mValue a = 0 →
  canonicalize a = Ok (mkSTAmount (mIssue a) 0 (if amount_isSWT a then 0 else -100) (amount_isSWT a) false).
Proof. intros Hv. unfold canonicalize. destruct (amount_isSWT a); simpl; by rewrite Hv. Qed.

(** C1: [canonicalize] on any 64-bit mantissa and any exponent: zero gets the canonical
    zero; a native amount is shifted to exponent 0, by truncation from a negative exponent
    and modulo [2^64] from a positive one (that loop has no overflow test, so an amount
    far out of range can wrap to a small one), and refused when the result is above
    [cMaxNativeN]; an issued amount is brought into 16 digits losing less than one unit
    of the last digit, becomes 0 exactly below the least representable value, and throws
    exactly from [10^96] on. *)
Theorem canonicalize_spec a : is_u64 (mValue a) → canonicalized a (canonicalize a).
Proof.
  intros Hu. destruct (decide (mValue a = 0)) as [Hz|Hz].
  { rewrite canonicalize_zero by done. by eapply cz_zero. }
  assert (0 < mValue a < 18446744073709551616) by (unfold is_u64 in Hu; lia).
  destruct (amount_isSWT a) eqn:Hs.
  - rewrite canonicalize_native_value by done.
    destruct (native_value a >? cMaxNativeN) eqn:E; zbool; [by apply cz_native_range|].
    by apply cz_native.
  - rewrite canonicalize_iou by done. apply cz_iou; [done..|]. by apply canon_mantissa_spec.
Qed.

(** An issued amount that loses digits, and [2^60 * 10^4] drops, which wrap to 0. *)
Lemma canonicalize_spec_witness :
  canonicalized (mkSTAmount (mkIssue 5 6) 12345678901234567890 3 false true)
    (canonicalize (mkSTAmount (mkIssue 5 6) 12345678901234567890 3 false true))
  ∧ canonicalized (mkSTAmount xrpIssue 1152921504606846976 4 true false)
      (canonicalize (mkSTAmount xrpIssue 1152921504606846976 4 true false)).
Proof. split; apply canonicalize_spec; by split. Defined.

Lemma scale_up_id f v o : cMinValue <= v → scale_up f v o = (v, o).
Proof.
  intros. destruct f; [done|]. unfold scale_up; fold scale_up.
  destruct (v <? cMinValue) eqn:E; zbool; [lia|done].
Qed.

Lemma scale_down_id f v o : v <= cMaxValue → scale_down f v o = Ok (v, o).
Proof.
  intros. destruct f; [done|]. unfold scale_down; fold scale_down.
  destruct (v >? cMaxValue) eqn:E; zbool; [lia|done].
Qed.

Lemma canonical_mantissa v o :
  cMinValue <= v <= cMaxValue → cMinOffset <= o <= cMaxOffset → canon_mantissa v o = Ok (v, o).
Proof.
  intros Hv Ho. unfold canon_mantissa. rewrite scale_up_id, scale_down_id by lia.
  cbn [mbind result_bind].
  destruct (o <? cMinOffset) eqn:E1; zbool; [lia|].
  destruct (v <? cMinValue) eqn:E2; zbool; [lia|]. simpl.
  destruct (o >? cMaxOffset) eqn:E3; zbool; [lia|done].
Qed.

Lemma native_up_range n v o : 0 <= v → 0 <= (native_up n v o).1.
Proof.
  revert v o. induction n as [|n IH]; intros v o Hv; simpl; [done|].
  case_if; [|done]. apply IH. pose proof (u64_range (v * 10)). mint_range.
Qed.

(** The exponent of a native amount ends at 0 whatever it was. *)
Lemma native_loops v o :
  0 <= v → ∃ w, 0 <= w ∧
    (let '(v, o) := native_down (Z.to_nat (- o)) v o in native_up (Z.to_nat o) v o) = (w, 0).
Proof.
  intros Hv. assert (∀ v o, 0 <= v → 0 <= o → ∃ w, 0 <= w ∧ native_up (Z.to_nat o) v o = (w, 0)) as Hup.
  { clear. intros v o Hv Ho. pose proof (native_up_range (Z.to_nat o) v o Hv).
    pose proof (proj1 (native_up_spec v o Ho)).
    destruct (native_up _ _ _) as [w o'] eqn:E. simpl in *. subst. eauto. }
  destruct (Z.leb_spec 0 o).
  - rewrite native_down_id by done. by apply Hup.
  - rewrite native_down_spec by lia. pose proof (p10_pos (- o) ltac:(lia)).
    apply Hup; [by apply Z.div_pos|done].
Qed.

Lemma canonicalize_fix a : canonical a = true → canonicalize a = Ok a.
Proof.
  intros [Hs Hn Hv Ho Hneg|Hs Hn Hv Ho Hneg|Hs Hn Hv Ho]%canonical_iff;
    destruct a as [i v o n g]; simpl in *.
  - subst n o. destruct (decide (v = 0)) as [->|Hz].
    + rewrite canonicalize_zero, Hs, Hneg by done. done.
    + rewrite canonicalize_native by done. simpl.
      destruct (v >? cMaxNativeN) eqn:E; zbool; [lia|done].
  - subst. rewrite canonicalize_zero, Hs by done. done.
  - subst n. rewrite canonicalize_iou; simpl; [|done|unfold cMinValue in *; lia].
    by rewrite canonical_mantissa.
Qed.

(** A canonical amount is a fixed point of [canonicalize]; and whatever
    [canonicalize] returns is canonical, unless a non-zero amount lost all its digits, in
    which case it is a zero of exponent 0 that keeps its sign. *)
Theorem canonicalize_canonical a :
  (canonical a = true → canonicalize a = Ok a)
  ∧ (∀ r, is_u64 (mValue a) → canonicalize a = Ok r →
      canonical r = true
      ∨ mValue a ≠ 0 ∧ r = mkSTAmount (mIssue a) 0 0 (amount_isSWT a) (mIsNegative a)).
Proof.
  split; [apply canonicalize_fix|]. intros r Hu Hr.
  destruct (decide (mValue a = 0)) as [Hz|Hz].
  { left. rewrite canonicalize_zero in Hr by done. injection Hr as <-.
    unfold canonical, amount_isSWT. simpl. by destruct (isSWT _). }
  destruct (amount_isSWT a) eqn:Hs.
  - rewrite canonicalize_native in Hr by done.
    destruct (native_loops (mValue a) (mOffset a)) as (w & Hw & Hl); [unfold is_u64 in Hu; lia|].
    destruct (native_down _ _ _) as [v o]. rewrite Hl in Hr.
    case_if_in Hr; [done|]. injection Hr as <-. zbool.
    destruct (decide (w = 0)) as [->|]; [auto|left].
    apply canonical_iff, shape_native; simpl; try done; lia.
  - rewrite canonicalize_iou in Hr by done. apply result_bind_Ok in Hr as ([v o] & Hc & [= <-]).
    pose proof (canon_mantissa_spec (mValue a) (mOffset a) ltac:(unfold is_u64 in Hu; lia)) as Hspec.
    rewrite Hc in Hspec. inversion Hspec; subst; [left|auto].
    by apply canonical_iff, shape_iou.
Qed.

Lemma canonicalize_canonical_witness :
  canonicalize (mkSTAmount (mkIssue 5 6) 1500000000000000 3 false true)
  = Ok (mkSTAmount (mkIssue 5 6) 1500000000000000 3 false true).
Proof. by apply canonicalize_canonical. Defined.

(** The class comment of [STAmount.h] says that a zero amount has value 0 and
    exponent -100 and is not negative; an amount that underflows in [canonicalize] does
    not: it keeps its sign and gets exponent 0, so it differs from the zero of its issue
    under [operator==] and is below it under [compare]. *)
Theorem underflow_breaks_canonical_zero issue v :
  isSWT (currency issue) = false → 0 < v < 10 →
  ∃ r z, mkAmount issue v (-100) true = Ok r ∧ mkZero issue = Ok z
    ∧ is_zero r = true ∧ is_zero z = true
    ∧ canonical z = true ∧ canonical r = false
    ∧ op_eq r z = false ∧ compare r z = -1.
Proof.
  intros Hs Hv. exists (mkSTAmount issue 0 0 false true), (mkSTAmount issue 0 (-100) false false).
  unfold mkAmount, mkZero, mkAmount.
  rewrite (canonicalize_zero (mkSTAmount issue 0 0 false false)) by done.
  unfold op_eq, isComparable, canonical, amount_isSWT; simpl. rewrite Hs, Z.eqb_refl.
  split_and!; try done.
  rewrite canonicalize_iou; simpl; [|done|lia].
  unfold canon_mantissa.
  assert (scale_up scale_fuel v (-100) = (v, -100)) as ->.
  { unfold scale_fuel, scale_up; fold scale_up.
    change (-100 >? cMinOffset) with false. by rewrite andb_false_r. }
  rewrite scale_down_id by (unfold cMaxValue; lia). done.
Qed.

Lemma underflow_breaks_canonical_zero_witness :
  ∃ r z, mkAmount (mkIssue 5 6) 1 (-100) true = Ok r ∧ mkZero (mkIssue 5 6) = Ok z
    ∧ is_zero r = true ∧ is_zero z = true
    ∧ canonical z = true ∧ canonical r = false
    ∧ op_eq r z = false ∧ compare r z = -1.
Proof. by apply underflow_breaks_canonical_zero. Defined.

(** ** Order *)

(** The number an amount stands for, in units of [10^-100]. *)
Definition magnitude (a : STAmount) : Z := sval 100 (mValue a) (mOffset a).
Definition amount_val (a : STAmount) : Z :=
  if mIsNegative a then - magnitude a else magnitude a.

Lemma canonical_offset a : canonical a = true → -100 <= mOffset a <= 80.
Proof.
  intros [? ? ? ->|? ? ? ->|? ? ? ?]%canonical_iff;
    unfold cMinOffset, cMaxOffset in *; lia.
Qed.

Lemma canonical_value a : canonical a = true → 0 <= mValue a <= cMaxNativeN.
Proof.
  intros [? ? ? ?|? ? -> ?|? ? ? ?]%canonical_iff;
    unfold cMinValue, cMaxValue, cMaxNativeN in *; lia.
Qed.

Lemma canonical_zero_sign a : canonical a = true → mValue a = 0 → mIsNegative a = false.
Proof.
  intros [? ? ? ? ?|? ? ? ? ?|? ? ? ?]%canonical_iff; auto.
  unfold cMinValue in *; lia.
Qed.

Lemma magnitude_zero a : mValue a = 0 → magnitude a = 0.
Proof. intros H. unfold magnitude, sval. by rewrite H. Qed.

Lemma magnitude_pos a : canonical a = true → mValue a ≠ 0 → 0 < magnitude a.
Proof.
  intros Hc Hz. pose proof (canonical_value a Hc). pose proof (canonical_offset a Hc).
  unfold magnitude, sval. pose proof (p10_pos (mOffset a + 100)). nia.
Qed.

(** The exponent decides first: mantissas all have 16 digits. *)
Lemma magnitude_offset_lt a t :
  canonical a = true → canonical t = true → isComparable a t = true →
  mValue a ≠ 0 → mValue t ≠ 0 → mOffset a < mOffset t → magnitude a < magnitude t.
Proof.
  intros Ha Ht Hc Hza Hzt Ho. unfold isComparable in Hc.
  apply canonical_iff in Ha as [? Hna ? Hoa|? ? ? ?|? Hna Hva Hoa];
    apply canonical_iff in Ht as [? Hnt ? Hot|? ? ? ?|? Hnt Hvt Hot];
    rewrite ?Hna, ?Hnt in Hc; try done; [lia|].
  unfold magnitude, cMinOffset in *.
  apply Z.lt_le_trans with (sval 100 (cMaxValue + 1) (mOffset a)); [apply sval_lt; lia|].
  rewrite <- sval_boundary by lia.
  etransitivity; [apply sval_exp_le with (o' := mOffset t); unfold cMinValue; lia|].
  apply sval_le; lia.
Qed.

Lemma magnitude_value_lt a t :
  canonical a = true → mOffset a = mOffset t →
  mValue a < mValue t → magnitude a < magnitude t.
Proof.
  intros Ha Ho Hv. pose proof (canonical_offset a Ha).
  unfold magnitude. rewrite Ho in *. apply sval_lt; lia.
Qed.

Lemma isComparable_sym a t : isComparable a t = isComparable t a.
Proof. unfold isComparable. destruct (mIsNative a), (mIsNative t); try done. apply Z.eqb_sym. Qed.

(** [compare] on the magnitudes of amounts of the same sign. *)
Lemma compare_magnitude a t :
  canonical a = true → canonical t = true → isComparable a t = true →
  mIsNegative a = mIsNegative t →
  compare a t = Z.sgn (if mIsNegative a then magnitude t - magnitude a else magnitude a - magnitude t).
Proof.
  intros Ha Ht Hc Hn. pose proof Hc as Hc'. rewrite isComparable_sym in Hc'.
  pose proof (magnitude_offset_lt a t Ha Ht Hc) as H1.
  pose proof (magnitude_offset_lt t a Ht Ha Hc') as H2.
  pose proof (magnitude_value_lt a t Ha) as H3. pose proof (magnitude_value_lt t a Ht) as H4.
  pose proof (magnitude_pos a Ha) as Pa. pose proof (magnitude_pos t Ht) as Pt.
  unfold compare. rewrite <- Hn, eqb_reflx. simpl.
  destruct (mValue a =? 0) eqn:Ea; zbool.
  { rewrite (canonical_zero_sign a) by done. rewrite (magnitude_zero a) by done.
    destruct (mValue t =? 0) eqn:Et; zbool; simpl; [by rewrite magnitude_zero|lia]. }
  destruct (mValue t =? 0) eqn:Et; zbool.
  { rewrite Hn, (canonical_zero_sign t) by done. rewrite (magnitude_zero t) by done. lia. }
  destruct (mOffset a >? mOffset t) eqn:E1; zbool; [destruct (mIsNegative a); lia|].
  destruct (mOffset a <? mOffset t) eqn:E2; zbool; [destruct (mIsNegative a); lia|].
  destruct (mValue a >? mValue t) eqn:E3; zbool; [destruct (mIsNegative a); lia|].
  destruct (mValue a <? mValue t) eqn:E4; zbool; [destruct (mIsNegative a); lia|].
  assert (magnitude a = magnitude t) as ->.
  { unfold magnitude. f_equal; lia. }
  rewrite Z.sub_diag. by destruct (mIsNegative a).
Qed.

Lemma compare_val a t :
  canonical a = true → canonical t = true → isComparable a t = true →
  compare a t = Z.sgn (amount_val a - amount_val t).
Proof.
  intros Ha Ht Hc. destruct (decide (mIsNegative a = mIsNegative t)) as [Hn|Hn].
  { rewrite compare_magnitude by done. unfold amount_val. rewrite <- Hn.
    destruct (mIsNegative a); f_equal; lia. }
  unfold compare, amount_val.
  pose proof (canonical_zero_sign a Ha). pose proof (canonical_zero_sign t Ht).
  pose proof (magnitude_pos a Ha). pose proof (magnitude_pos t Ht).
  pose proof (magnitude_zero a). pose proof (magnitude_zero t).
  destruct (mIsNegative a), (mIsNegative t); try done; simpl;
    destruct (decide (mValue a = 0)), (decide (mValue t = 0)); intuition lia.
Qed.

Lemma canonical_zero_offset a t :
  canonical a = true → canonical t = true → isComparable a t = true →
  mValue a = 0 → mValue t = 0 → mOffset a = mOffset t.
Proof.
  unfold isComparable. intros Ha Ht Hc Hza Hzt.
  apply canonical_iff in Ha as [? Hna ? Hoa|? Hna ? ?|? Hna Hva Hoa];
    apply canonical_iff in Ht as [? Hnt ? Hot|? Hnt ? ?|? Hnt Hvt Hot];
    rewrite Hna, Hnt in Hc; try done; unfold cMinValue in *; lia.
Qed.

Lemma op_eq_compare a t :
  canonical a = true → canonical t = true → isComparable a t = true →
  op_eq a t = (compare a t =? 0).
Proof.
  intros Ha Ht Hc. pose proof (canonical_zero_offset a t Ha Ht Hc).
  unfold op_eq, compare. rewrite Hc.
  destruct (Bool.eqb (mIsNegative a) (mIsNegative t)) eqn:En; simpl; [|by destruct (mIsNegative a)].
  apply eqb_prop in En. pose proof (canonical_zero_sign a Ha). pose proof (canonical_zero_sign t Ht).
  destruct (mOffset a =? mOffset t) eqn:E1, (mValue a =? mValue t) eqn:E2,
    (mValue a =? 0) eqn:E3, (mValue t =? 0) eqn:E4, (mOffset a >? mOffset t) eqn:E5,
    (mOffset a <? mOffset t) eqn:E6, (mValue a >? mValue t) eqn:E7, (mValue a <? mValue t) eqn:E8,
    (mIsNegative a) eqn:E9, (mIsNegative t) eqn:E10; simpl; try done; zbool; first [lia | intuition congruence].
Qed.

Lemma op_ne_negb a t : op_ne a t = negb (op_eq a t).
Proof.
  unfold op_ne, op_eq.
  by destruct (isComparable a t), (Bool.eqb _ _), (mOffset a =? mOffset t), (mValue a =? mValue t).
Qed.

Lemma sgn_ltb x y : (Z.sgn (x - y) <? 0) = bool_decide (x < y).
Proof. case_bool_decide; [apply Z.ltb_lt|apply Z.ltb_ge]; lia. Qed.
Lemma sgn_leb x y : (Z.sgn (x - y) <=? 0) = bool_decide (x <= y).
Proof. case_bool_decide; [apply Z.leb_le|apply Z.leb_gt]; lia. Qed.
Lemma sgn_eqb x y : (Z.sgn (x - y) =? 0) = bool_decide (x = y).
Proof. case_bool_decide; [apply Z.eqb_eq|apply Z.eqb_neq]; lia. Qed.

Lemma op_order a t :
  canonical a = true → canonical t = true → isComparable a t = true →
  op_lt a t = Ok (bool_decide (amount_val a < amount_val t))
  ∧ op_le a t = Ok (bool_decide (amount_val a <= amount_val t))
  ∧ op_gt a t = Ok (bool_decide (amount_val t < amount_val a))
  ∧ op_ge a t = Ok (bool_decide (amount_val t <= amount_val a)).
Proof.
  intros Ha Ht Hc. unfold op_lt, op_le, op_gt, op_ge, throwComparable. rewrite Hc. simpl.
  rewrite compare_val by done. rewrite <- !sgn_ltb, <- !sgn_leb.
  split_and!; try done; f_equal; rewrite ?Z.gtb_ltb, ?Z.geb_leb.
  - destruct (Z.ltb_spec 0 (Z.sgn (amount_val a - amount_val t))), (Z.ltb_spec (Z.sgn (amount_val t - amount_val a)) 0); lia.
  - destruct (Z.leb_spec 0 (Z.sgn (amount_val a - amount_val t))), (Z.leb_spec (Z.sgn (amount_val t - amount_val a)) 0); lia.
Qed.

(** C2: on canonical comparable amounts [compare] is the sign of the difference of the
    values they stand for, [operator==] is equality of values, [operator!=] its negation,
    and [<], [<=], [>], [>=] never throw and are the order of the values. *)
Theorem compare_is_value_order a t :
  canonical a = true → canonical t = true → isComparable a t = true →
  compare a t = Z.sgn (amount_val a - amount_val t)
  ∧ op_eq a t = bool_decide (amount_val a = amount_val t)
  ∧ op_ne a t = negb (op_eq a t)
  ∧ op_lt a t = Ok (bool_decide (amount_val a < amount_val t))
  ∧ op_le a t = Ok (bool_decide (amount_val a <= amount_val t))
  ∧ op_gt a t = op_lt t a ∧ op_ge a t = op_le t a.
Proof.
  intros Ha Ht Hc. rewrite op_ne_negb, op_eq_compare, compare_val, sgn_eqb by done.
  destruct (op_order a t) as (-> & -> & -> & ->); [done..|].
  destruct (op_order t a) as (-> & -> & _ & _); [done|done|by rewrite isComparable_sym|]. done.
Qed.

Lemma compare_is_value_order_witness :
  compare (mkSTAmount (mkIssue 5 6) 1500000000000000 3 false true)
    (mkSTAmount (mkIssue 5 7) 9500000000000000 (-4) false true) = -1.
Proof.
  pose proof (compare_is_value_order
    (mkSTAmount (mkIssue 5 6) 1500000000000000 3 false true)
    (mkSTAmount (mkIssue 5 7) 9500000000000000 (-4) false true)
    eq_refl eq_refl eq_refl) as [-> _]. reflexivity.
Defined.
