(* ===== verification/STAmountText.v ===== *)
(** * Text form of amounts

    Model of [STAmount::getText] and [STAmount::setValue (std::string)] of
    [src/src/protocol/impl/STAmount.cpp], with the decimal conversions of the standard library
    they use.  A text is the list of its character codes.  The theorem is that [setValue] reads
    back what [getText] writes. *)

From S2P Require Import Prelude Issue STAmount STAmountProps.

Definition is_digit (c : Z) : bool := (48 <=? c) && (c <=? 57).

(** ** Decimal numbers *)

(** [std::to_string] of an unsigned number: the digits of [n], at most [fuel] of them *)
Fixpoint to_digits (fuel : nat) (n : Z) : list Z :=
  match fuel with
  | O => []
  | S f => if n <? 10 then [48 + n] else to_digits f (n / 10) ++ [48 + n mod 10]
  end.
(** 20 digits are enough for 64 bits. *)
Definition to_string_u64 (n : Z) : list Z := to_digits 20 n.
Definition to_string_int (n : Z) : list Z :=
  if n <? 0 then 45 :: to_digits 20 (- n) else to_digits 20 n.

Definition dec_val (l : list Z) : Z := foldl (λ acc c, acc * 10 + (c - 48)) 0 l.

(** [boost::lexical_cast <std::uint64_t>] and [<int>] of a text of digits *)
Definition lexical_u64 (l : list Z) : result Z :=
  if dec_val l <? 18446744073709551616 then Ok (dec_val l) else Throw "bad_lexical_cast".
Definition lexical_int (l : list Z) : result Z :=
  if dec_val l <? 2147483648 then Ok (dec_val l) else Throw "bad_lexical_cast".

(** ** getText *)

(** [std::find_if (..., c != '0')] from the left and from the right *)
Fixpoint crop_left (l : list Z) : list Z :=
  match l with
  | [] => []
  | c :: l' => if c =? 48 then crop_left l' else l
  end.
Definition crop_right (l : list Z) : list Z := reverse (crop_left (reverse l)).

Definition pad_prefix : nat := 27.
Definition pad_suffix : nat := 23.

Definition getText (a : STAmount) : list Z :=
  if is_zero a then [48]
  else
    let raw_value := to_string_u64 (mValue a) in
    let ret := if mIsNegative a then [45] else [] in
    let scientific := negb (mOffset a =? 0) && ((mOffset a <? -25) || (mOffset a >? -5)) in
    if mIsNative a || scientific then
      ret ++ raw_value ++ (if scientific then 101 :: to_string_int (mOffset a) else [])
    else
      let val := repeat 48 pad_prefix ++ raw_value ++ repeat 48 pad_suffix in
      let offset := Z.to_nat (mOffset a + 43) in
      let pre := take offset val in
      let post := drop offset val in
      let pre := if (pad_prefix <? length pre)%nat then drop pad_prefix pre else pre in
      let pre := crop_left pre in
      let post := if (pad_suffix <? length post)%nat then take (length post - pad_suffix) post else post in
      let post := crop_right post in
      ret ++ (match pre with [] => [48] | _ => pre end)
          ++ (match post with [] => [] | _ => 46 :: post end).

(** ** setValue *)

(** The sub-expressions of the regular expression: sign, integer part, fraction (when there is a
    period), exponent sign and digits (when there is an exponent) *)
Record Match := mkMatch {
  m_sign : option Z;
  m_int : list Z;
  m_frac : option (list Z);
  m_exp : option (option Z * list Z)
}.

Definition opt_sign (l : list Z) : option Z * list Z :=
  match l with
  | c :: l' => if (c =? 45) || (c =? 43) then (Some c, l') else (None, l)
  | [] => (None, l)
  end.

(** The longest run of digits and the rest *)
Fixpoint span_digits (l : list Z) : list Z * list Z :=
  match l with
  | c :: l' => if is_digit c then let '(d, r) := span_digits l' in (c :: d, r) else ([], l)
  | [] => ([], [])
  end.

(** The integer part: a single 0, or digits that do not start with 0 *)
Definition int_part (l : list Z) : option (list Z * list Z) :=
  match l with
  | c :: l' =>
      if c =? 48 then Some ([48], l')
      else if is_digit c then Some (span_digits l) else None
  | [] => None
  end.

(** The fraction, a period and digits, and the exponent, a letter, an optional sign and digits.
    An optional part that does not match is skipped, and the rest must match what follows. *)
Definition frac_part (l : list Z) : option (list Z) * list Z :=
  match l with
  | 46 :: l' => let '(d, r) := span_digits l' in match d with [] => (None, l) | _ => (Some d, r) end
  | _ => (None, l)
  end.
Definition exp_part (l : list Z) : option (option Z * list Z) * list Z :=
  match l with
  | c :: l' =>
      if (c =? 101) || (c =? 69) then
        let '(sg, r) := opt_sign l' in
        let '(d, r) := span_digits r in
        match d with [] => (None, l) | _ => (Some (sg, d), r) end
      else (None, l)
  | [] => (None, l)
  end.

(** [boost::regex_match]: the whole text must match.  No choice is ambiguous: digits are
    followed by a period, an [e], or the end. *)
Definition regex_match (l : list Z) : option Match :=
  let '(sg, l) := opt_sign l in
  match int_part l with
  | None => None
  | Some (i, l) =>
      let '(f, l) := frac_part l in
      let '(e, l) := exp_part l in
      match l with [] => Some (mkMatch sg i f e) | _ => None end
  end.

Definition is_minus (o : option Z) : bool := match o with Some c => c =? 45 | None => false end.

(** The assignments of the [try] block.  The offset is an [int]. *)
Definition set_matched (a : STAmount) (m : Match) : result STAmount :=
  let a := set_negative a (is_minus (m_sign m)) in
  v ← lexical_u64 (m_int m ++ default [] (m_frac m));
  let a := set_val a v (- Z.of_nat (length (default [] (m_frac m)))) in
  a ← match m_exp m with
      | None => Ok a
      | Some (sg, d) =>
          x ← lexical_int d;
          Ok (set_val a (mValue a) (s32 (if is_minus sg then mOffset a - x else mOffset a + x)))
      end;
  canonicalize a.

(** [None] is the answer false; what a failed call leaves in the object is not modelled. *)
Definition setValue (a : STAmount) (amount : list Z) : option STAmount :=
  match regex_match amount with
  | None => None
  | Some m =>
      if (32 <? length (m_int m) + length (default [] (m_frac m)))%nat then None
      else if mIsNative a && match m_frac m with Some _ => true | None => false end then None
      else match set_matched a m with Ok r => Some r | Throw _ => None end
  end.

Example text1 : getText (mkSTAmount (mkIssue 5 6) 1234500000000000 (-20) false true) = [45; 48; 46; 48; 48; 48; 48; 49; 50; 51; 52; 53].
Proof. vm_compute. reflexivity. Qed.
Example text2 : setValue (mkSTAmount (mkIssue 5 6) 0 (-100) false false) [45; 48; 46; 48; 48; 48; 48; 49; 50; 51; 52; 53]
  = Some (mkSTAmount (mkIssue 5 6) 1234500000000000 (-20) false true).
Proof. vm_compute. reflexivity. Qed.

(** ** Decimal digits *)

Definition digits (l : list Z) : Prop := Forall (λ c, is_digit c = true) l.

Lemma dec_val_snoc l c : dec_val (l ++ [c]) = dec_val l * 10 + (c - 48).
Proof. unfold dec_val. by rewrite foldl_app. Qed.

Lemma dec_val_app a b : dec_val (a ++ b) = dec_val a * 10 ^ Z.of_nat (length b) + dec_val b.
Proof.
  induction b as [|c b IH] using rev_ind; [rewrite app_nil_r; cbn; lia|].
  rewrite app_assoc, !dec_val_snoc, IH, length_app. cbn [length].
  rewrite Nat2Z.inj_add, Z.pow_add_r by lia. change (10 ^ Z.of_nat 1) with 10. lia.
Qed.

Lemma dec_val_zeros n : dec_val (repeat 48 n) = 0.
Proof.
  induction n as [|n IH]; [done|]. cbn [repeat].
  rewrite (dec_val_app [48] (repeat 48 n) : dec_val (48 :: repeat 48 n) = _). by rewrite IH.
Qed.

Lemma digits_repeat n : digits (repeat 48 n).
Proof. induction n; by constructor. Qed.

Lemma to_digits_spec fuel n :
  0 <= n < 10 ^ Z.of_nat fuel → (0 < fuel)%nat →
  let l := to_digits fuel n in
  digits l ∧ dec_val l = n ∧ (∃ c l', l = c :: l' ∧ (n ≠ 0 → c ≠ 48))
  ∧ 10 ^ (Z.of_nat (length l) - 1) <= Z.max n 1.
Proof.
  revert n. induction fuel as [|f IH]; intros n Hn Hf; [lia|]. clear Hf. cbn [to_digits].
  destruct (Z.ltb_spec n 10) as [Hlt|Hge].
  - split_and!; [|cbn; lia|by exists (48 + n), []; split; [|lia]|cbn; lia].
    constructor; [|constructor]. unfold is_digit. apply andb_true_iff. zbool. lia.
  - rewrite Nat2Z.inj_succ, Z.pow_succ_r in Hn by lia.
    pose proof (Z.div_mod n 10 ltac:(lia)) as Hdm. pose proof (Z.mod_pos_bound n 10 ltac:(lia)) as Hm.
    assert (0 < n / 10 < 10 ^ Z.of_nat f) as Hd by (split; [apply Z.div_str_pos; lia|apply Z.div_lt_upper_bound; lia]).
    destruct (IH (n / 10)) as (H1 & H2 & (c & l' & El & Hc) & H4); [lia|destruct f; [simpl in Hd; lia|lia]|].
    rewrite El in *. split_and!.
    + apply Forall_app. split; [done|]. constructor; [|constructor]. unfold is_digit. apply andb_true_iff. zbool. lia.
    + rewrite dec_val_snoc, H2. lia.
    + exists c, (l' ++ [48 + n mod 10]). split; [done|]. intros _. apply Hc. lia.
    + rewrite length_app, Nat2Z.inj_add. cbn [length] in *. replace (Z.of_nat (S (length l')) + Z.of_nat 1 - 1) with (1 + (Z.of_nat (S (length l')) - 1)) by lia.
      rewrite Z.pow_add_r by lia. lia.
Qed.

Lemma dec_val_bound l : digits l → 0 <= dec_val l < 10 ^ Z.of_nat (length l).
Proof.
  induction l as [|c l IH] using rev_ind; [cbn; lia|]. intros [Hl Hc]%Forall_app. specialize (IH Hl).
  apply Forall_cons in Hc as [Hc _]. unfold is_digit in Hc. apply andb_true_iff in Hc. zbool.
  rewrite dec_val_snoc, length_app, Nat2Z.inj_add, Z.pow_add_r by lia. change (10 ^ Z.of_nat (length [c])) with 10. lia.
Qed.

(** 16-digit mantissas are printed with 16 digits. *)
Lemma to_string_16 n : cMinValue <= n <= cMaxValue → length (to_string_u64 n) = 16%nat.
Proof.
  unfold cMinValue, cMaxValue. intros Hn. unfold to_string_u64.
  destruct (to_digits_spec 20 n ltac:(cbn; lia) ltac:(lia)) as (H1 & H2 & _ & H4).
  pose proof (dec_val_bound _ H1) as Hb. rewrite H2 in Hb. set (k := Z.of_nat (length (to_digits 20 n))) in *.
  assert (16 <= k). { destruct (Z.le_gt_cases 16 k) as [|Hk]; [done|]. pose proof (Z.pow_le_mono_r 10 k 15 ltac:(lia) ltac:(lia)). lia. }
  assert (k <= 16). { destruct (Z.le_gt_cases k 16) as [|Hk]; [done|]. pose proof (Z.pow_le_mono_r 10 16 (k - 1) ltac:(lia) ltac:(lia)). lia. }
  lia.
Qed.

Lemma crop_left_spec l : ∃ k, l = repeat 48 k ++ crop_left l ∧ match crop_left l with [] => True | c :: _ => c ≠ 48 end.
Proof.
  induction l as [|c l IH]; [by exists 0%nat|]. cbn [crop_left]. destruct (Z.eqb_spec c 48) as [->|Hc].
  - destruct IH as (k & Hl & Hh). exists (S k). split; [|done]. cbn [repeat app]. by rewrite <- Hl.
  - by exists 0%nat.
Qed.

Lemma crop_right_spec l : ∃ k, l = crop_right l ++ repeat 48 k.
Proof.
  unfold crop_right. destruct (crop_left_spec (reverse l)) as (k & Hl & _). exists k.
  rewrite <- (reverse_involutive l) at 1. rewrite Hl at 1. rewrite reverse_app. f_equal.
  clear. induction k as [|k IH]; [done|]. cbn [repeat]. rewrite reverse_cons, IH. symmetry. apply repeat_cons.
Qed.

(** ** Matching *)

Definition no_digit (l : list Z) : Prop := match l with [] => True | c :: _ => is_digit c = false end.

Lemma span_digits_app d r : digits d → no_digit r → span_digits (d ++ r) = (d, r).
Proof.
  induction d as [|c d IH]; intros Hd Hr; cbn [app].
  - destruct r as [|c r]; [done|]. cbn [span_digits]. by rewrite Hr.
  - apply Forall_cons in Hd as [Hc Hd]. cbn [span_digits]. by rewrite Hc, IH.
Qed.

Definition good_int (i : list Z) : Prop := digits i ∧ match i with [] => False | c :: l => c ≠ 48 ∨ l = [] end.

Lemma int_part_app i r : good_int i → no_digit r → int_part (i ++ r) = Some (i, r).
Proof.
  intros [Hd Hi] Hr. destruct i as [|c l]; [done|]. apply Forall_cons in Hd as [Hc Hl]. cbn [app int_part].
  destruct (Z.eqb_spec c 48) as [->|Hne].
  - destruct Hi as [?| ->]; done.
  - rewrite Hc. f_equal. apply (span_digits_app (c :: l)); [by constructor|done].
Qed.

Lemma digit_not_sign c l : is_digit c = true → opt_sign (c :: l) = (None, c :: l).
Proof.
  intros Hc. unfold opt_sign, is_digit in *. apply andb_true_iff in Hc. zbool.
  by rewrite (proj2 (Z.eqb_neq c 45)), (proj2 (Z.eqb_neq c 43)) by lia.
Qed.

(** The text of a match *)
Definition print_sign (sg : option Z) : list Z := match sg with Some c => [c] | None => [] end.
Definition print_frac (f : option (list Z)) : list Z := match f with Some d => 46 :: d | None => [] end.
Definition print_exp (e : option (option Z * list Z)) : list Z :=
  match e with Some (sg, d) => 101 :: print_sign sg ++ d | None => [] end.

Lemma exp_part_print e :
  match e with Some (sg, d) => (sg = None ∨ sg = Some 45) ∧ digits d ∧ d ≠ [] | None => True end →
  exp_part (print_exp e) = (e, []) ∧ no_digit (print_exp e).
Proof.
  destruct e as [[sg d]|]; [|done]. intros (Hsg & Hd & Hne). split; [|done]. cbn [print_exp exp_part Z.eqb Pos.eqb orb].
  assert (opt_sign (print_sign sg ++ d) = (sg, d)) as ->.
  { destruct Hsg as [->| ->]; [|done]. cbn [print_sign app]. destruct d as [|c d]; [done|].
    apply digit_not_sign. by apply Forall_cons in Hd as [? _]. }
  rewrite <- (app_nil_r d) at 1. rewrite span_digits_app by done. by destruct d.
Qed.

Lemma regex_match_print sg i f e :
  (sg = None ∨ sg = Some 45) → good_int i →
  match f with Some d => digits d ∧ d ≠ [] | None => True end →
  match e with Some (sg, d) => (sg = None ∨ sg = Some 45) ∧ digits d ∧ d ≠ [] | None => True end →
  regex_match (print_sign sg ++ i ++ print_frac f ++ print_exp e) = Some (mkMatch sg i f e).
Proof.
  intros Hsg Hi Hf He. unfold regex_match. destruct (exp_part_print e He) as [Hep Hnd].
  assert (opt_sign (print_sign sg ++ i ++ print_frac f ++ print_exp e) = (sg, i ++ print_frac f ++ print_exp e)) as ->.
  { destruct Hsg as [->| ->]; [|done]. cbn [print_sign app]. destruct i as [|c i]; [by destruct Hi|].
    apply digit_not_sign. by destruct Hi as [[? _]%Forall_cons _]. }
  rewrite int_part_app; [|done|by destruct f].
  assert (frac_part (print_frac f ++ print_exp e) = (f, print_exp e)) as ->.
  { destruct f as [d|].
    - destruct Hf as [Hd Hne]. cbn [print_frac app frac_part]. rewrite span_digits_app by done. by destruct d.
    - cbn [print_frac app]. destruct e as [[? ?]|]; [|done]. done. }
  by rewrite Hep.
Qed.

(** ** Scaling back *)

Lemma scale_up_exact fuel v o k :
  0 < v → (k <= fuel)%nat → cMinValue <= v * 10 ^ Z.of_nat k <= cMaxValue → cMinOffset <= o →
  scale_up fuel v (o + Z.of_nat k) = (v * 10 ^ Z.of_nat k, o).
Proof.
  revert fuel v. induction k as [|k IH]; intros fuel v Hv Hf Hr Ho.
  - rewrite Z.mul_1_r, Z.add_0_r in *. apply scale_up_id. lia.
  - destruct fuel as [|fuel]; [lia|]. unfold scale_up; fold scale_up.
    rewrite Nat2Z.inj_succ, Z.pow_succ_r in * by lia. pose proof (p10_pos (Z.of_nat k) ltac:(lia)).
    unfold cMinValue, cMaxValue in Hr. rewrite (proj2 (Z.ltb_lt v cMinValue)) by (unfold cMinValue; nia).
    assert ((o + Z.succ (Z.of_nat k) >? cMinOffset) = true) as -> by (apply Z.gtb_lt; lia). cbn [andb].
    rewrite u64_id by (unfold is_u64; nia). replace (o + Z.succ (Z.of_nat k) - 1) with (o + Z.of_nat k) by lia.
    rewrite IH; [f_equal; lia|lia|lia|unfold cMinValue, cMaxValue; lia|done].
Qed.

(** A mantissa with its trailing zeros left out is scaled back. *)
Lemma canonicalize_scaled i v o k V O n g :
  isSWT (currency i) = false → cMinValue <= V <= cMaxValue → cMinOffset <= O <= cMaxOffset →
  v * 10 ^ Z.of_nat k = V → o = O + Z.of_nat k →
  canonicalize (mkSTAmount i v o n g) = Ok (mkSTAmount i V O false g).
Proof.
  intros Hi HV HO Hv ->. pose proof (p10_pos (Z.of_nat k) ltac:(lia)). assert (0 < v) by (unfold cMinValue in *; nia).
  assert (k <= 20)%nat as Hk.
  { destruct (decide (k <= 20)%nat) as [|Hk]; [done|]. pose proof (Z.pow_le_mono_r 10 20 (Z.of_nat k) ltac:(lia) ltac:(lia)).
    unfold cMaxValue in *. nia. }
  rewrite canonicalize_iou by (done || simpl; lia). cbn [mValue mOffset mIssue mIsNegative].
  unfold canon_mantissa, scale_fuel. rewrite scale_up_exact by (done || lia). rewrite Hv, scale_down_id by lia.
  cbn [mbind result_bind]. rewrite (proj2 (Z.ltb_ge O cMinOffset)), (proj2 (Z.ltb_ge V cMinValue)) by lia. cbn [orb].
  by rewrite Z.gtb_ltb, (proj2 (Z.ltb_ge cMaxOffset O)) by lia.
Qed.

(** ** Reading back *)

Definition sign_text (g : bool) : option Z := if g then Some 45 else None.

Lemma print_sign_text g : print_sign (sign_text g) = if g then [45] else [].
Proof. by destruct g. Qed.

(** What [setValue] does with a text in the form of the regular expression *)
Lemma setValue_print a g i f e :
  good_int i → match f with Some d => digits d ∧ d ≠ [] | None => True end →
  match e with Some (sg, d) => (sg = None ∨ sg = Some 45) ∧ digits d ∧ d ≠ [] | None => True end →
  (length i + length (default [] f) <= 32)%nat → mIsNative a = false ∨ f = None →
  setValue a (print_sign (sign_text g) ++ i ++ print_frac f ++ print_exp e)
  = match set_matched a (mkMatch (sign_text g) i f e) with Ok r => Some r | Throw _ => None end.
Proof.
  intros Hi Hf He Hlen Hn. unfold setValue. rewrite regex_match_print; [|by destruct g; [right|left]|done..].
  cbn [m_int m_frac]. rewrite (proj2 (Nat.ltb_ge _ _) Hlen).
  assert (mIsNative a && match f with Some _ => true | None => false end = false) as ->; [|done].
  destruct Hn as [-> | ->]; [done|]. by rewrite andb_false_r.
Qed.

Lemma take_zeros m n (l : list Z) : (m <= n)%nat → take m (repeat 48 n ++ l) = repeat 48 m.
Proof.
  revert n. induction m as [|m IH]; intros n Hn; [done|]. destruct n as [|n]; [lia|]. cbn. f_equal. apply IH. lia.
Qed.

Lemma crop_left_zeros n : crop_left (repeat 48 n) = [].
Proof. induction n as [|n IH]; [done|]. exact IH. Qed.

(** The integer part [getText] prints: the digits before the point without leading zeros *)
Lemma pre_spec raw n :
  digits raw → length raw = 16%nat → (n <= 25)%nat ->
  let D := repeat 48 27 ++ raw in
  let pre := take (43 - n) D in
  let pre1 := if (27 <? length pre)%nat then drop 27 pre else pre in
  digits (crop_left pre1) ∧ dec_val (crop_left pre1) = dec_val pre
  ∧ (length (crop_left pre1) <= 16 - n)%nat
  ∧ match crop_left pre1 with [] => True | c :: _ => c ≠ 48 end.
Proof.
  intros Hd Hl Hn D pre pre1.
  assert (length pre = 43 - n)%nat as Hlen by (unfold pre, D; rewrite length_take, length_app, repeat_length; lia).
  assert (∃ m, pre = repeat 48 m ++ pre1 ∧ digits pre1 ∧ (n < 16 → length pre1 = 16 - n)%nat ∧ ((16 <= n)%nat → pre1 = repeat 48 (43 - n)))
    as (m & Hpre & Hd1 & Hl1 & Hz).
  { destruct (decide (n < 16)%nat) as [Hc|Hc].
    - exists 27%nat. unfold pre1. rewrite Hlen, (proj2 (Nat.ltb_lt 27 (43 - n))) by lia.
      assert (pre = repeat 48 27 ++ take (16 - n) raw) as ->.
      { unfold pre, D. rewrite take_app_ge by (rewrite repeat_length; lia). by rewrite repeat_length; replace (43 - n - 27)%nat with (16 - n)%nat by lia. }
      rewrite (drop_app_length' (repeat 48 27)) by (by rewrite repeat_length). split_and!; [done|by apply Forall_take|rewrite length_take; lia|lia].
    - exists 0%nat. unfold pre1. rewrite Hlen, (proj2 (Nat.ltb_ge 27 (43 - n))) by lia.
      assert (pre = repeat 48 (43 - n)) as -> by (unfold pre, D; apply take_zeros; lia).
      split_and!; [done|apply digits_repeat|lia|done]. }
  destruct (crop_left_spec pre1) as (j & Hj & Hh). split_and!; [| | |done].
  - rewrite Hj in Hd1. by apply Forall_app in Hd1 as [_ ?].
  - rewrite Hpre at 1. rewrite Hj at 2. rewrite !dec_val_app, !dec_val_zeros. lia.
  - destruct (decide (n < 16)%nat) as [Hc|Hc].
    + pose proof (f_equal length Hj) as HL. rewrite length_app in HL. specialize (Hl1 Hc). lia.
    + rewrite Hz, crop_left_zeros by lia. simpl. lia.
Qed.

(** The fraction: the digits after the point without trailing zeros *)
Lemma post_spec raw n :
  digits raw → length raw = 16%nat → (n <= 25)%nat ->
  let D := repeat 48 27 ++ raw in
  let post := drop (43 - n) (D ++ repeat 48 23) in
  let post1 := if (23 <? length post)%nat then take (length post - 23) post else post in
  digits (crop_right post1) ∧ ∃ k, drop (43 - n) D = crop_right post1 ++ repeat 48 k ∧ (length (crop_right post1) + k = n)%nat.
Proof.
  intros Hd Hl Hn D post post1.
  assert (length D = 43%nat) as HD by (unfold D; rewrite length_app, repeat_length; lia).
  assert (post = drop (43 - n) D ++ repeat 48 23) as Hpost by (unfold post; rewrite drop_app_le; [done|lia]).
  assert (length (drop (43 - n) D) = n) as Hdl by (rewrite length_drop; lia).
  assert (digits D) as HdD by (apply Forall_app; split; [apply digits_repeat|done]).
  destruct (decide (n = 0)%nat) as [->|H0].
  - assert (drop (43 - 0) D = []) as HD0 by (apply drop_ge; lia). unfold post1. rewrite Hpost, HD0.
    split; [constructor|]. by exists 0%nat.
  - assert (post1 = drop (43 - n) D) as ->.
    { unfold post1. rewrite Hpost, length_app, Hdl, repeat_length. rewrite (proj2 (Nat.ltb_lt 23 (n + 23))) by lia.
      apply take_app_length'. lia. }
    destruct (crop_right_spec (drop (43 - n) D)) as (k & Hk). split.
    + pose proof (Forall_drop _ (43 - n) _ HdD) as Hx. rewrite Hk in Hx. by apply Forall_app in Hx as [? _].
    + exists k. split; [done|]. rewrite Hk in Hdl at 1. rewrite length_app, repeat_length in Hdl. done.
Qed.

Lemma raw_spec n : 0 < n <= cMaxNativeN → let l := to_string_u64 n in good_int l ∧ dec_val l = n ∧ (length l <= 20)%nat.
Proof.
  unfold cMaxNativeN. intros Hn. unfold to_string_u64.
  destruct (to_digits_spec 20 n ltac:(cbn; lia) ltac:(lia)) as (H1 & H2 & (c & l' & El & Hc) & H4).
  split; [split; [done|]|split; [done|]].
  - rewrite El. left. apply Hc. lia.
  - clear -H4 Hn. destruct (decide (length (to_digits 20 n) <= 20)%nat) as [|Hk]; [done|].
    pose proof (Z.pow_le_mono_r 10 20 (Z.of_nat (length (to_digits 20 n)) - 1) ltac:(lia) ltac:(lia)). lia.
Qed.

Lemma lexical_u64_ok l : dec_val l <= cMaxNativeN → lexical_u64 l = Ok (dec_val l).
Proof. unfold cMaxNativeN, lexical_u64. intros H. by rewrite (proj2 (Z.ltb_lt _ _)) by lia. Qed.

(** A number printed as an integer *)
Lemma setValue_int b a :
  canonical a = true → mValue a ≠ 0 → mOffset a = 0 → mIssue b = mIssue a → mIsNative b = mIsNative a →
  setValue b (print_sign (sign_text (mIsNegative a)) ++ to_string_u64 (mValue a)) = Some a.
Proof.
  intros Hc Hz Ho Hi Hn. pose proof (canonical_value a Hc). destruct (raw_spec (mValue a)) as (Hg & Hv & Hl); [lia|].
  rewrite <- (app_nil_r (to_string_u64 (mValue a))).
  etrans; [apply (setValue_print b (mIsNegative a) (to_string_u64 (mValue a)) None None); [done|done|done|simpl; lia|by right]|].
  unfold set_matched. cbn [m_int m_frac m_exp m_sign default from_option]. rewrite app_nil_r, lexical_u64_ok, Hv by lia.
  cbn [mbind result_bind length]. change (- Z.of_nat 0) with 0.
  assert (set_val (set_negative b (is_minus (sign_text (mIsNegative a)))) (mValue a) 0 = a) as ->; [|by rewrite canonicalize_fix].
  destruct a as [ia va oa na ga], b as [ib vb ob nb gb]. simpl in *. subst. by destruct ga.
Qed.

(** A number in scientific form *)
Lemma setValue_scientific b a :
  canonical a = true → mValue a ≠ 0 → mOffset a ≠ 0 → mIssue b = mIssue a → mIsNative b = mIsNative a →
  setValue b (print_sign (sign_text (mIsNegative a)) ++ to_string_u64 (mValue a) ++ 101 :: to_string_int (mOffset a)) = Some a.
Proof.
  intros Hc Hz Ho Hi Hn. pose proof (canonical_value a Hc). pose proof (canonical_offset a Hc) as Hoff.
  destruct (raw_spec (mValue a)) as (Hg & Hv & Hl); [lia|].
  destruct (raw_spec (Z.abs (mOffset a))) as ((Hgo & Hne) & Hvo & _); [unfold cMaxNativeN; lia|].
  set (e := Some (sign_text (mOffset a <? 0), to_string_u64 (Z.abs (mOffset a)))).
  assert (101 :: to_string_int (mOffset a) = print_exp e) as ->.
  { unfold e, to_string_int, to_string_u64. cbn [print_exp]. rewrite print_sign_text.
    destruct (Z.ltb_spec (mOffset a) 0); [by rewrite Z.abs_neq by lia|by rewrite Z.abs_eq by lia]. }
  etrans; [apply (setValue_print b (mIsNegative a) (to_string_u64 (mValue a)) None e); [done|done| |simpl; lia|by right]|].
  { split_and!; [by destruct (_ <? _); [right|left]|done|]. by destruct (to_string_u64 (Z.abs (mOffset a))). }
  unfold set_matched, e. cbn [m_int m_frac m_exp m_sign default from_option]. rewrite app_nil_r, lexical_u64_ok, Hv by lia.
  cbn [mbind result_bind length]. unfold lexical_int. rewrite Hvo, (proj2 (Z.ltb_lt (Z.abs (mOffset a)) 2147483648)) by lia. cbn [mbind result_bind].
  assert (s32 (if is_minus (sign_text (mOffset a <? 0)) then - Z.of_nat 0 - Z.abs (mOffset a) else - Z.of_nat 0 + Z.abs (mOffset a)) = mOffset a) as Hs.
  { destruct (Z.ltb_spec (mOffset a) 0); cbn [sign_text is_minus Z.eqb Pos.eqb]; rewrite s32_id; unfold is_s32; lia. }
  unfold set_val, set_negative. cbn [mOffset mValue mIssue mIsNative mIsNegative]. rewrite Hs.
  assert (mkSTAmount (mIssue b) (mValue a) (mOffset a) (mIsNative b) (is_minus (sign_text (mIsNegative a))) = a) as ->;
    [|by rewrite canonicalize_fix].
  destruct a as [ia va oa na ga]. simpl in *. subst. by destruct ga.
Qed.

(** A number printed with a decimal point *)
Lemma setValue_plain b a n :
  isSWT (currency (mIssue a)) = false → mIsNative a = false →
  cMinValue <= mValue a <= cMaxValue → mOffset a = - Z.of_nat n → (n <= 25)%nat →
  mIssue b = mIssue a → mIsNative b = false →
  let val := repeat 48 27 ++ to_string_u64 (mValue a) ++ repeat 48 23 in
  let pre := take (43 - n) val in
  let post := drop (43 - n) val in
  let pre := crop_left (if (27 <? length pre)%nat then drop 27 pre else pre) in
  let post := crop_right (if (23 <? length post)%nat then take (length post - 23) post else post) in
  setValue b (print_sign (sign_text (mIsNegative a)) ++ (match pre with [] => [48] | _ => pre end)
                ++ (match post with [] => [] | _ => 46 :: post end)) = Some a.
Proof.
  intros Hs Hna HV Ho Hn Hi Hnb. set (raw := to_string_u64 (mValue a)).
  pose proof (to_string_16 (mValue a) HV) as Hl.
  destruct (raw_spec (mValue a)) as ((Hd & _) & Hv & _); [unfold cMinValue, cMaxValue, cMaxNativeN in *; lia|].
  fold raw in Hl, Hd, Hv. destruct (pre_spec raw n Hd Hl Hn) as (P1 & P2 & P3 & P4).
  destruct (post_spec raw n Hd Hl Hn) as (F1 & k & F2 & F3). cbv zeta. rewrite (app_assoc (repeat 48 27) raw).
  set (D := repeat 48 27 ++ raw) in *.
  assert (length D = 43%nat) as HD by (unfold D; rewrite length_app, repeat_length; lia).
  rewrite (take_app_le D) by lia. set (pre := crop_left _) in *. set (post := crop_right _) in *.
  set (i := match pre with [] => [48] | _ => pre end). set (f := match post with [] => None | _ => Some post end).
  assert (default [] f = post) as Hf by (unfold f; by destruct post).
  assert (good_int i) as Hgi by (unfold i; destruct pre; split; [by repeat constructor|by right|done|by left]).
  assert (length i <= S (16 - n))%nat as Hil by (unfold i; destruct pre; simpl in *; lia).
  assert (dec_val (i ++ post) * 10 ^ Z.of_nat k = mValue a) as Hval.
  { assert (dec_val i = dec_val pre) as Hip by (unfold i; by destruct pre).
    assert (dec_val D = mValue a) as HvD by (unfold D; rewrite dec_val_app, dec_val_zeros; lia).
    rewrite <- HvD, <- (take_drop (43 - n) D), F2, !dec_val_app, dec_val_zeros, Hip, P2, length_app, repeat_length.
    rewrite Nat2Z.inj_add, Z.pow_add_r by lia. lia. }
  assert (match post with [] => [] | _ => 46 :: post end = print_frac f ++ print_exp None) as -> by (rewrite app_nil_r; unfold f; by destruct post).
  rewrite (setValue_print b (mIsNegative a) i f None); [|done| |done|rewrite Hf; lia|by left].
  2: { unfold f. by destruct post. }
  unfold set_matched. cbn [m_int m_frac m_exp m_sign]. rewrite Hf. pose proof (p10_pos (Z.of_nat k) ltac:(lia)).
  unfold cMinValue, cMaxValue in HV.
  rewrite lexical_u64_ok by (unfold cMaxNativeN; nia). cbn [mbind result_bind]. unfold set_val, set_negative. cbn [mIssue mIsNative mIsNegative].
  rewrite (canonicalize_scaled (mIssue b) _ _ k (mValue a) (mOffset a)); try done.
  - clear -Hi Hna. destruct a as [ia va oa na ga]. simpl in *. subst. by destruct ga.
  - by rewrite Hi.
  - rewrite Ho. unfold cMinOffset, cMaxOffset. lia.
  - rewrite Ho. lia.
Qed.

Lemma text_roundtrip a b :
  canonical a = true → mIssue b = mIssue a → mIsNative b = mIsNative a → setValue b (getText a) = Some a.
Proof.
  intros Hc Hi Hn. unfold getText. destruct (is_zero a) eqn:Ez.
  { assert (mValue a = 0) as Hv by (unfold is_zero, signum in Ez; destruct (Z.eqb_spec (mValue a) 0); [done|by destruct (mIsNegative a)]).
    etrans; [apply (setValue_print b false [48] None None); [split; [by repeat constructor|by right]|done|done|simpl; lia|by right]|].
    unfold set_matched. cbn [m_int m_frac m_exp m_sign default from_option app].
    change (lexical_u64 [48]) with (Ok 0 : result Z). cbn [mbind result_bind]. rewrite canonicalize_zero by done.
    unfold set_val, set_negative, amount_isSWT. cbn [mIssue]. rewrite Hi. change (isSWT (currency (mIssue a))) with (amount_isSWT a).
    f_equal. apply canonical_iff in Hc.
    destruct Hc as [Hs Hn' _ Ho Hg|Hs Hn' _ Ho Hg|_ _ Hr _]; [| |unfold cMinValue in Hr; lia]; rewrite Hs;
      destruct a; simpl in *; subst; try done; by rewrite Hg. }
  assert (mValue a ≠ 0) as Hv by (intros H; unfold is_zero, signum in Ez; by rewrite H in Ez).
  rewrite <- print_sign_text. pose proof Hc as Hsh. apply canonical_iff in Hsh. destruct Hsh as [Hs Hna _ Ho Hg|Hs Hna Hz _ _|Hs Hna HV Ho].
  - rewrite Hna, Ho. cbn [Z.eqb negb andb orb]. rewrite app_nil_r. by apply setValue_int.
  - done.
  - rewrite Hna. cbn [orb]. destruct (negb (mOffset a =? 0) && _) eqn:Es.
    + apply setValue_scientific; try done. by apply andb_true_iff in Es as [?%negb_true_iff%Z.eqb_neq _].
    + assert (mOffset a = 0 ∨ -25 <= mOffset a <= -5) as Hr.
      { apply andb_false_iff in Es as [Es|Es]; [left; by apply negb_false_iff, Z.eqb_eq in Es|right].
        apply orb_false_iff in Es as [E1 E2]. rewrite Z.gtb_ltb in E2. zbool. lia. }
      replace (Z.to_nat (mOffset a + 43)) with (43 - Z.to_nat (- mOffset a))%nat by lia.
      apply setValue_plain; try done; try congruence; lia.
Qed.

(** C7: [setValue] reads back what [getText] writes, for every canonical amount, in the integer,
    decimal and scientific forms, into any object of the same issue. *)
Theorem amount_text_roundtrip a b :
  canonical a = true → mIssue b = mIssue a → mIsNative b = mIsNative a → setValue b (getText a) = Some a.
Proof. apply text_roundtrip. Qed.

Lemma amount_text_roundtrip_witness :
  setValue (mkSTAmount (mkIssue 5 6) 7 0 false false) (getText (mkSTAmount (mkIssue 5 6) 1234500000000000 (-20) false true))
  = Some (mkSTAmount (mkIssue 5 6) 1234500000000000 (-20) false true).
Proof. by apply amount_text_roundtrip. Defined.

(** A native amount given with a large exponent is multiplied modulo 2^64: the text 1e64 is
    accepted and reads as 0. *)
Theorem setValue_native_wraps :
  setValue (mkSTAmount xrpIssue 0 0 true false) [49; 101; 54; 52] = Some (mkSTAmount xrpIssue 0 0 true false).
Proof. vm_compute. reflexivity. Qed.
