(* ===== verification/STAmountArith.v ===== *)
(** * Accuracy of the arithmetic on amounts

    Error bounds of [+], [-], [multiply] and [divide] against exact decimal arithmetic
    ([amount_val], in units of [10^-100]), and the laws relating [+] and [-]. *)

From S2P Require Import Prelude Bytes Serializer Issue BigNum STAmount STAmountProps.

(** ** Alignment of the operands of [+] *)

Lemma align_spec v o t :
  align (Z.to_nat (t - o)) v o t = (Z.quot v (10 ^ Z.max 0 (t - o)), Z.max o t).
Proof.
  remember (Z.to_nat (t - o)) as n eqn:Hn. revert v o Hn.
  induction n as [|n IH]; intros v o Hn; cbn [align].
  { rewrite Z.max_l, Z.quot_1_r by lia. f_equal. lia. }
  rewrite (proj2 (Z.ltb_lt o t)) by lia. rewrite IH by lia. f_equal; [|lia].
  rewrite Z.quot_quot; [|lia|apply Z.pow_nonzero; lia]. f_equal.
  rewrite <- p10_succ by lia. f_equal. lia.
Qed.

Definition signed (a : STAmount) : Z := if mIsNegative a then - mValue a else mValue a.

Lemma signed_mantissa_id a : canonical a = true → signed_mantissa a = signed a.
Proof.
  intros Hc. pose proof (canonical_value a Hc). unfold signed_mantissa, signed, cMaxNativeN in *.
  rewrite (s64_id (mValue a)) by mint_range. destruct (mIsNegative a); [|done].
  apply s64_id. mint_range.
Qed.

Lemma signed_zero a : signed a = 0 ↔ mValue a = 0.
Proof. unfold signed. destruct (mIsNegative a); lia. Qed.

Lemma amount_val_signed a : amount_val a = sval 100 (signed a) (mOffset a).
Proof. unfold amount_val, magnitude, signed, sval. destruct (mIsNegative a); lia. Qed.

(** The mantissas brought to the larger exponent [m], and their sum. *)
Definition aligned (a : STAmount) (m : Z) : Z := Z.quot (signed a) (10 ^ Z.max 0 (m - mOffset a)).

(** The end of [operator+]: the sum [fv] at exponent [m] as an amount. *)
Definition sum_amount (issue : Issue) (fv m : Z) : result STAmount :=
  if (fv >=? -10) && (fv <=? 10) then mkZero issue
  else if fv >=? 0 then mkAmount issue fv m false
  else mkAmount issue (- fv) m true.

Lemma quot_le a b : 0 < b → Z.abs (Z.quot a b) <= Z.abs a.
Proof. intros. rewrite <- Z.quot_abs by lia. rewrite (Z.abs_eq b), Z.quot_div_nonneg by lia. apply Z.div_le_upper_bound; nia. Qed.

Lemma aligned_bound a m : Z.abs (aligned a m) <= Z.abs (mValue a).
Proof.
  unfold aligned. etransitivity; [apply quot_le, p10_pos; lia|].
  unfold signed. destruct (mIsNegative a); lia.
Qed.

(** What is lost by aligning is less than one unit of [10^m], and nothing is lost of an
    amount that already has exponent [m]. *)
Lemma aligned_error a m :
  0 <= mOffset a + 100 → mOffset a <= m →
  Z.abs (sval 100 (aligned a m) m - amount_val a) < sval 100 1 m
  ∧ (mOffset a = m → sval 100 (aligned a m) m = amount_val a).
Proof.
  intros Hb Hm. rewrite amount_val_signed. unfold aligned. rewrite Z.max_r by lia. split.
  - set (k := m - mOffset a). pose proof (p10_pos k ltac:(lia)) as Hp.
    replace m with (mOffset a + k) by lia. rewrite <- !(sval_shift 100 _ (mOffset a) k) by lia.
    unfold sval. pose proof (p10_pos (mOffset a + 100) ltac:(lia)).
    pose proof (Z.quot_rem' (signed a) (10 ^ k)).
    pose proof (Z.rem_bound_abs (signed a) (10 ^ k) ltac:(lia)). nia.
  - intros ->. by rewrite Z.sub_diag, Z.quot_1_r.
Qed.

Lemma is_zero_iff a : is_zero a = (mValue a =? 0).
Proof. unfold is_zero, signum. destruct (mValue a =? 0); [done|]. by destruct (mIsNegative a). Qed.

Definition sum_of (v1 v2 : STAmount) : result STAmount :=
  let m := Z.max (mOffset v1) (mOffset v2) in
  sum_amount (mIssue v1) (aligned v1 m + aligned v2 m) m.

Lemma sum_amount_machine issue fv m :
  -9223372036854775808 < fv < 9223372036854775808 →
  (if (s64 fv >=? -10) && (s64 fv <=? 10) then mkZero issue
   else if s64 fv >=? 0 then mkAmount issue (u64 (s64 fv)) m false
   else mkAmount issue (u64 (- s64 fv)) m true) = sum_amount issue fv m.
Proof.
  intros Hfv. unfold sum_amount. rewrite s64_id by mint_range.
  destruct ((fv >=? -10) && (fv <=? 10)); [done|].
  destruct (fv >=? 0) eqn:E; zbool; by rewrite u64_id by mint_range.
Qed.

Lemma op_add_sum v1 v2 :
  canonical v1 = true → canonical v2 = true → isComparable v1 v2 = true → mIsNative v1 = false →
  mValue v1 ≠ 0 → mValue v2 ≠ 0 → op_add v1 v2 = sum_of v1 v2.
Proof.
  intros Hc1 Hc2 Hcmp Hn Hz1 Hz2. unfold op_add, throwComparable. rewrite Hcmp. cbn [mbind result_bind].
  rewrite !is_zero_iff, !(proj2 (Z.eqb_neq _ _)), Hn by done.
  rewrite align_spec, align_spec, !signed_mantissa_id by done.
  replace (Z.max (mOffset v2) (Z.max (mOffset v1) (mOffset v2)))
    with (Z.max (mOffset v1) (mOffset v2)) by lia.
  rewrite sum_amount_machine.
  - unfold sum_of, aligned. do 2 f_equal; do 2 f_equal; lia.
  - pose proof (canonical_value v1 Hc1). pose proof (canonical_value v2 Hc2). unfold cMaxNativeN in *.
    pose proof (quot_le (signed v1) (10 ^ Z.max 0 (mOffset v2 - mOffset v1)) ltac:(apply p10_pos; lia)).
    pose proof (quot_le (signed v2) (10 ^ Z.max 0 (Z.max (mOffset v1) (mOffset v2) - mOffset v2)) ltac:(apply p10_pos; lia)).
    unfold signed in *. destruct (mIsNegative v1), (mIsNegative v2); lia.
Qed.

(** ** Accuracy of [+] *)

(** The outcome of turning a magnitude [w * 10^m] and a sign into an issued amount. *)
Lemma mkAmount_iou issue w m neg :
  isSWT (currency issue) = false → 0 < w < 18446744073709551616 →
  ∃ r, canon_iou w m r ∧
    mkAmount issue w m neg = ('(v, o) ← r; Ok (mkSTAmount issue v o false neg)).
Proof.
  intros Hs Hw. exists (canon_mantissa w m). split; [by apply canon_mantissa_spec|].
  unfold mkAmount. rewrite canonicalize_iou; [done|done|simpl; lia].
Qed.

(** Results of the arithmetic: [r] is within [e] of the exact value [x]; or it is 0 and
    [x] is below the least representable magnitude plus [e]; or the operation throws
    and [x] is at least [10^96] less [e] (all in units of [10^-100]). *)
Definition accurate (x e : Z) (r : result STAmount) : Prop :=
  match r with
  | Ok a => Z.abs (amount_val a - x) < e
            ∨ amount_val a = 0 ∧ Z.abs x < sval 100 cMinValue cMinOffset + e
  | Throw _ => sval 100 (cMaxValue + 1) cMaxOffset - e < Z.abs x
  end.

Lemma accurate_weaken x e e' r : e <= e' → accurate x e r → accurate x e' r.
Proof. intros He. destruct r; simpl; lia. Qed.

(** Rounding [w * 10^m] to an amount of a sign, when [w] has at most 17 digits. *)
Lemma mkAmount_accurate issue w m (neg : bool) x e :
  isSWT (currency issue) = false → 0 < w < 18446744073709551616 → w < 100 * cMinValue →
  -100 <= m → 0 <= e →
  Z.abs ((if neg then -1 else 1) * sval 100 w m - x) < e →
  accurate x (e + 10 * sval 100 1 m) (mkAmount issue w m neg).
Proof.
  intros Hs Hw Hw2 Hm He Hx. destruct (mkAmount_iou issue w m neg Hs Hw) as (r & Hr & ->).
  assert (0 < sval 100 1 m) as Hp by (unfold sval; pose proof (p10_pos (m + 100)); lia).
  assert (0 < sval 100 w m) as Hpw by (unfold sval; pose proof (p10_pos (m + 100)); nia).
  destruct Hr as [v o Hv Ho Hval|Hlt|t Hge]; cbn [mbind result_bind accurate].
  - left. unfold cMinOffset in Ho. specialize (Hval 100 ltac:(lia) ltac:(lia)).
    rewrite amount_val_signed. unfold signed. cbn [mIsNegative mValue mOffset].
    assert (sval 100 1 o <= 10 * sval 100 1 m) as Hulp.
    { assert (o <= m + 1).
      { destruct (decide (o <= m + 1)); [done|exfalso].
        pose proof (sval_exp_le 100 v (m + 2) o). pose proof (sval_shift 100 v m 2).
        assert (sval 100 (v * 10 ^ 2) m <= sval 100 w m) as Hle by lia.
        change (10 ^ 2) with 100 in Hle.
        pose proof (sval_lt 100 w (v * 100) m ltac:(lia) ltac:(lia)). lia. }
      etransitivity; [apply sval_exp_le with (o' := m + 1); lia|].
      rewrite <- (sval_shift 100 1 m 1) by lia. change (1 * 10 ^ 1) with 10.
      apply Z.eq_le_incl. unfold sval. ring. }
    assert (sval 100 (v + 1) o = sval 100 v o + sval 100 1 o) by (unfold sval; ring).
    assert (sval 100 (- v) o = - sval 100 v o) by (unfold sval; ring).
    destruct neg; lia.
  - right. unfold cMinOffset in *. specialize (Hlt 100 ltac:(lia) ltac:(lia)).
    unfold amount_val, magnitude. cbn [mIsNegative mValue mOffset].
    assert (sval 100 0 0 = 0) as Hz by done. rewrite Hz. destruct neg; lia.
  - unfold cMaxOffset in *. specialize (Hge 100 ltac:(lia) ltac:(lia)). destruct neg; lia.
Qed.

Lemma sum_amount_accurate issue fv m x :
  isSWT (currency issue) = false → Z.abs fv <= 2 * cMaxValue → -100 <= m →
  Z.abs (sval 100 fv m - x) < sval 100 1 m →
  accurate x (11 * sval 100 1 m) (sum_amount issue fv m).
Proof.
  intros Hs Hfv Hm Hx. unfold cMaxValue in Hfv.
  assert (0 < sval 100 1 m) as Hp by (unfold sval; pose proof (p10_pos (m + 100)); lia).
  unfold sum_amount. destruct ((fv >=? -10) && (fv <=? 10)) eqn:E.
  { zbool. unfold mkZero, mkAmount. rewrite canonicalize_zero by done. left.
    unfold amount_isSWT, amount_val, magnitude. simpl. rewrite Hs.
    change (sval 100 0 (-100)) with 0. unfold sval in *. nia. }
  apply andb_false_iff in E.
  assert (fv < -10 ∨ 10 < fv) as Hbig by (destruct E; zbool; lia).
  destruct (fv >=? 0) eqn:E2; zbool;
    eapply accurate_weaken, mkAmount_accurate with (e := sval 100 1 m);
    unfold cMinValue; try done; try lia; try lia; unfold sval in *; lia.
Qed.

Lemma native_add v1 v2 :
  canonical v1 = true → canonical v2 = true → mIsNative v1 = true → mIsNative v2 = true →
  getSNValue v1 = Ok (signed v1) ∧ getSNValue v2 = Ok (signed v2)
  ∧ Z.abs (signed v1) <= cMaxNativeN ∧ Z.abs (signed v2) <= cMaxNativeN
  ∧ mOffset v1 = 0 ∧ mOffset v2 = 0.
Proof.
  assert (∀ v, canonical v = true → mIsNative v = true →
    getSNValue v = Ok (signed v) ∧ Z.abs (signed v) <= cMaxNativeN ∧ mOffset v = 0) as H.
  { intros v Hc Hn. pose proof (signed_mantissa_id v Hc) as Hm. pose proof (canonical_value v Hc).
    unfold getSNValue. rewrite Hn. cbn [negb]. unfold signed_mantissa in Hm. rewrite Hm.
    split_and!; [done|unfold signed; destruct (mIsNegative v); lia|].
    apply canonical_iff in Hc as [? ?|? ?|? ?]; congruence. }
  intros Hc1 Hc2 Hn1 Hn2. destruct (H v1 Hc1 Hn1) as (? & ? & ?), (H v2 Hc2 Hn2) as (? & ? & ?). done.
Qed.

Lemma mkNativeS_val x :
  is_s64 x → amount_val (mkNativeS x) = sval 100 x 0 ∧ createFromInt64 x = mkNativeS x.
Proof.
  intros Hx. unfold mkNativeS, createFromInt64, set_s64, amount_val, magnitude, sval. simpl.
  destruct (x <? 0) eqn:E; zbool; simpl.
  - rewrite Z.geb_leb, (proj2 (Z.leb_gt 0 x)), !u64_id by mint_range. split; [lia|done].
  - rewrite Z.geb_leb, (proj2 (Z.leb_le 0 x)), !u64_id by mint_range. split; [lia|done].
Qed.

Lemma iou_offset a : canonical a = true → mIsNative a = false → mValue a ≠ 0 →
  cMinOffset <= mOffset a <= cMaxOffset ∧ mValue a <= cMaxValue ∧ isSWT (currency (mIssue a)) = false.
Proof. intros [? ?|? ?|? ?]%canonical_iff; intros; try congruence. unfold amount_isSWT in *. split_and!; try done; lia. Qed.

Lemma comparable_native a t : isComparable a t = true → mIsNative t = mIsNative a.
Proof. unfold isComparable. destruct (mIsNative a), (mIsNative t); done. Qed.

Lemma add_zero_left v1 v2 :
  canonical v1 = true → canonical v2 = true → isComparable v1 v2 = true →
  mkAmount (mIssue v1) (mValue v2) (mOffset v2) (mIsNegative v2)
  = Ok (mkSTAmount (mIssue v1) (mValue v2) (mOffset v2) (mIsNative v2) (mIsNegative v2)).
Proof.
  intros Hc1 Hc2 Hcmp. unfold mkAmount.
  assert (amount_isSWT v1 = amount_isSWT v2) as Hs.
  { unfold isComparable in Hcmp.
    apply canonical_iff in Hc1 as [Hs1 Hn1 _ _ _|Hs1 Hn1 _ _ _|Hs1 Hn1 _ _];
      apply canonical_iff in Hc2 as [Hs2 Hn2 _ _ _|Hs2 Hn2 _ _ _|Hs2 Hn2 _ _];
      rewrite Hn1, Hn2 in Hcmp; congruence. }
  assert (canonical (mkSTAmount (mIssue v1) (mValue v2) (mOffset v2) (mIsNative v2) (mIsNegative v2)) = true) as Hc.
  { unfold canonical in *. unfold amount_isSWT in *. simpl. by rewrite Hs. }
  rewrite <- (canonicalize_fix _ Hc). unfold canonicalize, amount_isSWT, set_native, set_negative, set_val. done.
Qed.

(** C3: [operator+] on canonical comparable amounts: native sums are exact; an issued sum
    differs from the exact one by less than 11 units of the larger exponent; it is
    replaced by 0 only below the least representable magnitude (plus that error), and
    throws only at [10^96] (less that error). *)
Theorem op_add_accurate v1 v2 :
  canonical v1 = true → canonical v2 = true → isComparable v1 v2 = true →
  if mIsNative v1 then
    ∃ r, op_add v1 v2 = Ok r ∧ amount_val r = amount_val v1 + amount_val v2
  else accurate (amount_val v1 + amount_val v2)
         (11 * sval 100 1 (Z.max (mOffset v1) (mOffset v2))) (op_add v1 v2).
Proof.
  intros Hc1 Hc2 Hcmp. pose proof (comparable_native _ _ Hcmp) as Hn2.
  pose proof (canonical_offset v1 Hc1) as Ho1. pose proof (canonical_offset v2 Hc2) as Ho2.
  assert (0 < sval 100 1 (Z.max (mOffset v1) (mOffset v2))) as Hp.
  { unfold sval. pose proof (p10_pos (Z.max (mOffset v1) (mOffset v2) + 100)). lia. }
  destruct (decide (mValue v2 = 0)) as [Hz2|Hz2].
  { assert (op_add v1 v2 = Ok v1 ∧ amount_val v2 = 0) as [-> ->].
    { unfold op_add, throwComparable. rewrite Hcmp, is_zero_iff, Hz2. split; [done|].
      unfold amount_val. rewrite magnitude_zero by done. by destruct (mIsNegative v2). }
    rewrite Z.add_0_r. destruct (mIsNative v1); [eauto|left; lia]. }
  destruct (decide (mValue v1 = 0)) as [Hz1|Hz1].
  { assert (∃ r, op_add v1 v2 = Ok r ∧ amount_val r = amount_val v1 + amount_val v2) as (r & -> & Hr).
    { eexists. unfold op_add, throwComparable. rewrite Hcmp, !is_zero_iff, Hz1. cbn [mbind result_bind].
      rewrite (proj2 (Z.eqb_neq _ _) Hz2). simpl. rewrite add_zero_left by done. split; [done|].
      unfold amount_val. rewrite (magnitude_zero v1) by done. unfold magnitude. simpl.
      by destruct (mIsNegative v1). }
    destruct (mIsNative v1); [eauto|left; lia]. }
  destruct (mIsNative v1) eqn:Hn1.
  - destruct (native_add v1 v2) as (H1 & H2 & Hb1 & Hb2 & Hz & Hz'); [done..|].
    unfold op_add, throwComparable. rewrite Hcmp, !is_zero_iff. cbn [mbind result_bind].
    rewrite !(proj2 (Z.eqb_neq _ _)), Hn1, H1, H2 by done. cbn [mbind result_bind].
    unfold cMaxNativeN in *. rewrite s64_id by mint_range. eexists; split; [done|].
    rewrite (proj1 (mkNativeS_val (signed v1 + signed v2) ltac:(mint_range))), !amount_val_signed, Hz, Hz'. unfold sval. lia.
  - rewrite op_add_sum by done. unfold sum_of.
    destruct (iou_offset v1) as (? & ? & ?); [done..|]. destruct (iou_offset v2) as (? & ? & ?); [done..|].
    pose proof (canonical_value v1 Hc1). pose proof (canonical_value v2 Hc2).
    set (m := Z.max (mOffset v1) (mOffset v2)) in *.
    pose proof (aligned_bound v1 m). pose proof (aligned_bound v2 m).
    destruct (aligned_error v1 m) as [He1 He1']; [lia..|]. destruct (aligned_error v2 m) as [He2 He2']; [lia..|].
    apply sum_amount_accurate; [done|lia|lia|].
    assert (sval 100 (aligned v1 m + aligned v2 m) m
      = sval 100 (aligned v1 m) m + sval 100 (aligned v2 m) m) as -> by (unfold sval; ring).
    destruct (decide (mOffset v1 = m)) as [E|E]; [rewrite (He1' E)|rewrite (He2' ltac:(lia))]; lia.
Qed.

Definition ex_amount1 : STAmount := mkSTAmount (mkIssue 5 6) 9999999999999999 0 false false.
Definition ex_amount2 : STAmount := mkSTAmount (mkIssue 5 6) 7777777777777777 (-3) false false.

Lemma op_add_accurate_witness :
  accurate (amount_val ex_amount1 + amount_val ex_amount2)
    (11 * sval 100 1 (Z.max (mOffset ex_amount1) (mOffset ex_amount2)))
    (op_add ex_amount1 ex_amount2).
Proof. exact (op_add_accurate ex_amount1 ex_amount2 eq_refl eq_refl eq_refl). Defined.

(** ** Laws of [+] and [-] *)

Lemma op_neg_canonical a : canonical a = true → canonical (op_neg a) = true.
Proof.
  intros Hc. unfold op_neg. destruct (mValue a =? 0) eqn:E; [done|].
  unfold canonical, amount_isSWT in *. simpl. by rewrite E in *.
Qed.

Lemma op_neg_signed a : signed (op_neg a) = - signed a ∧ mOffset (op_neg a) = mOffset a
  ∧ mIsNative (op_neg a) = mIsNative a ∧ mValue (op_neg a) = mValue a ∧ mIssue (op_neg a) = mIssue a.
Proof.
  unfold op_neg, signed. destruct (mValue a =? 0) eqn:E; zbool; simpl; [|by destruct (mIsNegative a); simpl; rewrite ?Z.opp_involutive].
  rewrite E. by destruct (mIsNegative a).
Qed.

Lemma aligned_neg a m : aligned (op_neg a) m = - aligned a m.
Proof.
  destruct (op_neg_signed a) as (Hs & Ho & _). unfold aligned. rewrite Hs, Ho.
  apply Z.quot_opp_l, Z.pow_nonzero; lia.
Qed.

Lemma op_sub_sum v1 v2 :
  canonical v1 = true → canonical v2 = true → isComparable v1 v2 = true → mIsNative v1 = false →
  mValue v2 ≠ 0 → op_sub v1 v2 = sum_of v1 (op_neg v2).
Proof.
  intros Hc1 Hc2 Hcmp Hn Hz2. destruct (op_neg_signed v2) as (Hs & Ho & _).
  unfold op_sub, throwComparable. rewrite Hcmp. cbn [mbind result_bind].
  rewrite !is_zero_iff, !(proj2 (Z.eqb_neq _ _)), (comparable_native _ _ Hcmp), Hn by done.
  rewrite align_spec, align_spec, !signed_mantissa_id by done.
  replace (Z.max (mOffset v2) (Z.max (mOffset v1) (mOffset v2)))
    with (Z.max (mOffset v1) (mOffset v2)) by lia.
  rewrite sum_amount_machine.
  - unfold sum_of. rewrite aligned_neg, Ho, Z.add_opp_r. unfold aligned. do 2 f_equal; do 2 f_equal; lia.
  - pose proof (canonical_value v1 Hc1). pose proof (canonical_value v2 Hc2). unfold cMaxNativeN in *.
    pose proof (quot_le (signed v1) (10 ^ Z.max 0 (mOffset v2 - mOffset v1)) ltac:(apply p10_pos; lia)).
    pose proof (quot_le (signed v2) (10 ^ Z.max 0 (Z.max (mOffset v1) (mOffset v2) - mOffset v2)) ltac:(apply p10_pos; lia)).
    unfold signed in *. destruct (mIsNegative v1), (mIsNegative v2); lia.
Qed.

(** Adding to a zero of an issue leaves the amount as it is. *)
Lemma sum_of_zero v1 v2 :
  canonical v1 = true → canonical v2 = true → isComparable v1 v2 = true → mIsNative v1 = false →
  mValue v1 = 0 → mValue v2 ≠ 0 →
  sum_of v1 v2 = mkAmount (mIssue v1) (mValue v2) (mOffset v2) (mIsNegative v2).
Proof.
  intros Hc1 Hc2 Hcmp Hn Hz1 Hz2. pose proof (comparable_native _ _ Hcmp) as Hn2.
  destruct (iou_offset v2) as (Ho2 & Hm2 & _); [done|congruence|done|].
  pose proof (canonical_value v2 Hc2).
  apply canonical_iff in Hc1 as [? ?|_ _ _ Ho1 _|_ _ Hv _]; [congruence| |unfold cMinValue in *; lia].
  assert (cMinValue <= mValue v2) as Hmin.
  { apply canonical_iff in Hc2 as [? ?|? ? ? ?|? ? ? ?]; [congruence|congruence|lia]. }
  unfold sum_of, cMinOffset, cMinValue in *. rewrite Ho1, Z.max_r by lia. unfold aligned.
  rewrite (proj2 (signed_zero v1) Hz1), Z.quot_0_l, Z.sub_diag, Z.quot_1_r by (apply Z.pow_nonzero; lia).
  rewrite Z.add_0_l. unfold sum_amount, signed. destruct (mIsNegative v2).
  - rewrite !Z.geb_leb, (proj2 (Z.leb_gt (-10) _)), (proj2 (Z.leb_gt 0 _)), Z.opp_involutive by lia. done.
  - rewrite !Z.geb_leb, (proj2 (Z.leb_le (-10) _)), (proj2 (Z.leb_gt (mValue v2) 10)), (proj2 (Z.leb_le 0 _)) by lia. done.
Qed.

Lemma native_val_eta a :
  canonical a = true → mIsNative a = true → mIssue a = xrpIssue → mkNativeS (signed a) = a.
Proof.
  intros Hc Hn Hi. pose proof (canonical_value a Hc). unfold cMaxNativeN in *.
  apply canonical_iff in Hc as [_ _ _ Ho Hz|? ?|? ?]; [|congruence..].
  destruct a as [i v o n g]. simpl in *. subst. unfold mkNativeS, set_s64, signed. simpl.
  destruct g.
  - destruct (- v <? 0) eqn:E; zbool; [|assert (v = 0) as -> by lia; by discriminate Hz].
    unfold set_val, set_negative. simpl. by rewrite Z.opp_involutive, u64_id by mint_range.
  - destruct (v <? 0) eqn:E; zbool; [lia|]. unfold set_val, set_negative. simpl.
    by rewrite u64_id by mint_range.
Qed.

Lemma eta_issue v1 v2 :
  mIssue v1 = mIssue v2 →
  mkSTAmount (mIssue v1) (mValue v2) (mOffset v2) (mIsNative v2) (mIsNegative v2) = v2.
Proof. intros ->. by destruct v2. Qed.

Lemma zero_unique v1 v2 :
  canonical v1 = true → canonical v2 = true → mIssue v1 = mIssue v2 →
  isComparable v1 v2 = true → mValue v1 = 0 → mValue v2 = 0 → v1 = v2.
Proof.
  intros Hc1 Hc2 Hi Hcmp Hz1 Hz2. pose proof (comparable_native _ _ Hcmp).
  pose proof (canonical_zero_offset _ _ Hc1 Hc2 Hcmp Hz1 Hz2).
  pose proof (canonical_zero_sign _ Hc1 Hz1). pose proof (canonical_zero_sign _ Hc2 Hz2).
  destruct v1, v2; simpl in *. by subst.
Qed.

Lemma op_add_comm v1 v2 :
  canonical v1 = true → canonical v2 = true → mIssue v1 = mIssue v2 →
  isComparable v1 v2 = true → op_add v1 v2 = op_add v2 v1.
Proof.
  intros Hc1 Hc2 Hi Hcmp. pose proof (comparable_native _ _ Hcmp) as Hn.
  pose proof Hcmp as Hcmp'. rewrite isComparable_sym in Hcmp'.
  destruct (decide (mValue v1 = 0 ∨ mValue v2 = 0)) as [Hz|Hz].
  { unfold op_add, throwComparable. rewrite Hcmp, Hcmp', !is_zero_iff. cbn [mbind result_bind].
    rewrite !add_zero_left, (eta_issue v1 v2), (eta_issue v2 v1) by done.
    destruct (mValue v1 =? 0) eqn:E1, (mValue v2 =? 0) eqn:E2; zbool; try done; [|lia].
    f_equal. by apply zero_unique. }
  destruct (mIsNative v1) eqn:Hn1.
  - destruct (native_add v1 v2) as (H1 & H2 & _); [congruence..|].
    unfold op_add, throwComparable. rewrite Hcmp, Hcmp', !is_zero_iff, Hn, Hn1, H1, H2.
    cbn [mbind result_bind]. rewrite !(proj2 (Z.eqb_neq _ _)) by lia. by rewrite Z.add_comm.
  - rewrite !op_add_sum by (done || lia || congruence). unfold sum_of.
    by rewrite Hi, Z.max_comm, Z.add_comm.
Qed.

Lemma op_sub_neg v1 v2 :
  canonical v1 = true → canonical v2 = true → mIssue v1 = mIssue v2 →
  isComparable v1 v2 = true → (mIsNative v1 = true → mIssue v1 = xrpIssue) →
  op_sub v1 v2 = op_add v1 (op_neg v2).
Proof.
  intros Hc1 Hc2 Hi Hcmp Hx. pose proof (comparable_native _ _ Hcmp) as Hn.
  destruct (op_neg_signed v2) as (Hs & Ho & Hnn & Hv & His). pose proof (op_neg_canonical v2 Hc2) as Hcn.
  assert (isComparable v1 (op_neg v2) = true) as Hcmp'.
  { unfold isComparable in *. by rewrite Hnn, His. }
  destruct (decide (mValue v2 = 0)) as [Hz2|Hz2].
  { unfold op_sub, op_add, throwComparable. rewrite Hcmp, Hcmp', !is_zero_iff, Hv, Hz2. done. }
  destruct (mIsNative v1) eqn:Hn1.
  - destruct (native_add v1 v2) as (H1 & H2 & Hb1 & Hb2 & _); [congruence..|].
    destruct (native_add v1 (op_neg v2)) as (_ & H3 & _); [congruence..|].
    unfold op_sub, op_add, throwComparable. rewrite Hcmp, Hcmp', !is_zero_iff, Hv, Hn, Hn1, H1, H2, H3.
    cbn [mbind result_bind]. rewrite (proj2 (Z.eqb_neq (mValue v2) 0)) by done.
    unfold cMaxNativeN in *. rewrite Hs, Z.add_opp_r.
    rewrite (proj2 (mkNativeS_val _ (s64_range _))). destruct (mValue v1 =? 0) eqn:E; zbool; [|done].
    rewrite (proj2 (signed_zero v1) E), Z.sub_0_l, <- Hs, s64_id by mint_range.
    rewrite <- Hv. rewrite add_zero_left, eta_issue by (done || congruence).
    rewrite native_val_eta; [done|done|congruence|]. rewrite His, <- Hi. auto.
  - rewrite op_sub_sum by done. destruct (decide (mValue v1 = 0)) as [Hz1|Hz1].
    + rewrite sum_of_zero by (done || congruence).
      unfold op_add, throwComparable. rewrite Hcmp', !is_zero_iff, Hz1, (proj2 (Z.eqb_neq _ _)); [done|congruence].
    + by rewrite op_add_sum by (done || congruence).
Qed.

(** On canonical amounts of one issue [+] is commutative, and [v1 - v2] is
    [v1 + (-v2)] although the two are separate code. *)
Theorem add_sub_laws v1 v2 :
  canonical v1 = true → canonical v2 = true → mIssue v1 = mIssue v2 →
  (mIsNative v1 = true → mIssue v1 = xrpIssue) →
  op_add v1 v2 = op_add v2 v1 ∧ op_sub v1 v2 = op_add v1 (op_neg v2).
Proof.
  intros Hc1 Hc2 Hi Hx. assert (mIsNative v2 = mIsNative v1) as Hn.
  { apply canonical_iff in Hc1 as [Hs1 Hn1 _ _ _|Hs1 Hn1 _ _ _|Hs1 Hn1 _ _];
      apply canonical_iff in Hc2 as [Hs2 Hn2 _ _ _|Hs2 Hn2 _ _ _|Hs2 Hn2 _ _];
      unfold amount_isSWT in *; congruence. }
  assert (∀ a t, mIsNative t = mIsNative a → mIssue a = mIssue t → isComparable a t = true) as Hcmp.
  { intros a t Ha Hb. unfold isComparable. rewrite Ha, Hb. destruct (mIsNative a); [done|apply Z.eqb_refl]. }
  split; [by apply op_add_comm, Hcmp|apply op_sub_neg; auto].
Qed.

Lemma add_sub_laws_witness :
  op_add ex_amount1 ex_amount2 = op_add ex_amount2 ex_amount1
  ∧ op_sub ex_amount1 ex_amount2 = op_add ex_amount1 (op_neg ex_amount2).
Proof. by apply add_sub_laws. Defined.
