(* ===== verification/STAmountMulDiv.v ===== *)
(** * Accuracy of [multiply] and [divide]

    The product and the quotient are within one unit of the last of their 16 digits.
    The big numbers of OpenSSL are the interface [BigNum]. *)

From S2P Require Import Prelude Bytes Serializer Issue BigNum STAmount STAmountProps STAmountArith.

(** The value of an amount in units of [10^-b]. *)
Definition val_at (b : Z) (a : STAmount) : Z := sval b (signed a) (mOffset a).

Definition sign_of (neg : bool) : Z := if neg then -1 else 1.

(** ** Operands *)

Lemma norm_native_spec fuel v o :
  0 < v → ∃ k, 0 <= k <= Z.of_nat fuel ∧ norm_native fuel v o = (v * 10 ^ k, o - k)
    ∧ (v * 10 ^ k < 10 * cMinValue ∨ k = 0)
    ∧ (10 ^ Z.of_nat fuel * v >= cMinValue → cMinValue <= v * 10 ^ k).
Proof.
  revert v o. induction fuel as [|f IH]; intros v o Hv; cbn [norm_native].
  { exists 0. rewrite Z.mul_1_r, Z.sub_0_r. split_and!; try done; [auto|lia]. }
  destruct (v <? cMinValue) eqn:E; zbool.
  - unfold cMinValue in *. rewrite u64_id by mint_range.
    destruct (IH (v * 10) (o - 1)) as (k & Hk & -> & Hb & Hf); [lia|].
    exists (k + 1). rewrite p10_succ by lia. rewrite Nat2Z.inj_succ, Z.pow_succ_r in * by lia.
    replace (v * (10 * 10 ^ k)) with (v * 10 * 10 ^ k) by ring.
    split_and!; try lia; [f_equal; lia|left]. destruct Hb as [?| ->]; lia.
  - exists 0. rewrite Z.mul_1_r, Z.sub_0_r. split_and!; try done; try lia.
Qed.

Lemma operand_spec a :
  canonical a = true → mValue a ≠ 0 →
  ∃ v o, operand a = (v, o) ∧ cMinValue <= v <= cMaxNativeN ∧ -100 <= o <= 80
    ∧ (mValue a <= cMaxValue → v <= cMaxValue)
    ∧ (∀ b, 100 <= b → sval b v o = sval b (mValue a) (mOffset a)).
Proof.
  intros Hc Hz. pose proof (canonical_value a Hc). unfold operand.
  apply canonical_iff in Hc as [_ Hn Hv Ho _|_ _ ? _ _|_ Hn Hv Ho]; [|congruence|].
  - rewrite Hn, Ho. destruct (norm_native_spec scale_fuel (mValue a) 0) as (k & Hk & -> & Hb & Hf); [lia|].
    unfold scale_fuel in *. change (10 ^ Z.of_nat 20) with 100000000000000000000 in Hf.
    unfold cMinValue, cMaxNativeN, cMaxValue in *.
    exists (mValue a * 10 ^ k), (0 - k). split; [done|]. split; [|split; [lia|]].
    { destruct Hb as [?| ->]; lia. }
    split; [destruct Hb as [?| ->]; lia|]. intros b Hb'.
    rewrite sval_shift by lia. f_equal. lia.
  - rewrite Hn. exists (mValue a), (mOffset a).
    unfold cMinValue, cMaxValue, cMaxNativeN, cMinOffset, cMaxOffset in *. split_and!; try lia; done.
Qed.

(** ** Rounding to 16 digits *)

(** An issued result [r] for the exact value [x / d] with a sign: a canonical amount less
    than [k] units of its last digit off; or 0, and [x / d] is below the least
    representable magnitude; or an overflow, [x / d] being [10^96] less at most [s] units
    of the last digit.  (A result that is not 0 is canonical, so [x / d] is then within
    [k] units of the representable range: the three cases delimit each other.) *)
Definition accurate_ulp (issue : Issue) (k s b d x : Z) (neg : bool) (r : result STAmount) : Prop :=
  match r with
  | Ok a => mIssue a = issue ∧
      (mValue a ≠ 0 ∧ canonical a = true
         ∧ Z.abs (val_at b a * d - sign_of neg * x) < k * sval b 1 (mOffset a) * d
       ∨ mValue a = 0 ∧ x < sval b cMinValue cMinOffset * d)
  | Throw _ => sval b (cMaxValue + 1 - s) cMaxOffset * d <= x
  end.

(** A native result for the exact value [x / d]: a number of drops in the range of the
    network that is less than one drop off, or too large by at most [e] parts in [u]; or
    it is out of that range, but for those [e] parts in [u]. *)
Definition accurate_drops (issue : Issue) (e u b d x : Z) (neg : bool) (r : result STAmount) : Prop :=
  match r with
  | Ok a => a = mkSTAmount issue (mValue a) 0 true neg ∧ 0 <= mValue a <= cMaxNativeN ∧
      (Z.abs (sval b (mValue a) 0 * d - x) < sval b 1 0 * d
       ∨ 0 <= (sval b (mValue a) 0 * d - x) * u <= e * x)
  | Throw t => t = "Native currency amount out of range"%string
               ∧ sval b cMaxNativeN 0 * d * u < x * (u + e)
  end.

(** A 64-bit mantissa [w] that exceeds the exact value by at most [e < 10].  With a digit
    to spare the excess is below the last digit of the result. *)
Lemma mkAmount_ulp issue e k s w m (neg : bool) b d x :
  isSWT (currency issue) = false → cMinValue <= w < 18446744073709551616 →
  10 * cMinValue <= w ∧ k = 1 ∧ s = e ∨ k = e + 1 ∧ s = 10 * e →
  100 <= b → 0 <= m + b → 0 < d → 0 <= e < 10 →
  0 <= sval b w m * d - x <= e * sval b 1 m * d →
  accurate_ulp issue k s b d x neg (mkAmount issue w m neg).
Proof.
  intros Hs Hw Hks Hb Hm Hd He Hx. unfold cMinValue in Hw, Hks.
  destruct (mkAmount_iou issue w m neg Hs ltac:(lia)) as (r & Hr & ->).
  assert (0 < sval b 1 m) as Hp by (unfold sval; pose proof (p10_pos (m + b)); lia).
  assert (sval b w m = w * sval b 1 m) as Hwm by (unfold sval; ring).
  destruct Hr as [v o Hv Ho Hval|Hlt|t Hge]; cbn [mbind result_bind accurate_ulp].
  - split; [done|]. left. cbn [mValue mOffset]. unfold cMinOffset, cMinValue, cMaxValue, cMaxOffset in *.
    specialize (Hval b ltac:(lia) ltac:(lia)).
    assert (sval b (v + 1) o = sval b v o + sval b 1 o) by (unfold sval; ring).
    assert (val_at b (mkSTAmount issue v o false neg) = sign_of neg * sval b v o) as ->.
    { unfold val_at, signed, sign_of, sval. simpl. destruct neg; lia. }
    split; [lia|]. split.
    { apply canonical_iff, shape_iou; [done..| |]; done. }
    assert (e * sval b 1 m < k * sval b 1 o ∧ 1 <= k) as [Hulp Hk].
    { destruct Hks as [(Hw1 & -> & ->)|[-> ->]].
      - assert (10 * sval b 1 m <= sval b 1 o); [|nia].
        assert (m + 1 <= o).
        { destruct (decide (m + 1 <= o)); [done|exfalso].
          pose proof (sval_exp_le b (v + 1) o m ltac:(lia) ltac:(lia) ltac:(lia)).
          pose proof (sval_le b (v + 1) w m ltac:(lia) ltac:(lia)). lia. }
        etransitivity; [|apply sval_exp_le with (o := m + 1); lia].
        rewrite <- (sval_shift b 1 m 1) by lia. change (1 * 10 ^ 1) with 10.
        apply Z.eq_le_incl. unfold sval. ring.
      - assert (sval b 1 m <= sval b 1 o); [|nia].
        apply sval_exp_le; [lia|lia|]. destruct (decide (m <= o)); [done|exfalso].
        pose proof (sval_exp_le b w (o + 1) m ltac:(lia) ltac:(lia) ltac:(lia)) as H1.
        rewrite <- (sval_shift b w o 1) in H1 by lia. change (10 ^ 1) with 10 in H1.
        pose proof (sval_le b (v + 1) (w * 10) o ltac:(lia) ltac:(lia)). lia. }
    assert (0 <= (sval b w m - sval b v o) * d < sval b 1 o * d) by nia.
    assert (sval b 1 o * d <= k * sval b 1 o * d) by nia.
    assert (e * sval b 1 m * d < k * sval b 1 o * d) by nia.
    replace (sign_of neg * sval b v o * d - sign_of neg * x)
      with (sign_of neg * (sval b v o * d - x)) by ring.
    unfold sign_of. destruct neg; lia.
  - split; [done|]. right. unfold cMinOffset in *. specialize (Hlt b ltac:(lia) ltac:(lia)). simpl. nia.
  - unfold cMaxOffset in *. specialize (Hge b ltac:(lia) ltac:(lia)).
    set (T := sval b 1 80 * d). set (P := sval b 1 m * d). set (W := sval b w m * d).
    assert (sval b (cMaxValue + 1 - s) 80 * d = (10000000000000000 - s) * T) as ->
      by (unfold T, sval, cMaxValue; ring).
    assert (10000000000000000 * T <= W).
    { unfold T, W. transitivity (sval b (cMaxValue + 1) 80 * d); [|nia].
      apply Z.eq_le_incl. unfold sval, cMaxValue. ring. }
    assert (0 < P) by (unfold P; nia). assert (W = w * P) as HW by (unfold W, P; rewrite Hwm; ring).
    assert (0 <= W - x <= e * P) by (unfold W, P; lia).
    destruct Hks as [(Hw1 & -> & ->)|[-> ->]].
    + assert (10000000000000000 * P <= W) by nia.
      assert (10000000000000000 * ((10000000000000000 - e) * T) <= 10000000000000000 * x); nia.
    + assert (1000000000000000 * P <= W) by nia.
      assert (1000000000000000 * ((10000000000000000 - 10 * e) * T) <= 1000000000000000 * x); nia.
Qed.

(** The same for a native result, while scaling up to whole drops stays inside 64 bits. *)
Lemma mkAmount_drops issue e u w m (neg : bool) b d x :
  isSWT (currency issue) = true → 0 < u → u + e <= w < 18446744073709551616 →
  0 <= m + b → 0 <= b → 0 < d → 0 <= e < 10 →
  0 <= sval b w m * d - x <= e * sval b 1 m * d →
  x * (u + e) < 18446744073709551616 * sval b 1 0 * d * u →
  accurate_drops issue e u b d x neg (mkAmount issue w m neg).
Proof.
  intros Hs Hu Hw Hm Hb Hd He Hx Hr. unfold mkAmount.
  assert (sval b w m = w * sval b 1 m) as Hwm by (unfold sval; ring).
  assert (0 < sval b 1 m) as Hp by (unfold sval; pose proof (p10_pos (m + b)); lia).
  assert (u * (sval b 1 m * d) <= x) as Hux by nia.
  set (q := native_value (mkSTAmount issue w m false neg)).
  assert (0 <= q ∧ (Z.abs (sval b q 0 * d - x) < sval b 1 0 * d
                    ∨ 0 <= (sval b q 0 * d - x) * u <= e * x)) as [Hq0 Hq].
  { assert (∀ v, sval b v 0 = v * sval b 1 0) as Hv0 by (intros; unfold sval; ring).
    assert (0 < sval b 1 0) by (unfold sval; pose proof (p10_pos (0 + b)); lia).
    unfold q, native_value. cbn [mOffset mValue]. destruct (m <? 0) eqn:E; zbool.
    - assert (sval b 1 0 = 10 ^ (- m) * sval b 1 m) as H10.
      { unfold sval. rewrite Z.mul_1_l, Z.mul_1_l, <- Z.pow_add_r by lia; f_equal; lia. }
      assert (10 <= 10 ^ (- m)) by (change 10 with (10 ^ 1) at 1; apply Z.pow_le_mono_r; lia).
      pose proof (Z.div_mod w (10 ^ (- m)) ltac:(lia)). pose proof (Z.mod_pos_bound w (10 ^ (- m)) ltac:(lia)).
      split; [apply Z.div_pos; lia|]. left. rewrite Hv0. set (g := w / 10 ^ (- m)) in *.
      set (P := sval b 1 m * d) in *. assert (0 < P) by nia.
      replace (g * sval b 1 0 * d) with (g * 10 ^ (- m) * P) by (unfold P; rewrite H10; ring).
      replace (sval b 1 0 * d) with (10 ^ (- m) * P) by (unfold P; rewrite H10; ring).
      replace (sval b w m * d) with (w * P) in Hx by (unfold P; rewrite Hwm; ring).
      replace (e * sval b 1 m * d) with (e * P) in Hx by (unfold P; ring). nia.
    - assert (sval b 1 m = 10 ^ m * sval b 1 0) as H10.
      { unfold sval. rewrite Z.mul_1_l, Z.mul_1_l, <- Z.pow_add_r by lia; f_equal; lia. }
      assert (sval b (w * 10 ^ m) 0 = sval b w m) as Hsv by (rewrite Hwm, H10, Hv0; ring).
      assert (0 < 10 ^ m) by (apply p10_pos; lia).
      rewrite u64_id.
      + split; [nia|]. right. rewrite Hsv. nia.
      + split; [nia|].
        assert (sval b w m * d * u < 18446744073709551616 * sval b 1 0 * d * u) as Hlt by nia.
        apply Z.mul_lt_mono_pos_r in Hlt; [|done]. rewrite <- Hsv, Hv0 in Hlt.
        apply Z.mul_lt_mono_pos_r in Hlt; [|done]. by apply Z.mul_lt_mono_pos_r in Hlt. }
  rewrite canonicalize_native_value; [|done|simpl; split; lia|simpl; lia]. fold q.
  destruct (q >? cMaxNativeN) eqn:E; zbool.
  - split; [done|].
    assert (sval b cMaxNativeN 0 * d + sval b 1 0 * d <= sval b q 0 * d).
    { unfold sval. pose proof (p10_pos (0 + b) ltac:(lia)). nia. }
    destruct Hq; nia.
  - split_and!; try done.
Qed.

(** ** Multiplication and division *)

Lemma val_at_abs b a :
  0 <= mValue a → Z.abs (val_at b a) = sval b (mValue a) (mOffset a).
Proof.
  intros. unfold val_at, signed, sval.
  assert (0 <= 10 ^ (mOffset a + b)) by (apply Z.pow_nonneg; lia).
  destruct (mIsNegative a); nia.
Qed.

(** Multiplying the powers of ten of two operands. *)
Lemma sval_mul b1 b2 v1 v2 o1 o2 :
  0 <= o1 + b1 → 0 <= o2 + b2 →
  sval b1 v1 o1 * sval b2 v2 o2 = sval (b1 + b2) (v1 * v2) (o1 + o2).
Proof.
  intros. unfold sval. replace (o1 + o2 + (b1 + b2)) with ((o1 + b1) + (o2 + b2)) by lia.
  rewrite (p10_split (o1 + b1) (o2 + b2)) by lia. ring.
Qed.

Section muldiv.
  Context {BN : BigNum}.

(** The big-number computation [(a * k) / d] of [multiply] and [divide]. *)
Lemma bn_muldiv {A} a k d (f : bn → result A) :
  is_u64 a → is_u64 k → is_u64 d → d ≠ 0 →
  ∃ v, bn_val v = a * k / d ∧
    (v ← bn_error (BN_add_word64 bn_new a); v ← bn_error (BN_mul_word64 v k);
     v ← bn_error (BN_div_word64 v d); f v) = f v.
Proof.
  intros Ha Hk Hd Hz.
  destruct (bn_add_spec bn_new a) as (v1 & -> & H1); [by rewrite bn_new_val|done|].
  rewrite bn_new_val, Z.add_0_l in H1. cbn [bn_error mbind result_bind].
  destruct (bn_mul_spec v1 k) as (v2 & -> & H2); [unfold is_u64 in *; lia|done|].
  cbn [bn_error mbind result_bind].
  destruct (bn_div_spec v2 d) as (v3 & -> & H3); [rewrite H2, H1; unfold is_u64 in *; nia|done|done|].
  exists v3. split; [|done]. by rewrite H3, H2, H1.
Qed.

(** The amount [multiply] and [divide] return for a zero operand. *)
Definition zero_of (issue : Issue) : STAmount :=
  mkSTAmount issue 0 (if isSWT (currency issue) then 0 else -100) (isSWT (currency issue)) false.

Lemma mkZero_of issue : mkZero issue = Ok (zero_of issue).
Proof. unfold mkZero, mkAmount. by rewrite canonicalize_zero. Qed.

Definition sign_differs (v1 v2 : STAmount) : bool := negb (Bool.eqb (mIsNegative v1) (mIsNegative v2)).

(** The product of native amounts as a native amount: exact; or an overflow above
    [cMaxNative], and always when an operand is negative. *)
Definition native_product_of (v1 v2 : STAmount) (r : result STAmount) : Prop :=
  if mIsNegative v1 || mIsNegative v2 then r = Throw "Native value overflow"
  else r = Ok (mkNativeU (mValue v1 * mValue v2) false)
       ∨ r = Throw "Native value overflow" ∧ cMaxNative < mValue v1 * mValue v2.

(** The 64-bit intermediate of [multiply] does not hold the product. *)
Definition product_overflows (v1 v2 : STAmount) : bool :=
  (cMaxValue <? mValue v1) && (cMaxValue <? mValue v2)
  && (18446744073709551609 * tenTo14 <=? mValue v1 * mValue v2).

(** What [multiply] makes of canonical amounts, on each of its branches.  [x] is the
    magnitude of the exact product in units of [10^-300]. *)
Definition product_of (v1 v2 : STAmount) (issue : Issue) (r : result STAmount) : Prop :=
  let x := Z.abs (val_at 150 v1) * Z.abs (val_at 150 v2) in
  if (mValue v1 =? 0) || (mValue v2 =? 0) then r = Ok (zero_of issue)
  else if isSWT (currency issue) then
    if mIsNative v1 && mIsNative v2 then native_product_of v1 v2 r
    else x * 10000000000000007 < 18446744073709551616 * sval 300 1 0 * 10000000000000000 →
         accurate_drops issue 7 10000000000000000 300 1 x (sign_differs v1 v2) r
  else if product_overflows v1 v2 then
    ∃ w, 0 <= w <= 6 ∧ r = mkAmount issue w 14 (sign_differs v1 v2)
  else accurate_ulp issue 1 7 300 1 x (sign_differs v1 v2) r.

(** What [divide] makes of canonical amounts.  The quotient has a digit less to spare when
    the divisor is a native amount of more than 16 digits. *)
Definition quotient_of (num den : STAmount) (issue : Issue) (r : result STAmount) : Prop :=
  let d := Z.abs (val_at 150 den) in
  let x := Z.abs (val_at 450 num) in
  let fits := mValue den <=? cMaxValue in
  let u := if fits then 10000000000000000 else cMinValue in
  if mValue den =? 0 then r = Throw "division by zero"
  else if mValue num =? 0 then r = Ok (zero_of issue)
  else if isSWT (currency issue) then
    x * (u + 5) < 18446744073709551616 * sval 300 1 0 * d * u →
    accurate_drops issue 5 u 300 d x (sign_differs num den) r
  else accurate_ulp issue (if fits then 1 else 6) (if fits then 5 else 50) 300 d x (sign_differs num den) r.

Lemma canonical_native_offset a : canonical a = true → mIsNative a = true → mOffset a = 0.
Proof. intros [? ? ? ?|? ? ? ?|? ? ? ?]%canonical_iff ?; congruence. Qed.

Lemma canonical_issued_small a : canonical a = true → mIsNative a = false → mValue a <= cMaxValue.
Proof. intros [? ? ? ?|? ? -> ?|? ? ? ?]%canonical_iff ?; try congruence; unfold cMaxValue in *; lia. Qed.

Lemma operand_large a : cMinValue <= mValue a → operand a = (mValue a, mOffset a).
Proof.
  intros Ha. unfold operand. destruct (mIsNative a); [|done]. unfold scale_fuel. cbn [norm_native].
  destruct (mValue a <? cMinValue) eqn:E; zbool; [lia|done].
Qed.

Lemma native_product_spec v1 v2 :
  canonical v1 = true → canonical v2 = true → mIsNative v1 = true → mIsNative v2 = true →
  mValue v1 ≠ 0 → mValue v2 ≠ 0 → native_product_of v1 v2 (native_product v1 v2).
Proof.
  intros Hc1 Hc2 Hn1 Hn2 Hz1 Hz2. unfold native_product_of, native_product, getSNValue.
  pose proof (canonical_value v1 Hc1). pose proof (canonical_value v2 Hc2).
  unfold cMaxNativeN, cMaxNative in *. rewrite Hn1, Hn2. cbn [negb mbind result_bind].
  rewrite !(s64_id (mValue _)), !s64_id by mint_range.
  set (s1 := if mIsNegative v1 then - mValue v1 else mValue v1).
  set (s2 := if mIsNegative v2 then - mValue v2 else mValue v2).
  set (mn := if s1 <? s2 then s1 else s2). set (mx := if s1 <? s2 then s2 else s1).
  destruct (mIsNegative v1 || mIsNegative v2) eqn:Eneg.
  { assert (-100000000000000000 <= mn < 0) as Hmn.
    { unfold mn, s1, s2. apply orb_true_iff in Eneg.
      destruct (mIsNegative v1), (mIsNegative v2); case_if; zbool; intuition (congruence || lia). }
    rewrite (proj2 (Z.gtb_lt (u64 mn) 3000000000)); [done|].
    unfold u64. rewrite <- (Z.mod_unique_pos mn _ (-1) (mn + 18446744073709551616)); lia. }
  apply orb_false_iff in Eneg as [E1 E2].
  assert (mn * mx = mValue v1 * mValue v2 ∧ 0 < mn <= mx ∧ mx <= 100000000000000000) as (Hprod & Hmn & Hmx).
  { unfold mn, mx, s1, s2. rewrite E1, E2. case_match; zbool; split_and!; lia. }
  rewrite <- Hprod, (u64_id mn), (u64_id mx) by mint_range. clearbody mn mx.
  rewrite Z.shiftr_div_pow2 by done. change (2 ^ 32) with 4294967296.
  pose proof (Z.div_mod mx 4294967296 ltac:(done)). pose proof (Z.mod_pos_bound mx 4294967296 ltac:(done)).
  set (hi := mx / 4294967296) in *. set (lo := mx mod 4294967296) in *. assert (0 <= hi) by lia.
  destruct (mn >? 3000000000) eqn:Em; zbool; [right; split; [done|]; nia|].
  rewrite (u64_id (hi * mn)) by (split; nia).
  destruct (hi * mn >? 2095475792) eqn:Eh; zbool; [right; split; [done|]; nia|].
  left. rewrite u64_id; [done|]. split; [nia|].
  destruct (decide (hi = 0)) as [Hhi|Hhi]; [nia|]. assert (mn <= 2095475792) by nia. nia.
Qed.

(** The 64-bit intermediate holds every product but those of [product_overflows]. *)
Lemma product_fits v1 v2 a1 a2 p1 p2 :
  canonical v1 = true → canonical v2 = true → mValue v1 ≠ 0 → mValue v2 ≠ 0 →
  operand v1 = (a1, p1) → operand v2 = (a2, p2) → product_overflows v1 v2 = false →
  10000000000000000 <= a1 * a2 / tenTo14 < 18446744073709551609.
Proof.
  intros Hc1 Hc2 Hz1 Hz2 Ho1 Ho2 Hov.
  destruct (operand_spec v1) as (? & ? & Ho1' & Ha1 & _ & Hs1 & _); [done..|].
  destruct (operand_spec v2) as (? & ? & Ho2' & Ha2 & _ & Hs2 & _); [done..|].
  rewrite Ho1 in Ho1'. rewrite Ho2 in Ho2'. simplify_eq.
  unfold product_overflows, tenTo14, cMinValue, cMaxNativeN, cMaxValue in *.
  split; [apply Z.div_le_lower_bound; [lia|nia]|apply Z.div_lt_upper_bound; [lia|]].
  rewrite !andb_false_iff, !Z.ltb_ge, Z.leb_gt in Hov.
  destruct Hov as [[Hl|Hl]|Hl]; [specialize (Hs1 Hl); nia|specialize (Hs2 Hl); nia|].
  destruct (decide (mValue v1 <= 9999999999999999)) as [Hl1|Hl1]; [specialize (Hs1 Hl1); nia|].
  destruct (decide (mValue v2 <= 9999999999999999)) as [Hl2|Hl2]; [specialize (Hs2 Hl2); nia|].
  rewrite (operand_large v1) in Ho1 by (unfold cMinValue; lia).
  rewrite (operand_large v2) in Ho2 by (unfold cMinValue; lia). simplify_eq. lia.
Qed.



End muldiv.



(** ** Where the code departs from its comments *)

Section departures.
  Context {BN : BigNum}.

(** The comment of [multiply] says that its intermediate product is at most
    [10^18]; two native amounts can exceed it, and once it passes 64 bits the product,
    whatever it is, is the mantissa 6: [BN_get_word]'s all-ones value plus 7, reduced. *)
Theorem multiply_native_overflow v1 v2 issue :
  mIsNative v1 = true → mIsNative v2 = true → isSWT (currency issue) = false →
  cMinValue <= mValue v1 <= cMaxNativeN → cMinValue <= mValue v2 <= cMaxNativeN →
  18446744073709551616 * tenTo14 <= mValue v1 * mValue v2 →
  multiply v1 v2 issue
  = mkAmount issue 6 (mOffset v1 + mOffset v2 + 14) (negb (Bool.eqb (mIsNegative v1) (mIsNegative v2))).
Proof.
  intros Hn1 Hn2 Hs Hv1 Hv2 Hbig. unfold multiply. unfold cMinValue, cMaxNativeN in *.
  rewrite !is_zero_iff, !(proj2 (Z.eqb_neq _ _)), Hn1, Hn2, Hs by lia. cbn [orb andb].
  rewrite !operand_large by (unfold cMinValue; lia).
  destruct (bn_muldiv (mValue v1) (mValue v2) tenTo14
    (λ v, mkAmount issue (u64 (BN_getuint64 v + 7)) (mOffset v1 + mOffset v2 + 14)
      (negb (Bool.eqb (mIsNegative v1) (mIsNegative v2))))) as (v & Hv & ->);
    [unfold tenTo14; mint_range..|done|].
  rewrite bn_get_large; [done|]. rewrite Hv. apply Z.div_le_lower_bound; [done|]. lia.
Qed.

End departures.

Lemma multiply_native_overflow_witness :
  multiply (mkNative 100000000000000000 false) (mkNative 100000000000000000 false) (mkIssue 5 6)
  = mkAmount (mkIssue 5 6) 6 14 false.
Proof.
  apply (multiply_native_overflow (mkNative 100000000000000000 false) (mkNative 100000000000000000 false));
    vm_compute; intuition congruence.
Defined.

(** [mulRound] and [divRound] are declared as rounding in the direction they are
    given, but [canonicalizeRound] discards digits before it rounds: rounding up
    [2 * 3.005] native units gives 6, and rounding up [6.01 / 1] gives 6 too. *)
Theorem round_up_rounds_down :
  ∃ two v w one six,
    canonical two = true ∧ canonical v = true ∧ canonical w = true ∧ canonical one = true
    ∧ mulRound two v xrpIssue true = Ok six ∧ divRound w one xrpIssue true = Ok six
    ∧ amount_val six * 10 ^ 100 < amount_val two * amount_val v
    ∧ amount_val six * amount_val one < amount_val w * 10 ^ 100.
Proof.
  exists (mkNative 2 false), (mkSTAmount (mkIssue 5 6) 3005000000000000 (-15) false false),
    (mkSTAmount (mkIssue 5 6) 6010000000000000 (-15) false false), (mkNative 1 false), (mkNative 6 false).
  split_and!; vm_compute; reflexivity.
Qed.
