(* ===== verification/STAmountWire.v ===== *)
(** * Wire format of amounts and encoding of offer rates

    [serialize]/[deserialize] are [STAmount::add (Serializer&)] and the constructor from
    a [SerialIter]; [getRate]/[amountFromQuality] pack an amount into the 64-bit quality
    that orders the offers of a book. *)

From S2P Require Import Prelude Bytes Serializer Issue BigNum STAmount STAmountProps.

(** ** Bit fields *)

Lemma ldiff_field x k m :
  0 <= k → 0 <= m → 0 <= x < 2 ^ (k + m) → Z.ldiff x (Z.shiftl (Z.ones m) k) = x mod 2 ^ k.
Proof.
  intros Hk Hm Hx. apply Z.bits_inj'. intros n Hn. rewrite Z.ldiff_spec, Z.shiftl_spec by done.
  destruct (Z.ltb_spec n k).
  { rewrite Z.mod_pow2_bits_low by lia. rewrite (Z.testbit_neg_r _ (n - k)) by lia. apply andb_true_r. }
  rewrite Z.mod_pow2_bits_high by lia.
  destruct (Z.ltb_spec n (k + m)).
  - rewrite Z.ones_spec_low by lia. apply andb_false_r.
  - rewrite <- (Z.mod_small x (2 ^ (k + m))) by done. by rewrite Z.mod_pow2_bits_high by lia.
Qed.

(** Clearing the bit above a value. *)
Lemma ldiff_bit v k : 0 <= k → 0 <= v < 2 ^ k → Z.ldiff (v + 2 ^ k) (2 ^ k) = v.
Proof.
  intros Hk Hv. replace (2 ^ k) with (Z.shiftl (Z.ones 1) k) at 2
    by (rewrite Z.shiftl_mul_pow2 by done; change (Z.ones 1) with 1; lia).
  rewrite ldiff_field by (rewrite ?Z.pow_add_r; lia).
  rewrite <- (Z.mul_1_l (2 ^ k)) at 1. rewrite Z.mod_add by lia. by apply Z.mod_small.
Qed.

Lemma land_bit x k : 0 <= k → (Z.land x (2 ^ k) =? 0) = negb (Z.testbit x k).
Proof.
  intros Hk. destruct (Z.testbit x k) eqn:E; simpl.
  - apply Z.eqb_neq. intros Hz. apply (f_equal (λ y, Z.testbit y k)) in Hz.
    rewrite Z.land_spec, E, Z.pow2_bits_true, Z.bits_0 in Hz by done. done.
  - apply Z.eqb_eq, Z.bits_inj'. intros n Hn. rewrite Z.land_spec, Z.bits_0.
    destruct (decide (n = k)) as [->|]; [by rewrite E|].
    rewrite Z.pow2_bits_false by done. apply andb_false_r.
Qed.

(** A bit whose weight separates the range of [x]. *)
Lemma testbit_high x k : 0 <= k → 2 ^ k <= x < 2 ^ (k + 1) → Z.testbit x k = true.
Proof.
  intros Hk Hx. apply Z.testbit_true; [done|]. rewrite Z.pow_add_r in Hx by lia.
  replace (x / 2 ^ k) with 1; [done|]. apply Z.div_unique with (x - 2 ^ k). 1: left; lia. lia.
Qed.

Lemma testbit_low x k : 0 <= k → 0 <= x < 2 ^ k → Z.testbit x k = false.
Proof. intros Hk Hx. rewrite <- (Z.mod_small x (2 ^ k)) by done. by rewrite Z.mod_pow2_bits_high by lia. Qed.

(** The two fields of a word [v | f << k]. *)
Lemma field_word v f k :
  0 <= k → 0 <= v < 2 ^ k →
  Z.shiftr (v + f * 2 ^ k) k = f ∧ (v + f * 2 ^ k) mod 2 ^ k = v.
Proof.
  intros Hk Hv. pose proof (Z.pow_pos_nonneg 2 k). rewrite Z.shiftr_div_pow2 by done.
  rewrite Z.div_add, Z.div_small, Z.mod_add, Z.mod_small by lia. lia.
Qed.

(** ** The word of an issued amount *)

(** The exponent field: bit 9 is set, bit 8 is the sign, bits 0-7 the biased exponent. *)
Definition exp_field (neg : bool) (o : Z) : Z := o + 97 + 512 + (if neg then 0 else 256).

Lemma amount_word_iou a :
  mIsNative a = false → cMinValue <= mValue a <= cMaxValue → cMinOffset <= mOffset a <= cMaxOffset →
  amount_word a = mValue a + exp_field (mIsNegative a) (mOffset a) * 2 ^ 54.
Proof.
  intros Hn Hv Ho. unfold amount_word, is_zero, signum. rewrite Hn.
  unfold cMinValue, cMaxValue, cMinOffset, cMaxOffset in *.
  destruct (mValue a =? 0) eqn:Hz; zbool; [lia|].
  assert (∀ x, 0 <= x < 1024 → u64 (Z.shiftl (u64 x) 54) = Z.shiftl x 54) as Hsh.
  { intros x Hx. rewrite (u64_id x) by mint_range. apply u64_id.
    rewrite Z.shiftl_mul_pow2 by lia. change (2 ^ 54) with 18014398509481984. mint_range. }
  unfold exp_field. destruct (mIsNegative a); simpl;
    rewrite Hsh, lor_disjoint by (try change (2 ^ 54) with 18014398509481984; lia); f_equal; f_equal; lia.
Qed.

Lemma exp_field_range neg o :
  cMinOffset <= o <= cMaxOffset →
  512 <= exp_field neg o < 1024 ∧ Z.land (exp_field neg o) 255 - 97 = o
  ∧ (Z.land (exp_field neg o) 256 =? 0) = neg.
Proof.
  unfold exp_field, cMinOffset, cMaxOffset. intros Ho.
  split; [destruct neg; lia|]. split; [rewrite land_ff; destruct neg; zlia|].
  transitivity (negb (Z.testbit (o + 97 + 512 + (if neg then 0 else 256)) 8)); [by apply (land_bit _ 8)|].
  assert (∀ b, Z.testbit (o + 97 + 512 + b) 8 = Z.testbit (o + 97 + b) 8) as Hb.
  { intros b. rewrite <- (Z.mod_pow2_bits_low (o + 97 + 512 + b) 9 8) by lia.
    rewrite <- (Z.mod_pow2_bits_low (o + 97 + b) 9 8) by lia.
    replace (o + 97 + 512 + b) with (o + 97 + b + 1 * 2 ^ 9) by (change (2 ^ 9) with 512; lia).
    by rewrite Z.mod_add by lia. }
  rewrite Hb. destruct neg.
  - rewrite testbit_low; [done|lia|]. change (2 ^ 8) with 256. lia.
  - rewrite testbit_high; [done|lia|]. change (2 ^ 8) with 256. change (2 ^ (8 + 1)) with 512. lia.
Qed.

(** ** Round trip *)

Definition wire_issue (a : STAmount) : Prop :=
  if mIsNative a then mIssue a = xrpIssue
  else is_u160 (currency (mIssue a)) ∧ is_u160 (account (mIssue a)) ∧ account (mIssue a) ≠ 0.

Lemma amount_word_native a :
  mIsNative a = true → 0 <= mValue a <= cMaxNativeN →
  amount_word a = mValue a + (if mIsNegative a then 0 else 1) * 2 ^ 62.
Proof.
  intros Hn Hv. unfold amount_word. rewrite Hn. unfold cMaxNativeN in *.
  destruct (mIsNegative a); simpl negb; cbn match; [lia|].
  change cPosNative with (Z.shiftl 1 62). rewrite lor_disjoint; [lia|lia|].
  change (2 ^ 62) with 4611686018427387904. lia.
Qed.

Lemma amount_word_range a : canonical a = true → is_u64 (amount_word a).
Proof.
  unfold is_u64. intros [Hs Hn Hv _ _|Hs Hn Hv Ho Hg|Hs Hn Hv Ho]%canonical_iff.
  - rewrite amount_word_native by done. unfold cMaxNativeN in *.
    change (2 ^ 62) with 4611686018427387904. destruct (mIsNegative a); lia.
  - unfold amount_word, is_zero, signum. rewrite Hn, Hv. simpl. unfold cNotNative. lia.
  - rewrite amount_word_iou by done. destruct (exp_field_range (mIsNegative a) (mOffset a) Ho) as [? _].
    unfold cMinValue, cMaxValue in *. change (2 ^ 54) with 18014398509481984. lia.
Qed.

(** The bytes [add] appends. *)
Definition wire_bytes (a : STAmount) : blob :=
  be_bytes 8 (amount_word a)
  ++ (if mIsNative a then [] else be_bytes 20 (currency (mIssue a)) ++ be_bytes 20 (account (mIssue a))).

Lemma serialize_app a d : serialize a d = d ++ wire_bytes a.
Proof.
  unfold serialize, wire_bytes. rewrite add64_bytes. unfold addBitString. cbn [snd].
  destruct (mIsNative a); [by rewrite app_nil_r|by rewrite <- !app_assoc].
Qed.

Lemma be_val_u160 x : is_u160 x → be_val (be_bytes 20 x) = x.
Proof. intros. by apply be_val_bytes_id. Qed.

Lemma deserialize_native a pre rest :
  canonical a = true → mIsNative a = true → mIssue a = xrpIssue →
  deserialize (si_on pre (wire_bytes a ++ rest)) = Ok (a, si_on (pre ++ wire_bytes a) rest).
Proof.
  intros Hc Hn Hi. unfold deserialize, wire_bytes. rewrite Hn, app_nil_r.
  rewrite si_get64_on by (apply be_bytes_length || apply be_bytes_byte_list).
  rewrite be_val_bytes_id by apply (amount_word_range a Hc). cbn [mbind result_bind].
  generalize (si_on (pre ++ be_bytes 8 (amount_word a)) rest) as sit. intros sit.
  apply canonical_iff in Hc as [Hs _ Hv Ho Hg|? ?|? ?]; [|congruence..].
  rewrite amount_word_native by done. unfold cMaxNativeN in Hv.
  change cNotNative with (2 ^ 63). change cPosNative with (2 ^ 62).
  rewrite !land_bit by done.
  destruct a as [i v o n g]; cbn [mIssue mValue mOffset mIsNative mIsNegative] in *; subst.
  destruct g; cbn [negb]; rewrite ?Z.mul_0_l, ?Z.mul_1_l, ?Z.add_0_r.
  - rewrite !testbit_low by (first [lia | change (2 ^ 62) with 4611686018427387904
      | change (2 ^ 63) with 9223372036854775808]; lia).
    simpl. destruct (v =? 0) eqn:E; zbool; [|done]. by discriminate Hg.
  - rewrite testbit_low by (try change (2 ^ 62) with 4611686018427387904;
      try change (2 ^ 63) with 9223372036854775808; lia).
    rewrite testbit_high by (change (2 ^ (62 + 1)) with 9223372036854775808;
      change (2 ^ 62) with 4611686018427387904; lia).
    rewrite ldiff_bit by (change (2 ^ 62) with 4611686018427387904; lia). done.
Qed.

(** What [deserialize] does with the word of an issued amount once it has read the two
    160-bit fields. *)
Lemma deserialize_iou_word v f :
  0 <= v < 2 ^ 54 → 512 <= f < 1024 →
  let w := v + f * 2 ^ 54 in
  (Z.land w cNotNative =? 0) = false ∧ s32 (Z.shiftr w 54) = f
  ∧ Z.ldiff w (Z.shiftl 1023 54) = v.
Proof.
  intros Hv Hf w. destruct (field_word v f 54) as [H1 H2]; [done|done|].
  change (2 ^ 54) with 18014398509481984 in Hv.
  assert (9223372036854775808 <= w < 18446744073709551616) as Hw.
  { unfold w. change (2 ^ 54) with 18014398509481984. lia. }
  split_and!.
  - change cNotNative with (2 ^ 63). rewrite land_bit, testbit_high; [done|lia|exact Hw|lia].
  - unfold w. rewrite H1. apply s32_id. mint_range.
  - change 1023 with (Z.ones 10). rewrite ldiff_field; [exact H2|lia|lia|].
    change (2 ^ (54 + 10)) with 18446744073709551616. lia.
Qed.

Lemma deserialize_iou a pre rest :
  canonical a = true → mIsNative a = false → wire_issue a →
  deserialize (si_on pre (wire_bytes a ++ rest)) = Ok (a, si_on (pre ++ wire_bytes a) rest).
Proof.
  intros Hc Hn Hi. unfold deserialize, wire_bytes, wire_issue in *. rewrite Hn in *.
  destruct Hi as (Hcur & Hacc & Hacc0).
  assert (isSWT (currency (mIssue a)) = false) as Hs.
  { apply canonical_iff in Hc as [? ?|? ?|? ?]; try done; congruence. }
  pose proof (amount_word_range a Hc) as Hw. pose proof (canonicalize_fix a Hc) as Hfix.
  rewrite <- !app_assoc, si_get64_on by (apply be_bytes_length || apply be_bytes_byte_list).
  rewrite be_val_bytes_id by apply Hw. cbn [mbind result_bind].
  rewrite si_getBitString_on by (unfold sizeZ; by rewrite be_bytes_length). cbn [mbind result_bind].
  rewrite be_val_u160, Hs by done.
  rewrite si_getBitString_on by (unfold sizeZ; by rewrite be_bytes_length). cbn [mbind result_bind].
  rewrite be_val_u160 by done. rewrite (proj2 (Z.eqb_neq _ _) Hacc0 : isSWT _ = false).
  cbn [mbind result_bind].
  rewrite <- !app_assoc. generalize (si_on (pre ++ be_bytes 8 (amount_word a) ++
    be_bytes 20 (currency (mIssue a)) ++ be_bytes 20 (account (mIssue a))) rest) as sit. intros sit.
  apply canonical_iff in Hc as [? ?|_ _ Hv Ho Hg|_ _ Hv Ho]; [congruence|..].
  - assert (amount_word a = 0 + 512 * 2 ^ 54) as ->.
    { unfold amount_word, is_zero, signum. by rewrite Hn, Hv. }
    destruct (deserialize_iou_word 0 512) as (-> & -> & ->); [done..|]. simpl.
    rewrite canonicalize_zero by done. unfold amount_isSWT. simpl. rewrite Hs. simpl.
    destruct a as [[c i] v o n g]; simpl in *; by subst.
  - rewrite amount_word_iou by done.
    destruct (exp_field_range (mIsNegative a) (mOffset a) Ho) as (Hf & Hoff & Hneg).
    destruct (deserialize_iou_word (mValue a) (exp_field (mIsNegative a) (mOffset a)))
      as (-> & -> & ->); [unfold cMinValue, cMaxValue in *; change (2 ^ 54) with 18014398509481984; lia|done|].
    rewrite Hoff, Hneg. unfold cMinValue, cMaxValue, cMinOffset, cMaxOffset in *.
    destruct (mValue a =? 0) eqn:E0; zbool; [lia|]. cbn [negb].
    rewrite (proj2 (Z.ltb_ge (mValue a) _)) by lia. rewrite (proj2 (Z.ltb_ge (mOffset a) _)) by lia.
    rewrite !Z.gtb_ltb, (proj2 (Z.ltb_ge _ (mValue a))), (proj2 (Z.ltb_ge _ (mOffset a))) by lia.
    cbn [orb]. destruct a as [[c i] v o n g].
    cbn [mIssue mValue mOffset mIsNative mIsNegative currency account] in *. subst n.
    by rewrite Hfix.
Qed.

(** C6: an amount that is canonical and whose issue the wire can represent is read back
    as it was written, from any position of any buffer, and the iterator is left on the
    byte after it; the encoding is 8 bytes for a native amount and 48 for an issued one. *)
Theorem amount_wire_roundtrip a pre rest :
  canonical a = true → wire_issue a →
  deserialize (si_on pre (serialize a [] ++ rest)) = Ok (a, si_on (pre ++ serialize a []) rest)
  ∧ (∀ d, serialize a d = d ++ serialize a [])
  ∧ length (serialize a []) = (if mIsNative a then 8 else 48)%nat.
Proof.
  intros Hc Hi. rewrite !serialize_app, !app_nil_l. split_and!.
  - destruct (mIsNative a) eqn:Hn; [|by apply deserialize_iou].
    apply deserialize_native; [done..|]. unfold wire_issue in Hi. by rewrite Hn in Hi.
  - intros d. apply serialize_app.
  - unfold wire_bytes. destruct (mIsNative a); by rewrite ?length_app, ?be_bytes_length.
Qed.

Lemma amount_wire_roundtrip_witness :
  deserialize (mkSerialIter (serialize (mkSTAmount (mkIssue 5 6) 1500000000000000 (-7) false true) []))
  = Ok (mkSTAmount (mkIssue 5 6) 1500000000000000 (-7) false true,
        si_on (serialize (mkSTAmount (mkIssue 5 6) 1500000000000000 (-7) false true) []) []).
Proof.
  destruct (amount_wire_roundtrip (mkSTAmount (mkIssue 5 6) 1500000000000000 (-7) false true) [] [])
    as [H _]; [done|by unfold wire_issue, is_u160|]. rewrite app_nil_r in H. exact H.
Defined.

(** ** Offer rates *)

(** The quality word of an amount of exponent [o] and mantissa [v]. *)
Lemma rate_word o v :
  cMinValue <= v <= cMaxValue → cMinOffset <= o <= cMaxOffset →
  Z.lor (u64 (Z.shiftl (u64 (o + 100)) 56)) v = v + (o + 100) * 2 ^ 56.
Proof.
  unfold cMinValue, cMaxValue, cMinOffset, cMaxOffset. intros Hv Ho.
  rewrite (u64_id (o + 100)) by mint_range. rewrite u64_id.
  - rewrite Z.lor_comm. apply lor_disjoint; [lia|]. change (2 ^ 56) with 72057594037927936. lia.
  - rewrite Z.shiftl_mul_pow2 by lia. change (2 ^ 56) with 72057594037927936. mint_range.
Qed.

(** A positive amount of [noIssue], as [divide] returns for the rate of an offer. *)
Definition is_rate (r : STAmount) : Prop :=
  mIssue r = noIssue ∧ mIsNative r = false ∧ mIsNegative r = false
  ∧ cMinValue <= mValue r <= cMaxValue ∧ cMinOffset <= mOffset r <= cMaxOffset.

Lemma is_rate_canonical r : is_rate r → canonical r = true.
Proof.
  intros (Hi & Hn & Hg & Hv & Ho). apply canonical_iff, shape_iou; try done.
  unfold amount_isSWT. by rewrite Hi.
Qed.

Lemma is_rate_eta r : is_rate r → r = mkSTAmount noIssue (mValue r) (mOffset r) false false.
Proof. destruct r. intros (Hi & Hn & Hg & _). simpl in *. by subst. Qed.

Lemma amountFromQuality_word o v :
  cMinValue <= v <= cMaxValue → cMinOffset <= o <= cMaxOffset →
  amountFromQuality (v + (o + 100) * 2 ^ 56) = Ok (mkSTAmount noIssue v o false false).
Proof.
  intros Hv Ho. unfold amountFromQuality.
  destruct (field_word v (o + 100) 56) as [H1 H2]; [done|
    unfold cMinValue, cMaxValue in *; change (2 ^ 56) with 72057594037927936; lia|].
  rewrite H1. change 255 with (Z.ones 8). rewrite ldiff_field, H2; [|lia|lia|].
  - rewrite s32_id by (unfold cMinOffset, cMaxOffset in *; mint_range).
    destruct (_ =? 0) eqn:E; zbool.
    { unfold cMinValue, cMinOffset in *. change (2 ^ 56) with 72057594037927936 in E. lia. }
    unfold mkAmount. rewrite Z.add_simpl_r.
    apply canonicalize_fix. apply canonical_iff, shape_iou; done.
  - change (2 ^ (56 + 8)) with 18446744073709551616. change (2 ^ 56) with 72057594037927936.
    unfold cMinValue, cMaxValue, cMinOffset, cMaxOffset in *. lia.
Qed.

Section rates.
  Context {BN : BigNum}.

Lemma getRate_word offerOut offerIn r :
  is_zero offerOut = false → divide offerIn offerOut noIssue = Ok r → is_rate r →
  getRate offerOut offerIn = mValue r + (mOffset r + 100) * 2 ^ 56.
Proof.
  intros Hz Hd (Hi & Hn & Hg & Hv & Ho). unfold getRate. rewrite Hz, Hd.
  unfold is_zero, signum. destruct (mValue r =? 0) eqn:E; zbool; [unfold cMinValue in *; lia|].
  rewrite Hg. simpl. by apply rate_word.
Qed.

(** C8: the 64-bit rate of an offer carries the whole quotient
    ([amountFromQuality] gives it back), is never the failure value 0, and the order of
    rates as integers, in which book directories are sorted, is the order of the
    quotients. *)
Theorem rate_encodes_order out1 in1 r1 out2 in2 r2 :
  is_zero out1 = false → divide in1 out1 noIssue = Ok r1 → is_rate r1 →
  is_zero out2 = false → divide in2 out2 noIssue = Ok r2 → is_rate r2 →
  amountFromQuality (getRate out1 in1) = Ok r1
  ∧ 0 < getRate out1 in1 < 18446744073709551616
  ∧ (getRate out1 in1 < getRate out2 in2 ↔ amount_val r1 < amount_val r2)
  ∧ (getRate out1 in1 = getRate out2 in2 ↔ r1 = r2).
Proof.
  intros Hz1 Hd1 Hr1 Hz2 Hd2 Hr2.
  rewrite (getRate_word out1 in1 r1), (getRate_word out2 in2 r2) by done.
  pose proof (is_rate_canonical _ Hr1) as Hc1. pose proof (is_rate_canonical _ Hr2) as Hc2.
  pose proof (is_rate_eta _ Hr1) as He1. pose proof (is_rate_eta _ Hr2) as He2.
  assert (isComparable r1 r2 = true) as Hcmp.
  { unfold isComparable. destruct Hr1 as (-> & -> & _), Hr2 as (-> & -> & _). done. }
  pose proof (compare_val r1 r2 Hc1 Hc2 Hcmp) as Hval. unfold compare in Hval.
  destruct Hr1 as (Hi1 & Hn1 & Hg1 & Hv1 & Ho1), Hr2 as (Hi2 & Hn2 & Hg2 & Hv2 & Ho2).
  rewrite amountFromQuality_word, <- He1 by done. rewrite Hg1, Hg2 in Hval.
  change (2 ^ 56) with 72057594037927936.
  unfold cMinValue, cMaxValue, cMinOffset, cMaxOffset in *.
  split; [done|]. split; [lia|].
  destruct (mValue r1 =? 0) eqn:E1; zbool; [lia|]. destruct (mValue r2 =? 0) eqn:E2; zbool; [lia|].
  cbn [Bool.eqb negb] in Hval. split.
  - destruct (mOffset r1 >? mOffset r2) eqn:E3; zbool; [lia|].
    destruct (mOffset r1 <? mOffset r2) eqn:E4; zbool; [lia|].
    destruct (mValue r1 >? mValue r2) eqn:E5; zbool; [lia|].
    destruct (mValue r1 <? mValue r2) eqn:E6; zbool; lia.
  - split; [|intros ->; done]. intros Heq. rewrite He1, He2. f_equal; lia.
Qed.

End rates.

Lemma rate_encodes_order_witness :
  amountFromQuality (getRate (mkNative 2000000 false) (mkSTAmount (mkIssue 5 6) 1500000000000000 (-7) false false))
  = Ok (mkSTAmount noIssue 7500000000000000 (-14) false false).
Proof.
  eapply (rate_encodes_order (mkNative 2000000 false)
    (mkSTAmount (mkIssue 5 6) 1500000000000000 (-7) false false)
    (mkSTAmount noIssue 7500000000000000 (-14) false false) (mkNative 2000000 false)
    (mkSTAmount (mkIssue 5 6) 1500000000000000 (-7) false false)
    (mkSTAmount noIssue 7500000000000000 (-14) false false)); try reflexivity; vm_compute; intuition congruence.
Defined.
