(* ===== verification/Quality.v ===== *)
(** * Qualities of offers

    Model of [src/src/transaction/book/Amounts.h], [Quality.h] and [impl/Quality.cpp].
    A [Quality] is the 64-bit encoding of the ratio in/out of an offer: the lower the
    integer, the better the quality.  The assertions of the code are no run-time checks
    and are not modelled. *)

From S2P Require Import Prelude Bytes Serializer Issue BigNum STAmount STAmountProps STAmountArith STAmountMulDiv STAmountWire.

Record Amounts := mkAmounts { a_in : STAmount; a_out : STAmount }.

Definition amounts_empty (a : Amounts) : bool := (signum (a_in a) <=? 0) || (signum (a_out a) <=? 0).
Definition amounts_eq (lhs rhs : Amounts) : bool :=
  op_eq (a_in lhs) (a_in rhs) && op_eq (a_out lhs) (a_out rhs).

Definition QUALITY_ONE : Z := 1000000000.

(** [m_value] *)
Definition Quality := Z.

Definition quality_lt (lhs rhs : Quality) : bool := lhs >? rhs.
Definition quality_eq (lhs rhs : Quality) : bool := lhs =? rhs.

(** [operator++] advances to the next higher quality, [operator--] to the next lower. *)
Definition quality_incr (q : Quality) : Quality := u64 (q - 1).
Definition quality_decr (q : Quality) : Quality := u64 (q + 1).

Definition quality_rate (q : Quality) : result STAmount := amountFromQuality q.

Section quality.
  Context {BN : BigNum}.

Definition quality_of (amount : Amounts) : Quality := getRate (a_out amount) (a_in amount).

Definition ceil_in (q : Quality) (amount : Amounts) (limit : STAmount) : result Amounts :=
  b ← op_gt (a_in amount) limit;
  if (b : bool) then
    rate ← quality_rate q;
    out ← divRound limit rate (mIssue (a_out amount)) true;
    c ← op_gt out (a_out amount);
    Ok (mkAmounts limit (if (c : bool) then a_out amount else out))
  else Ok amount.

Definition ceil_out (q : Quality) (amount : Amounts) (limit : STAmount) : result Amounts :=
  b ← op_gt (a_out amount) limit;
  if (b : bool) then
    rate ← quality_rate q;
    i ← mulRound limit rate (mIssue (a_in amount)) true;
    c ← op_gt i (a_in amount);
    Ok (mkAmounts (if (c : bool) then a_in amount else i) limit)
  else Ok amount.

Definition composed_quality (lhs rhs : Quality) : result Quality :=
  lhs_rate ← quality_rate lhs;
  rhs_rate ← quality_rate rhs;
  rate ← mulRound lhs_rate rhs_rate (mIssue lhs_rate) true;
  let stored_exponent := u64 (mOffset rate + 100) in
  Ok (Z.lor (u64 (Z.shiftl stored_exponent 56)) (mValue rate)).

End quality.

(** ** Order on the results of the arithmetic

    An amount that underflowed is a zero of exponent 0; when its sign is positive it
    compares like the canonical zero. *)

Definition ordered (a : STAmount) : Prop :=
  canonical a = true
  ∨ mValue a = 0 ∧ mIsNegative a = false ∧ mIsNative a = amount_isSWT a.

Lemma ordered_canonical a : canonical a = true → ordered a.
Proof. by left. Qed.

Lemma ordered_nonzero a : ordered a → mValue a ≠ 0 → canonical a = true.
Proof. intros [?|[? _]]; done. Qed.

Lemma ordered_zero_sign a : ordered a → mValue a = 0 → mIsNegative a = false.
Proof. intros [Hc|(_ & ? & _)] Hz; [by apply canonical_zero_sign|done]. Qed.

Lemma amount_val_zero a : mValue a = 0 → amount_val a = 0.
Proof. intros. unfold amount_val. rewrite magnitude_zero by done. by destruct (mIsNegative a). Qed.

(** The sign of an ordered amount is the sign of its value. *)
Lemma ordered_signum a : ordered a → signum a = Z.sgn (amount_val a).
Proof.
  intros Ho. unfold signum. destruct (mValue a =? 0) eqn:E; zbool.
  { by rewrite amount_val_zero. }
  pose proof (magnitude_pos a (ordered_nonzero a Ho E) E). unfold amount_val.
  destruct (mIsNegative a); lia.
Qed.

Lemma compare_ordered a t :
  ordered a → ordered t → isComparable a t = true →
  compare a t = Z.sgn (amount_val a - amount_val t).
Proof.
  intros Ha Ht Hc. pose proof (ordered_signum a Ha) as Sa. pose proof (ordered_signum t Ht) as St.
  pose proof (ordered_zero_sign a Ha) as Za. pose proof (ordered_zero_sign t Ht) as Zt.
  destruct (decide (mValue a = 0)) as [Ea|Ea].
  { rewrite (amount_val_zero a) in * by done. specialize (Za Ea). unfold compare, signum in *. rewrite Ea, Za in *.
    simpl in *. destruct (mValue t =? 0) eqn:Et; zbool.
    - rewrite (Zt Et). simpl. rewrite amount_val_zero by done. done.
    - destruct (mIsNegative t); simpl; lia. }
  destruct (decide (mValue t = 0)) as [Et|Et].
  { rewrite (amount_val_zero t) in * by done. specialize (Zt Et). unfold compare, signum in *. rewrite Et, Zt in *.
    destruct (mValue a =? 0) eqn:Ea'; zbool; [done|].
    destruct (mIsNegative a); simpl; lia. }
  apply compare_val; auto using ordered_nonzero.
Qed.

Lemma op_lt_ordered a t b :
  ordered a → ordered t → op_lt a t = Ok b →
  isComparable a t = true ∧ b = bool_decide (amount_val a < amount_val t).
Proof.
  intros Ha Ht H. unfold op_lt, throwComparable in H. destruct (isComparable a t) eqn:E; [|done].
  simpl in H. injection H as <-. split; [done|]. rewrite compare_ordered by done. apply sgn_ltb.
Qed.

Lemma op_gt_ordered a t b :
  ordered a → ordered t → op_gt a t = Ok b →
  isComparable a t = true ∧ b = bool_decide (amount_val t < amount_val a).
Proof.
  intros Ha Ht H. unfold op_gt, throwComparable in H. destruct (isComparable a t) eqn:E; [|done].
  simpl in H. injection H as <-. split; [done|]. rewrite compare_ordered, Z.gtb_ltb by done.
  case_bool_decide; [apply Z.ltb_lt|apply Z.ltb_ge]; lia.
Qed.

(** Whatever [mkAmount] builds with a positive sign is ordered. *)
Lemma mkAmount_ordered issue v o r :
  is_u64 v → mkAmount issue v o false = Ok r → ordered r ∧ 0 <= amount_val r ∧ mIssue r = issue.
Proof.
  intros Hu H. unfold mkAmount in H.
  destruct (proj2 (canonicalize_canonical (mkSTAmount issue v o false false)) r Hu H) as [Hc|[Hz ->]].
  - assert (mIsNegative r = false ∧ mIssue r = issue) as [Hn Hi].
    { unfold canonicalize in H. destruct (amount_isSWT _), (mValue _ =? 0).
      - by injection H as <-.
      - destruct (native_down _ _ _), (native_up _ _ _). case_if_in H; [done|]. by injection H as <-.
      - by injection H as <-.
      - destruct (scale_up _ _ _). destruct (scale_down _ _ _) as [[? ?]|]; [|done].
        cbn [mbind result_bind] in H. destruct (if _ || _ then _ else _). case_if_in H; [done|]. by injection H as <-. }
    split_and!; [by left| |done]. unfold amount_val. rewrite Hn.
    destruct (decide (mValue r = 0)); [by rewrite magnitude_zero|].
    pose proof (magnitude_pos r Hc). lia.
  - split_and!; [by right| |done]. by rewrite amount_val_zero.
Qed.

(** ** Products and quotients of amounts of one sign *)

(** What the arithmetic returns for operands of the same sign. *)
Definition nonneg_of (issue : Issue) (r : STAmount) : Prop :=
  ordered r ∧ 0 <= amount_val r ∧ mIssue r = issue.

Lemma mkZero_nonneg issue r : mkZero issue = Ok r → nonneg_of issue r.
Proof. intros. by apply mkAmount_ordered in H. Qed.

Lemma canonicalizeRound_native_range f v o l :
  0 <= v < 18446744073709551616 → 0 <= (canonicalizeRound_native f v o l).1.1 < 18446744073709551616.
Proof.
  revert v o l. induction f as [|f IH]; intros v o l Hv; [done|].
  unfold canonicalizeRound_native in *. case_if; [|done]. apply IH. zlia.
Qed.

Lemma canonicalizeRound_iou_range f v o :
  0 <= v < 18446744073709551616 → 0 <= (canonicalizeRound_iou f v o).1 < 18446744073709551616.
Proof.
  revert v o. induction f as [|f IH]; intros v o Hv; cbn [canonicalizeRound_iou]; [done|].
  case_if; [|done]. apply IH. zlia.
Qed.

Lemma canonicalizeRound_u64 native v o up : is_u64 v → is_u64 (canonicalizeRound native v o up).1.
Proof.
  unfold is_u64, canonicalizeRound. intros Hv. destruct up; cbn [negb]; [|done]. destruct native.
  - case_if; [|done]. destruct (canonicalizeRound_native (Z.to_nat (- o)) v o 0) as [[v' o'] l].
    pose proof (u64_range (v' + (if l >=? 2 then 9 else 10))). unfold is_u64 in *. cbn [fst]. zlia.
  - case_if; [|done]. destruct (canonicalizeRound_iou scale_fuel v o) as [v' o'].
    pose proof (u64_range (v' + 9)). unfold is_u64 in *. cbn [fst]. zlia.
Qed.

Lemma mkAmount_nonneg issue v o r : is_u64 v → mkAmount issue v o false = Ok r → nonneg_of issue r.
Proof. apply mkAmount_ordered. Qed.

Section nonneg.
  Context {BN : BigNum}.

Lemma bn_get_u64 v : 0 <= bn_val v → is_u64 (BN_getuint64 v).
Proof.
  intros Hv. destruct (decide (bn_val v < 18446744073709551616)).
  - rewrite bn_get_small; unfold is_u64; lia.
  - rewrite bn_get_large by lia. by unfold is_u64.
Qed.

Lemma divide_nonneg num den issue r :
  mIsNegative num = mIsNegative den → divide num den issue = Ok r → nonneg_of issue r.
Proof.
  intros Hs H. unfold divide in H. case_if_in H; [done|]. case_if_in H; [by apply mkZero_nonneg|].
  destruct (operand num) as [v1 o1], (operand den) as [v2 o2]. res_inv.
  rewrite Hs, eqb_reflx in *. eapply mkAmount_nonneg; [|done]. apply u64_range.
Qed.

Lemma multiply_nonneg v1 v2 issue r :
  mIsNegative v1 = mIsNegative v2 → mIsNative v2 = false →
  multiply v1 v2 issue = Ok r → nonneg_of issue r.
Proof.
  intros Hs Hn H. unfold multiply in H. case_if_in H; [by apply mkZero_nonneg|].
  rewrite Hn, andb_false_r in H. simpl in H.
  destruct (operand v1) as [w1 o1], (operand v2) as [w2 o2]. res_inv.
  rewrite Hs, eqb_reflx in *. eapply mkAmount_nonneg; [|done]. apply u64_range.
Qed.

(** An ordered amount has operands that fit the 64-bit word operations. *)
Lemma operand_u64 a : ordered a → is_u64 (operand a).1.
Proof.
  intros Ho. destruct (decide (mValue a = 0)) as [Hz|Hz].
  - unfold operand. rewrite Hz. destruct (mIsNative a); [|by unfold is_u64]. by destruct (mOffset a).
  - destruct (operand_spec a (ordered_nonzero a Ho Hz) Hz) as (v & o & -> & Hv & _).
    unfold cMinValue, cMaxNativeN, is_u64 in *. simpl. lia.
Qed.

Lemma round_nonneg (r : STAmount) (v : bn) w o issue (native up : bool) :
  0 <= bn_val v → is_u64 w → w ≠ 0 →
  (v ← bn_error (BN_div_word64 v w);
   let '(amount, offset) := canonicalizeRound native (BN_getuint64 v) o up in
   mkAmount issue amount offset false) = Ok r →
  nonneg_of issue r.
Proof.
  intros Hv Hw Hz H. destruct (bn_div_spec v w Hv Hw Hz) as (v' & Hd & Hv').
  rewrite Hd in H. cbn [bn_error mbind result_bind] in H.
  destruct (canonicalizeRound _ _ _ _) as [a off] eqn:E. eapply mkAmount_nonneg; [|done].
  change a with (a, off).1. rewrite <- E. apply canonicalizeRound_u64, bn_get_u64.
  rewrite Hv'. apply Z.div_pos; unfold is_u64 in Hw; lia.
Qed.

Lemma bn_mul2 {A} a k (f : bn → result A) :
  is_u64 a → is_u64 k →
  ∃ v, bn_val v = a * k ∧
    (v ← bn_error (BN_add_word64 bn_new a); v ← bn_error (BN_mul_word64 v k); f v) = f v.
Proof.
  intros Ha Hk.
  destruct (bn_add_spec bn_new a) as (v1 & -> & H1); [by rewrite bn_new_val|done|].
  rewrite bn_new_val, Z.add_0_l in H1. cbn [bn_error mbind result_bind].
  destruct (bn_mul_spec v1 k) as (v2 & -> & H2); [unfold is_u64 in *; lia|done|].
  exists v2. split; [by rewrite H2, H1|done].
Qed.

Lemma bn_round_add v w (up : bool) :
  0 <= bn_val v → is_u64 w → 0 <= bn_val (if up then default v (BN_add_word64 v w) else v).
Proof.
  intros Hv Hw. destruct up; [|done]. destruct (bn_add_spec v w Hv Hw) as (v' & -> & Hv').
  simpl. unfold is_u64 in Hw. lia.
Qed.

Lemma mulRound_nonneg v1 v2 issue up r :
  ordered v1 → ordered v2 → mIsNegative v1 = mIsNegative v2 → mIsNative v2 = false →
  mulRound v1 v2 issue up = Ok r → nonneg_of issue r.
Proof.
  intros Ho1 Ho2 Hs Hn H. unfold mulRound in H. case_if_in H; [by apply mkZero_nonneg|].
  rewrite Hn, andb_false_r in H. cbn [andb] in H.
  pose proof (operand_u64 v1 Ho1) as Hu1. pose proof (operand_u64 v2 Ho2) as Hu2.
  destruct (operand v1) as [w1 o1], (operand v2) as [w2 o2]. simpl in Hu1, Hu2.
  rewrite Hs, eqb_reflx in H. cbn [negb] in H.
  match type of H with (_ ≫= λ v, _ ≫= ?f) = _ =>
    destruct (bn_mul2 w1 w2 f Hu1 Hu2) as (v & Hv & He); rewrite He in H; clear He end.
  eapply round_nonneg; [|..|exact H]; [apply bn_round_add| |]; unfold is_u64, tenTo14m1, tenTo14 in *;
    try lia; rewrite ?Hv; nia.
Qed.

Lemma divRound_nonneg num den issue up r :
  ordered num → ordered den → mIsNegative num = mIsNegative den →
  divRound num den issue up = Ok r → nonneg_of issue r.
Proof.
  intros Ho1 Ho2 Hs H. unfold divRound in H. destruct (is_zero den) eqn:Hz; [done|].
  case_if_in H; [by apply mkZero_nonneg|].
  rewrite is_zero_iff in Hz. zbool.
  destruct (operand_spec den (ordered_nonzero den Ho2 Hz) Hz) as (w2 & o2 & Hop & Hw2 & _). rewrite Hop in H.
  pose proof (operand_u64 num Ho1) as Hu1. destruct (operand num) as [w1 o1]. simpl in Hu1.
  rewrite Hs, eqb_reflx in H. cbn [negb] in H. unfold cMinValue, cMaxNativeN in *.
  match type of H with (_ ≫= λ v, _ ≫= ?f) = _ =>
    destruct (bn_mul2 w1 tenTo17 f Hu1) as (v & Hv & He); [by unfold is_u64|rewrite He in H; clear He] end.
  eapply round_nonneg; [|..|exact H]; [apply bn_round_add; [|apply u64_range]| |]; unfold is_u64 in *;
    try lia. rewrite Hv. unfold tenTo17, tenTo14. nia.
Qed.

End nonneg.

Lemma nonneg_sign a : ordered a → 0 <= amount_val a → mIsNegative a = false.
Proof.
  intros Ho Hv. destruct (decide (mValue a = 0)) as [Hz|Hz]; [by apply ordered_zero_sign|].
  pose proof (magnitude_pos a (ordered_nonzero a Ho Hz) Hz). unfold amount_val in Hv.
  destruct (mIsNegative a); [lia|done].
Qed.

Lemma ordered_native a : ordered a → mIsNative a = amount_isSWT a.
Proof.
  intros [Hc|(_ & _ & ?)]; [|done].
  apply canonical_iff in Hc as [H1 H2|H1 H2|H1 H2]; congruence.
Qed.

Lemma quality_rate_nonneg q rate :
  is_u64 q → quality_rate q = Ok rate →
  nonneg_of noIssue rate ∧ mIsNegative rate = false ∧ mIsNative rate = false.
Proof.
  intros Hq H. assert (nonneg_of noIssue rate) as Hn.
  { unfold quality_rate, amountFromQuality in H. case_if_in H; [by apply mkZero_nonneg|].
    eapply mkAmount_nonneg; [|exact H]. change 255 with (Z.ones 8). unfold is_u64 in *.
    rewrite ldiff_field by (change (2 ^ (56 + 8)) with 18446744073709551616; lia).
    pose proof (Z.mod_pos_bound q (2 ^ 56) ltac:(done)).
    change (2 ^ 56) with 72057594037927936 in *. lia. }
  split; [done|]. destruct Hn as (Ho & Hv & Hi). split; [by apply nonneg_sign|].
  rewrite ordered_native by done. unfold amount_isSWT. by rewrite Hi.
Qed.

Section ceil.
  Context {BN : BigNum}.

(** C9: [ceil_in] and [ceil_out] scale an offer to a limit without creating money: the
    limited side is exactly the smaller of the offer and the limit, the other side never
    exceeds the offer's, is never negative and keeps its issue, and an offer within the
    limit is returned unchanged. *)
Theorem ceil_no_money_creation q amount limit :
  is_u64 q → ordered (a_in amount) → ordered (a_out amount) → ordered limit → 0 <= amount_val limit →
  (∀ r, ceil_in q amount limit = Ok r →
    amount_val (a_in r) = Z.min (amount_val (a_in amount)) (amount_val limit)
    ∧ amount_val (a_out r) <= amount_val (a_out amount)
    ∧ (amount_val (a_in amount) <= amount_val limit → r = amount)
    ∧ (0 <= amount_val (a_out amount) → 0 <= amount_val (a_out r))
    ∧ mIssue (a_out r) = mIssue (a_out amount))
  ∧ (∀ r, ceil_out q amount limit = Ok r →
    amount_val (a_out r) = Z.min (amount_val (a_out amount)) (amount_val limit)
    ∧ amount_val (a_in r) <= amount_val (a_in amount)
    ∧ (amount_val (a_out amount) <= amount_val limit → r = amount)
    ∧ (0 <= amount_val (a_in amount) → 0 <= amount_val (a_in r))
    ∧ mIssue (a_in r) = mIssue (a_in amount)).
Proof.
  intros Hq Hi Ho Hl Hlim. pose proof (nonneg_sign _ Hl Hlim) as Hls. split; intros r H.
  - apply result_bind_Ok in H as (b & Hb & H). apply op_gt_ordered in Hb as [_ ->]; [|done..].
    case_bool_decide; [|injection H as <-; split_and!; auto; lia].
    apply result_bind_Ok in H as (rate & Hr & H). apply result_bind_Ok in H as (out & Hd & H).
    apply result_bind_Ok in H as (c & Hc & [= <-]).
    destruct (quality_rate_nonneg q rate Hq Hr) as ((Hro & _ & _) & Hrs & _).
    apply divRound_nonneg in Hd as (Hoo & Hov & Hoi); [|done|done|congruence].
    apply op_gt_ordered in Hc as [_ ->]; [|done..].
    cbn [a_in a_out]. case_bool_decide; split_and!; auto; lia.
  - apply result_bind_Ok in H as (b & Hb & H). apply op_gt_ordered in Hb as [_ ->]; [|done..].
    case_bool_decide; [|injection H as <-; split_and!; auto; lia].
    apply result_bind_Ok in H as (rate & Hr & H). apply result_bind_Ok in H as (out & Hd & H).
    apply result_bind_Ok in H as (c & Hc & [= <-]).
    destruct (quality_rate_nonneg q rate Hq Hr) as ((Hro & _ & _) & Hrs & Hrn).
    apply mulRound_nonneg in Hd as (Hoo & Hov & Hoi); [|done|done|congruence|done].
    apply op_gt_ordered in Hc as [_ ->]; [|done..].
    cbn [a_in a_out]. case_bool_decide; split_and!; auto; lia.
Qed.

End ceil.

Definition ex_offer : Amounts :=
  mkAmounts (mkSTAmount (mkIssue 5 6) 3000000000000000 (-15) false false) (mkNative 7 false).

Definition ex_limit : STAmount := mkSTAmount (mkIssue 5 6) 1000000000000000 (-15) false false.

Lemma ceil_no_money_creation_witness :
  match ceil_in (quality_of ex_offer) ex_offer ex_limit with
  | Ok r => amount_val (a_out r) <= amount_val (a_out ex_offer)
  | Throw _ => False
  end.
Proof.
  destruct (ceil_no_money_creation (quality_of ex_offer) ex_offer ex_limit) as [Hin _];
    [by vm_compute|by left|by left|by left|by vm_compute|].
  destruct (ceil_in _ _ _) as [r|w] eqn:E.
  - exact (proj1 (proj2 (Hin r eq_refl))).
  - vm_compute in E. discriminate E.
Defined.
