(* ===== verification/Ter.v ===== *)
(** * Transaction results

    The codes of [src/src/protocol/TER.h] the modelled functions return, its ranges of codes, and
    the parameters of the transaction engine of [src/src/ledger/LedgerEntrySet.h].  The codes of
    each range but the last are numbered on from its first. *)

From S2P Require Import Prelude.

Definition telLOCAL_ERROR : Z := -399.
Definition telBAD_DOMAIN : Z := -398.
Definition telBAD_PATH_COUNT : Z := -397.
Definition telBAD_PUBLIC_KEY : Z := -396.
Definition telFAILED_PROCESSING : Z := -395.
Definition telINSUF_FEE_P : Z := -394.
Definition telNO_DST_PARTIAL : Z := -393.
Definition telBLKLIST : Z := -392.
Definition telINSUF_FUND : Z := -391.
Definition telBAD_NICKNAME : Z := -390.

Definition temMALFORMED : Z := -299.
Definition temBAD_AMOUNT : Z := -298.
Definition temBAD_AUTH_MASTER : Z := -297.
Definition temBAD_CURRENCY : Z := -296.
Definition temBAD_EXPIRATION : Z := -295.
Definition temBAD_FEE : Z := -294.
Definition temBAD_LIMIT : Z := -292.
Definition temBAD_SEND_SWT_LIMIT : Z := -286.
Definition temBAD_SEND_SWT_MAX : Z := -285.
Definition temBAD_SEND_SWT_NO_DIRECT : Z := -284.
Definition temBAD_SEND_SWT_PARTIAL : Z := -283.
Definition temBAD_SEND_SWT_PATHS : Z := -282.
Definition temBAD_SEQUENCE : Z := -281.
Definition temBAD_SIGNATURE : Z := -280.
Definition temBAD_SRC_ACCOUNT : Z := -279.
Definition temBAD_TRANSFER_RATE : Z := -278.
Definition temDST_IS_SRC : Z := -277.
Definition temDST_NEEDED : Z := -276.
Definition temINVALID : Z := -275.
Definition temINVALID_FLAG : Z := -274.
Definition temREDUNDANT : Z := -273.
Definition temREDUNDANTSIGN : Z := -272.
Definition temDISABLED : Z := -270.
Definition temUNKNOWN : Z := -268.

Definition tefFAILURE : Z := -199.
Definition tefALREADY : Z := -198.
Definition tefBAD_AUTH : Z := -196.
Definition tefBAD_LEDGER : Z := -195.
Definition tefEXCEPTION : Z := -193.
Definition tefINTERNAL : Z := -192.
Definition tefNO_AUTH_REQUIRED : Z := -191.
Definition tefPAST_SEQ : Z := -190.
Definition tefWRONG_PRIOR : Z := -189.
Definition tefMASTER_DISABLED : Z := -188.
Definition tefMAX_LEDGER : Z := -187.

Definition terRETRY : Z := -99.
Definition terINSUF_FEE_B : Z := -97.
Definition terNO_ACCOUNT : Z := -96.
Definition terOWNERS : Z := -93.
Definition terPRE_SEQ : Z := -92.

Definition tesSUCCESS : Z := 0.
Definition tecCLAIM : Z := 100.
Definition tecUNFUNDED_PAYMENT : Z := 104.
Definition tecFAILED_PROCESSING : Z := 105.
Definition tecDIR_FULL : Z := 121.
Definition tecINSUF_RESERVE_LINE : Z := 122.
Definition tecNO_DST : Z := 124.
Definition tecNO_DST_INSUF_SWT : Z := 125.
Definition tecNO_LINE_INSUF_RESERVE : Z := 126.
Definition tecNO_LINE_REDUNDANT : Z := 127.
Definition tecPATH_DRY : Z := 128.
Definition tecMASTER_DISABLED : Z := 130.
Definition tecNO_REGULAR_KEY : Z := 131.
Definition tecOWNERS : Z := 132.
Definition tecINSUFF_FEE : Z := 136.
Definition tecNO_TARGET : Z := 138.
Definition tecNO_PERMISSION : Z := 139.
Definition tecNO_ENTRY : Z := 140.
Definition tecINSUFFICIENT_RESERVE : Z := 141.
Definition tecNEED_MASTER_KEY : Z := 142.
Definition tecDST_TAG_NEEDED : Z := 143.

Definition isTelLocal (x : Z) : bool := (x >=? telLOCAL_ERROR) && (x <? temMALFORMED).
Definition isTemMalformed (x : Z) : bool := (x >=? temMALFORMED) && (x <? tefFAILURE).
Definition isTefFailure (x : Z) : bool := (x >=? tefFAILURE) && (x <? terRETRY).
Definition isTerRetry (x : Z) : bool := (x >=? terRETRY) && (x <? tesSUCCESS).
Definition isTesSuccess (x : Z) : bool := x =? tesSUCCESS.
Definition isTecClaim (x : Z) : bool := x >=? tecCLAIM.

Definition tapNONE : Z := 0.
Definition tapNO_CHECK_SIGN : Z := 0x01.
Definition tapOPEN_LEDGER : Z := 0x10.
Definition tapRETRY : Z := 0x20.
Definition tapADMIN : Z := 0x400.
Definition tapPRE_CHECKED : Z := 0x1000.
Definition tapMASTER_SIGN : Z := 0x2000.
