(* ===== verification/Taker.v ===== *)
(** * Taker: the active side of offer crossing

    Model of [src/src/transaction/book/Taker.h], [impl/Taker.cpp] and of [Offer.h]:
    [BasicTaker] computes the flows through one offer, or through two offers bridged by
    SWT, under the limits of both parties; [Taker] moves the funds on a ledger view.

    [BasicTaker::get_funds] is a pure virtual function: it is a parameter.  The ledger
    view ([LedgerEntrySet]) is the interface [LedgerView].  [TER] codes are integers, with
    [tesSUCCESS = 0]. *)

From S2P Require Import Prelude Bytes Serializer Issue BigNum STAmount STAmountProps STAmountArith STAmountMulDiv STAmountWire Quality Ter.

Inductive CrossType := XrpToIou | IouToXrp | IouToIou.

#[export] Instance CrossType_eq_dec : EqDecision CrossType.
Proof. solve_decision. Defined.

Definition tfPassive : Z := 0x00010000.
Definition tfSell : Z := 0x00080000.

(** [BasicTaker::Rate]: the transfer rate and its amount *)
Record Rate := mkRateOf { r_quality : Z; r_rate : STAmount }.

Definition mkRate (quality : Z) : result Rate :=
  r ← amountFromRate quality; Ok (mkRateOf quality r).

(** [BasicTaker::Flow] *)
Record Flow := mkFlow { order : Amounts; issuers : Amounts }.

(** A default-constructed [STAmount] *)
Definition amount_default : STAmount := mkNative 0 false.

Definition sanity_check (f : Flow) : bool :=
  if amount_isSWT (a_in (order f)) && amount_isSWT (a_out (order f)) then false
  else (signum (a_in (order f)) >=? 0) && (signum (a_out (order f)) >=? 0)
       && (signum (a_in (issuers f)) >=? 0) && (signum (a_out (issuers f)) >=? 0).

(** The state of a [BasicTaker]; [issue_in_] and [issue_out_] are references to the
    issues of [remaining_]. *)
Record BasicTaker := mkBasicTaker {
  account_ : Account;
  quality_ : Quality;
  threshold_ : Quality;
  sell_ : bool;
  original_ : Amounts;
  remaining_ : Amounts;
  m_rate_in : Z;
  m_rate_out : Z;
  cross_type_ : CrossType
}.

Definition issue_in (t : BasicTaker) : Issue := mIssue (a_in (remaining_ t)).
Definition issue_out (t : BasicTaker) : Issue := mIssue (a_out (remaining_ t)).

Definition set_remaining (t : BasicTaker) (r : Amounts) : BasicTaker :=
  mkBasicTaker (account_ t) (quality_ t) (threshold_ t) (sell_ t) (original_ t) r
    (m_rate_in t) (m_rate_out t) (cross_type_ t).

Definition newBasicTaker (cross_type : CrossType) (account : Account) (amount : Amounts)
    (quality : Quality) (flags rate_in rate_out : Z) : BasicTaker :=
  mkBasicTaker account quality
    (if negb (Z.land flags tfPassive =? 0) then quality_incr quality else quality)
    (negb (Z.land flags tfSell =? 0)) amount amount rate_in rate_out cross_type.

Definition reject (t : BasicTaker) (quality : Quality) : bool := quality_lt quality (threshold_ t).

Definition effective_rate (rate : Z) (issue : Issue) (from to : Account) : result Rate :=
  if negb (rate =? QUALITY_ONE)
     && (negb (from =? to) && negb (from =? account issue) && negb (to =? account issue))
  then mkRate rate
  else mkRate QUALITY_ONE.

Definition in_rate (t : BasicTaker) (from to : Account) : result Rate :=
  effective_rate (m_rate_in t) (mIssue (a_in (original_ t))) from to.
Definition out_rate (t : BasicTaker) (from to : Account) : result Rate :=
  effective_rate (m_rate_out t) (mIssue (a_out (original_ t))) from to.

(** [std::min] and [std::max] of amounts *)
Definition amount_min (a b : STAmount) : result STAmount :=
  c ← op_lt b a; Ok (if (c : bool) then b else a).
Definition amount_max (a b : STAmount) : result STAmount :=
  c ← op_lt a b; Ok (if (c : bool) then b else a).

Section taker.
  Context {BN : BigNum}.

Definition rate_divide (r : Rate) (amount : STAmount) : result STAmount :=
  if r_quality r =? QUALITY_ONE then Ok amount else divide amount (r_rate r) (mIssue amount).
Definition rate_multiply (r : Rate) (amount : STAmount) : result STAmount :=
  if r_quality r =? QUALITY_ONE then Ok amount else multiply amount (r_rate r) (mIssue amount).

Definition qual_div (amount : STAmount) (quality : Quality) (output : STAmount) : result STAmount :=
  rate ← quality_rate quality;
  result ← divide amount rate (mIssue output);
  amount_min result output.
Definition qual_mul (amount : STAmount) (quality : Quality) (output : STAmount) : result STAmount :=
  rate ← quality_rate quality;
  result ← multiply amount rate (mIssue output);
  amount_min result output.

Definition flow_xrp_to_iou (t : BasicTaker) (offer : Amounts) (quality : Quality)
    (owner_funds taker_funds : STAmount) (rate_out : Rate) : result Flow :=
  let i := a_in offer in let o := a_out offer in
  io ← rate_multiply rate_out o;
  (* Clamp on owner balance *)
  c ← op_lt owner_funds io;
  '(i, o, io) ← (if (c : bool) then
      o ← rate_divide rate_out owner_funds;
      i ← qual_mul o quality i;
      Ok (i, o, owner_funds)
    else Ok (i, o, io));
  (* Clamp if taker wants to limit the output *)
  c ← (if negb (sell_ t) then op_lt (a_out (remaining_ t)) o else Ok false);
  '(i, o, io) ← (if (c : bool) then
      i ← qual_mul (a_out (remaining_ t)) quality i;
      io ← rate_multiply rate_out (a_out (remaining_ t));
      Ok (i, a_out (remaining_ t), io)
    else Ok (i, o, io));
  (* Clamp on the taker's funds *)
  c ← op_lt taker_funds i;
  '(i, o, io) ← (if (c : bool) then
      o ← qual_div taker_funds quality o;
      io ← rate_multiply rate_out o;
      Ok (taker_funds, o, io)
    else Ok (i, o, io));
  (* Clamp on remaining offer *)
  c ← (if decide (cross_type_ t = XrpToIou) then op_lt (a_in (remaining_ t)) i else Ok false);
  '(i, o, io) ← (if (c : bool) then
      o ← qual_div (a_in (remaining_ t)) quality o;
      io ← rate_multiply rate_out o;
      Ok (a_in (remaining_ t), o, io)
    else Ok (i, o, io));
  Ok (mkFlow (mkAmounts i o) (mkAmounts amount_default io)).

Definition flow_iou_to_xrp (t : BasicTaker) (offer : Amounts) (quality : Quality)
    (owner_funds taker_funds : STAmount) (rate_in : Rate) : result Flow :=
  let i := a_in offer in let o := a_out offer in
  ii ← rate_multiply rate_in i;
  (* Clamp on owner's funds *)
  c ← op_lt owner_funds o;
  '(i, o, ii) ← (if (c : bool) then
      i ← qual_mul owner_funds quality i;
      ii ← rate_multiply rate_in i;
      Ok (i, owner_funds, ii)
    else Ok (i, o, ii));
  (* Clamp if taker wants to limit the output and we are not the first leg of an autobridge *)
  c ← (if negb (sell_ t) && bool_decide (cross_type_ t = IouToXrp)
       then op_lt (a_out (remaining_ t)) o else Ok false);
  '(i, o, ii) ← (if (c : bool) then
      i ← qual_mul (a_out (remaining_ t)) quality i;
      ii ← rate_multiply rate_in i;
      Ok (i, a_out (remaining_ t), ii)
    else Ok (i, o, ii));
  (* Clamp on the taker's input offer *)
  c ← op_lt (a_in (remaining_ t)) i;
  '(i, o, ii) ← (if (c : bool) then
      ii ← rate_multiply rate_in (a_in (remaining_ t));
      o ← qual_div (a_in (remaining_ t)) quality o;
      Ok (a_in (remaining_ t), o, ii)
    else Ok (i, o, ii));
  (* Clamp on the taker's input balance *)
  c ← op_lt taker_funds ii;
  '(i, o, ii) ← (if (c : bool) then
      i ← rate_divide rate_in taker_funds;
      o ← qual_div i quality o;
      Ok (i, o, taker_funds)
    else Ok (i, o, ii));
  Ok (mkFlow (mkAmounts i o) (mkAmounts ii amount_default)).

Definition flow_iou_to_iou (t : BasicTaker) (offer : Amounts) (quality : Quality)
    (owner_funds taker_funds : STAmount) (rate_in rate_out : Rate) : result Flow :=
  let i := a_in offer in let o := a_out offer in
  ii ← rate_multiply rate_in i;
  io ← rate_multiply rate_out o;
  (* Clamp on owner balance *)
  c ← op_lt owner_funds io;
  '(i, o, ii, io) ← (if (c : bool) then
      o ← rate_divide rate_out owner_funds;
      i ← qual_mul o quality i;
      ii ← rate_multiply rate_in i;
      Ok (i, o, ii, owner_funds)
    else Ok (i, o, ii, io));
  (* Clamp on taker's offer *)
  c ← (if negb (sell_ t) then op_lt (a_out (remaining_ t)) o else Ok false);
  '(i, o, ii, io) ← (if (c : bool) then
      i ← qual_mul (a_out (remaining_ t)) quality i;
      io ← rate_multiply rate_out (a_out (remaining_ t));
      ii ← rate_multiply rate_in i;
      Ok (i, a_out (remaining_ t), ii, io)
    else Ok (i, o, ii, io));
  (* Clamp on the taker's input offer *)
  c ← op_lt (a_in (remaining_ t)) i;
  '(i, o, ii, io) ← (if (c : bool) then
      ii ← rate_multiply rate_in (a_in (remaining_ t));
      o ← qual_div (a_in (remaining_ t)) quality o;
      io ← rate_multiply rate_out o;
      Ok (a_in (remaining_ t), o, ii, io)
    else Ok (i, o, ii, io));
  (* Clamp on the taker's input balance *)
  c ← op_lt taker_funds ii;
  '(i, o, ii, io) ← (if (c : bool) then
      i ← rate_divide rate_in taker_funds;
      o ← qual_div i quality o;
      io ← rate_multiply rate_out o;
      Ok (i, o, taker_funds, io)
    else Ok (i, o, ii, io));
  Ok (mkFlow (mkAmounts i o) (mkAmounts ii io)).

Section basic.
  Variable get_funds : Account → STAmount → result STAmount.

Definition taker_done (t : BasicTaker) : result bool :=
  if signum (a_in (remaining_ t)) <=? 0 then Ok true
  else if negb (sell_ t) && (signum (a_out (remaining_ t)) <=? 0) then Ok true
  else
    f ← get_funds (account_ t) (a_in (remaining_ t));
    Ok (signum f <=? 0).

Definition remaining_offer (t : BasicTaker) : result Amounts :=
  d ← taker_done t;
  if (d : bool) then
    i ← zeroed (a_in (remaining_ t)); o ← zeroed (a_out (remaining_ t)); Ok (mkAmounts i o)
  else if amounts_eq (original_ t) (remaining_ t) then Ok (original_ t)
  else
    rate ← quality_rate (quality_ t);
    if sell_ t then
      o ← divRound (a_in (remaining_ t)) rate (issue_out t) true;
      Ok (mkAmounts (a_in (remaining_ t)) o)
    else
      i ← mulRound (a_out (remaining_ t)) rate (issue_in t) true;
      Ok (mkAmounts i (a_out (remaining_ t))).

(** [remaining_.out -= out; remaining_.in -= in] *)
Definition consume_remaining (t : BasicTaker) (i o : STAmount) : result BasicTaker :=
  ro ← op_sub (a_out (remaining_ t)) o;
  ri ← op_sub (a_in (remaining_ t)) i;
  Ok (set_remaining t (mkAmounts ri ro)).

(** Direct crossing *)
Definition do_cross (t : BasicTaker) (offer : Amounts) (quality : Quality) (owner : Account) :
    result (Flow * BasicTaker) :=
  owner_funds ← get_funds owner (a_out offer);
  taker_funds ← get_funds (account_ t) (a_in offer);
  result ← match cross_type_ t with
    | XrpToIou =>
        ro ← out_rate t owner (account_ t);
        flow_xrp_to_iou t offer quality owner_funds taker_funds ro
    | IouToXrp =>
        ri ← in_rate t owner (account_ t);
        flow_iou_to_xrp t offer quality owner_funds taker_funds ri
    | IouToIou =>
        ri ← in_rate t owner (account_ t);
        ro ← out_rate t owner (account_ t);
        flow_iou_to_iou t offer quality owner_funds taker_funds ri ro
    end;
  if negb (sanity_check result) then Throw "Computed flow fails sanity check."
  else
    t' ← consume_remaining t (a_in (order result)) (a_out (order result));
    Ok (result, t').

(** Bridged crossing *)
Definition do_cross2 (t : BasicTaker) (offer1 : Amounts) (quality1 : Quality) (owner1 : Account)
    (offer2 : Amounts) (quality2 : Quality) (owner2 : Account) : result (Flow * Flow * BasicTaker) :=
  leg1_in_funds ← get_funds (account_ t) (a_in offer1);
  leg1_in_funds ← (if account_ t =? owner1 then amount_max leg1_in_funds (a_in offer1) else Ok leg1_in_funds);
  leg2_out_funds ← get_funds owner2 (a_out offer2);
  leg2_out_funds ← (if account_ t =? owner2 then amount_max leg2_out_funds (a_out offer2) else Ok leg2_out_funds);
  xrp_funds ← get_funds owner1 (a_out offer1);
  xrp_funds ← (if owner1 =? owner2 then amount_max (a_out offer1) (a_in offer2) else Ok xrp_funds);
  leg1_rate ← in_rate t owner1 (account_ t);
  leg2_rate ← out_rate t owner2 (account_ t);
  flow1 ← flow_iou_to_xrp t offer1 quality1 xrp_funds leg1_in_funds leg1_rate;
  if negb (sanity_check flow1) then Throw "Computed flow1 fails sanity check."
  else
    flow2 ← flow_xrp_to_iou t offer2 quality2 leg2_out_funds xrp_funds leg2_rate;
    if negb (sanity_check flow2) then Throw "Computed flow2 fails sanity check."
    else
      (* equalize the SWT that flows between the legs *)
      c ← op_lt (a_out (order flow1)) (a_in (order flow2));
      '(flow1, flow2) ← (if (c : bool) then
          o ← qual_div (a_out (order flow1)) quality2 (a_out (order flow2));
          io ← rate_multiply leg2_rate o;
          Ok (flow1, mkFlow (mkAmounts (a_out (order flow1)) o)
                       (mkAmounts (a_in (issuers flow2)) io))
        else
          c ← op_gt (a_out (order flow1)) (a_in (order flow2));
          if (c : bool) then
            i ← qual_mul (a_in (order flow2)) quality1 (a_in (order flow1));
            ii ← rate_multiply leg1_rate i;
            Ok (mkFlow (mkAmounts i (a_in (order flow2)))
                  (mkAmounts ii (a_out (issuers flow1))), flow2)
          else Ok (flow1, flow2));
      if op_ne (a_out (order flow1)) (a_in (order flow2)) then Throw "Bridged flow is out of balance."
      else
        t' ← consume_remaining t (a_in (order flow1)) (a_out (order flow2));
        Ok (flow1, flow2, t').

End basic.

End taker.

(** ** Offers *)

Record Offer := mkOffer {
  m_entry : Z;            (** the index of the ledger entry *)
  m_quality : Quality;
  m_account : Account;
  m_amounts : Amounts
}.

Definition fully_consumed (o : Offer) : bool := amounts_empty (m_amounts o).

(** ** The ledger view

    What [Taker] calls of [LedgerEntrySet]: reading the funds of an account and the
    transfer rate of an issuer, moving funds (each call returns a [TER] and the changed
    view) and writing the amounts of an offer's entry. *)
Class LedgerView := {
  view : Type;
  accountFunds : view → Account → STAmount → result STAmount;
  skywellTransferRate : view → Account → Z;
  view_transfer_xrp : view → Account → Account → STAmount → result (Z * view);
  view_redeem_iou : view → Account → STAmount → Issue → result (Z * view);
  view_issue_iou : view → Account → STAmount → Issue → result (Z * view);
  view_set_offer : view → Z → Amounts → view
}.

Section ledger.
  Context {BN : BigNum} {LV : LedgerView}.

(** [Offer::consume] *)
Definition offer_consume (v : view) (o : Offer) (consumed : Amounts) : result (view * Offer) :=
  c ← op_gt (a_in consumed) (a_in (m_amounts o));
  if (c : bool) then Throw "can't consume more than is available."
  else
    c ← op_gt (a_out consumed) (a_out (m_amounts o));
    if (c : bool) then Throw "can't produce more than is available."
    else
      i ← op_sub (a_in (m_amounts o)) (a_in consumed);
      ou ← op_sub (a_out (m_amounts o)) (a_out consumed);
      Ok (view_set_offer v (m_entry o) (mkAmounts i ou),
          mkOffer (m_entry o) (m_quality o) (m_account o) (mkAmounts i ou)).

Record Taker := mkTaker {
  basic : BasicTaker;
  m_view : view;
  xrp_flow_ : STAmount;
  direct_crossings_ : Z;
  bridge_crossings_ : Z
}.

Definition calculateRate (v : view) (issuer acct : Account) : Z :=
  if isSWT issuer || (acct =? issuer) then QUALITY_ONE else skywellTransferRate v issuer.

Definition newTaker (cross_type : CrossType) (v : view) (acct : Account) (offer : Amounts) (flags : Z) : Taker :=
  mkTaker (newBasicTaker cross_type acct offer (quality_of offer) flags
             (calculateRate v (account (mIssue (a_in offer))) acct)
             (calculateRate v (account (mIssue (a_out offer))) acct))
    v (mkNative 0 false) 0 0.

Definition consume_offer (v : view) (offer : Offer) (ord : Amounts) : result (view * Offer) :=
  if signum (a_in ord) <? 0 then Throw "flow with negative input."
  else if signum (a_out ord) <? 0 then Throw "flow with negative output."
  else offer_consume v offer ord.

Definition get_funds (v : view) (acct : Account) (funds : STAmount) : result STAmount :=
  accountFunds v acct funds.

Definition transfer_xrp (v : view) (from to : Account) (amount : STAmount) : result (Z * view) :=
  if negb (amount_isSWT amount) then Throw "Using transfer_xrp with IOU"
  else if from =? to then Ok (tesSUCCESS, v)
  else if is_zero amount then Ok (tesSUCCESS, v)
  else view_transfer_xrp v from to amount.

Definition redeem_iou (v : view) (acct : Account) (amount : STAmount) (issue : Issue) : result (Z * view) :=
  if amount_isSWT amount then Throw "Using redeem_iou with SWT"
  else if acct =? account issue then Ok (tesSUCCESS, v)
  else if is_zero amount then Ok (tesSUCCESS, v)
  else
    f ← get_funds v acct amount;
    if signum f <=? 0 then Throw "redeem_iou has no funds to redeem"
    else
      '(ret, v) ← view_redeem_iou v acct amount issue;
      f ← get_funds v acct amount;
      if signum f <? 0 then Throw "redeem_iou redeemed more funds than available"
      else Ok (ret, v).

Definition issue_iou (v : view) (acct : Account) (amount : STAmount) (issue : Issue) : result (Z * view) :=
  if amount_isSWT amount then Throw "Using issue_iou with SWT"
  else if acct =? account issue then Ok (tesSUCCESS, v)
  else if is_zero amount then Ok (tesSUCCESS, v)
  else view_issue_iou v acct amount issue.

(** [if (result == tesSUCCESS) result = f ();] *)
Definition if_success (s : Z * view) (f : view → result (Z * view)) : result (Z * view) :=
  if s.1 =? tesSUCCESS then f s.2 else Ok s.

(** Direct fill *)
Definition fill (t : Taker) (flow : Flow) (offer : Offer) : result (Z * Taker * Offer) :=
  let acct := account_ (basic t) in
  let owner := m_account offer in
  '(v, offer) ← consume_offer (m_view t) offer (order flow);
  let s := (tesSUCCESS, v) in
  s ← (if decide (cross_type_ (basic t) = XrpToIou)
       then if_success s (λ v, transfer_xrp v acct owner (a_in (order flow)))
       else
         s ← if_success s (λ v, redeem_iou v acct (a_in (issuers flow)) (mIssue (a_in (issuers flow))));
         if_success s (λ v, issue_iou v owner (a_in (order flow)) (mIssue (a_in (order flow)))));
  s ← (if decide (cross_type_ (basic t) = IouToXrp)
       then if_success s (λ v, transfer_xrp v owner acct (a_out (order flow)))
       else
         s ← if_success s (λ v, redeem_iou v owner (a_out (issuers flow)) (mIssue (a_out (issuers flow))));
         if_success s (λ v, issue_iou v acct (a_out (order flow)) (mIssue (a_out (order flow)))));
  Ok (s.1, mkTaker (basic t) s.2 (xrp_flow_ t)
             (if s.1 =? tesSUCCESS then u32 (direct_crossings_ t + 1) else direct_crossings_ t)
             (bridge_crossings_ t), offer).

(** Bridged fill *)
Definition fill2 (t : Taker) (flow1 : Flow) (leg1 : Offer) (flow2 : Flow) (leg2 : Offer) :
    result (Z * Taker * Offer * Offer) :=
  let acct := account_ (basic t) in
  let o1 := m_account leg1 in
  let o2 := m_account leg2 in
  '(v, leg1) ← consume_offer (m_view t) leg1 (order flow1);
  '(v, leg2) ← consume_offer v leg2 (order flow2);
  let s := (tesSUCCESS, v) in
  s ← (if negb (o1 =? acct) then
         s ← if_success s (λ v, redeem_iou v acct (a_in (issuers flow1)) (mIssue (a_in (issuers flow1))));
         if_success s (λ v, issue_iou v o1 (a_in (order flow1)) (mIssue (a_in (order flow1))))
       else Ok s);
  s ← if_success s (λ v, transfer_xrp v o1 o2 (a_out (order flow1)));
  s ← (if negb (o2 =? acct) then
         s ← if_success s (λ v, redeem_iou v o2 (a_out (issuers flow2)) (mIssue (a_out (issuers flow2))));
         if_success s (λ v, issue_iou v acct (a_out (order flow2)) (mIssue (a_out (order flow2))))
       else Ok s);
  if s.1 =? tesSUCCESS then
    x ← op_add (xrp_flow_ t) (a_out (order flow1));
    Ok (s.1, mkTaker (basic t) s.2 x (direct_crossings_ t) (u32 (bridge_crossings_ t + 1)), leg1, leg2)
  else Ok (s.1, mkTaker (basic t) s.2 (xrp_flow_ t) (direct_crossings_ t) (bridge_crossings_ t), leg1, leg2).

Definition with_basic (t : Taker) (b : BasicTaker) : Taker :=
  mkTaker b (m_view t) (xrp_flow_ t) (direct_crossings_ t) (bridge_crossings_ t).

Definition cross (t : Taker) (offer : Offer) : result (Z * Taker * Offer) :=
  if amount_isSWT (a_in (m_amounts offer)) && amount_isSWT (a_out (m_amounts offer))
  then Ok (tefINTERNAL, t, offer)
  else
    '(flow, b) ← do_cross (get_funds (m_view t)) (basic t) (m_amounts offer) (m_quality offer) (m_account offer);
    fill (with_basic t b) flow offer.

Definition cross2 (t : Taker) (leg1 leg2 : Offer) : result (Z * Taker * Offer * Offer) :=
  if amount_isSWT (a_in (m_amounts leg1)) || amount_isSWT (a_out (m_amounts leg2))
  then Ok (tefINTERNAL, t, leg1, leg2)
  else
    '(flow1, flow2, b) ← do_cross2 (get_funds (m_view t)) (basic t)
      (m_amounts leg1) (m_quality leg1) (m_account leg1)
      (m_amounts leg2) (m_quality leg2) (m_account leg2);
    fill2 (with_basic t b) flow1 leg1 flow2 leg2.

End ledger.
