(* ===== verification/TakerProps.v ===== *)
(** * Limits respected by offer crossing

    Every flow [BasicTaker] computes stays within the offer, the funds of both parties and
    what the taker still wants, so that the taker's remaining amounts never go negative. *)

From S2P Require Import Prelude Bytes Serializer Issue BigNum STAmount STAmountProps STAmountArith STAmountMulDiv STAmountWire Quality Taker Ter.

(** A non-negative amount on which [compare] is the order of values. *)
Definition good (a : STAmount) : Prop := ordered a ∧ 0 <= amount_val a.

Create HintDb taker.

Lemma good_ordered a : good a → ordered a.
Proof. by intros [? _]. Qed.
Lemma good_nonneg a : good a → 0 <= amount_val a.
Proof. by intros [_ ?]. Qed.
Lemma good_sign a : good a → mIsNegative a = false.
Proof. intros [? ?]. by apply nonneg_sign. Qed.
Lemma nonneg_of_good issue r : nonneg_of issue r → good r.
Proof. by intros (? & ? & _). Qed.

#[export] Hint Resolve good_ordered good_nonneg good_sign nonneg_of_good : taker.

Definition good_amounts (a : Amounts) : Prop := good (a_in a) ∧ good (a_out a).

(** A rate as [mkRate] makes it. *)
Definition good_rate (r : Rate) : Prop := good (r_rate r) ∧ mIsNative (r_rate r) = false.

Lemma mkRate_good q r : is_u64 q → mkRate q = Ok r → good_rate r ∧ r_quality r = q.
Proof.
  intros Hq H. apply result_bind_Ok in H as (a & Ha & [= <-]). simpl. split; [|done].
  apply mkAmount_nonneg in Ha as (Ho & Hv & Hi); [|done]. split; [done|].
  simpl. rewrite ordered_native by done. unfold amount_isSWT. by rewrite Hi.
Qed.

Lemma effective_rate_good rate issue from to r :
  is_u64 rate → effective_rate rate issue from to = Ok r → good_rate r.
Proof. unfold effective_rate. intros Hr H. case_if_in H; apply mkRate_good in H as [? _]; done. Qed.

Lemma amount_min_spec a b r :
  ordered a → ordered b → amount_min a b = Ok r →
  amount_val r = Z.min (amount_val a) (amount_val b) ∧ (r = a ∨ r = b).
Proof.
  intros Ha Hb H. apply result_bind_Ok in H as (c & Hc & [= <-]).
  apply op_lt_ordered in Hc as [_ ->]; [|done..]. case_bool_decide; split; auto; lia.
Qed.

Lemma amount_max_spec a b r :
  ordered a → ordered b → amount_max a b = Ok r →
  amount_val r = Z.max (amount_val a) (amount_val b) ∧ (r = a ∨ r = b).
Proof.
  intros Ha Hb H. apply result_bind_Ok in H as (c & Hc & [= <-]).
  apply op_lt_ordered in Hc as [_ ->]; [|done..]. case_bool_decide; split; auto; lia.
Qed.

Section limits.
  Context {BN : BigNum}.

Lemma qual_div_spec a q out r :
  is_u64 q → good a → good out → qual_div a q out = Ok r →
  good r ∧ amount_val r <= amount_val out.
Proof.
  intros Hq Ha Ho H. apply result_bind_Ok in H as (rate & Hr & H).
  apply result_bind_Ok in H as (x & Hx & H).
  destruct (quality_rate_nonneg q rate Hq Hr) as (_ & Hrs & _).
  apply divide_nonneg in Hx as Hn; [|rewrite Hrs; auto with taker].
  apply amount_min_spec in H as [Hv He]; [|eauto with taker..].
  destruct Hn as (Hxo & Hxv & _), Ho as [Hoo Hov].
  split; [|lia]. split; [destruct He as [-> | ->]; done|lia].
Qed.

Lemma qual_mul_spec a q out r :
  is_u64 q → good a → good out → qual_mul a q out = Ok r →
  good r ∧ amount_val r <= amount_val out.
Proof.
  intros Hq Ha Ho H. apply result_bind_Ok in H as (rate & Hr & H).
  apply result_bind_Ok in H as (x & Hx & H).
  destruct (quality_rate_nonneg q rate Hq Hr) as (_ & Hrs & Hrn).
  apply multiply_nonneg in Hx as Hn; [|rewrite Hrs; auto with taker|done].
  apply amount_min_spec in H as [Hv He]; [|eauto with taker..].
  destruct Hn as (Hxo & Hxv & _), Ho as [Hoo Hov].
  split; [|lia]. split; [destruct He as [-> | ->]; done|lia].
Qed.

Lemma rate_multiply_spec r a b :
  good_rate r → good a → rate_multiply r a = Ok b →
  good b ∧ (r_quality r = QUALITY_ONE → b = a).
Proof.
  intros [Hr Hn] Ha H. unfold rate_multiply in H. case_if_in H; zbool.
  - injection H as <-. done.
  - split; [|done]. apply nonneg_of_good with (mIssue a).
    eapply multiply_nonneg; [|exact Hn|exact H]. by rewrite !good_sign.
Qed.

Lemma rate_divide_spec r a b :
  good_rate r → good a → rate_divide r a = Ok b →
  good b ∧ (r_quality r = QUALITY_ONE → b = a).
Proof.
  intros [Hr Hn] Ha H. unfold rate_divide in H. case_if_in H; zbool.
  - injection H as <-. done.
  - split; [|done]. apply nonneg_of_good with (mIssue a).
    eapply divide_nonneg; [|exact H]. by rewrite !good_sign.
Qed.

(** One step of the symbolic execution of a flow: split a bind, decide a comparison or
    replace a computation by what its specification says of the result. *)
Ltac flow_step :=
  match goal with
  | H : (_ ≫= _) = Ok _ |- _ => apply result_bind_Ok in H as (? & ? & ?)
  | x : _ * _ |- _ => destruct x
  | H : Ok _ = Ok _ |- _ => injection H as ?; subst
  | H : op_lt _ _ = Ok _ |- _ => apply op_lt_ordered in H as [_ ->]; [|solve [auto with taker]..]
  | H : op_gt _ _ = Ok _ |- _ => apply op_gt_ordered in H as [_ ->]; [|solve [auto with taker]..]
  | H : (if bool_decide _ then _ else _) = Ok _ |- _ => case_bool_decide
  | H : qual_div _ _ _ = Ok _ |- _ => apply qual_div_spec in H as [? ?]; [|solve [auto with taker]..]
  | H : qual_mul _ _ _ = Ok _ |- _ => apply qual_mul_spec in H as [? ?]; [|solve [auto with taker]..]
  | H : rate_multiply _ _ = Ok _ |- _ => apply rate_multiply_spec in H as [? ?]; [|solve [auto with taker]..]
  | H : rate_divide _ _ = Ok _ |- _ => apply rate_divide_spec in H as [? ?]; [|solve [auto with taker]..]
  end.

#[local] Hint Extern 1 (good_rate _) => assumption : taker.
#[local] Hint Extern 1 (is_u64 _) => assumption : taker.

(** The no-fee equations give [issuers = order] on the sides that pay no transfer fee. *)
Ltac flow_done :=
  repeat match goal with
  | Hq : r_quality ?r = QUALITY_ONE, H : r_quality ?r = QUALITY_ONE → _ |- _ => specialize (H Hq); subst
  end; repeat split; auto with taker; lia.

Ltac flow_exec := repeat flow_step; cbn [order issuers a_in a_out] in *.

Lemma flow_xrp_to_iou_limits t offer q owner_funds taker_funds rate f :
  is_u64 q → good_rate rate → good_amounts offer → good_amounts (remaining_ t) →
  good owner_funds → good taker_funds →
  flow_xrp_to_iou t offer q owner_funds taker_funds rate = Ok f →
  let i := a_in (order f) in let o := a_out (order f) in
  (good i ∧ good o ∧ good (a_out (issuers f)))
  ∧ amount_val i <= amount_val (a_in offer) ∧ amount_val i <= amount_val taker_funds
  ∧ (cross_type_ t = XrpToIou → amount_val i <= amount_val (a_in (remaining_ t)))
  ∧ (sell_ t = false → amount_val o <= amount_val (a_out (remaining_ t)))
  ∧ (r_quality rate = QUALITY_ONE →
       amount_val o <= amount_val (a_out offer) ∧ amount_val o <= amount_val owner_funds
       ∧ a_out (issuers f) = o).
Proof.
  intros Hq Hr [Hi Ho] [Hri Hro] Hof Htf H. unfold flow_xrp_to_iou in H.
  destruct (decide (cross_type_ t = XrpToIou)) as [Hc|Hc];
    destruct (sell_ t) eqn:Hs; cbn [negb] in H;
    flow_exec; split_and!; try done; intros; flow_done.
Qed.

Lemma flow_iou_to_xrp_limits t offer q owner_funds taker_funds rate f :
  is_u64 q → good_rate rate → good_amounts offer → good_amounts (remaining_ t) →
  good owner_funds → good taker_funds →
  flow_iou_to_xrp t offer q owner_funds taker_funds rate = Ok f →
  let i := a_in (order f) in let o := a_out (order f) in
  (good i ∧ good o ∧ good (a_in (issuers f)))
  ∧ amount_val o <= amount_val (a_out offer) ∧ amount_val o <= amount_val owner_funds
  ∧ amount_val (a_in (issuers f)) <= amount_val taker_funds
  ∧ (sell_ t = false → cross_type_ t = IouToXrp → amount_val o <= amount_val (a_out (remaining_ t)))
  ∧ (r_quality rate = QUALITY_ONE →
       amount_val i <= amount_val (a_in offer) ∧ amount_val i <= amount_val (a_in (remaining_ t))
       ∧ a_in (issuers f) = i).
Proof.
  intros Hq Hr [Hi Ho] [Hri Hro] Hof Htf H. unfold flow_iou_to_xrp in H.
  destruct (bool_decide_reflect (cross_type_ t = IouToXrp)) as [Hc|Hc];
    destruct (sell_ t) eqn:Hs; cbn [negb andb] in H;
    flow_exec; split_and!; try done; intros; flow_done.
Qed.

Lemma flow_iou_to_iou_limits t offer q owner_funds taker_funds ri ro f :
  is_u64 q → good_rate ri → good_rate ro → good_amounts offer → good_amounts (remaining_ t) →
  good owner_funds → good taker_funds →
  flow_iou_to_iou t offer q owner_funds taker_funds ri ro = Ok f →
  let i := a_in (order f) in let o := a_out (order f) in
  (good i ∧ good o ∧ good (a_in (issuers f)) ∧ good (a_out (issuers f)))
  ∧ amount_val (a_in (issuers f)) <= amount_val taker_funds
  ∧ (sell_ t = false → amount_val o <= amount_val (a_out (remaining_ t)))
  ∧ (r_quality ri = QUALITY_ONE →
       amount_val i <= amount_val (a_in offer) ∧ amount_val i <= amount_val (a_in (remaining_ t))
       ∧ a_in (issuers f) = i)
  ∧ (r_quality ro = QUALITY_ONE →
       amount_val o <= amount_val (a_out offer) ∧ amount_val o <= amount_val owner_funds
       ∧ a_out (issuers f) = o).
Proof.
  intros Hq Hri' Hro' [Hi Ho] [Hri Hro] Hof Htf H. unfold flow_iou_to_iou in H.
  destruct (sell_ t) eqn:Hs; cbn [negb] in H;
    flow_exec; split_and!; try done; intros; flow_done.
Qed.

End limits.

(** ** Subtraction of a smaller amount *)

Lemma aligned_mono a b m :
  good a → good b → -100 <= mOffset a <= m → -100 <= mOffset b <= m → mOffset a = m ∨ mOffset b = m →
  amount_val b <= amount_val a → 0 <= aligned b m <= aligned a m.
Proof.
  intros Ha Hb Hoa Hob Hm Hle. rewrite !amount_val_signed in Hle. unfold aligned.
  pose proof (good_nonneg a Ha) as Hpa. pose proof (good_nonneg b Hb) as Hpb. rewrite !amount_val_signed in *.
  rewrite !Z.max_r by lia. unfold sval in *.
  pose proof (p10_pos (mOffset a + 100) ltac:(lia)). pose proof (p10_pos (mOffset b + 100) ltac:(lia)).
  pose proof (p10_pos (m - mOffset a) ltac:(lia)). pose proof (p10_pos (m - mOffset b) ltac:(lia)).
  assert (0 <= signed a) by nia. assert (0 <= signed b) by nia.
  rewrite !Z.quot_div_nonneg by lia. split; [apply Z.div_pos; lia|].
  destruct Hm as [Hm|Hm].
  - rewrite Hm, Z.sub_diag, Z.div_1_r. apply Z.div_le_upper_bound; [done|].
    assert (10 ^ (mOffset a + 100) = 10 ^ (m - mOffset b) * 10 ^ (mOffset b + 100)) as Hp.
    { rewrite <- p10_split by lia. f_equal. lia. }
    rewrite Hp in Hle. nia.
  - rewrite Hm, Z.sub_diag, Z.div_1_r. apply Z.div_le_lower_bound; [done|].
    assert (10 ^ (mOffset b + 100) = 10 ^ (m - mOffset a) * 10 ^ (mOffset a + 100)) as Hp.
    { rewrite <- p10_split by lia. f_equal. lia. }
    rewrite Hp in Hle. nia.
Qed.

(** [mkAmount] rounds a non-negative issued amount in range down. *)
Lemma mkAmount_le issue w m :
  isSWT (currency issue) = false → 0 <= w < 18446744073709551616 → -100 <= m →
  sval 100 w m < sval 100 (cMaxValue + 1) cMaxOffset →
  ∃ r, mkAmount issue w m false = Ok r ∧ good r ∧ amount_val r <= sval 100 w m.
Proof.
  intros Hs Hw Hm Hmax.
  assert (0 <= sval 100 w m) by (unfold sval; pose proof (p10_pos (m + 100)); nia).
  assert (∀ r, mkAmount issue w m false = Ok r → good r) as Hgood.
  { intros r H'. apply mkAmount_nonneg in H'; [by apply nonneg_of_good in H'|]. unfold is_u64. lia. }
  destruct (decide (w = 0)) as [->|Hz].
  { eexists. split; [unfold mkAmount; by rewrite canonicalize_zero|]. split.
    - apply Hgood. unfold mkAmount. by rewrite canonicalize_zero.
    - by rewrite amount_val_zero. }
  destruct (mkAmount_iou issue w m false Hs ltac:(lia)) as (c & Hc & He).
  destruct Hc as [v o Hv Ho Hval|Hlt|t Hge]; cbn [mbind result_bind] in He.
  - eexists. split; [exact He|]. split; [by apply Hgood|].
    unfold cMinOffset in Ho. specialize (Hval 100 ltac:(lia) ltac:(lia)).
    unfold amount_val, magnitude. simpl. lia.
  - eexists. split; [exact He|]. split; [by apply Hgood|]. by rewrite amount_val_zero.
  - unfold cMaxOffset in *. specialize (Hge 100 ltac:(lia) ltac:(lia)). lia.
Qed.

Lemma native_sub_good a b :
  good a → good b → canonical a = true → canonical b = true → mIsNative a = true → mIsNative b = true →
  amount_val b <= amount_val a →
  good (mkNativeS (signed a - signed b)) ∧ amount_val (mkNativeS (signed a - signed b)) <= amount_val a
  ∧ createFromInt64 (s64 (signed a - signed b)) = mkNativeS (signed a - signed b).
Proof.
  intros Ha Hb Hca Hcb Hna Hnb Hle.
  destruct (native_add a b) as (_ & _ & Hb1 & Hb2 & Ho1 & Ho2); [congruence..|].
  pose proof (good_nonneg a Ha) as Hpa. pose proof (good_nonneg b Hb) as Hpb.
  unfold cMaxNativeN in *. rewrite !amount_val_signed, ?Ho1, ?Ho2 in *. unfold sval in Hle, Hpa, Hpb.
  rewrite s64_id by mint_range.
  destruct (mkNativeS_val (signed a - signed b) ltac:(mint_range)) as [Hv ->].
  rewrite amount_val_signed in Hv. rewrite Hv. split; [|split; [unfold sval; lia|done]].
  split; [left|rewrite amount_val_signed, Hv; unfold sval; lia].
  apply canonical_iff, shape_native; try done;
    unfold mkNativeS, set_s64; rewrite (proj2 (Z.ltb_ge _ 0)) by lia; try done.
  simpl. rewrite u64_id by mint_range. unfold cMaxNativeN. lia.
Qed.

Lemma amount_val_max a :
  canonical a = true → mIsNative a = false → mValue a ≠ 0 →
  amount_val a < sval 100 (cMaxValue + 1) cMaxOffset.
Proof.
  intros Hc Hn Hz. destruct (iou_offset a Hc Hn Hz) as (Ho & Hv & _). pose proof (canonical_value a Hc).
  pose proof (magnitude_pos a Hc Hz). unfold cMinOffset, cMaxOffset in *.
  assert (magnitude a < sval 100 (cMaxValue + 1) 80).
  { unfold magnitude. apply Z.le_lt_trans with (sval 100 (mValue a) 80).
    - apply sval_exp_le; lia.
    - apply sval_lt; lia. }
  unfold amount_val. destruct (mIsNegative a); lia.
Qed.

(** Subtracting a smaller non-negative amount never throws, and gives a non-negative
    amount that is not larger than the first. *)
Lemma op_sub_total a b :
  good a → good b → isComparable a b = true → amount_val b <= amount_val a →
  ∃ r, op_sub a b = Ok r ∧ good r ∧ amount_val r <= amount_val a.
Proof.
  intros Ha Hb Hcmp Hle. destruct (decide (mValue b = 0)) as [Hzb|Hzb].
  { exists a. unfold op_sub, throwComparable. rewrite is_zero_iff, Hzb, Hcmp. done. }
  pose proof (ordered_nonzero b (good_ordered b Hb) Hzb) as Hcb.
  assert (mValue a ≠ 0) as Hza.
  { intros Hz. rewrite (amount_val_zero a Hz) in Hle. pose proof (magnitude_pos b Hcb Hzb).
    unfold amount_val in Hle. rewrite (good_sign b Hb) in Hle. lia. }
  pose proof (ordered_nonzero a (good_ordered a Ha) Hza) as Hca.
  pose proof (comparable_native a b Hcmp) as Hnn.
  destruct (mIsNative a) eqn:Hn.
  { destruct (native_add a b) as (H1 & H2 & _); [congruence..|].
    destruct (native_sub_good a b) as (Hg & Hl & He); [done..|].
    unfold op_sub, throwComparable. rewrite Hcmp, is_zero_iff, Hnn, (proj2 (Z.eqb_neq _ _) Hzb), H1, H2.
    cbn [mbind result_bind]. rewrite He. eauto. }
  rewrite op_sub_sum by done. destruct (op_neg_signed b) as (_ & Hob & _).
  pose proof (canonical_offset a Hca). pose proof (canonical_offset b Hcb).
  destruct (iou_offset a Hca Hn Hza) as (_ & Hva & Hs).
  unfold sum_of. rewrite aligned_neg, Hob. set (m := Z.max (mOffset a) (mOffset b)) in *.
  pose proof (aligned_mono a b m Ha Hb ltac:(lia) ltac:(lia) ltac:(lia) Hle) as Hmono.
  pose proof (aligned_bound a m). pose proof (canonical_value a Hca).
  pose proof (amount_val_max a Hca Hn Hza) as Hmax.
  assert (∀ x, 0 <= x <= aligned a m → sval 100 x m <= amount_val a) as Hx.
  { intros x Hx. etransitivity; [apply sval_le with (w := aligned a m); lia|].
    rewrite amount_val_signed. unfold aligned. rewrite Z.max_r by lia.
    assert (0 <= signed a) by (unfold signed; rewrite (good_sign a Ha); lia).
    rewrite Z.quot_div_nonneg by (try apply p10_pos; lia).
    replace m with (mOffset a + (m - mOffset a)) at 2 by lia. apply sval_div; lia. }
  unfold sum_amount. unfold cMaxValue in Hva. rewrite Z.geb_leb. case_if.
  { pose proof (good_nonneg a Ha). destruct (mkAmount_le (mIssue a) 0 0) as (r & Hr & Hg & Hv); [done|done|done|done|].
    exists r. split; [done|]. split; [done|]. unfold sval in Hv at 1. lia. }
  rewrite Z.geb_leb, (proj2 (Z.leb_le 0 _)) by lia.
  specialize (Hx (aligned a m + - aligned b m) ltac:(lia)).
  destruct (mkAmount_le (mIssue a) (aligned a m + - aligned b m) m) as (r & Hr & Hg & Hv); [done|lia|lia|lia|].
  exists r. split; [done|]. split; [done|lia].
Qed.

Lemma op_sub_good a b r :
  good a → good b → amount_val b <= amount_val a → op_sub a b = Ok r →
  good r ∧ amount_val r <= amount_val a.
Proof.
  intros Ha Hb Hle H. assert (isComparable a b = true) as Hcmp.
  { unfold op_sub, throwComparable in H. by destruct (isComparable a b). }
  destruct (op_sub_total a b Ha Hb Hcmp Hle) as (r' & Hr & ? & ?). rewrite Hr in H. by injection H as <-.
Qed.

(** ** Crossing *)

Section crossing.
  Context {BN : BigNum}.
  Variable funds : Account → STAmount → result STAmount.

(** What an account has of the issue of [a] is not negative.  Funds may be negative in
    general ([accountFunds] reads a trust line from the account's side), but a crossing is
    made only with accounts that have funds: [BasicTaker::done], which [do_cross] asserts
    to be false, looks at the taker's, and [OfferStream::step] drops an offer whose owner
    has none. *)
Definition solvent (acct : Account) (a : STAmount) : Prop := ∀ r, funds acct a = Ok r → good r.

(** No transfer fee is due between [from] and [to] on a side of the order. *)
Definition fee_free (rate : Z) (issue : Issue) (from to : Account) : Prop :=
  rate = QUALITY_ONE ∨ from = to ∨ from = account issue ∨ to = account issue.

Lemma effective_rate_free rate issue from to r :
  fee_free rate issue from to → effective_rate rate issue from to = Ok r → r_quality r = QUALITY_ONE.
Proof.
  intros Hf H. unfold effective_rate in H.
  assert (negb (rate =? QUALITY_ONE) && (negb (from =? to) && negb (from =? account issue)
    && negb (to =? account issue)) = false) as E.
  { destruct Hf as [-> | [-> | [-> | ->]]]; rewrite ?Z.eqb_refl, ?andb_false_r; done. }
  rewrite E in H. by apply mkRate_good in H as [_ ?].
Qed.

(** A taker between crossings: what it still wants is non-negative. *)
Definition taker_inv (t : BasicTaker) : Prop :=
  good_amounts (remaining_ t) ∧ is_u64 (m_rate_in t) ∧ is_u64 (m_rate_out t).

Lemma consume_remaining_inv t i o t' :
  taker_inv t → good i → good o → consume_remaining t i o = Ok t' →
  (amount_val i <= amount_val (a_in (remaining_ t)) →
     good (a_in (remaining_ t')) ∧ amount_val (a_in (remaining_ t')) <= amount_val (a_in (remaining_ t)))
  ∧ (amount_val o <= amount_val (a_out (remaining_ t)) →
     good (a_out (remaining_ t')) ∧ amount_val (a_out (remaining_ t')) <= amount_val (a_out (remaining_ t)))
  ∧ t' = set_remaining t (remaining_ t').
Proof.
  intros ([Hri Hro] & Hu1 & Hu2) Hi Ho H.
  apply result_bind_Ok in H as (ro & H1 & H). apply result_bind_Ok in H as (ri & H2 & [= <-]).
  split; [|split; [|done]]; intros Hle; simpl.
  - by apply (op_sub_good (a_in (remaining_ t)) i).
  - by apply (op_sub_good (a_out (remaining_ t)) o).
Qed.

Definition side_in_free (t : BasicTaker) (owner : Account) : Prop :=
  cross_type_ t = XrpToIou ∨ fee_free (m_rate_in t) (mIssue (a_in (original_ t))) owner (account_ t).
Definition side_out_free (t : BasicTaker) (owner : Account) : Prop :=
  cross_type_ t = IouToXrp ∨ fee_free (m_rate_out t) (mIssue (a_out (original_ t))) owner (account_ t).

(** The computed flow, before the taker's remaining amounts are reduced. *)
Lemma do_cross_flow t offer q owner f t' :
  is_u64 q → good_amounts offer → taker_inv t →
  solvent owner (a_out offer) → solvent (account_ t) (a_in offer) →
  do_cross funds t offer q owner = Ok (f, t') →
  ∃ owner_funds taker_funds,
    funds owner (a_out offer) = Ok owner_funds ∧ funds (account_ t) (a_in offer) = Ok taker_funds
    ∧ good (a_in (order f)) ∧ good (a_out (order f))
    ∧ consume_remaining t (a_in (order f)) (a_out (order f)) = Ok t'
    ∧ (sell_ t = false → amount_val (a_out (order f)) <= amount_val (a_out (remaining_ t)))
    ∧ (side_in_free t owner →
         amount_val (a_in (order f)) <= amount_val (a_in offer)
         ∧ amount_val (a_in (order f)) <= amount_val (a_in (remaining_ t))
         ∧ amount_val (a_in (order f)) <= amount_val taker_funds)
    ∧ (side_out_free t owner →
         amount_val (a_out (order f)) <= amount_val (a_out offer)
         ∧ amount_val (a_out (order f)) <= amount_val owner_funds).
Proof.
  intros Hq Hoff (Hrem & Hu1 & Hu2) Hsow Hstf H. unfold do_cross in H.
  apply result_bind_Ok in H as (ow & Hof & H). apply result_bind_Ok in H as (tf & Htf & H).
  apply result_bind_Ok in H as (f0 & Hf & H). case_if_in H; [done|].
  apply result_bind_Ok in H as (t0 & Ht & [= -> ->]). exists ow, tf.
  split; [done|]. split; [done|].
  unfold side_in_free, side_out_free. destruct (cross_type_ t) eqn:Hc.
  - apply result_bind_Ok in Hf as (ro & Hro & Hf).
    destruct (flow_xrp_to_iou_limits t offer q ow tf ro f) as ((? & ? & _) & H1 & H2 & H3 & H4 & H5); eauto.
    { eapply effective_rate_good; [|exact Hro]. done. }
    split_and!; auto. intros [|Hfree]; [done|].
    destruct (H5 (effective_rate_free _ _ _ _ _ Hfree Hro)) as (? & ? & _). done.
  - apply result_bind_Ok in Hf as (ri & Hri & Hf).
    destruct (flow_iou_to_xrp_limits t offer q ow tf ri f) as ((? & ? & _) & H1 & H2 & H3 & H4 & H5); eauto.
    { eapply effective_rate_good; [|exact Hri]. done. }
    split_and!; auto. intros [|Hfree]; [done|].
    destruct (H5 (effective_rate_free _ _ _ _ _ Hfree Hri)) as (? & ? & He). rewrite He in H3. done.
  - apply result_bind_Ok in Hf as (ri & Hri & Hf). apply result_bind_Ok in Hf as (ro & Hro & Hf).
    destruct (flow_iou_to_iou_limits t offer q ow tf ri ro f) as ((? & ? & _ & _) & H1 & H2 & H3 & H4); eauto.
    { eapply effective_rate_good; [|exact Hri]. done. }
    { eapply effective_rate_good; [|exact Hro]. done. }
    split_and!; auto; (intros [|Hfree]; [done|]).
    + destruct (H3 (effective_rate_free _ _ _ _ _ Hfree Hri)) as (? & ? & He). rewrite He in H1. done.
    + destruct (H4 (effective_rate_free _ _ _ _ _ Hfree Hro)) as (? & ? & _). done.
Qed.


Lemma op_ne_false_val a b : op_ne a b = false → amount_val a = amount_val b.
Proof.
  rewrite op_ne_negb. unfold op_eq. intros H. apply negb_false_iff in H.
  rewrite !andb_true_iff in H. destruct H as [[[_ Hn] Ho] Hv]. apply eqb_prop in Hn. zbool.
  unfold amount_val, magnitude. by rewrite Hn, Ho, Hv.
Qed.

Lemma amount_max_good a b r : good a → good b → amount_max a b = Ok r → good r.
Proof. intros Ha Hb H. apply amount_max_spec in H as [_ [-> | ->]]; auto with taker. Qed.

(** The equalized flows of a bridged crossing. *)
Lemma do_cross2_flows t offer1 q1 owner1 offer2 q2 owner2 f1 f2 t' :
  is_u64 q1 → is_u64 q2 → good_amounts offer1 → good_amounts offer2 → taker_inv t →
  solvent (account_ t) (a_in offer1) → solvent owner1 (a_out offer1) → solvent owner2 (a_out offer2) →
  do_cross2 funds t offer1 q1 owner1 offer2 q2 owner2 = Ok (f1, f2, t') →
  amount_val (a_out (order f1)) = amount_val (a_in (order f2))
  ∧ amount_val (a_out (order f1)) <= amount_val (a_out offer1)
  ∧ amount_val (a_in (order f2)) <= amount_val (a_in offer2)
  ∧ good (a_in (order f1)) ∧ good (a_out (order f2))
  ∧ consume_remaining t (a_in (order f1)) (a_out (order f2)) = Ok t'
  ∧ (sell_ t = false → amount_val (a_out (order f2)) <= amount_val (a_out (remaining_ t)))
  ∧ (fee_free (m_rate_in t) (mIssue (a_in (original_ t))) owner1 (account_ t) →
       amount_val (a_in (order f1)) <= amount_val (a_in offer1)
       ∧ amount_val (a_in (order f1)) <= amount_val (a_in (remaining_ t)))
  ∧ (fee_free (m_rate_out t) (mIssue (a_out (original_ t))) owner2 (account_ t) →
       amount_val (a_out (order f2)) <= amount_val (a_out offer2)).
Proof.
  intros Hq1 Hq2 Ho1 Ho2 (Hrem & Hu1 & Hu2) Hst Hs1 Hs2 H. unfold do_cross2 in H.
  apply result_bind_Ok in H as (x1 & Hx1 & H). apply result_bind_Ok in H as (l1 & Hl1 & H).
  apply result_bind_Ok in H as (x2 & Hx2 & H). apply result_bind_Ok in H as (l2 & Hl2 & H).
  apply result_bind_Ok in H as (x3 & Hx3 & H). apply result_bind_Ok in H as (xf & Hxf & H).
  apply result_bind_Ok in H as (r1 & Hr1 & H). apply result_bind_Ok in H as (r2 & Hr2 & H).
  apply result_bind_Ok in H as (g1 & Hg1 & H). case_if_in H; [done|].
  apply result_bind_Ok in H as (g2 & Hg2 & H). case_if_in H; [done|].
  assert (good l1) by (case_if_in Hl1; [eapply amount_max_good; [| |exact Hl1]|injection Hl1 as <-]; eauto; apply Ho1).
  assert (good l2) by (case_if_in Hl2; [eapply amount_max_good; [| |exact Hl2]|injection Hl2 as <-]; eauto; apply Ho2).
  assert (good xf) by (case_if_in Hxf; [eapply amount_max_good; [| |exact Hxf]|injection Hxf as <-]; eauto; [apply Ho1|apply Ho2]).
  pose proof (effective_rate_good _ _ _ _ _ Hu1 Hr1) as Hgr1. pose proof (effective_rate_good _ _ _ _ _ Hu2 Hr2) as Hgr2.
  destruct (flow_iou_to_xrp_limits t offer1 q1 xf l1 r1 g1) as ((A1 & A2 & _) & A3 & _ & _ & _ & A4); [done..|].
  destruct (flow_xrp_to_iou_limits t offer2 q2 l2 xf r2 g2) as ((B1 & B2 & _) & B3 & _ & _ & B4 & B5); [done..|].
  assert (fee_free (m_rate_in t) (mIssue (a_in (original_ t))) owner1 (account_ t) → r_quality r1 = QUALITY_ONE) as F1.
  { intros Hf. by eapply effective_rate_free. }
  assert (fee_free (m_rate_out t) (mIssue (a_out (original_ t))) owner2 (account_ t) → r_quality r2 = QUALITY_ONE) as F2.
  { intros Hf. by eapply effective_rate_free. }
  apply result_bind_Ok in H as (c & Hc & H). apply op_lt_ordered in Hc as [_ ->]; [|auto with taker..].
  apply result_bind_Ok in H as ([h1 h2] & Heq & H).
  destruct (op_ne _ _) eqn:Hne; [done|]. apply op_ne_false_val in Hne.
  apply result_bind_Ok in H as (t0 & Ht & [= -> -> ->]). split; [done|].
  destruct (bool_decide _) eqn:Ec in Heq; [apply bool_decide_eq_true in Ec|apply bool_decide_eq_false in Ec].
  - apply result_bind_Ok in Heq as (o & Hd & Heq). apply result_bind_Ok in Heq as (io & _ & [= <- <-]).
    apply qual_div_spec in Hd as [? ?]; [|done..]. cbn [order a_in a_out] in *.
    split_and!; auto; try lia; intros; try (specialize (B4 ltac:(done))); try (destruct A4 as (? & ? & _); [by auto|]);
      try (destruct B5 as (? & ? & _); [by auto|]); lia.
  - apply result_bind_Ok in Heq as (c & Hc & Heq). apply op_gt_ordered in Hc as [_ ->]; [|auto with taker..].
    case_bool_decide.
    + apply result_bind_Ok in Heq as (i & Hd & Heq). apply result_bind_Ok in Heq as (ii & _ & [= <- <-]).
      apply qual_mul_spec in Hd as [? ?]; [|done..]. cbn [order a_in a_out] in *.
      split_and!; auto; try lia; intros; try (specialize (B4 ltac:(done))); try (destruct A4 as (? & ? & _); [by auto|]);
        try (destruct B5 as (? & ? & _); [by auto|]); lia.
    + injection Heq as <- <-. cbn [order a_in a_out] in *.
      split_and!; auto; intros; try (destruct A4 as (? & ? & _); [by auto|]); try (destruct B5 as (? & ? & _); [by auto|]); lia.
Qed.


End crossing.

(** A source of funds: every account has 10 of everything. *)
Definition ex_funds (acct : Account) (a : STAmount) : result STAmount :=
  if amount_isSWT a then Ok (mkNative 10 false)
  else Ok (mkSTAmount (mIssue a) 1000000000000000 (-14) false false).

Definition ex_usd (v : Z) : STAmount := mkSTAmount (mkIssue 5 6) (v * 1000000000000000) (-15) false false.
Definition ex_eur (v : Z) : STAmount := mkSTAmount (mkIssue 8 9) (v * 1000000000000000) (-15) false false.

(** A taker of account 100 that wants 4 EUR for 5 USD. *)
Definition ex_taker : BasicTaker :=
  newBasicTaker IouToIou 100 (mkAmounts (ex_usd 5) (ex_eur 4))
    (quality_of (mkAmounts (ex_usd 5) (ex_eur 4))) 0 QUALITY_ONE QUALITY_ONE.

Definition ex_offer1 : Amounts := mkAmounts (ex_usd 3) (ex_eur 3).
Definition ex_leg1 : Amounts := mkAmounts (ex_usd 3) (mkNative 7 false).
Definition ex_leg2 : Amounts := mkAmounts (mkNative 6 false) (ex_eur 3).

Lemma ex_funds_good acct a : solvent ex_funds acct a.
Proof.
  intros r. unfold ex_funds. destruct (amount_isSWT a) eqn:E; intros [= <-]; split; try by vm_compute.
  - by left.
  - left. apply canonical_iff, shape_iou; try done; by vm_compute.
Qed.

Lemma ex_taker_inv : taker_inv ex_taker.
Proof. split; [split; split; try (by left); by vm_compute|split; by vm_compute]. Qed.


Lemma ex_legs :
  is_u64 (quality_of ex_leg1) ∧ is_u64 (quality_of ex_leg2) ∧ good_amounts ex_leg1 ∧ good_amounts ex_leg2.
Proof.
  split; [by vm_compute|]. split; [by vm_compute|].
  split; split; split; try (by left); by vm_compute.
Qed.


(** ** Consuming an offer *)

Section consume.
  Context {BN : BigNum} {LV : LedgerView}.

Lemma op_gt_good a b :
  good a → good b → isComparable a b = true →
  op_gt a b = Ok (bool_decide (amount_val b < amount_val a)).
Proof.
  intros Ha Hb Hc. unfold op_gt, throwComparable. rewrite Hc. simpl.
  rewrite compare_ordered, Z.gtb_ltb by auto with taker. f_equal.
  case_bool_decide; [apply Z.ltb_lt|apply Z.ltb_ge]; lia.
Qed.

(** Consuming an offer refuses more than it holds, and otherwise writes to the ledger
    the same reduced, non-negative amounts that the offer object keeps, leaving its
    identity, quality and owner alone. *)
Theorem offer_consume_spec v o c :
  good_amounts (m_amounts o) → good_amounts c →
  isComparable (a_in c) (a_in (m_amounts o)) = true →
  isComparable (a_out c) (a_out (m_amounts o)) = true →
  (amount_val (a_in (m_amounts o)) < amount_val (a_in c) →
     offer_consume v o c = Throw "can't consume more than is available.")
  ∧ (amount_val (a_in c) <= amount_val (a_in (m_amounts o)) →
     amount_val (a_out (m_amounts o)) < amount_val (a_out c) →
     offer_consume v o c = Throw "can't produce more than is available.")
  ∧ (∀ v' o', offer_consume v o c = Ok (v', o') →
       v' = view_set_offer v (m_entry o) (m_amounts o')
       ∧ o' = mkOffer (m_entry o) (m_quality o) (m_account o) (m_amounts o')
       ∧ good_amounts (m_amounts o')
       ∧ amount_val (a_in (m_amounts o')) <= amount_val (a_in (m_amounts o))
       ∧ amount_val (a_out (m_amounts o')) <= amount_val (a_out (m_amounts o))).
Proof.
  intros [Hi Ho] [Hci Hco] Hcmp1 Hcmp2. unfold offer_consume.
  rewrite !op_gt_good by done. simpl. split; [intros; by rewrite bool_decide_eq_true_2|]. split.
  { intros. rewrite bool_decide_eq_false_2, bool_decide_eq_true_2 by lia. done. }
  intros v' o' H. case_bool_decide; [done|]. case_bool_decide; [done|].
  apply result_bind_Ok in H as (i & Hsi & H). apply result_bind_Ok in H as (u & Hsu & [= <- <-]).
  apply op_sub_good in Hsi as [? ?]; [|done|done|lia]. apply op_sub_good in Hsu as [? ?]; [|done|done|lia].
  done.
Qed.

(** The guards of [Offer::consume] and [Taker::consume_offer] never fire in a direct
    crossing free of transfer fees: what [do_cross] computes can always be consumed. *)
Theorem cross_consumes_available t offer f b :
  solvent (get_funds (m_view t)) (m_account offer) (a_out (m_amounts offer)) →
  solvent (get_funds (m_view t)) (account_ (basic t)) (a_in (m_amounts offer)) →
  is_u64 (m_quality offer) → good_amounts (m_amounts offer) → taker_inv (basic t) →
  side_in_free (basic t) (m_account offer) → side_out_free (basic t) (m_account offer) →
  do_cross (get_funds (m_view t)) (basic t) (m_amounts offer) (m_quality offer) (m_account offer) = Ok (f, b) →
  isComparable (a_in (order f)) (a_in (m_amounts offer)) = true →
  isComparable (a_out (order f)) (a_out (m_amounts offer)) = true →
  ∃ v' o', consume_offer (m_view t) offer (order f) = Ok (v', o').
Proof.
  intros Hsow Hstf Hq Hoff Hinv Hin Hout H Hc1 Hc2.
  destruct (do_cross_flow _ _ _ _ _ _ _ Hq Hoff Hinv Hsow Hstf H) as (ow & tf & _ & _ & Hi & Ho & _ & _ & H1 & H2).
  destruct (H1 Hin) as (Hli & _ & _). destruct (H2 Hout) as (Hlo & _). destruct Hoff as [Hoi Hoo].
  unfold consume_offer. rewrite !ordered_signum by auto with taker.
  pose proof (good_nonneg _ Hi). pose proof (good_nonneg _ Ho).
  rewrite !(proj2 (Z.ltb_ge _ 0)) by lia. unfold offer_consume. rewrite !op_gt_good by done.
  rewrite !bool_decide_eq_false_2 by lia. cbn [mbind result_bind].
  rewrite isComparable_sym in Hc1, Hc2.
  destruct (op_sub_total _ _ Hoi Hi Hc1 Hli) as (r1 & -> & _).
  destruct (op_sub_total _ _ Hoo Ho Hc2 Hlo) as (r2 & -> & _). simpl. eauto.
Qed.

End consume.

(** A ledger view that records the calls made on it and grants [ex_funds]. *)
Inductive ledger_call :=
| CallTransfer (from to : Account) (a : STAmount)
| CallRedeem (acct : Account) (a : STAmount)
| CallIssue (acct : Account) (a : STAmount)
| CallOffer (entry : Z) (a : Amounts).

#[local] Instance logView : LedgerView := {|
  view := list ledger_call;
  accountFunds _ := ex_funds;
  skywellTransferRate _ _ := QUALITY_ONE;
  view_transfer_xrp v from to a := Ok (tesSUCCESS, v ++ [CallTransfer from to a]);
  view_redeem_iou v acct a _ := Ok (tesSUCCESS, v ++ [CallRedeem acct a]);
  view_issue_iou v acct a _ := Ok (tesSUCCESS, v ++ [CallIssue acct a]);
  view_set_offer v e a := v ++ [CallOffer e a]
|}.

Definition ex_book_offer : Offer := mkOffer 77 (quality_of ex_offer1) 200 ex_offer1.
Definition ex_full_taker : Taker := mkTaker ex_taker [] (mkNative 0 false) 0 0.

Lemma ex_offer1_good : good_amounts ex_offer1.
Proof. split; split; try (by left); by vm_compute. Qed.

Lemma offer_consume_spec_witness :
  offer_consume (LV := logView) [] ex_book_offer (mkAmounts (ex_usd 4) (ex_eur 3))
  = Throw "can't consume more than is available.".
Proof.
  assert (good_amounts (mkAmounts (ex_usd 4) (ex_eur 3))) as Hg.
  { split; split; try (by left); by vm_compute. }
  apply (offer_consume_spec (LV := logView) [] ex_book_offer (mkAmounts (ex_usd 4) (ex_eur 3)) ex_offer1_good Hg eq_refl eq_refl).
  by vm_compute.
Defined.

Lemma cross_consumes_available_witness :
  match do_cross (get_funds (LV := logView) []) ex_taker ex_offer1 (quality_of ex_offer1) 200 with
  | Ok (f, b) => ∃ v' o', consume_offer (LV := logView) [] ex_book_offer (order f) = Ok (v', o')
  | Throw _ => False
  end.
Proof.
  assert (is_u64 (m_quality ex_book_offer)) as Hq by (by vm_compute).
  destruct (do_cross _ _ _ _ _) as [[f b]|w] eqn:E; [|vm_compute in E; discriminate E].
  refine (cross_consumes_available (LV := logView) ex_full_taker ex_book_offer f b (ex_funds_good _ _) (ex_funds_good _ _) Hq ex_offer1_good ex_taker_inv _ _ E _ _).
  - right; left; reflexivity.
  - right; left; reflexivity.
  - vm_compute in E. injection E as <- _. reflexivity.
  - vm_compute in E. injection E as <- _. reflexivity.
Defined.
