(* ===== verification/Consensus.v ===== *)
(** * Consensus decisions

    Model of [src/src/consensus/DisputedTx.h], [DisputedTx.cpp] and of
    [src/src/ledger/LedgerTiming.h], [LedgerTiming.cpp]: the votes on a disputed
    transaction, the avalanche rule that moves our own vote, and the timing rules that
    close a ledger and declare consensus.  Peers are numbered by their [NodeID].  Counts
    and times are C++ [int]s: the sums and products in the decisions are reduced to 32 bits;
    the counters themselves, which never exceed the number of peers, are not.  Logging is
    left out, as are the parameters only it uses. *)

From S2P Require Import Prelude.

Definition LEDGER_MIN_CONSENSUS : Z := 2000.
Definition LEDGER_MIN_CLOSE : Z := 2000.
Definition LEDGER_RES_INCREASE : Z := 8.
Definition LEDGER_RES_DECREASE : Z := 1.
Definition AV_INIT_CONSENSUS_PCT : Z := 50.
Definition AV_MID_CONSENSUS_TIME : Z := 50.
Definition AV_MID_CONSENSUS_PCT : Z := 65.
Definition AV_LATE_CONSENSUS_TIME : Z := 85.
Definition AV_LATE_CONSENSUS_PCT : Z := 70.
Definition AV_STUCK_CONSENSUS_TIME : Z := 200.
Definition AV_STUCK_CONSENSUS_PCT : Z := 95.

Module DisputedTx.

Record t := mk { mYays : Z; mNays : Z; mOurVote : bool; mVotes : gmap Z bool }.

Definition new (ourVote : bool) : t := mk 0 0 ourVote ∅.

Definition setOurVote (d : t) (o : bool) : t := mk (mYays d) (mNays d) o (mVotes d).

Definition setVote (d : t) (peer : Z) (votesYes : bool) : t :=
  match mVotes d !! peer with
  | None =>
      (* new vote *)
      mk (if votesYes then mYays d + 1 else mYays d) (if votesYes then mNays d else mNays d + 1)
        (mOurVote d) (<[peer := votesYes]> (mVotes d))
  | Some old =>
      if votesYes && negb old then
        (* changes vote to yes *)
        mk (mYays d + 1) (mNays d - 1) (mOurVote d) (<[peer := true]> (mVotes d))
      else if negb votesYes && old then
        (* changes vote to no *)
        mk (mYays d - 1) (mNays d + 1) (mOurVote d) (<[peer := false]> (mVotes d))
      else d
  end.

Definition unVote (d : t) (peer : Z) : t :=
  match mVotes d !! peer with
  | None => d
  | Some v =>
      mk (if (v : bool) then mYays d - 1 else mYays d) (if (v : bool) then mNays d else mNays d - 1)
        (mOurVote d) (delete peer (mVotes d))
  end.

(** The share of yes votes, our own included, in percent *)
Definition weight (d : t) : Z :=
  Z.quot (s32 (s32 (mYays d * 100) + (if mOurVote d then 100 else 0))) (s32 (mNays d + mYays d + 1)).

Definition threshold (percentTime : Z) : Z :=
  if percentTime <? AV_MID_CONSENSUS_TIME then AV_INIT_CONSENSUS_PCT
  else if percentTime <? AV_LATE_CONSENSUS_TIME then AV_MID_CONSENSUS_PCT
  else if percentTime <? AV_STUCK_CONSENSUS_TIME then AV_LATE_CONSENSUS_PCT
  else AV_STUCK_CONSENSUS_PCT.

Definition updateVote (d : t) (percentTime : Z) (proposing : bool) : bool * t :=
  if mOurVote d && (mNays d =? 0) then (false, d)
  else if negb (mOurVote d) && (mYays d =? 0) then (false, d)
  else
    let newPosition := if proposing then weight d >? threshold percentTime else mYays d >? mNays d in
    if Bool.eqb newPosition (mOurVote d) then (false, d)
    else (true, setOurVote d newPosition).

(** ** The counters count the votes *)

Definition count (b : bool) (m : gmap Z bool) : Z :=
  Z.of_nat (size (filter (λ kv : Z * bool, kv.2 = b) m)).

Definition counted (d : t) : Prop := mYays d = count true (mVotes d) ∧ mNays d = count false (mVotes d).

Lemma count_insert_new b m peer v :
  m !! peer = None → count b (<[peer := v]> m) = count b m + (if Bool.eqb v b then 1 else 0).
Proof.
  intros Hn. unfold count. destruct (decide (v = b)) as [->|Hne].
  - rewrite map_filter_insert_True by done. rewrite eqb_reflx.
    rewrite map_size_insert_None by (apply map_lookup_filter_None_2; by left). lia.
  - rewrite map_filter_insert_False, delete_id by done.
    destruct v, b; simpl; try congruence; lia.
Qed.

Lemma count_delete b m peer v :
  m !! peer = Some v → count b (delete peer m) = count b m - (if Bool.eqb v b then 1 else 0).
Proof.
  intros Hs. rewrite <- (insert_delete_id m peer v) at 2 by done.
  rewrite count_insert_new by apply lookup_delete_eq. destruct (Bool.eqb v b); lia.
Qed.

Lemma count_replace b m peer v w :
  m !! peer = Some v →
  count b (<[peer := w]> m) = count b m - (if Bool.eqb v b then 1 else 0) + (if Bool.eqb w b then 1 else 0).
Proof.
  intros Hs. rewrite <- insert_delete_eq, count_insert_new by apply lookup_delete_eq.
  by rewrite (count_delete b m peer v).
Qed.

(** The operations a dispute goes through. *)
Inductive op := SetVote (peer : Z) (yes : bool) | UnVote (peer : Z) | UpdateVote (percentTime : Z) (proposing : bool)
              | SetOurVote (o : bool).
Definition step (d : t) (o : op) : t :=
  match o with
  | SetVote p y => setVote d p y
  | UnVote p => unVote d p
  | UpdateVote pt pr => (updateVote d pt pr).2
  | SetOurVote o => setOurVote d o
  end.

Lemma setVote_counted d peer yes : counted d → counted (setVote d peer yes).
Proof.
  unfold counted, setVote. intros [Hy Hn]. destruct (mVotes d !! peer) as [old|] eqn:E.
  - destruct yes, old; simpl; rewrite ?(count_replace _ _ _ _ _ E), ?Hy, ?Hn; simpl; lia.
  - simpl. rewrite !count_insert_new by done. destruct yes; simpl; lia.
Qed.

Lemma unVote_counted d peer : counted d → counted (unVote d peer).
Proof.
  unfold counted, unVote. intros [Hy Hn]. destruct (mVotes d !! peer) as [v|] eqn:E; [|done].
  simpl. rewrite !(count_delete _ _ _ _ E). destruct v; simpl; lia.
Qed.

Lemma updateVote_votes d pt pr :
  mYays (updateVote d pt pr).2 = mYays d ∧ mNays (updateVote d pt pr).2 = mNays d
  ∧ mVotes (updateVote d pt pr).2 = mVotes d.
Proof. unfold updateVote. by repeat case_if. Qed.

Lemma setVote_lookup d peer yes : mVotes (setVote d peer yes) = <[peer := yes]> (mVotes d).
Proof.
  unfold setVote. destruct (mVotes d !! peer) as [old|] eqn:E; [|done].
  destruct yes, old; simpl; try done; by rewrite insert_id.
Qed.

Lemma unVote_lookup d peer : mVotes (unVote d peer) = delete peer (mVotes d).
Proof.
  unfold unVote. destruct (mVotes d !! peer) as [old|] eqn:E; [done|]. by rewrite delete_id.
Qed.

(** C38: after any sequence of votes, retractions and updates the counters [mYays] and
    [mNays] are the numbers of peers whose last vote is yes and no, and a vote replaces the
    peer's earlier one. *)
Theorem dispute_counts ourVote ops :
  let d := foldl step (new ourVote) ops in
  (mYays d = count true (mVotes d) ∧ mNays d = count false (mVotes d) ∧ 0 <= mYays d ∧ 0 <= mNays d)
  ∧ (∀ peer yes, mVotes (setVote d peer yes) = <[peer := yes]> (mVotes d))
  ∧ (∀ peer, mVotes (unVote d peer) = delete peer (mVotes d)).
Proof.
  intros d. split; [|split; [intros; apply setVote_lookup|intros; apply unVote_lookup]]. assert (counted d) as [Hy Hn].
  { assert (∀ d0, counted d0 → counted (foldl step d0 ops)) as H; [|apply H; split; by vm_compute].
    induction ops as [|o ops IH]; intros d0 H0; [done|]. simpl. apply IH. destruct o; simpl.
    - by apply setVote_counted.
    - by apply unVote_counted.
    - unfold counted in *. destruct (updateVote_votes d0 percentTime proposing) as (-> & -> & ->). done.
    - exact H0. }
  rewrite Hy, Hn. unfold count. lia.
Qed.

(** ** The avalanche rule *)

Lemma threshold_mono p q : p <= q → threshold p <= threshold q.
Proof.
  unfold threshold, AV_MID_CONSENSUS_TIME, AV_INIT_CONSENSUS_PCT, AV_LATE_CONSENSUS_TIME,
    AV_MID_CONSENSUS_PCT, AV_STUCK_CONSENSUS_TIME, AV_LATE_CONSENSUS_PCT, AV_STUCK_CONSENSUS_PCT.
  intros H. repeat case_if; zbool; lia.
Qed.

Lemma threshold_range p : 50 <= threshold p <= 95.
Proof.
  unfold threshold, AV_INIT_CONSENSUS_PCT, AV_MID_CONSENSUS_PCT, AV_LATE_CONSENSUS_PCT, AV_STUCK_CONSENSUS_PCT.
  repeat case_if; lia.
Qed.

Definition small (d : t) : Prop := 0 <= mYays d < 10000000 ∧ 0 <= mNays d < 10000000.

Lemma weight_gt d T :
  small d → 0 <= T →
  weight d > T ↔ (T + 1) * (mYays d + mNays d + 1) <= 100 * (mYays d + (if mOurVote d then 1 else 0)).
Proof.
  intros [Hy Hn] HT. unfold weight. rewrite (s32_id (mYays d * 100)), (s32_id (mNays d + _ + 1)) by mint_range.
  rewrite s32_id by (destruct (mOurVote d); mint_range).
  rewrite Z.quot_div_nonneg by (destruct (mOurVote d); lia).
  set (n := mNays d + mYays d + 1). replace (mYays d + mNays d + 1) with n by lia.
  set (w := mYays d * 100 + (if mOurVote d then 100 else 0)).
  assert (100 * (mYays d + (if mOurVote d then 1 else 0)) = w) as -> by (unfold w; destruct (mOurVote d); lia).
  assert (0 < n) by lia. split; intros H'.
  - transitivity (n * (w / n)); [nia|]. by apply Z.mul_div_le.
  - apply Z.lt_gt, Z.lt_le_trans with (T + 1); [lia|]. apply Z.div_le_lower_bound; lia.
Qed.

(** As a proposer we change our vote on a disputed transaction to yes only when more
    than the threshold percentage of voters, ourselves included and voting no, is for it,
    and to no only when at most that percentage is, with us counted as yes; the threshold
    rises from 50 to 95 percent with time, so a transaction that is rejected stays
    rejected later.  A dispute without opposing votes never changes our vote. *)
Theorem avalanche d pt :
  small d →
  (∀ d', updateVote d pt true = (true, d') →
     mOurVote d' = negb (mOurVote d)
     ∧ (mOurVote d' = true → (threshold pt + 1) * (mYays d + mNays d + 1) <= 100 * mYays d)
     ∧ (mOurVote d' = false → 100 * (mYays d + 1) < (threshold pt + 1) * (mYays d + mNays d + 1)))
  ∧ (∀ pt', pt <= pt' → mOurVote d = false → (updateVote d pt true).1 = false →
       (updateVote d pt' true).1 = false)
  ∧ (mOurVote d = true → mNays d = 0 → ∀ pr, updateVote d pt pr = (false, d))
  ∧ (mOurVote d = false → mYays d = 0 → ∀ pr, updateVote d pt pr = (false, d)).
Proof.
  intros Hs. pose proof (threshold_range pt) as HT.
  pose proof (weight_gt d (threshold pt) Hs ltac:(lia)) as Hw.
  split; [|split; [|split]].
  - intros d' H. unfold updateVote in H. case_if_in H; [done|]. case_if_in H; [done|].
    destruct (weight d >? threshold pt) eqn:E, (mOurVote d) eqn:Ev; simpl in H; try done;
      injection H as <-; simpl; zbool; (split; [done|split; [intros|intros]]); try done; lia.
  - intros pt' Hle Ho H. pose proof (threshold_mono pt pt' Hle). unfold updateVote in *. rewrite Ho in *. simpl in *.
    destruct (mYays d =? 0); [done|].
    destruct (weight d >? threshold pt) eqn:E, (weight d >? threshold pt') eqn:E'; zbool; simpl in *; try done; lia.
  - intros Ho Hz pr. unfold updateVote. by rewrite Ho, Hz.
  - intros Ho Hz pr. unfold updateVote. by rewrite Ho, Hz.
Qed.

Lemma avalanche_witness :
  updateVote (mk 8 2 false ∅) 10 true = (true, mk 8 2 true ∅)
  ∧ (threshold 10 + 1) * 11 <= 800.
Proof.
  split; [reflexivity|].
  assert (small (mk 8 2 false ∅)) as Hs by (split; simpl; lia).
  destruct (avalanche (mk 8 2 false ∅) 10 Hs) as [H _].
  destruct (H (mk 8 2 true ∅) eq_refl) as (_ & H' & _). exact (H' eq_refl).
Defined.

End DisputedTx.

(** ** Ledger timing *)

Module LedgerTiming.

Definition LedgerTimeResolution : list Z := [10; 10; 20; 30; 60; 90; 120; 120].

Definition shouldClose (anyTransactions : bool) (previousProposers proposersClosed proposersValidated
    previousMSeconds currentMSeconds openMSeconds idleInterval : Z) : bool :=
  if (previousMSeconds <? -1000) || (previousMSeconds >? 600000)
     || (currentMSeconds <? -1000) || (currentMSeconds >? 600000) then true
  else if negb anyTransactions then
    if proposersClosed >? Z.quot previousProposers 4 then true
    else currentMSeconds >=? s32 (idleInterval * 1000)
  else if (openMSeconds <? LEDGER_MIN_CLOSE)
          && (s32 (proposersClosed + proposersValidated) <? Z.quot previousProposers 2) then false
  else if (currentMSeconds <? previousMSeconds)
          && (s32 (proposersClosed + proposersValidated) <? previousProposers) then false
  else true.

(** The result and the new value of [failed] *)
Definition haveConsensus (previousProposers currentProposers currentAgree currentFinished
    previousAgreeTime currentAgreeTime : Z) (failed : bool) : bool * bool :=
  if currentAgreeTime <=? LEDGER_MIN_CONSENSUS then (false, failed)
  else if (currentProposers <? Z.quot (s32 (previousProposers * 3)) 4)
          && (currentAgreeTime <? s32 (previousAgreeTime + LEDGER_MIN_CONSENSUS)) then (false, failed)
  else if Z.quot (s32 (s32 (currentAgree * 100) + 100)) (s32 (currentProposers + 1)) >? 80 then (true, false)
  else if Z.quot (s32 (currentFinished * 100)) (s32 (currentProposers + 1)) >? 80 then (true, true)
  else (false, failed).

(** [while (LedgerTimeResolution[i] != previousResolution) ++i;] — [None]: the index left
    the array *)
Fixpoint find_resolution (l : list Z) (i : nat) (previousResolution : Z) : option nat :=
  match l with
  | [] => None
  | r :: l => if negb (r =? previousResolution) then find_resolution l (S i) previousResolution else Some i
  end.

Definition getNextLedgerTimeResolution (previousResolution : Z) (previousAgree : bool) (ledgerSeq : Z) : option Z :=
  let search := find_resolution (drop 1 LedgerTimeResolution) 1 previousResolution in
  if negb previousAgree && (Z.rem ledgerSeq LEDGER_RES_DECREASE =? 0) then
    i ← search; LedgerTimeResolution !! S i
  else if previousAgree && (Z.rem ledgerSeq LEDGER_RES_INCREASE =? 0) then
    i ← search; LedgerTimeResolution !! (i - 1)%nat
  else Some previousResolution.

(** From a resolution of the table the next one is found without leaving the
    array and is again in the table; disagreement makes it coarser (up to 120 seconds)
    at every ledger, agreement finer (down to 10) at every eighth. *)
Theorem resolution_stays_in_table r agree seq :
  r ∈ LedgerTimeResolution → 0 < seq →
  ∃ r', getNextLedgerTimeResolution r agree seq = Some r' ∧ r' ∈ LedgerTimeResolution
    ∧ (agree = false → r <= r' ∧ (r < 120 → r < r'))
    ∧ (agree = true → r' <= r ∧ (seq mod 8 = 0 → 10 < r → r' < r) ∧ (seq mod 8 ≠ 0 → r' = r)).
Proof.
  intros Hr Hseq. unfold getNextLedgerTimeResolution, LEDGER_RES_DECREASE, LEDGER_RES_INCREASE.
  rewrite !Z.rem_mod_nonneg by lia. rewrite Z.mod_1_r. cbn [Z.eqb]. rewrite andb_true_r.
  unfold LedgerTimeResolution in Hr. rewrite !elem_of_cons, elem_of_nil in Hr.
  destruct agree; cbn [negb andb].
  - destruct (seq mod 8 =? 0) eqn:E; zbool.
    + destruct Hr as [->|[->|[->|[->|[->|[->|[->|[->|[]]]]]]]]]; cbn; eexists; (split; [reflexivity|]);
        (split; [unfold LedgerTimeResolution; set_solver|split; [done|intros _; repeat split; lia]]).
    + exists r. split; [done|]. split; [unfold LedgerTimeResolution; rewrite !elem_of_cons; tauto|].
      split; [done|]. intros _. repeat split; lia.
  - destruct Hr as [->|[->|[->|[->|[->|[->|[->|[->|[]]]]]]]]]; cbn; eexists; (split; [reflexivity|]);
      (split; [unfold LedgerTimeResolution; set_solver|split; [intros _; lia|done]]).
Qed.

Lemma resolution_witness : getNextLedgerTimeResolution 30 false 7 = Some 60.
Proof.
  destruct (resolution_stays_in_table 30 false 7) as (r' & H & _).
  - unfold LedgerTimeResolution. set_solver.
  - lia.
  - rewrite H. rewrite <- H. reflexivity.
Defined.

(** The truncated percentage of [x] hundredths in [n + 1] is above 80. *)
Lemma percent_81 n x :
  0 <= n < 10000000 → 0 <= x <= 1000000000 → Z.quot (s32 x) (s32 (n + 1)) >? 80 = true ↔ 81 * (n + 1) <= x.
Proof.
  intros Hn Hx. rewrite !s32_id by mint_range. rewrite Z.quot_div_nonneg, Z.gtb_lt by lia. split; intros H.
  - transitivity ((n + 1) * (x / (n + 1))); [nia|]. by apply Z.mul_div_le; lia.
  - apply Z.lt_le_trans with 81; [lia|]. apply Z.div_le_lower_bound; lia.
Qed.



(** An open ledger with transactions closes at the latest when it has been open for
    the minimum time and for as long as the previous round took, without waiting for
    anybody; before the minimum time it closes only when half of the previous proposers
    have closed or validated, or when a clock is out of range; and an idle one closes at
    the latest after the idle interval. *)
Theorem shouldClose_progress anyTx prev closed validated prevMS curMS openMS idle :
  0 <= idle <= 600 → -2147483648 <= closed + validated < 2147483648 → 0 <= prev →
  (anyTx = true → 2000 <= openMS → prevMS <= curMS →
     shouldClose anyTx prev closed validated prevMS curMS openMS idle = true)
  ∧ (anyTx = false → idle * 1000 <= curMS →
     shouldClose anyTx prev closed validated prevMS curMS openMS idle = true)
  ∧ (anyTx = true → openMS < 2000 → -1000 <= prevMS <= 600000 → -1000 <= curMS <= 600000 →
     closed + validated < prev / 2 →
     shouldClose anyTx prev closed validated prevMS curMS openMS idle = false).
Proof.
  intros Hi Hs Hp. unfold shouldClose, LEDGER_MIN_CLOSE. rewrite !s32_id by mint_range.
  rewrite !Z.quot_div_nonneg by lia.
  destruct ((prevMS <? -1000) || (prevMS >? 600000) || (curMS <? -1000) || (curMS >? 600000)) eqn:E.
  { split; [done|]. split; [done|]. intros -> Ho Hp1 Hc. exfalso.
    rewrite !orb_true_iff in E. destruct E as [[[E|E]|E]|E]; zbool; lia. }
  split; [|split].
  - intros -> Ho Hc. simpl. rewrite (proj2 (Z.ltb_ge openMS 2000)), (proj2 (Z.ltb_ge curMS prevMS)) by lia. done.
  - intros -> Hc. simpl. case_if; [done|]. rewrite Z.geb_leb. by apply Z.leb_le.
  - intros -> Ho Hp1 Hc Hlt. simpl. rewrite (proj2 (Z.ltb_lt openMS 2000)), (proj2 (Z.ltb_lt (closed + validated) _)) by lia.
    done.
Qed.

Lemma shouldClose_progress_witness :
  shouldClose true 10 0 0 3000 3000 2000 15 = true ∧ shouldClose true 10 1 1 3000 3000 1999 15 = false.
Proof.
  destruct (shouldClose_progress true 10 0 0 3000 3000 2000 15) as (H1 & _ & _); [lia..|].
  destruct (shouldClose_progress true 10 1 1 3000 3000 1999 15) as (_ & _ & H2); [lia..|].
  split; [apply H1|apply H2]; done || lia.
Defined.

End LedgerTiming.
