(* ===== verification/Fees.v ===== *)
(** * Transaction fees: load scaling and voting

    Model of [src/src/common/core/impl/LoadFeeTrackImp.h] (the fee multiplier under load)
    and of [src/src/common/misc/FeeVoteImpl.cpp] (how validators vote for the network's fee
    settings).  Locks, logging and JSON reports are left out; a ledger is represented by its
    three fee settings and a validation by the fee fields it may carry. *)

From S2P Require Import Prelude OrdMap.

Module LoadFeeTrack.

Definition lftNormalFee : Z := 256.
Definition lftFeeIncFraction : Z := 4.
Definition lftFeeDecFraction : Z := 4.
Definition lftFeeMax : Z := lftNormalFee * 1000000.

Record t := mk { mLocalTxnLoadFee : Z; mRemoteTxnLoadFee : Z; mClusterTxnLoadFee : Z; raiseCount : Z }.

Definition new : t := mk lftNormalFee lftNormalFee lftNormalFee 0.

(** [mul] is a 32-bit parameter. *)
Definition mulDiv (value mul div : Z) : Z :=
  if value >? 0xFFFFFFFF then u64 (value / div * mul) else u64 (value * mul) / div.

Definition scaleFeeLoad (s : t) (fee baseFee referenceFeeUnits : Z) (bAdmin : bool) : Z :=
  let big := fee >? 0xFFFFFFFF in
  let fee := if big then fee / referenceFeeUnits else u64 (fee * baseFee) in
  let feeFactor := Z.max (mLocalTxnLoadFee s) (mRemoteTxnLoadFee s) in
  let uRemFee := Z.max (mRemoteTxnLoadFee s) (mClusterTxnLoadFee s) in
  let feeFactor := if bAdmin && (feeFactor >? uRemFee) && (feeFactor <? u32 (4 * uRemFee))
                   then uRemFee else feeFactor in
  let fee := mulDiv fee feeFactor lftNormalFee in
  if big then u64 (fee * baseFee) else fee / referenceFeeUnits.

Definition scaleFeeBase (fee baseFee referenceFeeUnits : Z) : Z :=
  mulDiv fee (u32 baseFee) referenceFeeUnits.

Definition getLoadFactor (s : t) : Z :=
  Z.max (mClusterTxnLoadFee s) (Z.max (mLocalTxnLoadFee s) (mRemoteTxnLoadFee s)).

Definition setClusterFee (s : t) (fee : Z) : t := mk (mLocalTxnLoadFee s) (mRemoteTxnLoadFee s) fee (raiseCount s).
Definition setRemoteFee (s : t) (f : Z) : t := mk (mLocalTxnLoadFee s) f (mClusterTxnLoadFee s) (raiseCount s).

Definition isLoadedLocal (s : t) : bool := negb (raiseCount s =? 0) || negb (mLocalTxnLoadFee s =? lftNormalFee).
Definition isLoadedCluster (s : t) : bool :=
  negb (raiseCount s =? 0) || negb (mLocalTxnLoadFee s =? lftNormalFee)
  || negb (mClusterTxnLoadFee s =? lftNormalFee).

Definition raiseLocalFee (s : t) : bool * t :=
  let rc := s32 (raiseCount s + 1) in
  if rc <? 2 then (false, mk (mLocalTxnLoadFee s) (mRemoteTxnLoadFee s) (mClusterTxnLoadFee s) rc)
  else
    let l := if mLocalTxnLoadFee s <? mRemoteTxnLoadFee s then mRemoteTxnLoadFee s else mLocalTxnLoadFee s in
    let l := u32 (l + l / lftFeeIncFraction) in
    let l := if l >? lftFeeMax then lftFeeMax else l in
    (negb (mLocalTxnLoadFee s =? l), mk l (mRemoteTxnLoadFee s) (mClusterTxnLoadFee s) rc).

Definition lowerLocalFee (s : t) : bool * t :=
  let l := mLocalTxnLoadFee s - mLocalTxnLoadFee s / lftFeeDecFraction in
  let l := if l <? lftNormalFee then lftNormalFee else l in
  (negb (mLocalTxnLoadFee s =? l), mk l (mRemoteTxnLoadFee s) (mClusterTxnLoadFee s) 0).

(** ** Invariant and progress *)

(** The local multiplier between the normal fee and the maximum, with a remote one that is
    not above the maximum. *)
Definition ok (s : t) : Prop :=
  lftNormalFee <= mLocalTxnLoadFee s <= lftFeeMax ∧ 0 <= mRemoteTxnLoadFee s <= lftFeeMax.

(** While the remote fee stays below the maximum, the local multiplier stays between
    the normal fee and the maximum; raising (from the second request on) strictly
    increases it below the maximum and reports exactly the changes, lowering strictly
    decreases it above the normal fee, and repeated lowering always gets back to it. *)
Theorem local_fee_bounded s :
  ok s →
  (ok (raiseLocalFee s).2 ∧ ok (lowerLocalFee s).2)
  ∧ (1 <= raiseCount s < 2147483647 → mLocalTxnLoadFee s < lftFeeMax →
       (raiseLocalFee s).1 = true ∧ mLocalTxnLoadFee s < mLocalTxnLoadFee (raiseLocalFee s).2
       ∧ mRemoteTxnLoadFee s <= mLocalTxnLoadFee (raiseLocalFee s).2)
  ∧ (lftNormalFee < mLocalTxnLoadFee s →
       (lowerLocalFee s).1 = true ∧ mLocalTxnLoadFee (lowerLocalFee s).2 < mLocalTxnLoadFee s)
  ∧ mLocalTxnLoadFee
      (Nat.iter (Z.to_nat (mLocalTxnLoadFee s - lftNormalFee)) (λ s, (lowerLocalFee s).2) s) = lftNormalFee.
Proof.
  intros Hok. assert (lftFeeMax = 256000000) as Hmax by done.
  assert (∀ s, ok s → ok (lowerLocalFee s).2 ∧ (lftNormalFee < mLocalTxnLoadFee s →
    (lowerLocalFee s).1 = true ∧ mLocalTxnLoadFee (lowerLocalFee s).2 < mLocalTxnLoadFee s)) as Hlow.
  { clear s Hok. intros s [Hl Hr]. unfold ok, lowerLocalFee, lftFeeDecFraction, lftNormalFee in *. rewrite Hmax in *.
    cbn [fst snd mLocalTxnLoadFee mRemoteTxnLoadFee].
    set (l := mLocalTxnLoadFee s) in *. destruct (l - l / 4 <? 256) eqn:E; zbool.
    - split; [lia|]. intros. rewrite (proj2 (Z.eqb_neq l 256)) by lia. done.
    - split; [zlia|]. intros. rewrite (proj2 (Z.eqb_neq l _)) by zlia. split; [done|zlia]. }
  assert (∀ n s, ok s → mLocalTxnLoadFee s - lftNormalFee <= Z.of_nat n →
    mLocalTxnLoadFee (Nat.iter n (λ s, (lowerLocalFee s).2) s) = lftNormalFee) as Hiter.
  { clear s Hok. induction n as [|n IH]; intros s Hs Hn; [destruct Hs as [? _]; simpl; lia|].
    rewrite Nat.iter_succ_r. destruct (Hlow s Hs) as [Hok' Hdec]. apply IH; [done|].
    destruct Hok' as [? _]. destruct (decide (mLocalTxnLoadFee s = lftNormalFee)) as [He|He].
    - unfold lowerLocalFee. cbn [snd mLocalTxnLoadFee]. rewrite He. change (0 <= Z.of_nat n). lia.
    - destruct Hs as [? _]. specialize (Hdec ltac:(lia)). lia. }
  split; [split; [|by apply Hlow]|split; [|split; [by apply Hlow|]]].
  - destruct Hok as [Hl Hr]. unfold ok, raiseLocalFee, lftFeeIncFraction, lftNormalFee in *. rewrite Hmax in *.
    destruct (_ <? 2); [done|]. cbn [snd mLocalTxnLoadFee mRemoteTxnLoadFee].
    set (m := if mLocalTxnLoadFee s <? mRemoteTxnLoadFee s then _ else _).
    assert (256 <= m <= 256000000) by (unfold m; case_if; zbool; lia).
    rewrite u32_id by (unfold is_u32; zlia). case_if; zbool; zlia.
  - intros Hrc Hlt. destruct Hok as [Hl Hr]. unfold raiseLocalFee, lftFeeIncFraction, lftNormalFee in *. rewrite Hmax in *.
    rewrite s32_id by mint_range. rewrite (proj2 (Z.ltb_ge (raiseCount s + 1) 2)) by lia.
    cbn [fst snd mLocalTxnLoadFee mRemoteTxnLoadFee].
    set (m := if mLocalTxnLoadFee s <? mRemoteTxnLoadFee s then _ else _).
    assert (256 <= m <= 256000000 ∧ mLocalTxnLoadFee s <= m ∧ mRemoteTxnLoadFee s <= m)
      by (unfold m; case_if; zbool; lia).
    rewrite u32_id by (unfold is_u32; zlia).
    destruct (m + m / 4 >? 256000000) eqn:E; zbool.
    + rewrite (proj2 (Z.eqb_neq (mLocalTxnLoadFee s) _)) by lia. split; [done|lia].
    + rewrite (proj2 (Z.eqb_neq (mLocalTxnLoadFee s) _)) by zlia. split; [done|zlia].
  - apply Hiter; [done|]. destruct Hok as [? _]. lia.
Qed.

Lemma local_fee_bounded_witness :
  mLocalTxnLoadFee (Nat.iter 744 (λ s, (lowerLocalFee s).2) (mk 1000 256 256 0)) = 256.
Proof.
  assert (ok (mk 1000 256 256 0)) as Hok by (unfold ok, lftFeeMax, lftNormalFee; simpl; lia).
  destruct (local_fee_bounded (mk 1000 256 256 0) Hok) as (_ & _ & _ & H). exact H.
Defined.

(** ** Scaling *)

(** The multiplier that applies to a transaction. *)
Definition factor (s : t) (bAdmin : bool) : Z :=
  let f := Z.max (mLocalTxnLoadFee s) (mRemoteTxnLoadFee s) in
  let r := Z.max (mRemoteTxnLoadFee s) (mClusterTxnLoadFee s) in
  if bAdmin && (f >? r) && (f <? 4 * r) then r else f.

(** For fees whose product with the base fee fits 32 bits, [scaleFeeLoad] is
    exactly [fee * baseFee * factor / 256 / units]: an administrator pays the remote or
    cluster multiplier until the local one is four times as high.  When all multipliers are
    at least normal, load never makes a transaction cheaper than [scaleFeeBase] says. *)
Theorem scaleFeeLoad_exact s fee baseFee units bAdmin :
  0 <= fee → 0 <= baseFee → fee * baseFee <= 0xFFFFFFFF → fee <= 0xFFFFFFFF → baseFee <= 0xFFFFFFFF →
  0 < units →
  0 <= mLocalTxnLoadFee s < 1073741824 → 0 <= mRemoteTxnLoadFee s < 1073741824 →
  0 <= mClusterTxnLoadFee s < 1073741824 →
  scaleFeeLoad s fee baseFee units bAdmin = fee * baseFee * factor s bAdmin / 256 / units
  ∧ (256 <= mLocalTxnLoadFee s → 256 <= mRemoteTxnLoadFee s → 256 <= mClusterTxnLoadFee s →
     scaleFeeBase fee baseFee units <= scaleFeeLoad s fee baseFee units bAdmin).
Proof.
  intros Hf Hb Hfb Hf2 Hb2 Hu Hl Hr Hc. set (F := factor s bAdmin).
  assert (0 <= F < 1073741824) as HF by (unfold F, factor; case_if; lia).
  assert (scaleFeeLoad s fee baseFee units bAdmin = fee * baseFee * F / 256 / units) as He.
  { unfold scaleFeeLoad, mulDiv. rewrite (Z.gtb_ltb fee), (proj2 (Z.ltb_ge _ fee)) by lia.
    rewrite (u64_id (fee * baseFee)) by mint_range. rewrite u32_id by mint_range.
    fold (factor s bAdmin). fold F. rewrite Z.gtb_ltb, (proj2 (Z.ltb_ge _ (fee * baseFee))) by lia.
    rewrite u64_id by (unfold is_u64; nia). done. }
  split; [exact He|]. intros Hl2 Hr2 Hc2. rewrite He. unfold scaleFeeBase, mulDiv.
  rewrite (u32_id baseFee), Z.gtb_ltb, (proj2 (Z.ltb_ge _ fee)), u64_id by mint_range.
  assert (256 <= F) by (unfold F, factor; case_if; lia).
  apply Z.div_le_mono; [lia|]. apply Z.div_le_lower_bound; [lia|]. nia.
Qed.

Lemma scaleFeeLoad_exact_witness :
  scaleFeeLoad (mk 512 256 256 0) 10 10 10 false = 20 ∧ scaleFeeLoad (mk 512 256 256 0) 10 10 10 true = 10.
Proof.
  destruct (scaleFeeLoad_exact (mk 512 256 256 0) 10 10 10 false) as [H1 _]; [simpl; lia..|].
  destruct (scaleFeeLoad_exact (mk 512 256 256 0) 10 10 10 true) as [H2 _]; [simpl; lia..|].
  rewrite H1, H2. split; reflexivity.
Defined.

(** Two flaws of the arithmetic.  A remote fee above four fifths of [2^32], which
    [setRemoteFee] accepts, makes [raiseLocalFee] wrap around and can set the local
    multiplier to 0, below the minimum; and [scaleFeeBase] drops the high half of a 64-bit
    base fee, because [mulDiv] takes it as a 32-bit multiplier. *)
Theorem fee_arithmetic_wraps :
  mLocalTxnLoadFee (raiseLocalFee (raiseLocalFee (setRemoteFee new 3435973837)).2).2 = 0
  ∧ (∀ fee units, 0 < units → scaleFeeBase fee 4294967296 units = 0).
Proof.
  split; [reflexivity|]. intros fee units Hu. unfold scaleFeeBase, mulDiv.
  change (u32 4294967296) with 0. rewrite !Z.mul_0_r. case_if; [done|]. apply Z.div_0_l. lia.
Qed.

End LoadFeeTrack.

(** ** Voting on fees *)

Module FeeVote.

(** [VotableInteger]: the votes are a [std::map] from value to count. *)
Record VotableInteger := mkVotable { mCurrent : Z; mTarget : Z; mVoteMap : list (Z * Z) }.

(** [++mVoteMap[vote]] *)
Definition bump (m : list (Z * Z)) (vote : Z) : list (Z * Z) :=
  om_set vote (default 0 (om_find vote m) + 1) m.

Definition newVotable (current target : Z) : VotableInteger := mkVotable current target (bump [] target).
Definition addVote (v : VotableInteger) (vote : Z) : VotableInteger :=
  mkVotable (mCurrent v) (mTarget v) (bump (mVoteMap v) vote).
Definition noVote (v : VotableInteger) : VotableInteger := addVote v (mCurrent v).

Definition getVotes (v : VotableInteger) : Z :=
  (foldl (λ '(ourVote, weight) e,
     if (e.1 <=? Z.max (mTarget v) (mCurrent v)) && (e.1 >=? Z.min (mTarget v) (mCurrent v)) && (e.2 >? weight)
     then e else (ourVote, weight)) (mCurrent v, 0) (mVoteMap v)).1.

(** [FeeVote::Setup], and the fee settings of a ledger *)
Record Setup := mkSetup { reference_fee : Z; account_reserve : Z; owner_reserve : Z }.

#[export] Instance Setup_eq_dec : EqDecision Setup.
Proof. solve_decision. Defined.

(** The fee fields of a validation *)
Record Validation := mkValidation {
  isTrusted : bool;
  sfBaseFee : option Z;
  sfReserveBase : option Z;
  sfReserveIncrement : option Z
}.

(** [doValidation] sets our preferences in [baseValidation]; the reserves are 64-bit
    settings and 32-bit fields. *)
Definition doValidation (target lastClosed : Setup) (baseValidation : Validation) : Validation :=
  mkValidation (isTrusted baseValidation)
    (if negb (reference_fee lastClosed =? reference_fee target)
     then Some (reference_fee target) else sfBaseFee baseValidation)
    (if negb (account_reserve lastClosed =? account_reserve target)
     then Some (u32 (account_reserve target)) else sfReserveBase baseValidation)
    (if negb (owner_reserve lastClosed =? owner_reserve target)
     then Some (u32 (owner_reserve target)) else sfReserveIncrement baseValidation).

Definition castVote (v : VotableInteger) (field : option Z) : VotableInteger :=
  match field with Some x => addVote v x | None => noVote v end.

Definition countVote (vs : VotableInteger * VotableInteger * VotableInteger) (val : Validation) :=
  let '(baseFeeVote, baseReserveVote, incReserveVote) := vs in
  if isTrusted val then
    (castVote baseFeeVote (sfBaseFee val), castVote baseReserveVote (sfReserveBase val),
     castVote incReserveVote (sfReserveIncrement val))
  else vs.

(** [doVoting]: the settings of the fee transaction that is proposed, if any.  The votes on
    the reserves are [VotableInteger<std::uint32_t>], built from 64-bit settings. *)
Definition doVoting (target lastClosed : Setup) (set : list Validation) : option Setup :=
  let '(baseFeeVote, baseReserveVote, incReserveVote) :=
    foldl countVote
      (newVotable (reference_fee lastClosed) (reference_fee target),
       newVotable (u32 (account_reserve lastClosed)) (u32 (account_reserve target)),
       newVotable (u32 (owner_reserve lastClosed)) (u32 (owner_reserve target))) set in
  let baseFee := getVotes baseFeeVote in
  let baseReserve := getVotes baseReserveVote in
  let incReserve := getVotes incReserveVote in
  if negb (baseFee =? reference_fee lastClosed) || negb (baseReserve =? account_reserve lastClosed)
     || negb (incReserve =? owner_reserve lastClosed)
  then Some (mkSetup baseFee baseReserve incReserve) else None.

(** ** The outcome of a vote *)

Definition votes_for (x : Z) (l : list Z) : Z := Z.of_nat (length (filter (λ y, y = x) l)).

Lemma votes_for_snoc x l y : votes_for x (l ++ [y]) = votes_for x l + (if x =? y then 1 else 0).
Proof.
  unfold votes_for. rewrite filter_app, length_app, filter_cons, filter_nil.
  destruct (decide (y = x)) as [->|Hne]; simpl; [rewrite Z.eqb_refl; lia|].
  rewrite (proj2 (Z.eqb_neq x y)) by done. lia.
Qed.

(** The map after the votes [l]. *)
Lemma votes_map l :
  om_sorted (foldl bump [] l)
  ∧ ∀ x, om_find x (foldl bump [] l) = if votes_for x l =? 0 then None else Some (votes_for x l).
Proof.
  induction l as [|y l [IHs IHf]] using rev_ind; [split; [constructor|done]|].
  rewrite foldl_app. simpl. unfold bump at 1 3. split; [by apply om_set_sorted|]. intros x.
  rewrite om_find_set, votes_for_snoc, !IHf by done.
  assert (∀ x, 0 <= votes_for x l) as Hpos by (intros; unfold votes_for; lia).
  pose proof (Hpos x). pose proof (Hpos y).
  destruct (x =? y) eqn:E; zbool.
  - subst. rewrite (proj2 (Z.eqb_neq (votes_for y l + 1) 0)) by lia.
    destruct (votes_for y l =? 0) eqn:E2; zbool; simpl; [by rewrite E2|done].
  - by rewrite Z.add_0_r.
Qed.

(** One pass over the sorted map finds the smallest value in the interval with the most
    votes. *)
Lemma getVotes_fold lo hi m v0 w0 :
  om_sorted m →
  let '(v, w) := foldl (λ '(ourVote, weight) (e : Z * Z),
     if (e.1 <=? hi) && (e.1 >=? lo) && (e.2 >? weight) then e else (ourVote, weight)) (v0, w0) m in
  w0 <= w
  ∧ (∀ k c, (k, c) ∈ m → lo <= k <= hi → c <= w)
  ∧ ((v, w) = (v0, w0)
     ∨ (v, w) ∈ m ∧ lo <= v <= hi ∧ w0 < w ∧ ∀ k c, (k, c) ∈ m → lo <= k <= hi → k < v → c < w).
Proof.
  revert v0 w0. induction m as [|[k0 c0] m IH]; intros v0 w0 Hs; simpl.
  { split; [lia|]. split; [by intros k c ?%not_elem_of_nil|]. by left. }
  apply om_sorted_cons in Hs as [Hs Hall]. rewrite Forall_forall in Hall.
  destruct ((k0 <=? hi) && (k0 >=? lo) && (c0 >? w0)) eqn:E.
  - zbool. specialize (IH k0 c0 Hs). destruct (foldl _ _ m) as [v w]. destruct IH as (G1 & G2 & G3).
    split; [lia|]. split.
    { intros k c Hin Hk. apply elem_of_cons in Hin as [[= -> ->]|Hin]; [done|by apply (G2 k)]. }
    right. destruct G3 as [[= -> ->]|(Hin & Hv & Hw & Hmin)].
    + split; [by left|]. split; [lia|]. split; [lia|]. intros k c Hin Hk Hlt.
      apply elem_of_cons in Hin as [[= -> ->]|Hin]; [lia|]. specialize (Hall _ Hin). simpl in Hall. lia.
    + split; [by right|]. split; [done|]. split; [lia|]. intros k c Hin2 Hk Hlt.
      apply elem_of_cons in Hin2 as [[= -> ->]|Hin2]; [lia|by apply (Hmin k)].
  - specialize (IH v0 w0 Hs). destruct (foldl _ _ m) as [v w]. destruct IH as (G1 & G2 & G3).
    assert (lo <= k0 <= hi → c0 <= w0) as Hskip.
    { intros Hk. rewrite !andb_false_iff in E. destruct E as [[E|E]|E]; zbool; lia. }
    split; [done|]. split.
    { intros k c Hin Hk. apply elem_of_cons in Hin as [[= -> ->]|Hin]; [specialize (Hskip Hk); lia|by apply (G2 k)]. }
    destruct G3 as [G3|(Hin & Hv & Hw & Hmin)]; [by left|right].
    split; [by right|]. split; [done|]. split; [done|]. intros k c Hin2 Hk Hlt.
    apply elem_of_cons in Hin2 as [[= -> ->]|Hin2]; [specialize (Hskip Hk); lia|by apply (Hmin k)].
Qed.

Lemma getVotes_outcome current target votes :
  let all := target :: votes in
  let v := getVotes (foldl addVote (newVotable current target) votes) in
  Z.min current target <= v <= Z.max current target
  ∧ (∀ x, Z.min current target <= x <= Z.max current target → votes_for x all <= votes_for v all)
  ∧ (∀ x, Z.min current target <= x < v → votes_for x all < votes_for v all)
  ∧ 0 < votes_for v all.
Proof.
  intros all v. assert (foldl addVote (newVotable current target) votes
    = mkVotable current target (foldl bump [] all)) as Hfold.
  { unfold all. simpl foldl at 2. unfold newVotable. generalize (bump [] target) as m0.
    induction votes as [|y votes IH]; intros m0; [done|]. simpl. unfold addVote at 2. simpl. apply IH. }
  destruct (votes_map all) as [Hs Hf].
  pose proof (getVotes_fold (Z.min target current) (Z.max target current) (foldl bump [] all) current 0 Hs) as H.
  unfold v, getVotes. rewrite Hfold. cbn [mCurrent mTarget mVoteMap].
  destruct (foldl _ _ (foldl bump [] all)) as [r w]. destruct H as (Hw & Hmax & Hres). cbn [fst].
  assert (∀ x, 0 < votes_for x all → (x, votes_for x all) ∈ foldl bump [] all) as Hin.
  { intros x Hx. apply om_find_In; [done|]. rewrite Hf. by rewrite (proj2 (Z.eqb_neq _ 0)) by lia. }
  assert (0 < votes_for target all) as Htgt.
  { unfold votes_for, all. rewrite filter_cons_True by done. simpl. lia. }
  assert (∀ k c, (k, c) ∈ foldl bump [] all → c = votes_for k all) as Hcount.
  { intros k c Hkc. apply om_find_In in Hkc; [|done]. rewrite Hf in Hkc. by case_if_in Hkc; [|injection Hkc]. }
  destruct Hres as [[= -> ->]|(Hr & Hrange & Hpos & Hmin)].
  { pose proof (Hmax target _ (Hin target Htgt) ltac:(lia)). lia. }
  pose proof (Hcount _ _ Hr) as Hw'. subst w. split; [lia|]. split; [|split; [|done]].
  - intros x Hx. destruct (decide (0 < votes_for x all)) as [Hp|]; [|lia].
    apply (Hmax x); [by apply Hin|lia].
  - intros x Hx. destruct (decide (0 < votes_for x all)) as [Hp|]; [|lia].
    apply (Hmin x); [by apply Hin|lia|lia].
Qed.

(** C40: the setting a validator proposes lies between the current one and its own
    target; no other value in that interval has more votes (its own vote for the target
    included), and among equals the smallest wins. *)
Theorem fee_vote_outcome current target votes :
  let all := target :: votes in
  let v := getVotes (foldl addVote (newVotable current target) votes) in
  Z.min current target <= v <= Z.max current target
  ∧ (∀ x, Z.min current target <= x <= Z.max current target → votes_for x all <= votes_for v all)
  ∧ (∀ x, Z.min current target <= x < v → votes_for x all < votes_for v all)
  ∧ 0 < votes_for v all.
Proof. apply getVotes_outcome. Qed.

(** The ballots of the trusted validations for one setting: a validation without the field
    is a vote for the current value. *)
Definition ballots (current : Z) (field : Validation → option Z) (set : list Validation) : list Z :=
  map (λ val, default current (field val)) (List.filter isTrusted set).

Definition tally (current target : Z) (field : Validation → option Z) (set : list Validation) : Z :=
  getVotes (foldl addVote (newVotable current target) (ballots current field set)).

Lemma castVote_default v field : castVote v field = addVote v (default (mCurrent v) field).
Proof. by destruct field. Qed.

Lemma countVote_ballots set v1 v2 v3 :
  foldl countVote (v1, v2, v3) set
  = (foldl addVote v1 (ballots (mCurrent v1) sfBaseFee set),
     foldl addVote v2 (ballots (mCurrent v2) sfReserveBase set),
     foldl addVote v3 (ballots (mCurrent v3) sfReserveIncrement set)).
Proof.
  revert v1 v2 v3. induction set as [|val set IH]; intros v1 v2 v3; [done|]. simpl.
  destruct (isTrusted val) eqn:E; unfold ballots in *; simpl; rewrite E; simpl; rewrite IH; [|done].
  by rewrite !castVote_default.
Qed.

(** The fee transaction a validator proposes carries, for each of the three settings,
    the tally of the trusted validations (an absent field is a vote for the present
    value); untrusted validations have no influence; no transaction is proposed exactly
    when no setting changes. *)
Lemma doVoting_eq target lc set :
  let fee := tally (reference_fee lc) (reference_fee target) sfBaseFee set in
  let reserve := tally (u32 (account_reserve lc)) (u32 (account_reserve target)) sfReserveBase set in
  let inc := tally (u32 (owner_reserve lc)) (u32 (owner_reserve target)) sfReserveIncrement set in
  doVoting target lc set = (if decide (mkSetup fee reserve inc = lc) then None else Some (mkSetup fee reserve inc))
  ∧ doVoting target lc set = doVoting target lc (List.filter isTrusted set).
Proof.
  intros fee reserve inc.
  assert (∀ set', doVoting target lc set' =
    let r := mkSetup (tally (reference_fee lc) (reference_fee target) sfBaseFee set')
      (tally (u32 (account_reserve lc)) (u32 (account_reserve target)) sfReserveBase set')
      (tally (u32 (owner_reserve lc)) (u32 (owner_reserve target)) sfReserveIncrement set') in
    if negb (reference_fee r =? reference_fee lc) || negb (account_reserve r =? account_reserve lc)
       || negb (owner_reserve r =? owner_reserve lc) then Some r else None) as Hdo.
  { intros set'. unfold doVoting. rewrite countVote_ballots. done. }
  assert (∀ cur field, ballots cur field (List.filter isTrusted set) = ballots cur field set) as Hb.
  { intros. unfold ballots. f_equal. clear. induction set as [|val set IH]; [done|]. simpl.
    destruct (isTrusted val) eqn:E; simpl; rewrite ?E, IH; done. }
  split.
  - rewrite Hdo. fold fee reserve inc. cbn [reference_fee account_reserve owner_reserve]. destruct lc as [f r i].
    cbn [reference_fee account_reserve owner_reserve].
    destruct (decide (mkSetup fee reserve inc = mkSetup f r i)) as [[= -> -> ->]|Hne]; [by rewrite !Z.eqb_refl|].
    destruct (fee =? f) eqn:E1, (reserve =? r) eqn:E2, (inc =? i) eqn:E3; zbool; simpl; try done. congruence.
  - rewrite !Hdo. unfold tally. by rewrite !Hb.
Qed.

(** A vote in which every ballot is for the target is won by the target. *)
Lemma tally_unanimous current target field set :
  Forall (λ val, isTrusted val = true → default current (field val) = target) set →
  tally current target field set = target.
Proof.
  intros Hall. destruct (getVotes_outcome current target (ballots current field set)) as (_ & _ & _ & Hpos).
  fold (tally current target field set) in Hpos. unfold votes_for in Hpos.
  destruct (filter _ (target :: _)) as [|y l] eqn:E; [simpl in Hpos; lia|].
  assert (y ∈ y :: l) as Hy by left. rewrite <- E in Hy. apply list_elem_of_filter in Hy as [-> Hy].
  apply elem_of_cons in Hy as [?|Hy]; [done|]. unfold ballots in Hy.
  apply list_elem_of_fmap in Hy as (val & -> & Hin%list_elem_of_In%filter_In).
  destruct Hin as [Hin Ht]. rewrite Forall_forall in Hall. by apply Hall; [apply list_elem_of_In|].
Qed.

(** The settings as the fee transaction can carry them *)
Definition carried (t : Setup) : Setup :=
  mkSetup (reference_fee t) (u32 (account_reserve t)) (u32 (owner_reserve t)).

(** The two halves of the protocol fit: when every trusted validation was prepared by
    [doValidation] for the same target, voting adopts exactly that target (its reserves as
    32-bit fields), or proposes nothing when the ledger has it already. *)
Theorem fee_vote_unanimous target lc set :
  Forall (λ val, isTrusted val = true → val = doValidation target lc (mkValidation true None None None)) set →
  doVoting target lc set = if decide (carried target = lc) then None else Some (carried target).
Proof.
  intros Hall. destruct (doVoting_eq target lc set) as [Heq _]. rewrite Heq.
  rewrite !tally_unanimous; [done|..]; (eapply Forall_impl; [exact Hall|]); intros val Hv Ht;
    rewrite (Hv Ht); simpl; case_if; simpl; try done; zbool; congruence.
Qed.

Lemma fee_vote_unanimous_witness :
  let lc := mkSetup 10 20000000 5000000 in
  let target := mkSetup 12 20000000 4000000 in
  let v := doValidation target lc (mkValidation true None None None) in
  doVoting target lc [v; mkValidation false (Some 99) None None; v] = Some target.
Proof.
  intros lc target v. rewrite (fee_vote_unanimous target lc); [by vm_compute|].
  by repeat apply Forall_cons_2.
Defined.

End FeeVote.
