(* ===== verification/HashRouter.v ===== *)
(** * HashRouter: suppression of messages already seen

    Model of [src/src/common/misc/HashRouter.cpp].  The routing table maps the hash of a
    message to its flags and the peers it came from; a second map lists, for each second,
    the hashes created then, and drives their expiry.  Each operation is atomic (the code
    holds a lock throughout), so operations are functions on the state; the uptime clock is
    the parameter [now].  The private [getEntry], which nothing calls, is left out. *)

From S2P Require Import Prelude OrdMap.

Record Entry := mkEntry { mFlags : Z; mPeers : gset Z }.

Definition newEntry : Entry := mkEntry 0 ∅.

Definition addPeer (e : Entry) (peer : Z) : Entry :=
  if negb (peer =? 0) then mkEntry (mFlags e) ({[peer]} ∪ mPeers e) else e.
Definition entry_setFlag (e : Entry) (flagsToSet : Z) : Entry :=
  mkEntry (Z.lor (mFlags e) flagsToSet) (mPeers e).

Record HashRouter := mkHashRouter {
  mSuppressionMap : gmap Z Entry;
  mSuppressionTimes : list (Z * list Z);
  mHoldTime : Z
}.

Definition newHashRouter (holdTime : Z) : HashRouter := mkHashRouter ∅ [] holdTime.

(** The first bucket is dropped when it is old enough. *)
Definition expire (s : HashRouter) (expireTime : Z) : HashRouter :=
  match mSuppressionTimes s with
  | (t, l) :: rest =>
      if t <=? expireTime
      then mkHashRouter (foldr delete (mSuppressionMap s) l) rest (mHoldTime s)
      else s
  | [] => s
  end.

(** Whether the entry was created, and the state that now has it *)
Definition findCreateEntry (s : HashRouter) (now index : Z) : bool * HashRouter :=
  match mSuppressionMap s !! index with
  | Some _ => (false, s)
  | None =>
      let s := expire s (now - mHoldTime s) in
      let l := default [] (om_find now (mSuppressionTimes s)) in
      (true, mkHashRouter (<[index := newEntry]> (mSuppressionMap s))
               (om_set now (l ++ [index]) (mSuppressionTimes s)) (mHoldTime s))
  end.

Definition get (s : HashRouter) (index : Z) : Entry := default newEntry (mSuppressionMap s !! index).
Definition put (s : HashRouter) (index : Z) (e : Entry) : HashRouter :=
  mkHashRouter (<[index := e]> (mSuppressionMap s)) (mSuppressionTimes s) (mHoldTime s).

Definition addSuppression (s : HashRouter) (now index : Z) : bool * HashRouter :=
  findCreateEntry s now index.

(** Both overloads: the flags are those of the entry. *)
Definition addSuppressionPeer (s : HashRouter) (now index peer : Z) : bool * Z * HashRouter :=
  let '(created, s) := findCreateEntry s now index in
  let e := addPeer (get s index) peer in
  (created, mFlags e, put s index e).

Definition getFlags (s : HashRouter) (now index : Z) : Z * HashRouter :=
  let '(_, s) := findCreateEntry s now index in (mFlags (get s index), s).

Definition addSuppressionFlags (s : HashRouter) (now index flag : Z) : bool * HashRouter :=
  let '(created, s) := findCreateEntry s now index in
  (created, put s index (entry_setFlag (get s index) flag)).

Definition setFlag (s : HashRouter) (now index flag : Z) : bool * HashRouter :=
  let '(_, s) := findCreateEntry s now index in
  let e := get s index in
  if Z.land (mFlags e) flag =? flag then (false, s)
  else (true, put s index (entry_setFlag e flag)).

(** [peers] is exchanged with the peers of the entry. *)
Definition swapSet (s : HashRouter) (now index : Z) (peers : gset Z) (flag : Z) : bool * gset Z * HashRouter :=
  let '(_, s) := findCreateEntry s now index in
  let e := get s index in
  if Z.land (mFlags e) flag =? flag then (false, peers, s)
  else (true, mPeers e, put s index (entry_setFlag (mkEntry (mFlags e) peers) flag)).

(** ** Operations as steps *)

Inductive op :=
| AddSuppression (index : Z)
| AddPeer (index peer : Z)
| GetFlags (index : Z)
| AddFlags (index flag : Z)
| SetFlag (index flag : Z)
| SwapSet (index : Z) (peers : gset Z) (flag : Z).

Definition step (s : HashRouter) (now : Z) (o : op) : HashRouter :=
  match o with
  | AddSuppression i => (addSuppression s now i).2
  | AddPeer i p => (addSuppressionPeer s now i p).2
  | GetFlags i => (getFlags s now i).2
  | AddFlags i f => (addSuppressionFlags s now i f).2
  | SetFlag i f => (setFlag s now i f).2
  | SwapSet i p f => (swapSet s now i p f).2
  end.

Definition op_index (o : op) : Z :=
  match o with
  | AddSuppression i | AddPeer i _ | GetFlags i | AddFlags i _ | SetFlag i _ | SwapSet i _ _ => i
  end.

(** [index] was created at second [t] and has not expired. *)
Definition listed (s : HashRouter) (t index : Z) : Prop :=
  ∃ l, (t, l) ∈ mSuppressionTimes s ∧ index ∈ l.

(** The table and the expiry lists agree: a hash is in the table exactly when it is listed,
    and it is listed in one second only. *)
Definition inv (s : HashRouter) : Prop :=
  om_sorted (mSuppressionTimes s)
  ∧ (∀ i, is_Some (mSuppressionMap s !! i) ↔ ∃ t, listed s t i)
  ∧ (∀ i t1 t2, listed s t1 i → listed s t2 i → t1 = t2).

Lemma foldr_delete_lookup (m : gmap Z Entry) l i :
  foldr delete m l !! i = if decide (i ∈ l) then None else m !! i.
Proof.
  induction l as [|x l IH]; [done|]. cbn [foldr]. destruct (decide (x = i)) as [->|Hne].
  - rewrite lookup_delete_eq. by rewrite (decide_True (P := i ∈ i :: l)) by (by left).
  - rewrite lookup_delete_ne, IH by done.
    destruct (decide (i ∈ l)) as [Hi|Hi]; [rewrite decide_True|rewrite decide_False]; try done; set_solver.
Qed.

Lemma expire_inv s e :
  inv s → inv (expire s e) ∧ (∀ t i, e < t → listed s t i → listed (expire s e) t i)
  ∧ (∀ t i, listed (expire s e) t i → listed s t i).
Proof.
  intros Hinv. destruct s as [m times hold]. unfold expire. simpl.
  destruct times as [|[t1 l1] rest]; [done|]. destruct (t1 <=? e) eqn:E; [|done]. zbool.
  destruct Hinv as (Hs & Hm & Hu). apply om_sorted_cons in Hs as [Hs Hall]. unfold listed in *. simpl in *.
  assert (∀ t l, (t, l) ∈ rest → t1 < t) as Hgt.
  { intros t l Hin. rewrite Forall_forall in Hall. apply (Hall _ Hin). }
  split; [|split].
  - split; [done|]. split; simpl.
    + intros i. rewrite foldr_delete_lookup. destruct (decide (i ∈ l1)) as [Hi|Hi].
      * split; [by intros [? ?]|]. intros (t & l & Hin & Hil).
        assert (t1 = t) as -> by (apply (Hu i); [exists l1; split; [by left|done]|exists l; split; [by right|done]]).
        specialize (Hgt _ _ Hin). lia.
      * rewrite Hm. split; intros (t & l & Hin & Hil); exists t, l.
        -- apply elem_of_cons in Hin as [[= -> ->]|Hin]; done.
        -- split; [by right|done].
    + intros i t2 t3 (l2 & H2 & ?) (l3 & H3 & ?). apply (Hu i); [exists l2|exists l3]; (split; [by right|done]).
  - intros t i Ht (l & Hin & Hil). exists l. split; [|done].
    apply elem_of_cons in Hin as [[= -> ->]|Hin]; [lia|done].
  - intros t i (l & Hin & Hil). exists l. split; [by right|done].
Qed.

Lemma listed_find s t i :
  om_sorted (mSuppressionTimes s) →
  listed s t i ↔ ∃ l, om_find t (mSuppressionTimes s) = Some l ∧ i ∈ l.
Proof. intros Hs. unfold listed. by setoid_rewrite om_find_In. Qed.

(** [s'] comes from [s] by calls made at second [now]: buckets younger than the hold time
    are kept, and the hold time is a constant. *)
Definition keeps (now : Z) (s s' : HashRouter) : Prop :=
  mHoldTime s' = mHoldTime s ∧
  ∀ t i, now - mHoldTime s < t → listed s t i → listed s' t i.

Lemma findCreateEntry_spec s now index c s' :
  inv s → findCreateEntry s now index = (c, s') →
  inv s' ∧ keeps now s s' ∧ is_Some (mSuppressionMap s' !! index)
  ∧ (c = true ↔ mSuppressionMap s !! index = None) ∧ (c = true → listed s' now index).
Proof.
  intros Hinv. unfold findCreateEntry.
  destruct (mSuppressionMap s !! index) as [e|] eqn:Hm; intros [= <- <-]; [by rewrite Hm|].
  destruct (expire_inv s (now - mHoldTime s) Hinv) as ((Hs & Hi & Hu) & Hkeep & Hback).
  assert (mHoldTime (expire s (now - mHoldTime s)) = mHoldTime s) as Hh.
  { unfold expire. repeat case_match; done. }
  assert (∀ t, ¬ listed (expire s (now - mHoldTime s)) t index) as Hnew.
  { intros t Hl%Hback. destruct Hinv as (_ & Hi' & _).
    destruct (proj2 (Hi' index)) as [? Hx]; [by exists t|congruence]. }
  set (s1 := expire s (now - mHoldTime s)) in *.
  set (l := default [] (om_find now (mSuppressionTimes s1))).
  assert (∀ t i, listed (mkHashRouter (<[index:=newEntry]> (mSuppressionMap s1))
            (om_set now (l ++ [index]) (mSuppressionTimes s1)) (mHoldTime s1)) t i
            ↔ listed s1 t i ∨ (t = now ∧ i = index)) as Hl.
  { intros t i. rewrite !listed_find by (simpl; auto using om_set_sorted). simpl.
    setoid_rewrite om_find_set; [|done]. unfold l. destruct (t =? now) eqn:E; zbool.
    - subst. destruct (om_find now (mSuppressionTimes s1)) as [l1|]; simpl; split.
      + intros (l2 & [= <-] & [?|Hx%list_elem_of_singleton]%elem_of_app); [left; by exists l1|by right].
      + intros [(l2 & [= <-] & ?)|[_ ->]]; eexists; (split; [done|]); apply elem_of_app; [by left|right; by left].
      + intros (l2 & [= <-] & Hx%list_elem_of_singleton). by right.
      + intros [(l2 & [=] & _)|[_ ->]]. eexists. split; [done|by left].
    - split; [by left|]. intros [?|[? _]]; done. }
  split; [|split; [|split; [|split]]].
  - split; [by apply om_set_sorted|]. split.
    + intros i. setoid_rewrite Hl. simpl. destruct (decide (i = index)) as [->|Hne].
      * rewrite lookup_insert_eq. split; [intros _|done]. exists now. by right.
      * rewrite lookup_insert_ne, Hi by done.
        split; intros [t Ht]; exists t; [by left|by destruct Ht as [?|[_ ?]]].
    + intros i t1 t2 [H1|[-> ->]]%Hl [H2|[-> H2]]%Hl; subst; try done.
      * by eapply Hu.
      * by destruct (Hnew t1).
      * by destruct (Hnew t2).
  - split; [done|]. intros t i Ht Hl1. apply Hl. left. by apply Hkeep.
  - simpl. rewrite lookup_insert_eq. by eexists.
  - done.
  - intros _. apply Hl. by right.
Qed.

(** Changing the entry of a hash that is in the table touches neither expiry nor presence. *)
Lemma put_inv s index e :
  inv s → is_Some (mSuppressionMap s !! index) → inv (put s index e).
Proof.
  intros (Hs & Hi & Hu) Hin. split; [done|]. split; [|done]. intros i. simpl.
  destruct (decide (i = index)) as [->|?]; [|by rewrite lookup_insert_ne].
  rewrite lookup_insert_eq. rewrite <- (Hi index). split; [done|by eexists].
Qed.

Lemma step_spec s now o :
  inv s →
  inv (step s now o) ∧ keeps now s (step s now o)
  ∧ (mSuppressionMap s !! op_index o = None → listed (step s now o) now (op_index o))
  ∧ mSuppressionTimes (step s now o) = mSuppressionTimes (findCreateEntry s now (op_index o)).2.
Proof.
  intros Hinv. destruct (findCreateEntry s now (op_index o)) as [c s1] eqn:E.
  destruct (findCreateEntry_spec _ _ _ _ _ Hinv E) as (Hinv1 & Hk & Hin & Hc & Hl).
  assert (∀ e, inv (put s1 (op_index o) e) ∧ keeps now s (put s1 (op_index o) e)
     ∧ (mSuppressionMap s !! op_index o = None → listed (put s1 (op_index o) e) now (op_index o))) as Hput.
  { intros e. split; [by apply put_inv|]. split; [done|]. intros Hn. by apply Hl, Hc. }
  assert (mSuppressionMap s !! op_index o = None → listed s1 now (op_index o)) as Hl' by (intros Hn; by apply Hl, Hc).
  destruct o; simpl in *;
    unfold addSuppression, addSuppressionPeer, getFlags, addSuppressionFlags, setFlag, swapSet;
    rewrite E; simpl; try case_match; simpl; split_and!; try done; by apply Hput.
Qed.

(** ** Runs *)

Definition run (s : HashRouter) (tr : list (Z * op)) : HashRouter :=
  foldl (λ s '(now, o), step s now o) s tr.

(** The uptime clock does not go back. *)
Fixpoint clock_ok (t : Z) (tr : list (Z * op)) : Prop :=
  match tr with
  | [] => True
  | (now, _) :: tr => t ≤ now ∧ clock_ok now tr
  end.

Lemma new_inv hold : inv (newHashRouter hold).
Proof.
  split; [constructor|]. split; [|by intros ??? (? & ?%not_elem_of_nil & _)].
  intros i. simpl. rewrite lookup_empty. split; [by intros [? ?]|]. by intros (? & ? & ?%not_elem_of_nil & _).
Qed.

Lemma run_inv tr s : inv s → inv (run s tr) ∧ mHoldTime (run s tr) = mHoldTime s.
Proof.
  revert s. induction tr as [|[now o] tr IH]; intros s Hs; [done|]. simpl.
  destruct (step_spec s now o Hs) as (Hi & [Hh _] & _). destruct (IH _ Hi) as [? Heq].
  split; [done|]. by rewrite Heq.
Qed.

Lemma run_keeps tr s t i :
  inv s → Forall (λ p, p.1 < t + mHoldTime s) tr → listed s t i → listed (run s tr) t i.
Proof.
  revert s. induction tr as [|[now o] tr IH]; intros s Hs Htr Hl; [done|]. simpl.
  apply Forall_cons in Htr as [Hnow Htr]. simpl in Hnow.
  destruct (step_spec s now o Hs) as (Hi & [Hh Hk] & _).
  apply IH; [done|by rewrite Hh|]. apply Hk; [lia|done].
Qed.

(** ** The expiry map stays small *)

Lemma sorted_keys_length (l : list Z) a b :
  StronglySorted Z.lt l → Forall (λ k, a < k ≤ b) l → a ≤ b → Z.of_nat (length l) ≤ b - a.
Proof.
  revert a. induction l as [|x l IH]; intros a Hs Hf Hab; [simpl; lia|].
  inversion Hs as [|? ? Hs' Hx]; subst. apply Forall_cons in Hf as [Hxa Hf].
  cbn [length]. rewrite Nat2Z.inj_succ. enough (Z.of_nat (length l) ≤ b - x) by lia.
  apply IH; [done| |lia]. rewrite Forall_forall in *. intros k Hk. specialize (Hx k Hk). specialize (Hf k Hk). lia.
Qed.

Lemma om_set_length {V} k (v : V) m : (length (om_set k v m) ≤ S (length m))%nat.
Proof. induction m as [|[k' v'] m IH]; simpl; repeat case_if; simpl; lia. Qed.

(** No bucket is in the future and there are at most [bound] of them. *)
Definition small (now bound : Z) (s : HashRouter) : Prop :=
  Forall (λ p, p.1 ≤ now) (mSuppressionTimes s)
  ∧ Z.of_nat (length (mSuppressionTimes s)) ≤ bound.

Lemma findCreateEntry_small s t now index :
  inv s → 0 < mHoldTime s → t ≤ now → small t (mHoldTime s) s →
  small now (mHoldTime s) (findCreateEntry s now index).2.
Proof.
  intros (Hs & _ & _) Hh Ht [Hle Hlen]. unfold findCreateEntry.
  assert (Forall (λ p : Z * list Z, p.1 ≤ now) (mSuppressionTimes s)) as Hle'.
  { eapply Forall_impl; [exact Hle|]. simpl. lia. }
  destruct (mSuppressionMap s !! index); [done|]. unfold expire.
  destruct (mSuppressionTimes s) as [|[t1 l1] rest] eqn:E.
  { unfold small. simpl. rewrite E. simpl. split; [repeat constructor; simpl; lia|lia]. }
  set (l := default [] _). clearbody l.
  destruct (t1 <=? now - mHoldTime s) eqn:Et; zbool; unfold small; simpl.
  - apply Forall_cons in Hle' as [_ Hle']. split; [apply om_set_Forall; simpl; [lia|done]|].
    pose proof (om_set_length now (l ++ [index]) rest). simpl in Hlen. lia.
  - rewrite E. split; [apply om_set_Forall; simpl; [lia|done]|].
    rewrite <- (length_fmap fst). etrans; [apply (sorted_keys_length _ (now - mHoldTime s) now)|lia]; [|rewrite Forall_fmap|lia].
    + by apply om_set_sorted.
    + apply om_set_Forall; simpl; [lia|]. apply om_sorted_cons in Hs as [_ Hall].
      apply Forall_cons in Hle' as [? Hle']. constructor; [simpl in *; lia|].
      rewrite Forall_forall in *. intros p Hp. specialize (Hall p Hp). specialize (Hle' p Hp). simpl in *. lia.
Qed.

Lemma run_small tr s t :
  inv s → 0 < mHoldTime s → clock_ok t tr → small t (mHoldTime s) s →
  ∃ t', small t' (mHoldTime s) (run s tr).
Proof.
  revert s t. induction tr as [|[now o] tr IH]; intros s t Hs Hh Hc Hsm; [by exists t|]. simpl in *.
  destruct Hc as [Ht Hc]. destruct (step_spec s now o Hs) as (Hi & [Heq _] & _ & Htimes).
  rewrite <- Heq. apply (IH _ now); [done|lia|done|].
  pose proof (findCreateEntry_small s t now (op_index o) Hs Hh Ht Hsm) as Hf.
  unfold small in *. by rewrite Htimes, Heq.
Qed.

(** A hash first seen at second [now] is suppressed for the whole hold time: after any
    history, and whatever calls are made before second [now + holdTime], asking again
    reports it as already seen and changes nothing. *)
Theorem suppressed_for_hold_time hold before now o later t' :
  mSuppressionMap (run (newHashRouter hold) before) !! op_index o = None →
  Forall (λ p, p.1 < now + hold) later →
  let s := run (newHashRouter hold) (before ++ (now, o) :: later) in
  addSuppression s t' (op_index o) = (false, s).
Proof.
  intros Hn Hl s. subst s. unfold run. rewrite foldl_app. fold (run (newHashRouter hold) before). cbn [foldl].
  destruct (run_inv before _ (new_inv hold)) as [Hi Hh]. set (s := run (newHashRouter hold) before) in *.
  destruct (step_spec s now o Hi) as (Hi1 & [Hh1 _] & Hnew & _). specialize (Hnew Hn).
  fold (run (step s now o) later).
  pose proof (run_keeps later _ now (op_index o) Hi1) as Hk. rewrite Hh1, Hh in Hk. specialize (Hk Hl Hnew).
  destruct (run_inv later _ Hi1) as [(_ & Hp & _) _].
  destruct (proj2 (Hp (op_index o))) as [e He]; [by exists now|].
  unfold addSuppression, findCreateEntry. by rewrite He.
Qed.

Lemma suppressed_for_hold_time_witness :
  let s := run (newHashRouter 300) ([(5, AddPeer 1 7)] ++ (10, SetFlag 2 4) :: [(305, GetFlags 3); (309, AddSuppression 4)]) in
  addSuppression s 400 2 = (false, s) ∧ mSuppressionMap s !! 1 = None.
Proof.
  split; [|by vm_compute].
  apply (suppressed_for_hold_time 300 [(5, AddPeer 1 7)] 10 (SetFlag 2 4) [(305, GetFlags 3); (309, AddSuppression 4)] 400).
  - by vm_compute.
  - repeat constructor; simpl; lia.
Defined.

(** Whatever calls are made, the routing table holds exactly the hashes listed for
    expiry, each listed under one second; and although a call drops at most one expired
    bucket, with a clock that does not go back there are never more than [holdTime]
    buckets. *)
Theorem routing_table_inv hold t0 tr :
  0 < hold → clock_ok t0 tr →
  let s := run (newHashRouter hold) tr in
  inv s ∧ Z.of_nat (length (mSuppressionTimes s)) ≤ hold.
Proof.
  intros Hh Hc s. split; [apply run_inv, new_inv|].
  destruct (run_small tr (newHashRouter hold) t0 (new_inv hold) Hh Hc) as (t' & _ & Hlen); [|done].
  split; [constructor|simpl; lia].
Qed.

Lemma routing_table_inv_witness :
  let s := run (newHashRouter 2) [(1, AddSuppression 1); (2, AddSuppression 2); (3, AddSuppression 3); (9, AddSuppression 4)] in
  inv s ∧ Z.of_nat (length (mSuppressionTimes s)) ≤ 2.
Proof. apply (routing_table_inv 2 0); [lia|simpl; lia]. Defined.

Lemma get_find s now i : get (findCreateEntry s now i).2 i = get s i.
Proof.
  unfold findCreateEntry, get. destruct (mSuppressionMap s !! i) eqn:E; simpl; [by rewrite E|].
  by rewrite lookup_insert_eq.
Qed.

Lemma find_put s now i e : findCreateEntry (put s i e) now i = (false, put s i e).
Proof. unfold findCreateEntry, put. simpl. by rewrite lookup_insert_eq. Qed.

Lemma find_again s now now' i c s' :
  findCreateEntry s now i = (c, s') → findCreateEntry s' now' i = (false, s').
Proof.
  unfold findCreateEntry. destruct (mSuppressionMap s !! i) eqn:E; intros [= <- <-]; [by rewrite E|].
  cbn [mSuppressionMap]. by rewrite lookup_insert_eq.
Qed.

Lemma get_put s i e : get (put s i e) i = e.
Proof. unfold get, put. simpl. by rewrite lookup_insert_eq. Qed.

Lemma land_lor_absorb a f : Z.land (Z.lor a f) f = f.
Proof. apply Z.bits_inj'. intros n _. rewrite Z.land_spec, Z.lor_spec. by destruct (Z.testbit a n), (Z.testbit f n). Qed.

(** [setFlag] and [swapSet] succeed exactly when some bit of the flag was clear; the
    flag is set afterwards and the other flags are kept, so a second call for the same
    message fails and changes nothing (a message is relayed once); [swapSet] hands back the
    peers the message came from and stores the given ones, and leaves them when it fails. *)
Theorem relay_once s now now' i flag peers peers' :
  (let '(changed, s1) := setFlag s now i flag in
   changed = negb (Z.land (mFlags (get s i)) flag =? flag)
   ∧ mFlags (get s1 i) = Z.lor (mFlags (get s i)) flag
   ∧ mPeers (get s1 i) = mPeers (get s i)
   ∧ setFlag s1 now' i flag = (false, s1))
  ∧ (let '(changed, out, s1) := swapSet s now i peers flag in
     changed = negb (Z.land (mFlags (get s i)) flag =? flag)
     ∧ out = (if changed then mPeers (get s i) else peers)
     ∧ mFlags (get s1 i) = Z.lor (mFlags (get s i)) flag
     ∧ mPeers (get s1 i) = (if changed then peers else mPeers (get s i))
     ∧ swapSet s1 now' i peers' flag = (false, peers', s1)).
Proof.
  pose proof (get_find s now i) as Hg. unfold setFlag, swapSet.
  destruct (findCreateEntry s now i) as [c s1] eqn:E. simpl in Hg. rewrite Hg.
  assert (∀ a, Z.land a flag = flag → Z.lor a flag = a) as Hsub.
  { intros a <-. apply Z.bits_inj'. intros n _. rewrite Z.lor_spec, Z.land_spec.
    by destruct (Z.testbit a n), (Z.testbit flag n). }
  destruct (Z.land (mFlags (get s i)) flag =? flag) eqn:Ef; simpl.
  - rewrite !(find_again _ _ now' _ _ _ E), Hg, Ef. zbool. by rewrite Hsub.
  - rewrite !find_put, !get_put. simpl. by rewrite land_lor_absorb, Z.eqb_refl.
Qed.
