(* ===== verification/DeferredCredits.v ===== *)
(** * DeferredCredits: credits that may not be spent yet

    Model of [src/src/ledger/DeferredCredits.h] and [DeferredCredits.cpp].  While a payment
    is worked out, what an account receives from another is recorded here, and its balance
    is reported without it.  The map is keyed by the ordered pair of accounts and the
    currency; its values are the credits to the low and to the high account.  The asserts
    of [credit] are the hypothesis [credit_ok]; logging is left out. *)

From S2P Require Import Prelude Issue STAmount STAmountProps STAmountArith.

Notation Key := (Account * Account * Currency)%type.

Definition makeKey (a1 a2 : Account) (c : Currency) : Key :=
  if a1 <? a2 then (a1, a2, c) else (a2, a1, c).

(** [map_]: low account credits, high account credits *)
Notation DeferredCredits := (gmap Key (STAmount * STAmount)).

Definition credit (m : DeferredCredits) (sender receiver : Account) (amount : STAmount) : result DeferredCredits :=
  let k := makeKey sender receiver (currency (mIssue amount)) in
  match m !! k with
  | None =>
      z ← zeroed amount;
      Ok (<[k := if sender <? receiver then (z, amount) else (amount, z)]> m)
  | Some (low, high) =>
      if sender <? receiver
      then h ← op_add high amount; Ok (<[k := (low, h)]> m)
      else l ← op_add low amount; Ok (<[k := (l, high)]> m)
  end.

Definition adjustedBalance (m : DeferredCredits) (main other : Account) (curBalance : STAmount) : result STAmount :=
  match m !! makeKey main other (currency (mIssue curBalance)) with
  | None => Ok curBalance
  | Some (low, high) => if main <? other then op_sub curBalance low else op_sub curBalance high
  end.

Definition credits_clear (m : DeferredCredits) : DeferredCredits := ∅.

(** ** Specification: what was received *)

Record Credit := mkCredit { c_sender : Account; c_receiver : Account; c_amount : STAmount }.

(** A call that satisfies the asserts, with a canonical amount *)
Definition credit_ok (c : Credit) : Prop :=
  c_sender c ≠ c_receiver c ∧ mIsNegative (c_amount c) = false
  ∧ canonical (c_amount c) = true.

Fixpoint run (m : DeferredCredits) (cs : list Credit) : result DeferredCredits :=
  match cs with
  | [] => Ok m
  | c :: cs => m ← credit m (c_sender c) (c_receiver c) (c_amount c); run m cs
  end.

(** The amounts [main] received from [other] in currency [cur], in order *)
Definition received (main other : Account) (cur : Currency) (cs : list Credit) : list STAmount :=
  map c_amount (List.filter (λ c, (c_receiver c =? main) && (c_sender c =? other)
                               && (currency (mIssue (c_amount c)) =? cur)) cs).

(** ** Amounts up to their issuer

    The sums of the map carry the issuer of whichever amount came first, so results are
    compared after [strip]; addition and subtraction do not depend on the issuer. *)
Definition strip (a : STAmount) : STAmount :=
  mkSTAmount (mkIssue (currency (mIssue a)) 0) (mValue a) (mOffset a) (mIsNative a) (mIsNegative a).

Lemma canonicalize_strip a : canonicalize (strip a) = strip <$> canonicalize a.
Proof.
  unfold canonicalize. change (amount_isSWT (strip a)) with (amount_isSWT a). destruct a as [[c i] v o n g]. simpl.
  destruct (amount_isSWT _); repeat (case_match; try done); simpl;
    destruct (scale_down _ _ _) as [[v' o']|]; simpl; try done; repeat (case_match; try done).
Qed.

Lemma mkAmount_strip issue v o n :
  mkAmount (mkIssue (currency issue) 0) v o n = strip <$> mkAmount issue v o n.
Proof. unfold mkAmount. by rewrite <- canonicalize_strip. Qed.

Lemma op_add_strip a b : op_add (strip a) (strip b) = strip <$> op_add a b.
Proof.
  unfold op_add, throwComparable. change (isComparable (strip a) (strip b)) with (isComparable a b).
  change (is_zero (strip a)) with (is_zero a). change (is_zero (strip b)) with (is_zero b).
  change (getSNValue (strip a)) with (getSNValue a). change (getSNValue (strip b)) with (getSNValue b).
  change (signed_mantissa (strip a)) with (signed_mantissa a). change (signed_mantissa (strip b)) with (signed_mantissa b).
  cbn [strip mIssue mValue mOffset mIsNative mIsNegative]. destruct (isComparable a b); [|done]. cbn [mbind result_bind].
  destruct (is_zero b); [done|]. destruct (is_zero a); [apply mkAmount_strip|].
  destruct (mIsNative a).
  { destruct (getSNValue a) as [x|]; [|done]. destruct (getSNValue b) as [y|]; [|done]. cbn [mbind result_bind fmap result_fmap].
    unfold mkNativeS, set_s64. by case_if. }
  destruct (align _ (signed_mantissa a) _ _) as [vv1 ov1], (align _ (signed_mantissa b) _ _) as [vv2 ov2].
  repeat case_if; unfold mkZero; apply mkAmount_strip.
Qed.

Lemma op_sub_strip a b : op_sub (strip a) (strip b) = strip <$> op_sub a b.
Proof.
  unfold op_sub, throwComparable. change (isComparable (strip a) (strip b)) with (isComparable a b).
  change (is_zero (strip b)) with (is_zero b).
  change (getSNValue (strip a)) with (getSNValue a). change (getSNValue (strip b)) with (getSNValue b).
  change (signed_mantissa (strip a)) with (signed_mantissa a). change (signed_mantissa (strip b)) with (signed_mantissa b).
  cbn [strip mIssue mValue mOffset mIsNative mIsNegative]. destruct (isComparable a b); [|done]. cbn [mbind result_bind].
  destruct (is_zero b); [done|]. destruct (mIsNative b).
  { destruct (getSNValue a) as [x|]; [|done]. destruct (getSNValue b) as [y|]; [|done]. cbn [mbind result_bind fmap result_fmap].
    unfold createFromInt64. by case_if. }
  destruct (align _ (signed_mantissa a) _ _) as [vv1 ov1], (align _ (signed_mantissa b) _ _) as [vv2 ov2].
  repeat case_if; unfold mkZero; apply mkAmount_strip.
Qed.

(** The zero of a currency *)
Definition zero_of (cur : Currency) : STAmount :=
  mkSTAmount (mkIssue cur 0) 0 (if isSWT cur then 0 else -100) (isSWT cur) false.

Lemma strip_zeroed a : strip <$> zeroed a = Ok (zero_of (currency (mIssue a))).
Proof. unfold zeroed, mkZero, mkAmount. by rewrite canonicalize_zero. Qed.

Lemma canonical_strip a : canonical (strip a) = canonical a.
Proof. done. Qed.

Lemma canonical_native a : canonical a = true → mIsNative a = amount_isSWT a.
Proof. intros [? ?|? ?|? ?]%canonical_iff; congruence. Qed.

(** Adding to the zero of its currency gives the amount itself. *)
Lemma zero_of_add cur a :
  canonical a = true → currency (mIssue a) = cur → op_add (zero_of cur) (strip a) = Ok (strip a).
Proof.
  intros Hc <-. assert (isComparable (zero_of (currency (mIssue a))) (strip a) = true) as Hcmp.
  { pose proof (canonical_native a Hc) as Hn. unfold amount_isSWT in Hn. unfold isComparable, zero_of. simpl.
    rewrite Hn. destruct (isSWT _); [done|apply Z.eqb_refl]. }
  assert (canonical (zero_of (currency (mIssue a))) = true) as Hz.
  { unfold canonical, amount_isSWT, zero_of. simpl. by destruct (isSWT _). }
  unfold op_add, throwComparable. rewrite Hcmp, !is_zero_iff. cbn [mbind result_bind].
  destruct (mValue (strip a) =? 0) eqn:E; zbool.
  - f_equal. by apply zero_unique.
  - cbn [zero_of mValue Z.eqb]. by rewrite add_zero_left, eta_issue by (done || by rewrite <- (comparable_native _ _ Hcmp)).
Qed.

Fixpoint sum_from (a : STAmount) (l : list STAmount) : result STAmount :=
  match l with [] => Ok a | b :: l => s ← op_add a b; sum_from s l end.

(** The sum of the received amounts, if there are any *)
Definition total (l : list STAmount) : result (option STAmount) :=
  match map strip l with [] => Ok None | a :: l => s ← sum_from a l; Ok (Some s) end.

Lemma sum_from_snoc a l b : sum_from a (l ++ [b]) = s ← sum_from a l; op_add s b.
Proof.
  revert a. induction l as [|x l IH]; intros a; simpl; [by destruct (op_add a b)|].
  destruct (op_add a x); simpl; [apply IH|done].
Qed.

Lemma total_snoc l b :
  total (l ++ [b]) = t ← total l; match t with None => Ok (Some (strip b)) | Some s => s ← op_add s (strip b); Ok (Some s) end.
Proof.
  unfold total. rewrite map_app. destruct (map strip l) as [|a l']; [done|]. simpl. rewrite sum_from_snoc.
  by destruct (sum_from a l').
Qed.

Lemma makeKey_sym a b c : a ≠ b → makeKey a b c = makeKey b a c.
Proof. intros. unfold makeKey. destruct (a <? b) eqn:E1, (b <? a) eqn:E2; zbool; try done; lia. Qed.

Lemma makeKey_inj a b c a' b' c' :
  makeKey a b c = makeKey a' b' c' → c = c' ∧ (a = a' ∧ b = b' ∨ a = b' ∧ b = a').
Proof. unfold makeKey. repeat case_if; intros [= -> -> ->]; tauto. Qed.

(** The side of an entry that holds the credits to [main] from [other] *)
Definition side (main other : Account) (v : STAmount * STAmount) : STAmount :=
  if main <? other then v.1 else v.2.

(** What the map stores for the credits to [main] from [other]: the total, or the zero of
    the currency when only the opposite direction was used, or nothing. *)
Definition stores (m : DeferredCredits) (main other : Account) (cur : Currency) (t : option STAmount) : Prop :=
  match m !! makeKey main other cur with
  | None => t = None
  | Some v => strip (side main other v) = default (zero_of cur) t
  end.

Lemma fmap_Ok {A B} (f : A → B) (r : result A) b : f <$> r = Ok b ↔ ∃ a, r = Ok a ∧ b = f a.
Proof. destruct r; simpl; naive_solver. Qed.

#[export] Instance Ok_inj {A} : Inj (=) (=) (@Ok A).
Proof. by intros ?? [=]. Qed.

Lemma not_lt_swap (a b : Z) : a ≠ b → (b <? a) = negb (a <? b).
Proof. intros. destruct (a <? b) eqn:E1, (b <? a) eqn:E2; zbool; simpl; try done; lia. Qed.

(** Adding to the stored side adds to the total. *)
Lemma side_add x a r t :
  canonical a = true → op_add x a = Ok r → strip x = default (zero_of (currency (mIssue a))) t →
  (match t with None => Ok (strip a) | Some s => op_add s (strip a) end) = Ok (strip r).
Proof.
  intros Hc H Hx. pose proof (op_add_strip x a) as Hs. rewrite H, Hx in Hs. simpl in Hs.
  destruct t; simpl in Hs; [done|]. by rewrite zero_of_add in Hs.
Qed.

(** A credit from [other] to [main] is added to their side. *)
Lemma credit_to m main other a m' t :
  main ≠ other → canonical a = true → credit m other main a = Ok m' →
  stores m main other (currency (mIssue a)) t →
  ∃ t', (match t with None => Ok (strip a) | Some s => op_add s (strip a) end) = Ok t'
        ∧ stores m' main other (currency (mIssue a)) (Some t').
Proof.
  intros Hne Hc H Hst. unfold stores, credit in *. rewrite (makeKey_sym main other) in Hst |- * by done.
  rewrite (not_lt_swap main other) in H by done. unfold side in *.
  destruct (m !! makeKey other main _) as [[low high]|] eqn:E.
  - destruct (main <? other); simpl in *; res_inv; subst m';
      match goal with Ha : op_add _ a = Ok ?r |- _ => exists (strip r) end;
      (split; [by eapply side_add|by rewrite lookup_insert_eq]).
  - subst t. exists (strip a). split; [done|]. res_inv. subst m'. rewrite lookup_insert_eq.
    by destruct (main <? other).
Qed.

(** Any other credit leaves the side alone. *)
Lemma credit_other m main other cur snd rcv a m' t :
  main ≠ other → snd ≠ rcv → canonical a = true → credit m snd rcv a = Ok m' →
  ¬ (rcv = main ∧ snd = other ∧ currency (mIssue a) = cur) →
  stores m main other cur t → stores m' main other cur t.
Proof.
  intros Hne Hsr Hc H Hno Hst.
  destruct (decide (makeKey snd rcv (currency (mIssue a)) = makeKey main other cur)) as [Hk|Hk].
  - pose proof (makeKey_inj _ _ _ _ _ _ Hk) as (<- & [[-> ->]|[-> ->]]); [|by destruct Hno].
    unfold stores, credit, side in *. destruct (m !! makeKey main other _) as [[low high]|] eqn:E.
    + destruct (main <? other); res_inv; subst m'; by rewrite lookup_insert_eq.
    + subst t. res_inv. subst m'. rewrite lookup_insert_eq. pose proof (strip_zeroed a) as Hz.
      match goal with Hx : zeroed a = Ok ?z |- _ => rewrite Hx in Hz; assert (strip z = zero_of (currency (mIssue a))) end.
      { by apply (inj Ok). }
      by destruct (main <? other).
  - assert (m' !! makeKey main other cur = m !! makeKey main other cur) as Heq; [|unfold stores in *; by rewrite Heq].
    unfold credit in H. destruct (m !! makeKey snd rcv _) as [[low high]|].
    + case_if_in H; res_inv; subst m'; by rewrite lookup_insert_ne.
    + res_inv. subst m'. by rewrite lookup_insert_ne.
Qed.

Lemma received_snoc main other cur cs c :
  received main other cur (cs ++ [c]) = received main other cur cs ++
    (if (c_receiver c =? main) && (c_sender c =? other) && (currency (mIssue (c_amount c)) =? cur)
     then [c_amount c] else []).
Proof. unfold received. rewrite List.filter_app, map_app. simpl. by case_if. Qed.

Lemma run_snoc m cs c : run m (cs ++ [c]) = m ← run m cs; credit m (c_sender c) (c_receiver c) (c_amount c).
Proof.
  revert m. induction cs as [|x cs IH]; intros m; simpl; [by destruct (credit _ _ _ _)|].
  destruct (credit m _ _ _); simpl; [apply IH|done].
Qed.

Lemma run_stores cs m main other cur :
  main ≠ other → Forall credit_ok cs → run ∅ cs = Ok m →
  ∃ t, total (received main other cur cs) = Ok t ∧ stores m main other cur t.
Proof.
  intros Hne. revert m. induction cs as [|c cs IH] using rev_ind; intros m Hok Hrun.
  { injection Hrun as <-. exists None. split; [done|]. unfold stores. by rewrite lookup_empty. }
  apply Forall_app in Hok as [Hok Hc]. apply Forall_cons in Hc as [(Hsr & _ & Hc) _].
  rewrite run_snoc in Hrun. res_inv. destruct (IH _ Hok ltac:(eassumption)) as (t & Ht & Hst).
  rewrite received_snoc. case_if.
  - zbool. subst. match goal with Hcr : credit _ _ _ _ = Ok m |- _ => destruct (credit_to _ _ _ _ _ t Hne Hc Hcr Hst) as (t' & Ht' & Hst') end.
    exists (Some t'). split; [|done]. rewrite total_snoc, Ht. simpl. destruct t; [by rewrite Ht'|by injection Ht' as <-].
  - exists t. rewrite app_nil_r. split; [done|]. eapply (credit_other _ main other cur); try done.
    intros (Ha & Hb & Hd). rewrite Ha, Hb, Hd, !Z.eqb_refl in *. done.
Qed.

Lemma deferred_balance_aux m main other bal t :
  mIsNative bal = amount_isSWT bal → stores m main other (currency (mIssue bal)) t →
  strip <$> adjustedBalance m main other bal
  = match t with None => Ok (strip bal) | Some s => op_sub (strip bal) s end.
Proof.
  intros Hb Hst.  unfold adjustedBalance, stores in *.
  destruct (m !! makeKey main other _) as [v|] eqn:E; [|by subst t].
  replace (let '(low, high) := v in if main <? other then op_sub bal low else op_sub bal high)
    with (op_sub bal (side main other v)) by (unfold side; destruct v; simpl; by case_if).
  rewrite <- op_sub_strip, Hst. destruct t as [s|]; [done|]. simpl.
  unfold op_sub, throwComparable.
  assert (isComparable (strip bal) (zero_of (currency (mIssue bal))) = true) as ->; [|done].
  unfold isComparable, zero_of. simpl. rewrite Hb. unfold amount_isSWT. destruct (isSWT _); [done|apply Z.eqb_refl].
Qed.

(** C15: after any sequence of credits the adjusted balance is the balance less the sum of
    what [main] received from [other] in that currency, in the order it was received (up to
    the issuer field, which arithmetic ignores): credits in the other direction, between
    other accounts and in other currencies have no influence. *)
Theorem deferred_balance cs m main other bal :
  main ≠ other → Forall credit_ok cs → run ∅ cs = Ok m → mIsNative bal = amount_isSWT bal →
  ∃ t, total (received main other (currency (mIssue bal)) cs) = Ok t
    ∧ strip <$> adjustedBalance m main other bal
      = match t with None => Ok (strip bal) | Some s => op_sub (strip bal) s end.
Proof.
  intros Hne Hok Hrun Hb. destruct (run_stores cs m main other (currency (mIssue bal)) Hne Hok Hrun) as (t & Ht & Hst).
  exists t. split; [done|]. by apply deferred_balance_aux.
Qed.

Definition ex_c1 : STAmount := mkSTAmount (mkIssue 5 6) 3000000000000000 (-15) false false.
Definition ex_c2 : STAmount := mkSTAmount (mkIssue 5 7) 1000000000000000 (-15) false false.
Definition ex_cs : list Credit := [mkCredit 1 2 ex_c1; mkCredit 2 1 ex_c2; mkCredit 1 2 ex_c2; mkCredit 3 2 ex_c1].

Lemma deferred_balance_witness :
  ∃ m, run ∅ ex_cs = Ok m ∧
    strip <$> adjustedBalance m 2 1 (mkSTAmount (mkIssue 5 1) 9000000000000000 (-15) false false)
    = Ok (mkSTAmount (mkIssue 5 0) 5000000000000000 (-15) false false).
Proof.
  destruct (run ∅ ex_cs) as [m|] eqn:Hm; [|by vm_compute in Hm]. exists m. split; [done|].
  destruct (deferred_balance ex_cs m 2 1 (mkSTAmount (mkIssue 5 1) 9000000000000000 (-15) false false)) as (t & Ht & H).
  - lia.
  - repeat (apply Forall_cons_2; [split_and!; done|]). apply Forall_nil_2.
  - done.
  - done.
  - rewrite H. vm_compute in Ht. injection Ht as <-. vm_compute. reflexivity.
Defined.

(** ** Native credits are deferred exactly *)

Definition sum_values (l : list STAmount) : Z := foldr (λ a s, mValue a + s) 0 l.

Lemma sum_values_nonneg l : Forall (λ a, 0 <= mValue a) l → 0 <= sum_values l.
Proof. induction 1; simpl; lia. Qed.

Lemma native_strip a :
  canonical a = true → mIsNegative a = false → isSWT (currency (mIssue a)) = true → strip a = mkNative (mValue a) false.
Proof.
  intros Hc Hn Hs. assert (amount_isSWT a = true) as Hs' by done.
  apply canonical_iff in Hc as [_ Hnat _ Ho _|? _ _ _ _|? _ _ _]; [|congruence..].
  unfold strip, mkNative. rewrite Ho, Hnat, Hn, andb_false_r. unfold isSWT in Hs. zbool. by rewrite Hs.
Qed.

Lemma mkNative_canonical n : 0 <= n <= cMaxNativeN → canonical (mkNative n false) = true.
Proof. intros Hn. apply canonical_iff, shape_native; simpl; try done. intros. by destruct (n =? 0). Qed.

Lemma mkNative_add n k :
  0 <= n → 0 <= k → n + k <= cMaxNativeN → op_add (mkNative n false) (mkNative k false) = Ok (mkNative (n + k) false).
Proof.
  intros Hn Hk Hs. pose proof (mkNative_canonical n ltac:(lia)) as Hc1. pose proof (mkNative_canonical k ltac:(lia)) as Hc2.
  unfold op_add, throwComparable. rewrite !is_zero_iff. cbn [isComparable mkNative mIsNative mbind result_bind mValue].
  destruct (k =? 0) eqn:E; zbool; [by rewrite E, Z.add_0_r|].
  destruct (n =? 0) eqn:E2; zbool.
  { subst n. rewrite Z.add_0_l. exact (add_zero_left (mkNative 0 false) (mkNative k false) Hc1 Hc2 eq_refl). }
  unfold getSNValue. cbn [mIsNative mValue mIsNegative negb mkNative]. rewrite !andb_false_r. cbn [mbind result_bind].
  unfold cMaxNativeN in *. rewrite (s64_id n), (s64_id k), s64_id by mint_range. unfold mkNativeS, set_s64, mkNative.
  rewrite (proj2 (Z.ltb_ge _ _)) by lia. rewrite u64_id by mint_range. by rewrite andb_false_r.
Qed.

Lemma native_sum l n :
  Forall (λ a, canonical a = true ∧ mIsNegative a = false ∧ isSWT (currency (mIssue a)) = true) l →
  0 <= n → n + sum_values l <= cMaxNativeN →
  sum_from (mkNative n false) (map strip l) = Ok (mkNative (n + sum_values l) false).
Proof.
  intros Hl. revert n. induction Hl as [|a l (Hc & Hn & Hs) Hl IH]; intros n H0 Hmax.
  { simpl. by rewrite Z.add_0_r. }
  assert (0 <= sum_values l).
  { apply sum_values_nonneg. eapply Forall_impl; [exact Hl|]. intros b (Hb & _). apply canonical_value in Hb. lia. }
  pose proof (canonical_value a Hc). simpl in Hmax. cbn [map sum_from]. rewrite native_strip by done.
  rewrite mkNative_add by lia. cbn [mbind result_bind]. rewrite IH by lia. simpl. by rewrite Z.add_assoc.
Qed.

Lemma native_total l :
  Forall (λ a, canonical a = true ∧ mIsNegative a = false ∧ isSWT (currency (mIssue a)) = true) l →
  sum_values l <= cMaxNativeN →
  total l = Ok (match l with [] => None | _ => Some (mkNative (sum_values l) false) end).
Proof.
  intros Hl Hmax. destruct l as [|a l]; [done|]. apply Forall_cons in Hl as [(Hc & Hn & Hs) Hl].
  unfold total. cbn [map]. pose proof (canonical_value a Hc). rewrite native_strip, native_sum by (done || lia). done.
Qed.

Lemma native_sub bal n :
  canonical bal = true → isSWT (currency (mIssue bal)) = true → 0 <= n <= cMaxNativeN →
  ∃ r, op_sub (strip bal) (mkNative n false) = Ok r ∧ amount_val r = amount_val bal - amount_val (mkNative n false).
Proof.
  intros Hc Hs Hn. pose proof (mkNative_canonical n Hn) as Hc2. pose proof (canonical_native bal Hc) as Hnat.
  unfold amount_isSWT in Hnat. rewrite Hs in Hnat. unfold op_sub, throwComparable, isComparable.
  cbn [strip mIsNative mkNative]. rewrite Hnat, is_zero_iff. change (mValue (mkNative n false)) with n. cbn [mbind result_bind].
  destruct (n =? 0) eqn:E; zbool.
  { subst. eexists. split; [done|]. unfold amount_val at 3. cbn. rewrite Z.sub_0_r. done. }
  destruct (native_add (strip bal) (mkNative n false)) as (-> & -> & Hb1 & Hb2 & Ho1 & _); [done..|].
  cbn [mbind result_bind]. eexists. split; [reflexivity|].
  unfold cMaxNativeN in *. rewrite s64_id by mint_range.
  destruct (mkNativeS_val (signed (strip bal) - signed (mkNative n false))) as [Hv ->]; [mint_range|].
  rewrite Hv, !amount_val_signed. cbn [mkNative mOffset strip] in *. rewrite Ho1. unfold sval.
  change (signed (strip bal)) with (signed bal). lia.
Qed.

(** Native credits are withheld exactly: the adjusted balance is the balance less what
    was received; so an account that receives native currency and sees its balance grow by
    as much can spend no more than before. *)
Theorem deferred_native_exact cs m main other bal :
  main ≠ other → Forall credit_ok cs → run ∅ cs = Ok m →
  canonical bal = true → isSWT (currency (mIssue bal)) = true →
  let got := received main other (currency (mIssue bal)) cs in
  sum_values got <= cMaxNativeN →
  ∃ r, adjustedBalance m main other bal = Ok r
    ∧ amount_val r = amount_val bal - sval 100 (sum_values got) 0.
Proof.
  intros Hne Hok Hrun Hc Hs got Hmax.
  destruct (run_stores cs m main other (currency (mIssue bal)) Hne Hok Hrun) as (t & Ht & Hst).
  assert (Forall (λ a, canonical a = true ∧ mIsNegative a = false ∧ isSWT (currency (mIssue a)) = true) got) as Hgot.
  { unfold got, received. rewrite Forall_forall in Hok. apply Forall_forall. intros a Ha. apply list_elem_of_In, in_map_iff in Ha as (c & <- & Hin).
    apply filter_In in Hin as [Hin Hf]. zbool. apply list_elem_of_In in Hin. destruct (Hok c Hin) as (_ & ? & ?).
    split_and!; [done|done|]. congruence. }
  fold got in Ht. rewrite native_total in Ht by done. injection Ht as <-.
  pose proof (deferred_balance_aux m main other bal _ (canonical_native bal Hc) Hst) as Hadj.
  assert (0 <= sum_values got <= cMaxNativeN) as Hrange.
  { split; [|done]. apply sum_values_nonneg. eapply Forall_impl; [exact Hgot|].
    intros b (Hb & _). apply canonical_value in Hb. lia. }
  destruct (native_sub bal (sum_values got) Hc Hs Hrange) as (r & Hr & Hv).
  assert (∃ r', strip <$> adjustedBalance m main other bal = Ok r' ∧ amount_val r' = amount_val r) as (r' & Hr' & Hv').
  { destruct got as [|a l] eqn:Eg; [|by exists r; rewrite Hadj].
    exists (strip bal). split; [done|]. rewrite Hv. change (amount_val (mkNative (sum_values []) false)) with 0.
    change (amount_val (strip bal)) with (amount_val bal). lia. }
  apply fmap_Ok in Hr' as (r0 & Hr0 & ->). exists r0. split; [done|].
  change (amount_val (strip r0)) with (amount_val r0) in Hv'. rewrite Hv', Hv. f_equal.
  unfold amount_val. cbn. rewrite andb_false_r. done.
Qed.

Lemma deferred_native_exact_witness :
  ∃ m r, run ∅ [mkCredit 1 2 (mkNative 30 false); mkCredit 2 1 (mkNative 5 false); mkCredit 1 2 (mkNative 12 false)] = Ok m
    ∧ adjustedBalance m 2 1 (mkNative 100 false) = Ok r ∧ amount_val r = sval 100 58 0.
Proof.
  destruct (run ∅ [mkCredit 1 2 (mkNative 30 false); mkCredit 2 1 (mkNative 5 false); mkCredit 1 2 (mkNative 12 false)])
    as [m|] eqn:Hm; [|by vm_compute in Hm]. exists m.
  destruct (deferred_native_exact [mkCredit 1 2 (mkNative 30 false); mkCredit 2 1 (mkNative 5 false); mkCredit 1 2 (mkNative 12 false)]
    m 2 1 (mkNative 100 false)) as (r & Hr & Hv).
  - lia.
  - repeat (apply Forall_cons_2; [split_and!; done|]). apply Forall_nil_2.
  - exact Hm.
  - reflexivity.
  - reflexivity.
  - vm_compute. discriminate.
  - exists r. split; [done|]. split; [exact Hr|]. rewrite Hv. reflexivity.
Defined.
