(* ===== verification/EntrySet.v ===== *)
(** * LedgerEntrySet: the entries of a ledger under a transaction

    Model of the entry cache of [src/src/ledger/LedgerEntrySet.h] and
    [LedgerEntrySet.cpp], and of [TransactionEngine::txnWrite], which commits it.  A set
    overlays a ledger: it caches, creates, modifies and deletes entries, and only the
    commit changes the ledger.

    Entries are shared objects: the code passes pointers around and writes through them, and
    copies of a set share them.  So they live in a heap, [World], and a set holds their
    addresses; the sequence number of an entry says which copy of the set may write to it
    ([getEntry] copies on read).  An [SLE::pointer] is an address together with the index of the
    entry, which never changes.  The ledger is its sorted map of entries.  The asserts are
    hypotheses of the theorems; transaction metadata ([mSet]) is not modelled. *)

From S2P Require Import Prelude OrdMap Issue Ter STAmount DeferredCredits.

Section entryset.
  Context {SLE : Type}.

(** ** Heap *)

Record World := mkWorld { w_obj : gmap Z SLE; w_next : Z }.

(** [std::make_shared<SLE> (...)] *)
Definition alloc (w : World) (v : SLE) : Z * World :=
  (w_next w, mkWorld (<[w_next w := v]> (w_obj w)) (w_next w + 1)).

(** [sle->setField... (...)]: a write through a pointer *)
Definition write (w : World) (p : Z) (v : SLE) : World := mkWorld (<[p := v]> (w_obj w)) (w_next w).

(** ** State *)

Inductive LedgerEntryAction := taaNONE | taaCACHED | taaMODIFY | taaDELETE | taaCREATE.

Record LedgerEntrySetEntry := mkLSE { mEntry : Z; mAction : LedgerEntryAction; e_seq : Z }.

Record LedgerEntrySet := mkLES {
  mLedger : list (Z * SLE);
  mEntries : list (Z * LedgerEntrySetEntry);
  mDeferredCredits : option DeferredCredits;
  mParams : Z;
  mSeq : Z;
  mImmutable : bool
}.

Definition newLES (ledger : list (Z * SLE)) (tep : Z) (immutable : bool) : LedgerEntrySet :=
  mkLES ledger [] None tep 0 immutable.

Definition set_entries (s : LedgerEntrySet) (m : list (Z * LedgerEntrySetEntry)) : LedgerEntrySet :=
  mkLES (mLedger s) m (mDeferredCredits s) (mParams s) (mSeq s) (mImmutable s).

Definition init (s : LedgerEntrySet) (ledger : list (Z * SLE)) (params : Z) : LedgerEntrySet :=
  mkLES ledger [] (credits_clear <$> mDeferredCredits s) params 0 (mImmutable s).

Definition les_clear (s : LedgerEntrySet) : LedgerEntrySet :=
  mkLES (mLedger s) [] (credits_clear <$> mDeferredCredits s) (mParams s) (mSeq s) (mImmutable s).

Definition duplicate (s : LedgerEntrySet) : LedgerEntrySet :=
  mkLES (mLedger s) (mEntries s) (mDeferredCredits s) tapNONE (mSeq s + 1) false.

Definition bumpSeq (s : LedgerEntrySet) : LedgerEntrySet :=
  mkLES (mLedger s) (mEntries s) (mDeferredCredits s) (mParams s) (mSeq s + 1) (mImmutable s).

(** Everything but [mImmutable] is exchanged. *)
Definition swapWith (s e : LedgerEntrySet) : LedgerEntrySet * LedgerEntrySet :=
  (mkLES (mLedger e) (mEntries e) (mDeferredCredits e) (mParams e) (mSeq e) (mImmutable s),
   mkLES (mLedger s) (mEntries s) (mDeferredCredits s) (mParams s) (mSeq s) (mImmutable e)).

(** ** Entries *)

(** Copy on read: the entry and its action *)
Definition getEntry (w : World) (s : LedgerEntrySet) (index : Z)
    : World * LedgerEntrySet * option Z * LedgerEntryAction :=
  match om_find index (mEntries s) with
  | None => (w, s, None, taaNONE)
  | Some e =>
      if negb (e_seq e =? mSeq s) then
        match w_obj w !! mEntry e with
        | Some v =>
            let '(p, w) := alloc w v in
            (w, set_entries s (om_set index (mkLSE p (mAction e) (mSeq s)) (mEntries s)), Some p, mAction e)
        | None => (w, s, None, taaNONE)
        end
      else (w, s, Some (mEntry e), mAction e)
  end.

(** [entryCache (SLE::ref)] *)
Definition entryCacheRef (s : LedgerEntrySet) (index p : Z) : result LedgerEntrySet :=
  match om_find index (mEntries s) with
  | None => Ok (set_entries s (om_set index (mkLSE p taaCACHED (mSeq s)) (mEntries s)))
  | Some e =>
      match mAction e with
      | taaCACHED => Ok (set_entries s (om_set index (mkLSE p taaCACHED (mSeq s)) (mEntries s)))
      | _ => Throw "Cache after modify/delete/create"
      end
  end.

Definition is_delete (a : LedgerEntryAction) : bool := match a with taaDELETE => true | _ => false end.

(** [entryCache (letType, index)]: [getSLE] and [getSLEi] both give the ledger's entry. *)
Definition entryCache (w : World) (s : LedgerEntrySet) (index : Z) : result (World * LedgerEntrySet * option Z) :=
  if index =? 0 then Ok (w, s, None)
  else
    let '(w, s, sleEntry, action) := getEntry w s index in
    match sleEntry with
    | None =>
        match om_find index (mLedger s) with
        | Some v => let '(p, w) := alloc w v in s ← entryCacheRef s index p; Ok (w, s, Some p)
        | None => Ok (w, s, None)
        end
    | Some p => Ok (w, s, if is_delete action then None else Some p)
    end.

(** [entryCreate (SLE::ref)] *)
Definition entryCreateRef (s : LedgerEntrySet) (index p : Z) : result LedgerEntrySet :=
  match om_find index (mEntries s) with
  | None => Ok (set_entries s (om_set index (mkLSE p taaCREATE (mSeq s)) (mEntries s)))
  | Some e =>
      match mAction e with
      | taaDELETE => Ok (set_entries s (om_set index (mkLSE p taaMODIFY (mSeq s)) (mEntries s)))
      | taaMODIFY => Throw "Create after modify"
      | taaCREATE => Throw "Create after create"
      | taaCACHED => Throw "Create after cache"
      | taaNONE => Throw "Unknown taa"
      end
  end.

(** [entryCreate (letType, index)]: [v] is the new entry of that type. *)
Definition entryCreate (w : World) (s : LedgerEntrySet) (index : Z) (v : SLE) : result (World * LedgerEntrySet * Z) :=
  let '(p, w) := alloc w v in s ← entryCreateRef s index p; Ok (w, s, p).

Definition entryModify (s : LedgerEntrySet) (index p : Z) : result LedgerEntrySet :=
  match om_find index (mEntries s) with
  | None => Ok (set_entries s (om_set index (mkLSE p taaMODIFY (mSeq s)) (mEntries s)))
  | Some e =>
      match mAction e with
      | taaCACHED => Ok (set_entries s (om_set index (mkLSE p taaMODIFY (mSeq s)) (mEntries s)))
      | taaCREATE | taaMODIFY => Ok (set_entries s (om_set index (mkLSE p (mAction e) (mSeq s)) (mEntries s)))
      | taaDELETE => Throw "Modify after delete"
      | taaNONE => Throw "Unknown taa"
      end
  end.

Definition entryDelete (s : LedgerEntrySet) (index p : Z) : result LedgerEntrySet :=
  match om_find index (mEntries s) with
  | None => Ok (set_entries s (om_set index (mkLSE p taaDELETE (mSeq s)) (mEntries s)))
  | Some e =>
      match mAction e with
      | taaCACHED | taaMODIFY => Ok (set_entries s (om_set index (mkLSE p taaDELETE (mSeq s)) (mEntries s)))
      | taaCREATE => Ok (set_entries s (om_erase index (mEntries s)))
      | taaDELETE => Ok s
      | taaNONE => Throw "Unknown taa"
      end
  end.

(** ** Iteration *)

(** [Ledger::getNextLedgerIndex]: the first key above, or 0 *)
Fixpoint ledger_next {V} (m : list (Z * V)) (h : Z) : Z :=
  match m with
  | [] => 0
  | (k, _) :: m => if h <? k then k else ledger_next m h
  end.

(** [do ... while]: skip ledger entries the set has deleted.  Each round moves to a higher
    key, so the size of the ledger bounds the rounds. *)
Fixpoint skip_deleted (fuel : nat) (s : LedgerEntrySet) (h : Z) : Z :=
  match fuel with
  | O => 0
  | S fuel =>
      let n := ledger_next (mLedger s) h in
      match om_find n (mEntries s) with
      | Some e => if is_delete (mAction e) then skip_deleted fuel s n else n
      | None => n
      end
  end.

(** [for (it = upper_bound (uHash); ...)] *)
Fixpoint set_next (m : list (Z * LedgerEntrySetEntry)) (h : Z) : option Z :=
  match m with
  | [] => None
  | (k, e) :: m => if (h <? k) && negb (is_delete (mAction e)) then Some k else set_next m h
  end.

Definition getNextLedgerIndex (s : LedgerEntrySet) (uHash : Z) : Z :=
  let ledgerNext := skip_deleted (S (length (mLedger s))) s uHash in
  match set_next (mEntries s) uHash with
  | Some k => if negb (ledgerNext =? 0) && (ledgerNext <? k) then ledgerNext else k
  | None => ledgerNext
  end.

Definition getNextLedgerIndex_end (s : LedgerEntrySet) (uHash uEnd : Z) : Z :=
  let next := getNextLedgerIndex s uHash in
  if next >? uEnd then 0 else next.

(** ** Only the entries of a set change *)

Definition same_set (s s' : LedgerEntrySet) : Prop := s' = set_entries s (mEntries s').

Lemma same_set_refl s : same_set s s.
Proof. by destruct s. Qed.
Lemma same_set_trans s1 s2 s3 : same_set s1 s2 → same_set s2 s3 → same_set s1 s3.
Proof. unfold same_set. intros H1 H2. rewrite H2, H1. done. Qed.
Lemma same_set_entries s m : same_set s (set_entries s m).
Proof. done. Qed.

Lemma entryCache_same w s i w' s' r : entryCache w s i = Ok (w', s', r) → same_set s s'.
Proof.
  unfold entryCache, getEntry, entryCacheRef. cbn [alloc]. intros H.
  repeat (case_match; res_inv; simplify_eq; try apply same_set_refl; try apply same_set_entries).
Qed.
Lemma entryModify_same s i p s' : entryModify s i p = Ok s' → same_set s s'.
Proof.
  unfold entryModify. intros H. repeat (case_match; simplify_eq; try apply same_set_refl; try apply same_set_entries).
Qed.
Lemma entryDelete_same s i p s' : entryDelete s i p = Ok s' → same_set s s'.
Proof.
  unfold entryDelete. intros H. repeat (case_match; simplify_eq; try apply same_set_refl; try apply same_set_entries).
Qed.
Lemma entryCreate_same w s i v w' s' p : entryCreate w s i v = Ok (w', s', p) → same_set s s'.
Proof.
  unfold entryCreate, entryCreateRef. cbn [alloc]. intros H. res_inv. simplify_eq.
  repeat (case_match; simplify_eq; try apply same_set_refl; try apply same_set_entries).
Qed.

(** ** Commit *)

(** [Ledger::writeBack]: without [lepCREATE] a missing entry is reported and not written. *)
Definition writeBack (create : bool) (ledger : list (Z * SLE)) (index : Z) (v : SLE) : list (Z * SLE) :=
  match om_find index ledger with
  | None => if create then om_set index v ledger else ledger
  | Some _ => om_set index v ledger
  end.

Definition write_entry (w : World) (ledger : list (Z * SLE)) (it : Z * LedgerEntrySetEntry) : list (Z * SLE) :=
  let '(index, e) := it in
  match mAction e, w_obj w !! mEntry e with
  | taaCREATE, Some v => writeBack true ledger index v
  | taaMODIFY, Some v => writeBack false ledger index v
  | taaDELETE, _ => om_erase index ledger
  | _, _ => ledger
  end.

(** [TransactionEngine::txnWrite] *)
Definition txnWrite (w : World) (s : LedgerEntrySet) : list (Z * SLE) :=
  foldl (write_entry w) (mLedger s) (mEntries s).

(** ** The map a set stands for *)

Definition lookup_set (w : World) (s : LedgerEntrySet) (i : Z) : option SLE :=
  match om_find i (mEntries s) with
  | Some e => if is_delete (mAction e) then None else w_obj w !! mEntry e
  | None => om_find i (mLedger s)
  end.

(** What is kept about each entry: its object exists, belongs to this or an earlier copy of
    the set, and is marked as created exactly when the ledger does not have it. *)
Definition entry_ok (w : World) (s : LedgerEntrySet) (i : Z) (e : LedgerEntrySetEntry) : Prop :=
  is_Some (w_obj w !! mEntry e) ∧ e_seq e <= mSeq s
  ∧ match mAction e with
    | taaNONE => False
    | taaCREATE => om_find i (mLedger s) = None
    | _ => is_Some (om_find i (mLedger s))
    end.

Record inv (w : World) (s : LedgerEntrySet) : Prop := mkInv {
  inv_ledger : om_sorted (mLedger s);
  inv_sorted : om_sorted (mEntries s);
  inv_entry i e : om_find i (mEntries s) = Some e → entry_ok w s i e;
  inv_inj i j e f : om_find i (mEntries s) = Some e → om_find j (mEntries s) = Some f → mEntry e = mEntry f → i = j;
  inv_fresh p : is_Some (w_obj w !! p) → p < w_next w
}.

(** [p] is the set's own pointer to entry [i], as [entryCache] and [entryCreate] return it. *)
Definition held (s : LedgerEntrySet) (i p : Z) : Prop :=
  ∃ e, om_find i (mEntries s) = Some e ∧ mEntry e = p ∧ e_seq e = mSeq s ∧ is_delete (mAction e) = false.

Lemma inv_new ledger tep im : om_sorted ledger → inv (mkWorld ∅ 0) (newLES ledger tep im).
Proof.
  intros Hl. split; simpl; try done; [constructor|]. intros p [? Hp]. by rewrite lookup_empty in Hp.
Qed.

(** Replacing the record of an entry by one whose object no other entry has *)
Lemma set_entry_inv w s i p a :
  inv w s → is_Some (w_obj w !! p) →
  (∀ j e, om_find j (mEntries s) = Some e → mEntry e = p → j = i) →
  match a with
  | taaNONE => False
  | taaCREATE => om_find i (mLedger s) = None
  | _ => is_Some (om_find i (mLedger s))
  end →
  inv w (set_entries s (om_set i (mkLSE p a (mSeq s)) (mEntries s))).
Proof.
  intros [Hl Hs He Hi Hf] Hp Hu Ha. split; simpl; try done; [by apply om_set_sorted|..].
  - intros j e. rewrite om_find_set by done. destruct (j =? i) eqn:E; zbool.
    + intros [= <-]. subst j. split_and!; simpl; [done|lia|done].
    + apply He.
  - intros j k e f. rewrite !om_find_set by done.
    destruct (j =? i) eqn:E1, (k =? i) eqn:E2; zbool; subst; try done.
    + intros [= <-] Hk Hpk. symmetry. by eapply Hu.
    + intros Hj [= <-] Hpj. by eapply Hu.
    + apply Hi.
Qed.

Lemma lookup_set_set w s i p a j :
  om_sorted (mEntries s) →
  lookup_set w (set_entries s (om_set i (mkLSE p a (mSeq s)) (mEntries s))) j
  = if j =? i then (if is_delete a then None else w_obj w !! p) else lookup_set w s j.
Proof. intros Hs. unfold lookup_set. simpl. rewrite om_find_set by done. by destruct (j =? i). Qed.

Lemma alloc_inv w s v :
  inv w s →
  inv (alloc w v).2 s ∧ (∀ j, lookup_set (alloc w v).2 s j = lookup_set w s j)
  ∧ w_obj (alloc w v).2 !! w_next w = Some v
  ∧ (∀ j e, om_find j (mEntries s) = Some e → mEntry e ≠ w_next w).
Proof.
  intros [Hl Hs He Hi Hf].
  assert (∀ j e, om_find j (mEntries s) = Some e → mEntry e ≠ w_next w) as Hne.
  { intros j e Hj Heq. destruct (He j e Hj) as (Hp & _). apply Hf in Hp. lia. }
  split_and!.
  - split; simpl; try done.
    + intros j e Hj. destruct (He j e Hj) as (Hp & Hq & Hr). split_and!; try done. simpl.
      by rewrite lookup_insert_ne by (symmetry; by eapply Hne).
    + intros p [x Hx]. destruct (decide (p = w_next w)) as [->|Hp]; [lia|].
      rewrite lookup_insert_ne in Hx by done. specialize (Hf p (mk_is_Some _ _ Hx)). lia.
  - intros j. unfold lookup_set. destruct (om_find j (mEntries s)) as [e|] eqn:Ej; [|done].
    simpl. by rewrite lookup_insert_ne by (symmetry; by eapply Hne).
  - simpl. apply lookup_insert_eq.
  - done.
Qed.

Lemma getEntry_spec w s i :
  inv w s →
  let '(w', s', r, a) := getEntry w s i in
  inv w' s' ∧ (∀ j, lookup_set w' s' j = lookup_set w s j) ∧ mLedger s' = mLedger s ∧ mSeq s' = mSeq s
  ∧ match om_find i (mEntries s) with
    | None => r = None ∧ a = taaNONE ∧ s' = s
    | Some e => ∃ p, r = Some p ∧ a = mAction e ∧ om_find i (mEntries s') = Some (mkLSE p a (mSeq s))
    end.
Proof.
  intros Hinv. unfold getEntry. destruct (om_find i (mEntries s)) as [e|] eqn:E; [|by split_and!].
  destruct (inv_entry _ _ Hinv i e E) as ([v Hv] & Hle & Ha). rewrite Hv.
  destruct (e_seq e =? mSeq s) eqn:Eseq; cbn [negb]; zbool.
  - split_and!; try done. exists (mEntry e). split_and!; try done. rewrite <- Eseq. by destruct e.
  - destruct (alloc_inv w s v Hinv) as (Hinv' & Hview & Hnew & Hne). destruct (alloc w v) as [p w'] eqn:Ep.
    injection Ep as <- <-. cbn [snd] in *. pose proof (inv_sorted _ _ Hinv') as Hs.
    assert (∀ j f, om_find j (mEntries s) = Some f → mEntry f = w_next w → j = i) as Hu by (intros j f Hj Hf; by destruct (Hne j f Hj)).
    split_and!; try done.
    + by apply set_entry_inv.
    + intros j. rewrite lookup_set_set by done. rewrite <- Hview. destruct (j =? i) eqn:Ej; zbool; [|done].
      subst j. unfold lookup_set. rewrite E. destruct (is_delete (mAction e)); [done|].
      cbn [w_obj]. by rewrite lookup_insert_eq, lookup_insert_ne by (symmetry; by eapply Hne).
    + eexists. split_and!; try done. simpl. rewrite om_find_set by done. by rewrite Z.eqb_refl.
Qed.

(** ** Each operation on the map *)

Lemma entryCache_spec w s i :
  inv w s → i ≠ 0 →
  ∃ w' s' r, entryCache w s i = Ok (w', s', r) ∧ inv w' s'
    ∧ (∀ j, lookup_set w' s' j = lookup_set w s j) ∧ mLedger s' = mLedger s ∧ mSeq s' = mSeq s
    ∧ match r with
      | None => lookup_set w s i = None
      | Some p => held s' i p ∧ w_obj w' !! p = lookup_set w s i
      end.
Proof.
  intros Hinv Hi. unfold entryCache. rewrite (proj2 (Z.eqb_neq i 0) Hi).
  pose proof (getEntry_spec w s i Hinv) as Hg. destruct (getEntry w s i) as [[[w1 s1] r1] a1].
  destruct Hg as (Hinv1 & Hv1 & Hl1 & Hq1 & Hcase).
  destruct (om_find i (mEntries s)) as [e|] eqn:E.
  - destruct Hcase as (p & -> & -> & Hf). exists w1, s1. eexists. split_and!; try done.
    destruct (is_delete (mAction e)) eqn:Ed.
    + unfold lookup_set. by rewrite E, Ed.
    + split; [exists (mkLSE p (mAction e) (mSeq s)); split_and!; simpl; congruence|].
      rewrite <- (Hv1 i). unfold lookup_set. rewrite Hf. simpl. by rewrite Ed.
  - destruct Hcase as (-> & -> & ->). destruct (om_find i (mLedger s)) as [v|] eqn:El.
    + destruct (alloc_inv w1 s v Hinv1) as (Hinv' & Hview & Hnew & Hne). destruct (alloc w1 v) as [p w'] eqn:Ep.
      injection Ep as <- <-. cbn [snd] in *. unfold entryCacheRef. rewrite E. cbn [mbind result_bind].
      pose proof (inv_sorted _ _ Hinv') as Hs. do 3 eexists. split_and!; try done.
      * apply set_entry_inv; try done. intros j f Hj Hf. by destruct (Hne j f Hj).
      * intros j. rewrite lookup_set_set by done. destruct (j =? i) eqn:Ej; zbool; [|by rewrite Hview].
        subst j. cbn [is_delete]. rewrite Hnew. unfold lookup_set. by rewrite E.
      * split; [|rewrite Hnew; unfold lookup_set; by rewrite E].
        eexists. split; [simpl; rewrite om_find_set, Z.eqb_refl by done; reflexivity|]. done.
    + do 3 eexists. split_and!; try done. unfold lookup_set. by rewrite E.
Qed.

(** A write through the pointer of an entry changes that entry, whichever copy of the set it belongs to. *)
Lemma write_entry_spec w s i e v :
  inv w s → om_find i (mEntries s) = Some e → is_delete (mAction e) = false →
  inv (write w (mEntry e) v) s ∧ (∀ j, lookup_set (write w (mEntry e) v) s j = if j =? i then Some v else lookup_set w s j).
Proof.
  intros [Hl Hs He Hi Hf] Ee Hd. remember (mEntry e) as p eqn:Hp. symmetry in Hp. split.
  - split; simpl; try done.
    + intros j f Hj. destruct (He j f Hj) as ([x Hx] & Hq & Ha). split_and!; try done. simpl.
      destruct (decide (mEntry f = p)) as [->|Hne]; [rewrite lookup_insert_eq; by eexists|].
      rewrite lookup_insert_ne by done. by eexists.
    + intros q [x Hx]. destruct (decide (q = p)) as [->|Hne]; [apply Hf; destruct (He i e Ee) as [Hok _]; by rewrite <- Hp|].
      rewrite lookup_insert_ne in Hx by done. apply Hf. by eexists.
  - intros j. unfold lookup_set. simpl. destruct (j =? i) eqn:Ej; zbool.
    + subst j. by rewrite Ee, Hd, Hp, lookup_insert_eq.
    + destruct (om_find j (mEntries s)) as [f|] eqn:Ef; [|done]. destruct (is_delete (mAction f)); [done|].
      rewrite lookup_insert_ne; [done|]. intros Heq. apply Ej. eapply Hi; [exact Ef|exact Ee|]. congruence.
Qed.

Lemma write_spec w s i p v :
  inv w s → held s i p →
  inv (write w p v) s ∧ (∀ j, lookup_set (write w p v) s j = if j =? i then Some v else lookup_set w s j).
Proof. intros Hinv (e & Ee & <- & _ & Hd). by apply write_entry_spec. Qed.

Lemma held_unique w s i p :
  inv w s → held s i p → ∀ j e, om_find j (mEntries s) = Some e → mEntry e = p → j = i.
Proof. intros Hinv (e & Ee & Hp & _) j f Hj Hf. eapply (inv_inj _ _ Hinv); [done..|]. congruence. Qed.

Lemma entryModify_spec w s i p :
  inv w s → held s i p →
  ∃ s', entryModify s i p = Ok s' ∧ inv w s' ∧ (∀ j, lookup_set w s' j = lookup_set w s j) ∧ held s' i p
    ∧ mLedger s' = mLedger s ∧ mSeq s' = mSeq s.
Proof.
  intros Hinv Hheld. pose proof (held_unique _ _ _ _ Hinv Hheld) as Hu. pose proof (inv_sorted _ _ Hinv) as Hs.
  destruct Hheld as (e & Ee & Hp & Hseq & Hd). destruct (inv_entry _ _ Hinv i e Ee) as (Hok & _ & Ha).
  rewrite Hp in Hok. unfold entryModify. rewrite Ee.
  assert (∀ a, is_delete a = false →
    match a with taaNONE => False | taaCREATE => om_find i (mLedger s) = None | _ => is_Some (om_find i (mLedger s)) end →
    let s' := set_entries s (om_set i (mkLSE p a (mSeq s)) (mEntries s)) in
    inv w s' ∧ (∀ j, lookup_set w s' j = lookup_set w s j) ∧ held s' i p ∧ mLedger s' = mLedger s ∧ mSeq s' = mSeq s) as Hset.
  { intros a Hda Hok'. split_and!; [by apply set_entry_inv| | |done|done].
    - intros j. rewrite lookup_set_set, Hda by done. destruct (j =? i) eqn:Ej; zbool; [|done].
      subst j. unfold lookup_set. by rewrite Ee, Hd, Hp.
    - eexists. split; [simpl; rewrite om_find_set, Z.eqb_refl by done; reflexivity|]. done. }
  destruct (mAction e) eqn:Ea; try done; eexists; (split; [reflexivity|]); by apply Hset.
Qed.

Lemma entryDelete_spec w s i p :
  inv w s → held s i p →
  ∃ s', entryDelete s i p = Ok s' ∧ inv w s'
    ∧ (∀ j, lookup_set w s' j = if j =? i then None else lookup_set w s j)
    ∧ mLedger s' = mLedger s ∧ mSeq s' = mSeq s.
Proof.
  intros Hinv Hheld. pose proof (held_unique _ _ _ _ Hinv Hheld) as Hu. pose proof (inv_sorted _ _ Hinv) as Hs.
  destruct Hheld as (e & Ee & Hp & Hseq & Hd). destruct (inv_entry _ _ Hinv i e Ee) as (Hok & _ & Ha).
  rewrite Hp in Hok. unfold entryDelete. rewrite Ee.
  destruct (mAction e) eqn:Ea; try done; eexists; (split; [reflexivity|]).
  1, 2: split_and!; try done; [by apply set_entry_inv|]; intros j; rewrite lookup_set_set by done; by destruct (j =? i).
  destruct Hinv as [Hl _ He Hi Hf]. split_and!; try done.
  - split; simpl; try done; [by apply om_erase_sorted|..].
    + intros j f. rewrite om_find_erase by done. destruct (j =? i); [done|]. apply He.
    + intros j k f g. rewrite !om_find_erase by done. destruct (j =? i), (k =? i); try done. apply Hi.
  - intros j. unfold lookup_set. simpl. rewrite om_find_erase by done.
    destruct (j =? i) eqn:Ej; zbool; [by subst|done].
Qed.

Lemma entryCreate_spec w s i v :
  inv w s →
  (lookup_set w s i = None →
   ∃ w' s' p, entryCreate w s i v = Ok (w', s', p) ∧ inv w' s' ∧ held s' i p
     ∧ (∀ j, lookup_set w' s' j = if j =? i then Some v else lookup_set w s j)
     ∧ mLedger s' = mLedger s ∧ mSeq s' = mSeq s)
  ∧ ((∃ p, held s i p) → ∃ what, entryCreate w s i v = Throw what).
Proof.
  intros Hinv. destruct (alloc_inv w s v Hinv) as (Hinv' & Hview & Hnew & Hne).
  unfold entryCreate. destruct (alloc w v) as [p w'] eqn:Ep. injection Ep as <- <-. cbn [snd] in *.
  pose proof (inv_sorted _ _ Hinv') as Hs.
  assert (∀ j f, om_find j (mEntries s) = Some f → mEntry f = w_next w → j = i) as Hu by (intros j f Hj Hf; by destruct (Hne j f Hj)).
  unfold entryCreateRef. split.
  - intros Hn. assert (∀ a, is_delete a = false →
      match a with taaNONE => False | taaCREATE => om_find i (mLedger s) = None | _ => is_Some (om_find i (mLedger s)) end →
      let s' := set_entries s (om_set i (mkLSE (w_next w) a (mSeq s)) (mEntries s)) in
      let w' := mkWorld (<[w_next w:=v]> (w_obj w)) (w_next w + 1) in
      inv w' s' ∧ held s' i (w_next w) ∧ (∀ j, lookup_set w' s' j = if j =? i then Some v else lookup_set w s j)
      ∧ mLedger s' = mLedger s ∧ mSeq s' = mSeq s) as Hset.
    { intros a Hda Hok. split_and!; [apply set_entry_inv; try done; by eexists| | |done|done].
      - eexists. split; [simpl; rewrite om_find_set, Z.eqb_refl by done; reflexivity|]. done.
      - intros j. rewrite lookup_set_set, Hda by done. rewrite Hview, Hnew. done. }
    unfold lookup_set in Hn. destruct (om_find i (mEntries s)) as [e|] eqn:Ee.
    + destruct (inv_entry _ _ Hinv i e Ee) as ([x Hx] & _ & Ha). rewrite Hx in Hn.
      destruct (mAction e) eqn:Ea; try done. do 3 eexists. split; [reflexivity|]. by apply Hset.
    + do 3 eexists. split; [reflexivity|]. by apply Hset.
  - intros (p & e & Ee & _ & _ & Hd). rewrite Ee. destruct (mAction e); try done; by eexists.
Qed.

(** ** Held pointers stay valid

    An operation on one entry keeps the pointers to the others, and reading through a held
    pointer reads the map. *)

Lemma held_lookup w s i p : inv w s → held s i p → w_obj w !! p = lookup_set w s i.
Proof. intros _ (e & Ee & <- & _ & Hd). unfold lookup_set. by rewrite Ee, Hd. Qed.

Lemma held_inj w s i j p : inv w s → held s i p → held s j p → i = j.
Proof. intros Hinv (e & Ee & He & _) (f & Ef & Hf & _). eapply (inv_inj _ _ Hinv); [done..|congruence]. Qed.

Lemma held_fun s i p q : held s i p → held s i q → p = q.
Proof. intros (e & Ee & He & _) (f & Ef & Hf & _). congruence. Qed.

Lemma held_set s i p a j q :
  om_sorted (mEntries s) → held s j q → i ≠ j →
  held (set_entries s (om_set i (mkLSE p a (mSeq s)) (mEntries s))) j q.
Proof.
  intros Hs (e & Ee & He) Hne. exists e. simpl. rewrite om_find_set by done.
  by rewrite (proj2 (Z.eqb_neq j i)) by done.
Qed.

Lemma entryCache_held w s i w' s' r j q :
  om_sorted (mEntries s) → entryCache w s i = Ok (w', s', r) → held s j q → held s' j q.
Proof.
  intros Hs H Hh. unfold entryCache in H. case_if_in H; [by injection H as <- <- <-|].
  unfold getEntry in H. destruct (om_find i (mEntries s)) as [e|] eqn:Ei.
  - destruct (decide (i = j)) as [->|Hne].
    + pose proof Hh as (f & Ef & _ & Hq & _). rewrite Ei in Ef. injection Ef as <-.
      rewrite Hq, Z.eqb_refl in H. cbn [negb] in H. by injection H as <- <- <-.
    + destruct (negb _); [|by injection H as <- <- <-]. destruct (w_obj w !! mEntry e) as [v|].
      * cbn [alloc] in H. injection H as <- <- <-. by apply held_set.
      * destruct (om_find i (mLedger s)); [|by injection H as <- <- <-]. cbn [alloc] in H. unfold entryCacheRef in H.
        rewrite Ei in H. destruct (mAction e); try done. injection H as <- <- <-. by apply held_set.
  - destruct (om_find i (mLedger s)); [|by injection H as <- <- <-]. cbn [alloc] in H. unfold entryCacheRef in H.
    rewrite Ei in H. injection H as <- <- <-. apply held_set; [done|done|]. intros ->. destruct Hh as (f & Ef & _). congruence.
Qed.

Lemma entryModify_held w s i p s' j q :
  inv w s → held s i p → entryModify s i p = Ok s' → held s j q → held s' j q.
Proof.
  intros Hinv Hi H Hj. pose proof (inv_sorted _ _ Hinv) as Hs. destruct (decide (i = j)) as [->|Hne].
  - rewrite (held_fun _ _ _ _ Hj Hi). destruct (entryModify_spec w s j p Hinv Hi) as (s1 & H1 & _ & _ & ? & _). congruence.
  - unfold entryModify in H. repeat case_match; try done; injection H as <-; by apply held_set.
Qed.

Lemma entryDelete_held w s i p s' j q :
  inv w s → entryDelete s i p = Ok s' → i ≠ j → held s j q → held s' j q.
Proof.
  intros Hinv H Hne Hj. pose proof (inv_sorted _ _ Hinv) as Hs.
  unfold entryDelete in H. repeat case_match; try done; injection H as <-; try done; try by apply held_set.
  destruct Hj as (f & Ef & Hf). exists f. simpl. rewrite om_find_erase by done. by rewrite (proj2 (Z.eqb_neq j i)) by done.
Qed.

Lemma entryCreate_held w s i v w' s' p j q :
  inv w s → entryCreate w s i v = Ok (w', s', p) → held s j q → held s' j q.
Proof.
  intros Hinv H Hj. pose proof (inv_sorted _ _ Hinv) as Hs.
  assert (i ≠ j) as Hne.
  { intros ->. destruct (proj2 (entryCreate_spec w s j v Hinv)) as [what Hw]; [by exists q|congruence]. }
  unfold entryCreate in H. cbn [alloc] in H. res_inv. simplify_eq. unfold entryCreateRef in *.
  repeat case_match; try done; simplify_eq; by apply held_set.
Qed.

(** ** Commit *)

(** No entry was written to without being marked as modified or created. *)
Definition clean (w : World) (s : LedgerEntrySet) : Prop :=
  ∀ i e, om_find i (mEntries s) = Some e → mAction e = taaCACHED → w_obj w !! mEntry e = om_find i (mLedger s).

Lemma write_entry_find w L i e j :
  om_sorted L → is_Some (w_obj w !! mEntry e) →
  match mAction e with taaCREATE => True | taaMODIFY => is_Some (om_find i L) | _ => True end →
  om_sorted (write_entry w L (i, e))
  ∧ om_find j (write_entry w L (i, e)) =
      if j =? i then match mAction e with
                     | taaCREATE | taaMODIFY => w_obj w !! mEntry e
                     | taaDELETE => None
                     | _ => om_find i L
                     end
      else om_find j L.
Proof.
  intros HL [v Hv] Ha. unfold write_entry, writeBack. rewrite Hv.
  destruct (mAction e); [destruct (j =? i) eqn:Ej; zbool; by subst| | | |];
    try (destruct (j =? i) eqn:Ej; zbool; by subst).
  - destruct Ha as [x Hx]. rewrite Hx. split; [by apply om_set_sorted|]. by apply om_find_set.
  - split; [by apply om_erase_sorted|]. by apply om_find_erase.
  - destruct (om_find i L); (split; [by apply om_set_sorted|by apply om_find_set]).
Qed.

Lemma txnWrite_fold w m L :
  om_sorted m → om_sorted L →
  (∀ i e, om_find i m = Some e → is_Some (w_obj w !! mEntry e)
     ∧ match mAction e with taaCREATE => True | taaMODIFY => is_Some (om_find i L) | _ => True end) →
  ∀ j, om_find j (foldl (write_entry w) L m) =
    match om_find j m with
    | Some e => match mAction e with
                | taaCREATE | taaMODIFY => w_obj w !! mEntry e
                | taaDELETE => None
                | _ => om_find j L
                end
    | None => om_find j L
    end.
Proof.
  revert L. induction m as [|[i e] m IH]; intros L Hm HL Hok j; [done|].
  pose proof Hm as [Hm' Hall]%om_sorted_cons. pose proof (om_find_lt i m Hall) as Hnone.
  destruct (Hok i e) as [Hv Ha]; [simpl; by rewrite Z.eqb_refl|].
  pose proof (write_entry_find w L i e) as Hw. cbn [foldl]. rewrite IH; [|done|by apply (Hw 0)|].
  - rewrite (proj2 (Hw j HL Hv Ha)). cbn [om_find]. destruct (j =? i) eqn:Ej; zbool; [|done].
    subst j. rewrite Hnone. done.
  - intros k f Hk. assert (k ≠ i) by congruence. destruct (Hok k f) as [Hv' Ha'].
    { simpl. by rewrite (proj2 (Z.eqb_neq k i)). }
    split; [done|]. destruct (mAction f); try done.
    by rewrite (proj2 (Hw k HL Hv Ha)), (proj2 (Z.eqb_neq k i)).
Qed.

Lemma txnWrite_lookup w s i : inv w s → clean w s → om_find i (txnWrite w s) = lookup_set w s i.
Proof.
  intros [Hl Hs He _ _] Hc. unfold txnWrite, lookup_set. rewrite txnWrite_fold; try done.
  - destruct (om_find i (mEntries s)) as [e|] eqn:E; [|done].
    specialize (Hc i e E). destruct (He i e E) as (_ & _ & Ha).
    destruct (mAction e); simpl; try done. by rewrite Hc.
  - intros j e Hj. destruct (He j e Hj) as (Hv & _ & Ha). split; [done|]. by destruct (mAction e).
Qed.

(** ** Isolation of copies *)

Inductive step : World * LedgerEntrySet → World * LedgerEntrySet → Prop :=
| step_cache w s i w' s' r : i ≠ 0 → entryCache w s i = Ok (w', s', r) → step (w, s) (w', s')
| step_create w s i v w' s' p :
    lookup_set w s i = None → entryCreate w s i v = Ok (w', s', p) → step (w, s) (w', s')
| step_modify w s i p s' : held s i p → entryModify s i p = Ok s' → step (w, s) (w, s')
| step_delete w s i p s' : held s i p → entryDelete s i p = Ok s' → step (w, s) (w, s')
| step_write w s i p v : held s i p → step (w, s) (write w p v, s).

(** Objects below [N] are as in [w0], and those the set may write to are above. *)
Record apart (N : Z) (w0 w : World) (s : LedgerEntrySet) : Prop := mkApart {
  apart_young i e : om_find i (mEntries s) = Some e → e_seq e = mSeq s → N <= mEntry e;
  apart_same p : p < N → w_obj w !! p = w_obj w0 !! p;
  apart_next : N <= w_next w
}.

Lemma apart_set N w0 w s i p a :
  om_sorted (mEntries s) → apart N w0 w s → N <= p →
  apart N w0 w (set_entries s (om_set i (mkLSE p a (mSeq s)) (mEntries s))).
Proof.
  intros Hs [Hy Hsame Hn] Hp. split; try done. intros j e. simpl. rewrite om_find_set by done.
  destruct (j =? i); [by intros [= <-]|apply Hy].
Qed.

Lemma apart_alloc N w0 w s v : apart N w0 w s → apart N w0 (alloc w v).2 s.
Proof.
  intros [Hy Hsame Hn]. split; simpl; try done; [|lia]. intros p Hp. rewrite lookup_insert_ne by lia. by apply Hsame.
Qed.

Lemma apart_getEntry N w0 w s i :
  om_sorted (mEntries s) → apart N w0 w s →
  apart N w0 (getEntry w s i).1.1.1 (getEntry w s i).1.1.2 ∧ om_sorted (mEntries (getEntry w s i).1.1.2).
Proof.
  intros Hs Ha. unfold getEntry. destruct (om_find i (mEntries s)) as [e|]; [|done]. destruct (negb _); [|done].
  destruct (w_obj w !! mEntry e) as [v|]; [|done]. cbn. split; [|by apply om_set_sorted].
  apply apart_set; [done| |by apply (apart_next _ _ _ _ Ha)]. by apply (apart_alloc N w0 w s v).
Qed.

Lemma step_apart N w0 c c' :
  step c c' → inv c.1 c.2 → apart N w0 c.1 c.2 → inv c'.1 c'.2 ∧ apart N w0 c'.1 c'.2 ∧ mSeq c'.2 = mSeq c.2.
Proof.
  assert (∀ w s i p, apart N w0 w s → held s i p → N <= p) as Hheld'.
  { intros w s i p Ha (e & Ee & <- & Hq & _). by eapply (apart_young _ _ _ _ Ha). }
  destruct 1 as [w s i w' s' r Hi Hc|w s i v w' s' p Hl Hc|w s i p s' Hh Hc|w s i p s' Hh Hc|w s i p v Hh];
    cbn [fst snd]; intros Hinv Ha; pose proof (inv_sorted _ _ Hinv) as Hs;
    pose proof (apart_next _ _ _ _ Ha) as Hn; pose proof (λ i p, Hheld' w s i p Ha) as Hheld; clear Hheld'.
  - destruct (entryCache_spec w s i Hinv Hi) as (w1 & s1 & r1 & Heq & Hinv1 & _ & _ & Hq & _).
    rewrite Heq in Hc. injection Hc as <- <- <-. split; [done|]. split; [|done].
    unfold entryCache in Heq. rewrite (proj2 (Z.eqb_neq i 0) Hi) in Heq.
    destruct (apart_getEntry N w0 w s i Hs Ha) as [Hg Hgs]. destruct (getEntry w s i) as [[[wg sg] rg] ag]. simpl in Hg, Hgs.
    destruct rg as [p|]; [by injection Heq as <- <- _|].
    destruct (om_find i (mLedger sg)) as [v|]; [|by injection Heq as <- <- _].
    cbn [alloc] in Heq. res_inv. match goal with Hr : entryCacheRef _ _ _ = Ok _ |- _ => unfold entryCacheRef in Hr end.
    pose proof (apart_next _ _ _ _ Hg). pose proof (apart_alloc _ _ _ _ v Hg).
    repeat case_match; res_inv; simplify_eq; by apply apart_set.
  - destruct (entryCreate_spec w s i v Hinv) as [Hcr _]. destruct (Hcr Hl) as (w1 & s1 & p1 & Heq & Hinv1 & _ & _ & _ & Hq).
    rewrite Heq in Hc. injection Hc as <- <- <-. split; [done|]. split; [|done].
    unfold entryCreate in Heq. cbn [alloc] in Heq. res_inv.
    match goal with Hr : entryCreateRef _ _ _ = Ok _ |- _ => unfold entryCreateRef in Hr end.
    pose proof (apart_alloc _ _ _ _ v Ha). repeat case_match; res_inv; simplify_eq; by apply apart_set.
  - destruct (entryModify_spec w s i p Hinv Hh) as (s1 & Heq & Hinv1 & _ & _ & _ & Hq).
    rewrite Heq in Hc. injection Hc as <-. split; [done|]. split; [|done]. unfold entryModify in Heq.
    repeat case_match; simplify_eq; eauto using apart_set.
  - destruct (entryDelete_spec w s i p Hinv Hh) as (s1 & Heq & Hinv1 & _ & _ & Hq).
    rewrite Heq in Hc. injection Hc as <-. split; [done|]. split; [|done]. unfold entryDelete in Heq.
    repeat case_match; simplify_eq; eauto using apart_set.
    destruct Ha as [Hy Hsame _]. split; try done. intros j e. simpl. rewrite om_find_erase by done.
    destruct (j =? i); [done|apply Hy].
  - destruct (write_spec w s i p v Hinv Hh) as [Hinv1 _]. split; [done|]. split; [|done].
    destruct Ha as [Hy Hsame _]. split; try done. intros q Hq. simpl. specialize (Hheld i p Hh).
    rewrite lookup_insert_ne by lia. by apply Hsame.
Qed.

Lemma steps_apart N w0 c c' :
  rtc step c c' → inv c.1 c.2 → apart N w0 c.1 c.2 → inv c'.1 c'.2 ∧ apart N w0 c'.1 c'.2.
Proof.
  induction 1 as [|[w s] [w1 s1] c' Hst _ IH]; intros Hi Ha; [done|].
  destruct (step_apart N w0 _ _ Hst Hi Ha) as (? & ? & _). by apply IH.
Qed.

(** A later copy of the set. *)
Lemma copy_apart w s d :
  inv w s → mEntries d = mEntries s → mLedger d = mLedger s → mSeq d = mSeq s + 1 →
  inv w d ∧ apart (w_next w) w w d.
Proof.
  intros [Hl Hs He Hi Hf] Hent Hled Hseq. split; split; rewrite ?Hent, ?Hled; try done.
  - intros i e Hie. destruct (He i e Hie) as (? & ? & ?). unfold entry_ok. rewrite Hled. split_and!; [done|lia|done].
  - intros i e Hie Hq. destruct (He i e Hie) as (_ & Hle & _). lia.
Qed.

Lemma isolated w0 s d0 w d :
  inv w0 s → mEntries d0 = mEntries s → mLedger d0 = mLedger s → mSeq d0 = mSeq s + 1 →
  rtc step (w0, d0) (w, d) → inv w d ∧ ∀ i, lookup_set w s i = lookup_set w0 s i.
Proof.
  intros Hinv He Hl Hq Hst. destruct (copy_apart w0 s d0 Hinv He Hl Hq) as [Hd Ha].
  destruct (steps_apart _ _ _ _ Hst Hd Ha) as [Hd' [_ Hsame _]]. split; [done|]. intros i. unfold lookup_set.
  destruct (om_find i (mEntries s)) as [e|] eqn:E; [|done]. destruct (is_delete (mAction e)); [done|].
  apply Hsame. apply (inv_fresh _ _ Hinv). by destruct (inv_entry _ _ Hinv i e E).
Qed.

(** ** The next entry *)

Lemma om_find_pos {V} (m : list (Z * V)) k v : Forall (λ p, 0 < p.1) m → om_find k m = Some v → 0 < k.
Proof.
  induction 1 as [|[k' v'] m Hk Hm IH]; simpl; [done|]. case_if; zbool; [by subst|done].
Qed.

Lemma ledger_next_spec {V} (m : list (Z * V)) h :
  om_sorted m → Forall (λ p, 0 < p.1) m →
  let n := ledger_next m h in
  (n = 0 ∧ ∀ i, h < i → om_find i m = None)
  ∨ (0 < n ∧ h < n ∧ is_Some (om_find n m) ∧ ∀ i, h < i < n → om_find i m = None).
Proof.
  intros Hs. induction m as [|[k v] m IH]; intros Hpos; cbn [ledger_next om_find]; [left; done|].
  apply om_sorted_cons in Hs as [Hs Hall]. apply Forall_cons in Hpos as [Hk Hpos]. simpl in Hk.
  destruct (h <? k) eqn:E; zbool.
  - right. rewrite Z.eqb_refl. split_and!; [done|done|by eexists|]. intros i Hi.
    rewrite (proj2 (Z.eqb_neq i k)) by lia. apply om_find_lt. eapply Forall_impl; [exact Hall|]. simpl. lia.
  - destruct (IH Hs Hpos) as [[Hn Hnone]|(Hn1 & Hn2 & Hn3 & Hn4)]; [left|right].
    + split; [done|]. intros i Hi. rewrite (proj2 (Z.eqb_neq i k)) by lia. by apply Hnone.
    + split_and!; [done|done| |].
      * rewrite (proj2 (Z.eqb_neq _ k)) by lia. done.
      * intros i Hi. rewrite (proj2 (Z.eqb_neq i k)) by lia. by apply Hn4.
Qed.

(** How many keys are above [h]: the bound on the rounds of [skip_deleted] *)
Fixpoint above {V} (m : list (Z * V)) (h : Z) : nat :=
  match m with [] => O | (k, _) :: m => if h <? k then S (above m h) else above m h end.

Lemma above_le {V} (m : list (Z * V)) h n : h <= n → (above m n <= above m h)%nat.
Proof. intros Hle. induction m as [|[k v] m IH]; simpl; [done|]. repeat case_if; zbool; lia. Qed.

Lemma above_length {V} (m : list (Z * V)) h : (above m h <= length m)%nat.
Proof. induction m as [|[k v] m IH]; simpl; [done|]. case_if; lia. Qed.

Lemma above_lt {V} (m : list (Z * V)) h n : h < n → is_Some (om_find n m) → (above m n < above m h)%nat.
Proof.
  intros Hlt. induction m as [|[k v] m IH]; simpl; [by intros [? ?]|]. pose proof (above_le m h n ltac:(lia)).
  destruct (n =? k) eqn:E; zbool; intros Hn.
  - subst k. rewrite Z.ltb_irrefl, (proj2 (Z.ltb_lt h n) Hlt). lia.
  - specialize (IH Hn). repeat case_if; zbool; lia.
Qed.

(** The set has deleted entry [i]. *)
Definition deleted (s : LedgerEntrySet) (i : Z) : Prop :=
  ∃ e, om_find i (mEntries s) = Some e ∧ is_delete (mAction e) = true.

Definition keys_pos (s : LedgerEntrySet) : Prop := Forall (λ p, 0 < p.1) (mLedger s).

Lemma not_deleted_0 w s : inv w s → keys_pos s → ¬ deleted s 0.
Proof.
  intros Hinv Hpos (e & He & Hd). destruct (inv_entry w s Hinv 0 e He) as (_ & _ & Ha).
  destruct (mAction e); try done. destruct Ha as [v Hv]. by apply (om_find_pos _ _ _ Hpos) in Hv.
Qed.

Lemma skip_deleted_spec fuel s h :
  om_sorted (mLedger s) → keys_pos s → ¬ deleted s 0 → (above (mLedger s) h < fuel)%nat →
  let n := skip_deleted fuel s h in
  (n = 0 ∧ ∀ i, h < i → is_Some (om_find i (mLedger s)) → deleted s i)
  ∨ (0 < n ∧ h < n ∧ is_Some (om_find n (mLedger s)) ∧ ¬ deleted s n
     ∧ ∀ i, h < i < n → is_Some (om_find i (mLedger s)) → deleted s i).
Proof.
  intros Hl Hp1 Hp2. revert h. induction fuel as [|fuel IH]; intros h Hf; [lia|]. cbn [skip_deleted].
  assert (∀ i, om_find i (mLedger s) = None → ¬ is_Some (om_find i (mLedger s))) as Hno by (intros i ->; by intros [? ?]).
  destruct (ledger_next_spec (mLedger s) h Hl Hp1) as [[Hn Hnone]|(Hn1 & Hn2 & Hn3 & Hn4)]; cbv zeta.
  - rewrite Hn. left. split; [|].
    { destruct (om_find 0 (mEntries s)) as [e|] eqn:E; [|done]. destruct (is_delete (mAction e)) eqn:Ed; [|done].
      destruct Hp2. by exists e. }
     intros i Hi Hs. by destruct (Hno i (Hnone i Hi)).
  - set (n := ledger_next (mLedger s) h) in *.
    assert (∀ i, h < i < n → is_Some (om_find i (mLedger s)) → deleted s i) as Hbetween.
    { intros i Hi Hs. by destruct (Hno i (Hn4 i Hi)). }
    destruct (om_find n (mEntries s)) as [e|] eqn:E; [destruct (is_delete (mAction e)) eqn:Ed|].
    + pose proof (above_lt (mLedger s) h n Hn2 Hn3).
      assert (∀ i, h < i → n < i ∨ i = n ∨ h < i < n) as Hcases by lia.
      assert (deleted s n) as Hdel by (by exists e).
      destruct (IH n ltac:(lia)) as [[Hr Hall]|(Hr1 & Hr2 & Hr3 & Hr4 & Hr5)]; [left|right].
      * split; [done|]. intros i Hi Hs. destruct (Hcases i Hi) as [?|[->|?]]; auto.
      * split_and!; [done|lia|done|done|]. intros i [Hi Hin] Hs. destruct (Hcases i Hi) as [?|[->|?]]; auto.
    + right. split_and!; try done. intros (e' & He' & Hd'). congruence.
    + right. split_and!; try done. intros (e' & He' & Hd'). congruence.
Qed.

Lemma set_next_spec m h :
  om_sorted m →
  match set_next m h with
  | None => ∀ i e, h < i → om_find i m = Some e → is_delete (mAction e) = true
  | Some k => h < k ∧ (∃ e, om_find k m = Some e ∧ is_delete (mAction e) = false)
      ∧ ∀ i e, h < i < k → om_find i m = Some e → is_delete (mAction e) = true
  end.
Proof.
  induction m as [|[k e] m IH]; intros Hs; cbn [set_next om_find]; [done|].
  apply om_sorted_cons in Hs as [Hs Hall]. specialize (IH Hs).
  destruct ((h <? k) && negb (is_delete (mAction e))) eqn:E.
  - zbool. rewrite Z.eqb_refl. split_and!; [done|by exists e|]. intros i f Hi. rewrite (proj2 (Z.eqb_neq i k)) by lia.
    intros Hf. rewrite om_find_lt in Hf; [done|]. eapply Forall_impl; [exact Hall|]. simpl. lia.
  - apply andb_false_iff in E. assert (∀ f, h < k → Some e = Some f → is_delete (mAction f) = true) as Hk.
    { intros f Hhk [= <-]. destruct E as [E|E]; zbool; [lia|done]. }
    destruct (set_next m h) as [n|].
    + destruct IH as (Hn & (f & Hf & Hd) & Hbet). split; [done|]. split.
      * exists f. rewrite (proj2 (Z.eqb_neq n k)); [done|]. intros ->. rewrite om_find_lt in Hf by done. done.
      * intros i g Hi. case_if; zbool; [subst; apply Hk; lia|by apply Hbet].
    + intros i g Hi. case_if; zbool; [subst; by apply Hk|by apply IH].
Qed.

Lemma lookup_set_cases w s i :
  inv w s → (∀ e, om_find i (mEntries s) = Some e → is_delete (mAction e) = true) →
  (is_Some (om_find i (mLedger s)) → deleted s i) → lookup_set w s i = None.
Proof.
  intros Hinv Hent Hled. unfold lookup_set. destruct (om_find i (mEntries s)) as [e|] eqn:E.
  - by rewrite (Hent e eq_refl).
  - destruct (om_find i (mLedger s)) eqn:El; [|done]. destruct Hled as (e & He & _); [by eexists|congruence].
Qed.

Lemma lookup_set_some w s i e :
  inv w s → om_find i (mEntries s) = Some e → is_delete (mAction e) = false → is_Some (lookup_set w s i).
Proof. intros Hinv He Hd. unfold lookup_set. rewrite He, Hd. by destruct (inv_entry _ _ Hinv i e He). Qed.

Lemma lookup_set_ledger w s i :
  inv w s → is_Some (om_find i (mLedger s)) → ¬ deleted s i → is_Some (lookup_set w s i).
Proof.
  intros Hinv Hl Hnd. destruct (om_find i (mEntries s)) as [e|] eqn:E.
  - eapply lookup_set_some; [done..|]. destruct (is_delete (mAction e)) eqn:Ed; [|done]. destruct Hnd. by exists e.
  - unfold lookup_set. by rewrite E.
Qed.

End entryset.

#[global] Arguments World : clear implicits.
#[global] Arguments LedgerEntrySet : clear implicits.

(** ** Theorems *)

(** C12: a set stands for a map from indices to entries ([lookup_set]), and its operations act
    on that map as their names say although entries are shared objects: [entryCache]
    changes nothing and returns a pointer to the entry if there is one; writing through a
    held pointer, and deleting, change that entry only; [entryModify] changes nothing;
    [entryCreate] adds an entry that is absent, and throws when it is present.  None of them
    throws otherwise, and the invariant is kept. *)
Theorem entry_ops_refine_map {SLE} (w : World SLE) (s : LedgerEntrySet SLE) i :
  inv w s → i ≠ 0 →
  (∃ w' s' r, entryCache w s i = Ok (w', s', r) ∧ inv w' s'
     ∧ (∀ j, lookup_set w' s' j = lookup_set w s j)
     ∧ match r with
       | None => lookup_set w s i = None
       | Some p => held s' i p ∧ w_obj w' !! p = lookup_set w s i
       end)
  ∧ (∀ v, lookup_set w s i = None →
       ∃ w' s' p, entryCreate w s i v = Ok (w', s', p) ∧ inv w' s' ∧ held s' i p
         ∧ ∀ j, lookup_set w' s' j = if j =? i then Some v else lookup_set w s j)
  ∧ (∀ p, held s i p →
       (∀ v, inv (write w p v) s
          ∧ ∀ j, lookup_set (write w p v) s j = if j =? i then Some v else lookup_set w s j)
       ∧ (∃ s', entryModify s i p = Ok s' ∧ inv w s' ∧ held s' i p
            ∧ ∀ j, lookup_set w s' j = lookup_set w s j)
       ∧ (∃ s', entryDelete s i p = Ok s' ∧ inv w s'
            ∧ ∀ j, lookup_set w s' j = if j =? i then None else lookup_set w s j)
       ∧ ∀ v, ∃ what, entryCreate w s i v = Throw what).
Proof.
  intros Hinv Hi. split; [|split].
  - destruct (entryCache_spec w s i Hinv Hi) as (w' & s' & r & ? & ? & ? & _ & _ & ?). by exists w', s', r.
  - intros v Hn. destruct (proj1 (entryCreate_spec w s i v Hinv) Hn) as (w' & s' & p & ? & ? & ? & ? & _). by exists w', s', p.
  - intros p Hh. split; [|split; [|split]].
    + intros v. by apply write_spec.
    + destruct (entryModify_spec w s i p Hinv Hh) as (s' & ? & ? & ? & ? & _). by exists s'.
    + destruct (entryDelete_spec w s i p Hinv Hh) as (s' & ? & ? & ? & _). by exists s'.
    + intros v. apply (entryCreate_spec w s i v Hinv). by exists p.
Qed.

Definition ex_ledger : list (Z * Z) := [(3, 30); (5, 50); (8, 80)].
Definition ex_set : LedgerEntrySet Z := newLES ex_ledger 0 false.
Definition ex_world : World Z := mkWorld ∅ 0.

Lemma ex_inv : inv ex_world ex_set.
Proof. apply inv_new. repeat constructor. Qed.

Lemma entry_ops_refine_map_witness :
  ∃ w s p, entryCache ex_world ex_set 5 = Ok (w, s, Some p) ∧ w_obj w !! p = Some 50.
Proof.
  destruct (entry_ops_refine_map ex_world ex_set 5 ex_inv ltac:(lia)) as [(w' & s' & r & He & _ & _ & Hr) _].
  destruct r as [p|]; [|by vm_compute in Hr]. exists w', s', p. split; [exact He|]. by destruct Hr as [_ ->].
Defined.

(** C13: committing a set writes to the ledger exactly the map the set stands for, whatever
    was done through it since it was made, provided every entry written to was marked
    ([clean]). *)
Theorem txnWrite_commits {SLE} (ledger : list (Z * SLE)) tep w s :
  om_sorted ledger → rtc step (mkWorld ∅ 0, newLES ledger tep false) (w, s) → clean w s →
  ∀ i, om_find i (txnWrite w s) = lookup_set w s i.
Proof.
  intros Hl Hst Hc i. apply txnWrite_lookup; [|done].
  destruct (steps_apart 0 (mkWorld ∅ 0) _ _ Hst) as [Hinv _]; [by apply inv_new| |done]. by split.
Qed.

Lemma txnWrite_commits_witness :
  ∃ w s, rtc step (mkWorld ∅ 0, newLES ex_ledger 0 false) (w, s)
    ∧ om_find 5 (txnWrite w s) = Some 51 ∧ om_find 3 (txnWrite w s) = None ∧ om_find 9 (txnWrite w s) = Some 90.
Proof.
  set (w1 := mkWorld {[0 := 50]} 1 : World Z).
  set (s1 := mkLES ex_ledger [(5, mkLSE 0 taaCACHED 0)] None 0 0 false).
  set (w2 := write w1 0 51). set (s2 := mkLES ex_ledger [(5, mkLSE 0 taaMODIFY 0)] None 0 0 false).
  set (w3 := (alloc w2 30).2).
  set (s3 := mkLES ex_ledger [(3, mkLSE 1 taaCACHED 0); (5, mkLSE 0 taaMODIFY 0)] None 0 0 false).
  set (s4 := mkLES ex_ledger [(3, mkLSE 1 taaDELETE 0); (5, mkLSE 0 taaMODIFY 0)] None 0 0 false).
  set (w5 := (alloc w3 90).2).
  set (s5 := mkLES ex_ledger [(3, mkLSE 1 taaDELETE 0); (5, mkLSE 0 taaMODIFY 0); (9, mkLSE 2 taaCREATE 0)] None 0 0 false).
  assert (rtc step (mkWorld ∅ 0, newLES ex_ledger 0 false) (w5, s5)) as Hst.
  { eapply rtc_l; [apply (step_cache _ _ 5 w1 s1 (Some 0)); [lia|reflexivity]|].
    eapply rtc_l; [apply (step_write w1 s1 5 0 51); eexists; by split_and!|].
    eapply rtc_l; [apply (step_modify w2 s1 5 0 s2); [eexists; by split_and!|reflexivity]|].
    eapply rtc_l; [apply (step_cache w2 s2 3 w3 s3 (Some 1)); [lia|reflexivity]|].
    eapply rtc_l; [apply (step_delete w3 s3 3 1 s4); [eexists; by split_and!|reflexivity]|].
    eapply rtc_l; [apply (step_create w3 s4 9 90 w5 s5 2); reflexivity|]. apply rtc_refl. }
  exists w5, s5. split; [exact Hst|].
  assert (clean w5 s5) as Hc.
  { intros i e He Ha. unfold s5 in He. cbn [mEntries om_find] in He.
    repeat case_if_in He; try discriminate He; injection He as <-; discriminate Ha. }
  rewrite !(txnWrite_commits ex_ledger 0 w5 s5 ltac:(repeat constructor) Hst Hc). done.
Defined.

(** C14: a checkpoint is isolated from later work although it shares the objects: whatever is
    done through a later copy of a set (made by [duplicate], or the set itself after
    [bumpSeq]) leaves the earlier one standing for the same map, so going back to it undoes
    the work. *)
Theorem copies_isolated {SLE} (w0 : World SLE) s d0 w d :
  inv w0 s → d0 = duplicate s ∨ d0 = bumpSeq s →
  rtc step (w0, d0) (w, d) →
  (∀ i, lookup_set w0 d0 i = lookup_set w0 s i) ∧ inv w d ∧ ∀ i, lookup_set w s i = lookup_set w0 s i.
Proof. intros Hinv [-> | ->] Hst; (split; [done|]); apply (λ He Hl Hq, isolated w0 s _ w d Hinv He Hl Hq Hst); done. Qed.

Lemma copies_isolated_witness :
  ∃ w d, lookup_set w d 5 = Some 51 ∧ lookup_set w (bumpSeq ex_set) 5 = Some 50
    ∧ lookup_set w ex_set 5 = Some 50.
Proof.
  set (w1 := mkWorld {[0 := 50]} 1 : World Z).
  set (d1 := mkLES ex_ledger [(5, mkLSE 0 taaCACHED 1)] None 0 1 false).
  exists (write w1 0 51), d1. split; [done|].
  assert (rtc step (ex_world, duplicate ex_set) (write w1 0 51, d1)) as Hst.
  { eapply rtc_l; [apply (step_cache _ _ 5 w1 d1 (Some 0)); [lia|reflexivity]|].
    eapply rtc_l; [apply (step_write w1 d1 5 0 51); eexists; by split_and!|]. apply rtc_refl. }
  destruct (copies_isolated ex_world ex_set (duplicate ex_set) _ _ ex_inv (or_introl eq_refl) Hst) as (_ & _ & H).
  rewrite (H 5). done.
Defined.

(** [getNextLedgerIndex] returns the smallest index above [h] whose entry exists in the
    set, be it from the ledger or new, or 0 when there is none; its loop ends within the
    size of the ledger. *)
Theorem getNextLedgerIndex_least {SLE} (w : World SLE) s h :
  inv w s → keys_pos s → 0 <= h →
  let n := getNextLedgerIndex s h in
  (n = 0 ∧ ∀ i, h < i → lookup_set w s i = None)
  ∨ (0 < n ∧ h < n ∧ is_Some (lookup_set w s n) ∧ ∀ i, h < i < n → lookup_set w s i = None).
Proof.
  intros Hinv Hpos Hh. unfold getNextLedgerIndex.
  destruct (skip_deleted_spec (S (length (mLedger s))) s h (inv_ledger _ _ Hinv) Hpos (not_deleted_0 w s Hinv Hpos)) as [[Hz Hall]|(Hn0 & Hn & Hin & Hnd & Hbet)];
    [pose proof (above_length (mLedger s) h); lia|..];
    set (L := skip_deleted _ s h) in *;
    pose proof (set_next_spec (mEntries s) h (inv_sorted _ _ Hinv)) as Hset;
    destruct (set_next (mEntries s) h) as [k|].
  - destruct Hset as (Hk & (e & He & Hd) & Hbet). rewrite Hz. cbn. right.
    split_and!; [lia|done|by eapply lookup_set_some|]. intros i Hi.
    apply lookup_set_cases; [done|intros f; by apply Hbet|apply Hall; lia].
  - left. split; [done|]. intros i Hi. apply lookup_set_cases; [done|intros f; by apply Hset|by apply Hall].
  - destruct Hset as (Hk & (e & He & Hd) & Hb2). rewrite (proj2 (Z.eqb_neq L 0)) by lia. cbn [negb andb].
    right. destruct (L <? k) eqn:E; zbool.
    + split_and!; [done|done|by apply lookup_set_ledger|]. intros i Hi.
      apply lookup_set_cases; [done|intros f; apply Hb2; lia|by apply Hbet].
    + split_and!; [lia|done|by eapply lookup_set_some|]. intros i Hi.
      apply lookup_set_cases; [done|intros f; by apply Hb2|apply Hbet; lia].
  - right. split_and!; [done|done|by apply lookup_set_ledger|]. intros i Hi.
    apply lookup_set_cases; [done|intros f; apply Hset; lia|by apply Hbet].
Qed.

Lemma getNextLedgerIndex_witness :
  ∃ (w : World Z) s, getNextLedgerIndex s 3 = 8 ∧ lookup_set w s 5 = None ∧ is_Some (lookup_set w s 8).
Proof.
  set (w := mkWorld {[0 := 50]} 1 : World Z).
  set (s := mkLES ex_ledger [(5, mkLSE 0 taaDELETE 0)] None 0 0 false).
  exists w, s. split; [reflexivity|].
  assert (inv w s) as Hinv.
  { assert (inv w (set_entries ex_set [(5, mkLSE 0 taaDELETE 0)])) as H; [|exact H].
    apply (set_entry_inv w ex_set 5 0 taaDELETE); try done; try (by eexists).
    split; try done; [repeat constructor|constructor|]. intros p [x Hx]. simpl in Hx.
    apply lookup_singleton_Some in Hx as [<- _]. simpl. lia. }
  assert (keys_pos s) as Hp by (repeat constructor; simpl; lia).
  destruct (getNextLedgerIndex_least w s 3 Hinv Hp ltac:(lia)) as [[H _]|(_ & _ & H & H')].
  - discriminate H.
  - split; [exact (H' 5 ltac:(change (getNextLedgerIndex s 3) with 8; lia))|exact H].
Defined.
