(* ===== verification/Directory.v ===== *)
(** * Ledger directories

    Model of the directory functions of [src/src/ledger/LedgerEntrySet.cpp] ([dirAdd],
    [dirDelete], [dirFirst], [dirNext], [dirIsEmpty], [dirCount]).  A directory is a chain of pages of at most 32
    entries: page 0 is the root, whose "previous" link is the last page.  Pages are entries of
    a [LedgerEntrySet], reached through pointers and written in place, so two pointers may be
    the same page (the root is also the last page of a short directory).

    What an entry type must offer is the class [DirEntry]: it can hold a directory page.  The
    hash function is a parameter; the theorems assume that it gives the pages of a directory
    different indices, none of them 0.  A pointer the code dereferences without a test, or with
    an assert only, makes the model throw when it is null. *)

From S2P Require Import Prelude OrdMap Bytes Ter Indexes EntrySet.

(** ** Pages *)

(** The fields of a [ltDIR_NODE] entry; an absent link reads as 0.  [sfDescription] stands for the
    fields only describers set. *)
Record DirNode := mkDirNode {
  sfIndexes : list Z;
  sfIndexNext : Z;
  sfIndexPrevious : Z;
  sfRootIndex : Z;
  sfDescription : list Z
}.

Class DirEntry (SLE : Type) := {
  to_dir : SLE → option DirNode;
  of_dir : DirNode → SLE;
  to_of_dir d : to_dir (of_dir d) = Some d
}.

Definition set_indexes (d : DirNode) (l : list Z) : DirNode :=
  mkDirNode l (sfIndexNext d) (sfIndexPrevious d) (sfRootIndex d) (sfDescription d).
Definition set_next_page (d : DirNode) (n : Z) : DirNode :=
  mkDirNode (sfIndexes d) n (sfIndexPrevious d) (sfRootIndex d) (sfDescription d).
Definition set_previous_page (d : DirNode) (n : Z) : DirNode :=
  mkDirNode (sfIndexes d) (sfIndexNext d) n (sfRootIndex d) (sfDescription d).
Definition set_root (d : DirNode) (r : Z) : DirNode :=
  mkDirNode (sfIndexes d) (sfIndexNext d) (sfIndexPrevious d) r (sfDescription d).
(** What a describer ([Ledger::ownerDirDescriber], [qualityDirDescriber]) does to a new page *)
Definition describe (d : DirNode) (desc : list Z) : DirNode :=
  mkDirNode (sfIndexes d) (sfIndexNext d) (sfIndexPrevious d) (sfRootIndex d) desc.

(** [std::make_shared<SLE> (ltDIR_NODE, index)] *)
Definition new_page : DirNode := mkDirNode [] 0 0 0 [].

Definition DIR_NODE_MAX : nat := 32.

Section directory.
  Context {SLE : Type} {DE : DirEntry SLE}.
  (** [getSHA512Half] of the bytes of a serializer *)
  Variable sha512half : list Z → Z.

  Notation World := (World SLE).
  Notation LES := (LedgerEntrySet SLE).

  Notation getDirNodeIndex := (Indexes.getDirNodeIndex sha512half).

(** Reading and writing a page through its pointer *)
Definition read_dir (w : World) (p : Z) : result DirNode :=
  match w_obj w !! p with
  | Some v => match to_dir v with Some d => Ok d | None => Throw "Field not found" end
  | None => Throw "dangling pointer"
  end.
Definition write_dir (w : World) (p : Z) (d : DirNode) : World := write w p (of_dir d).

Definition not_null (o : option Z) : result Z :=
  match o with Some p => Ok p | None => Throw "null pointer" end.

(** ** dirAdd *)

(** [svIndexes.push_back (uLedgerIndex); sleNode->setFieldV256 (sfIndexes, svIndexes);] *)
Definition push_entry (w : World) (s : LES) (p : Z) (svIndexes : list Z) (uLedgerIndex uNodeDir : Z)
    : result (World * LES * (Z * Z)) :=
  d ← read_dir w p;
  Ok (write_dir w p (set_indexes d (svIndexes ++ [uLedgerIndex])), s, (tesSUCCESS, uNodeDir)).

(** The result and [uNodeDir] *)
Definition dirAdd (w : World) (s : LES) (uRootIndex uLedgerIndex : Z) (desc : list Z)
    : result (World * LES * (Z * Z)) :=
  '(w, s, root) ← entryCache w s uRootIndex;
  match root with
  | None =>
      '(w, s, sleRoot) ← entryCreate w s uRootIndex (of_dir new_page);
      d ← read_dir w sleRoot;
      let w := write_dir w sleRoot (set_root d uRootIndex) in
      d ← read_dir w sleRoot;
      let w := write_dir w sleRoot (describe d desc) in
      push_entry w s sleRoot [] uLedgerIndex 0
  | Some sleRoot =>
      d ← read_dir w sleRoot;
      let uNodeDir := sfIndexPrevious d in
      '(w, s, sleNode) ←
        (if negb (uNodeDir =? 0) then
           '(w, s, o) ← entryCache w s (getDirNodeIndex uRootIndex uNodeDir);
           p ← not_null o; Ok (w, s, p)
         else Ok (w, s, sleRoot));
      d ← read_dir w sleNode;
      let svIndexes := sfIndexes d in
      let nodeIndex := getDirNodeIndex uRootIndex uNodeDir in
      if negb (length svIndexes =? DIR_NODE_MAX)%nat then
        s ← entryModify s nodeIndex sleNode;
        push_entry w s sleNode svIndexes uLedgerIndex uNodeDir
      else
        let uNodeDir := u64 (uNodeDir + 1) in
        if uNodeDir =? 0 then Ok (w, s, (tecDIR_FULL, uNodeDir))
        else
          let w := write_dir w sleNode (set_next_page d uNodeDir) in
          s ← entryModify s nodeIndex sleNode;
          d ← read_dir w sleRoot;
          let w := write_dir w sleRoot (set_previous_page d uNodeDir) in
          s ← entryModify s uRootIndex sleRoot;
          '(w, s, sleNode) ← entryCreate w s (getDirNodeIndex uRootIndex uNodeDir) (of_dir new_page);
          d ← read_dir w sleNode;
          let w := write_dir w sleNode (set_root d uRootIndex) in
          d ← read_dir w sleNode;
          let w := if negb (uNodeDir =? 1)
                   then write_dir w sleNode (set_previous_page d (u64 (uNodeDir - 1))) else w in
          d ← read_dir w sleNode;
          let w := write_dir w sleNode (describe d desc) in
          push_entry w s sleNode [] uLedgerIndex uNodeDir
  end.

(** ** dirDelete *)

(** [std::find] and the removal of the element found: shift the rest, or put the last one in
    its place.  [None]: not found *)
Fixpoint remove_stable (x : Z) (l : list Z) : option (list Z) :=
  match l with
  | [] => None
  | y :: l => if y =? x then Some l else (y ::.) <$> remove_stable x l
  end.
Fixpoint replace_first (x z : Z) (l : list Z) : list Z :=
  match l with
  | [] => []
  | y :: l => if y =? x then z :: l else y :: replace_first x z l
  end.
Definition remove_entry (bStable : bool) (x : Z) (l : list Z) : option (list Z) :=
  if existsb (λ y, y =? x) l then
    if (1 <? length l)%nat then
      if bStable then remove_stable x l
      else Some (take (length l - 1) (replace_first x (default 0 (last l)) l))
    else Some []
  else None.

(** The page [sleNode] (number [uNodeCur]) has just been emptied. *)
Definition emptied (w : World) (s : LES) (bKeepRoot : bool) (uNodeCur uRootIndex sleNode : Z)
    : result (World * LES * Z) :=
  let nodeIndex := getDirNodeIndex uRootIndex uNodeCur in
  d ← read_dir w sleNode;
  let uNodePrevious := sfIndexPrevious d in
  let uNodeNext := sfIndexNext d in
  if uNodeCur =? 0 then
    if uNodePrevious =? 0 then s ← entryDelete s nodeIndex sleNode; Ok (w, s, tesSUCCESS)
    else if bKeepRoot then Ok (w, s, tesSUCCESS)
    else if negb (uNodePrevious =? uNodeNext) then Ok (w, s, tesSUCCESS)
    else
      '(w, s, o) ← entryCache w s (getDirNodeIndex uRootIndex uNodeNext);
      sleLast ← not_null o;
      d ← read_dir w sleLast;
      match sfIndexes d with
      | [] =>
          s ← entryDelete s nodeIndex sleNode;
          s ← entryDelete s (getDirNodeIndex uRootIndex uNodeNext) sleLast;
          Ok (w, s, tesSUCCESS)
      | _ => Ok (w, s, tesSUCCESS)
      end
  else if negb (uNodeNext =? 0) then
    '(w, s, oPrevious) ← entryCache w s (getDirNodeIndex uRootIndex uNodePrevious);
    '(w, s, oNext) ← entryCache w s (getDirNodeIndex uRootIndex uNodeNext);
    match oPrevious, oNext with
    | Some slePrevious, Some sleNext =>
        d ← read_dir w slePrevious;
        let w := write_dir w slePrevious (set_next_page d uNodeNext) in
        s ← entryModify s (getDirNodeIndex uRootIndex uNodePrevious) slePrevious;
        d ← read_dir w sleNext;
        let w := write_dir w sleNext (set_previous_page d uNodePrevious) in
        s ← entryModify s (getDirNodeIndex uRootIndex uNodeNext) sleNext;
        s ← entryDelete s nodeIndex sleNode;
        Ok (w, s, tesSUCCESS)
    | _, _ => Ok (w, s, tefBAD_LEDGER)
    end
  else if bKeepRoot || negb (uNodePrevious =? 0) then Ok (w, s, tesSUCCESS)
  else
    '(w, s, o) ← entryCache w s uRootIndex;
    sleRoot ← not_null o;
    d ← read_dir w sleRoot;
    match sfIndexes d with
    | [] =>
        s ← entryDelete s uRootIndex sleRoot;
        s ← entryDelete s nodeIndex sleNode;
        Ok (w, s, tesSUCCESS)
    | _ => Ok (w, s, tesSUCCESS)
    end.

(** The soft search recurses while the page number is below 20, so 21 rounds are enough. *)
Fixpoint dirDelete_loop (fuel : nat) (w : World) (s : LES) (bKeepRoot : bool)
    (uNodeDir uRootIndex uLedgerIndex : Z) (bStable bSoft : bool) : result (World * LES * Z) :=
  match fuel with
  | O => Ok (w, s, tefBAD_LEDGER)
  | S fuel =>
      '(w, s, o) ← entryCache w s (getDirNodeIndex uRootIndex uNodeDir);
      match o with
      | None =>
          if negb bSoft then Ok (w, s, tefBAD_LEDGER)
          else if uNodeDir <? 20
          then dirDelete_loop fuel w s bKeepRoot (uNodeDir + 1) uRootIndex uLedgerIndex bStable true
          else Ok (w, s, tefBAD_LEDGER)
      | Some sleNode =>
          d ← read_dir w sleNode;
          match remove_entry bStable uLedgerIndex (sfIndexes d) with
          | None =>
              if negb bSoft then Ok (w, s, tefBAD_LEDGER)
              else if uNodeDir <? 20
              then dirDelete_loop fuel w s bKeepRoot (uNodeDir + 1) uRootIndex uLedgerIndex bStable true
              else Ok (w, s, tefBAD_LEDGER)
          | Some svIndexes =>
              let w := write_dir w sleNode (set_indexes d svIndexes) in
              s ← entryModify s (getDirNodeIndex uRootIndex uNodeDir) sleNode;
              match svIndexes with
              | [] => emptied w s bKeepRoot uNodeDir uRootIndex sleNode
              | _ => Ok (w, s, tesSUCCESS)
              end
          end
      end
  end.

Definition dirDelete (w : World) (s : LES) (bKeepRoot : bool)
    (uNodeDir uRootIndex uLedgerIndex : Z) (bStable bSoft : bool) : result (World * LES * Z) :=
  dirDelete_loop 21 w s bKeepRoot uNodeDir uRootIndex uLedgerIndex bStable bSoft.

(** ** Iteration *)

(** The position is the current page and the number of the next entry in it.  The result is
    the entry, if there is one; the recursion follows the chain of pages. *)
Fixpoint dirNext (fuel : nat) (w : World) (s : LES) (uRootIndex sleNode : Z) (uDirEntry : nat)
    : result (World * LES * (Z * nat * option Z)) :=
  match fuel with
  | O => Throw "stack overflow"
  | S fuel =>
      d ← read_dir w sleNode;
      match sfIndexes d !! uDirEntry with
      | Some uEntryIndex => Ok (w, s, (sleNode, S uDirEntry, Some uEntryIndex))
      | None =>
          let uNodeNext := sfIndexNext d in
          if uNodeNext =? 0 then Ok (w, s, (sleNode, uDirEntry, None))
          else
            '(w, s, o) ← entryCache w s (getDirNodeIndex uRootIndex uNodeNext);
            match o with
            | None => Ok (w, s, (sleNode, O, None))
            | Some sleNext => dirNext fuel w s uRootIndex sleNext O
            end
      end
  end.

Definition dirFirst (fuel : nat) (w : World) (s : LES) (uRootIndex : Z)
    : result (World * LES * (Z * nat * option Z)) :=
  '(w, s, o) ← entryCache w s uRootIndex;
  sleNode ← not_null o;
  dirNext fuel w s uRootIndex sleNode O.

Definition dirIsEmpty (w : World) (s : LES) (uRootIndex : Z) : result (World * LES * bool) :=
  '(w, s, o) ← entryCache w s (getDirNodeIndex uRootIndex 0);
  match o with
  | None => Ok (w, s, true)
  | Some sleNode =>
      d ← read_dir w sleNode;
      match sfIndexes d with
      | [] => Ok (w, s, sfIndexNext d =? 0)
      | _ => Ok (w, s, false)
      end
  end.

(** [do ... while (uNodeDir)]; the result and the count, a 32-bit integer *)
Fixpoint dirCount_loop (fuel : nat) (w : World) (s : LES) (uRootIndex uNodeDir uCount : Z)
    : result (World * LES * (Z * Z)) :=
  match fuel with
  | O => Throw "does not terminate"
  | S fuel =>
      '(w, s, o) ← entryCache w s (getDirNodeIndex uRootIndex uNodeDir);
      match o with
      | Some sleNode =>
          d ← read_dir w sleNode;
          let uCount := u32 (uCount + Z.of_nat (length (sfIndexes d))) in
          if sfIndexNext d =? 0 then Ok (w, s, (tesSUCCESS, uCount))
          else dirCount_loop fuel w s uRootIndex (sfIndexNext d) uCount
      | None => Ok (w, s, (if negb (uNodeDir =? 0) then tefBAD_LEDGER else tesSUCCESS, uCount))
      end
  end.
Definition dirCount (fuel : nat) (w : World) (s : LES) (uRootIndex : Z) : result (World * LES * (Z * Z)) :=
  dirCount_loop fuel w s uRootIndex 0 0.

(** ** Reasoning about the map of entries

    The state [(w, s)] stands for the map [m]; each operation is described by what it does to
    [m] and by the pointers it leaves valid, for any continuation [k] of the code. *)

Definition stands (w : World) (s : LES) (m : Z → option SLE) : Prop :=
  inv w s ∧ ∀ j, lookup_set w s j = m j.

Definition upd (m : Z → option SLE) (i : Z) (v : option SLE) : Z → option SLE :=
  λ j, if j =? i then v else m j.

Lemma upd_eq m i v : upd m i v i = v.
Proof. unfold upd. by rewrite Z.eqb_refl. Qed.
Lemma upd_ne m i v j : j ≠ i → upd m i v j = m j.
Proof. intros H. unfold upd. by rewrite (proj2 (Z.eqb_neq j i) H). Qed.

(** Every pointer held in [s] is held in [s']. *)
Definition keeps_held (s s' : LES) : Prop := ∀ j q, held s j q → held s' j q.

(** While a piece of code runs from [s0], only entries of the set change, and the pointers to the
    entries in [P] stay valid. *)
Definition since (P : Z → Prop) (s0 s : LES) : Prop :=
  (∀ j q, P j → held s0 j q → held s j q) ∧ same_set s0 s.
Definition track (P : Z → Prop) (s0 : LES) (w : World) (s : LES) (m : Z → option SLE) : Prop :=
  stands w s m ∧ since P s0 s.

Lemma since_refl P s : since P s s.
Proof. split; [done|apply same_set_refl]. Qed.
Lemma since_step P s0 s s' : since P s0 s → same_set s s' → (∀ j q, P j → held s j q → held s' j q) → since P s0 s'.
Proof. intros [H1 H2] H3 H4. split; [auto|by eapply same_set_trans]. Qed.
Lemma track_start P w s m : stands w s m → track P s w s m.
Proof. intros H. split; [done|apply since_refl]. Qed.

Lemma cache_step {B} (Q : result B → Prop) P s0 w s m i k :
  track P s0 w s m → i ≠ 0 →
  (∀ w' s' r, track P s0 w' s' m → keeps_held s s' →
     match r with None => m i = None | Some p => held s' i p ∧ is_Some (m i) end → Q (k (w', s', r))) →
  Q (entryCache w s i ≫= k).
Proof.
  intros [[Hinv Hm] Hsi] Hi HQ.
  destruct (entryCache_spec w s i Hinv Hi) as (w' & s' & r & He & Hinv' & Hv & _ & _ & Hr).
  assert (keeps_held s s') as Hk by (intros j q; eapply entryCache_held; [apply (inv_sorted _ _ Hinv)|exact He]).
  rewrite He. cbn [mbind result_bind]. apply HQ; [|done|].
  - split; [split; [done|]|].
    + intros j. by rewrite Hv.
    + eapply since_step; [done|by eapply entryCache_same|auto].
  - destruct r as [p|]; [|by rewrite <- Hm]. destruct Hr as [Hh Ho]. split; [done|]. rewrite <- Hm, <- Hv.
    destruct Hh as (e & Ee & <- & _ & Hd). unfold lookup_set. rewrite Ee, Hd.
    by destruct (inv_entry _ _ Hinv' i e Ee).
Qed.

Lemma modify_step {B} (Q : result B → Prop) P s0 w s m i p k :
  track P s0 w s m → held s i p → (∀ s', track P s0 w s' m → keeps_held s s' → Q (k s')) → Q (entryModify s i p ≫= k).
Proof.
  intros [[Hinv Hm] Hsi] Hh HQ. destruct (entryModify_spec w s i p Hinv Hh) as (s' & He & Hinv' & Hv & _).
  assert (keeps_held s s') as Hk by (intros j q; by eapply entryModify_held).
  rewrite He. cbn [mbind result_bind]. apply HQ; [|done]. split; [split; [done|]|].
  - intros j. by rewrite Hv.
  - eapply since_step; [done|by eapply entryModify_same|auto].
Qed.

Lemma delete_step {B} (Q : result B → Prop) P s0 w s m i p k :
  track P s0 w s m → held s i p → ¬ P i →
  (∀ s', track P s0 w s' (upd m i None) → (∀ j q, j ≠ i → held s j q → held s' j q) → Q (k s')) →
  Q (entryDelete s i p ≫= k).
Proof.
  intros [[Hinv Hm] Hsi] Hh HP HQ. destruct (entryDelete_spec w s i p Hinv Hh) as (s' & He & Hinv' & Hv & _).
  assert (∀ j q, j ≠ i → held s j q → held s' j q) as Hk by (intros j q Hne; eapply entryDelete_held; [done..|congruence]).
  rewrite He. cbn [mbind result_bind]. apply HQ; [|done]. split; [split; [done|]|].
  - intros j. rewrite Hv. unfold upd. by destruct (j =? i).
  - eapply since_step; [done|by eapply entryDelete_same|]. intros j q Hj. apply Hk. by intros ->.
Qed.

Lemma create_step {B} (Q : result B → Prop) P s0 w s m i v k :
  track P s0 w s m → m i = None →
  (∀ w' s' p, track P s0 w' s' (upd m i (Some v)) → held s' i p → keeps_held s s' → Q (k (w', s', p))) →
  Q (entryCreate w s i v ≫= k).
Proof.
  intros [[Hinv Hm] Hsi] Hi HQ.
  destruct (proj1 (entryCreate_spec w s i v Hinv)) as (w' & s' & p & He & Hinv' & Hh & Hv & _); [by rewrite Hm|].
  assert (keeps_held s s') as Hk by (intros j q; by eapply entryCreate_held).
  rewrite He. cbn [mbind result_bind]. apply HQ; [|done|done]. split; [split; [done|]|].
  - intros j. rewrite Hv. unfold upd. by destruct (j =? i).
  - eapply since_step; [done|by eapply entryCreate_same|auto].
Qed.

Lemma read_step {P s0} w s m i p d :
  track P s0 w s m → held s i p → m i ≫= to_dir = Some d → read_dir w p = Ok d.
Proof.
  intros [[Hinv Hm] _] Hh Hd. unfold read_dir. rewrite (held_lookup w s i p Hinv Hh), Hm.
  destruct (m i) as [v|]; [|done]. simpl in Hd. by rewrite Hd.
Qed.

Lemma write_track {P s0} w s m i p v :
  track P s0 w s m → held s i p → track P s0 (write w p v) s (upd m i (Some v)).
Proof.
  intros [[Hinv Hm] Hsi] Hh. destruct (write_spec w s i p v Hinv Hh) as [Hinv' Hv].
  split; [|done]. split; [done|]. intros j. rewrite Hv. unfold upd. by destruct (j =? i).
Qed.

Lemma write_step {P s0} w s m i p d :
  track P s0 w s m → held s i p → track P s0 (write_dir w p d) s (upd m i (Some (of_dir d))).
Proof. apply write_track. Qed.

Lemma upd_dir m i d : upd m i (Some (of_dir d)) i ≫= to_dir = Some d.
Proof. rewrite upd_eq. simpl. apply to_of_dir. Qed.

(** ** The chain of pages *)

Section chain.
  Variable root : Z.
  (** The set the code starts from *)
  Variable s0 : LES.
  Notation idx := (getDirNodeIndex root).

(** An index that no page of the directory has *)
Definition outside (j : Z) : Prop := ∀ n, is_u64 n → j ≠ idx n.

  Notation tracked := (track outside s0).

(** What the hash function must provide: the pages of the directory have different indices,
    and none is 0. *)
Definition good_root : Prop :=
  (∀ n, is_u64 n → idx n ≠ 0) ∧ (∀ n n', is_u64 n → is_u64 n' → idx n = idx n' → n = n').

(** Page [n] holds the entries [l] and has these links. *)
Definition node (m : Z → option SLE) (n : Z) (l : list Z) (nx pv : Z) : Prop :=
  ∃ d, m (idx n) ≫= to_dir = Some d ∧ sfIndexes d = l ∧ sfIndexNext d = nx ∧ sfIndexPrevious d = pv.

(** A directory as the list of its pages: number and entries *)
Notation pages := (list (Z * list Z)).

(** The pages [ps] in a row, after page [pv] and before page [fin] *)
Fixpoint seg (m : Z → option SLE) (pv : Z) (ps : pages) (fin : Z) : Prop :=
  match ps with
  | [] => True
  | (n, l) :: ps => node m n l (hd fin ps.*1) pv ∧ seg m n ps fin
  end.

Fixpoint last_page (pv : Z) (ps : pages) : Z :=
  match ps with [] => pv | (n, _) :: ps => last_page n ps end.

(** The map [m] holds the directory [ps]: the root links to the first and last page, the
    others in a row, numbers increase, and there are no other pages. *)
Definition dir_rep (m : Z → option SLE) (ps : pages) : Prop :=
  (∀ n, is_u64 n → n ∉ ps.*1 → m (idx n) = None)
  ∧ match ps with
    | [] => True
    | (n0, l0) :: rest =>
        n0 = 0 ∧ node m 0 l0 (hd 0 rest.*1) (last_page 0 rest) ∧ seg m 0 rest 0
        ∧ StronglySorted Z.lt ps.*1 ∧ Forall is_u64 ps.*1
    end.

Definition entries (ps : pages) : list Z := concat ps.*2.

Lemma last_page_app pv a b : last_page pv (a ++ b) = last_page (last_page pv a) b.
Proof. revert pv. by induction a as [|[n l] a IH]; intros pv; simpl. Qed.

Lemma seg_app m pv a b fin :
  seg m pv (a ++ b) fin ↔ seg m pv a (hd fin b.*1) ∧ seg m (last_page pv a) b fin.
Proof.
  revert pv. induction a as [|[n l] a IH]; intros pv; [simpl; tauto|]. cbn [app seg]. rewrite IH.
  cbn [last_page].
  assert (hd fin (a ++ b).*1 = hd (hd fin b.*1) a.*1) as -> by (by destruct a as [|[]]). tauto.
Qed.

Lemma node_frame m m' n l nx pv : m' (idx n) = m (idx n) → node m n l nx pv → node m' n l nx pv.
Proof. intros H (d & Hd & ?). exists d. by rewrite H. Qed.

Lemma seg_frame m m' pv ps fin :
  (∀ n, n ∈ ps.*1 → m' (idx n) = m (idx n)) → seg m pv ps fin → seg m' pv ps fin.
Proof.
  revert pv. induction ps as [|[n l] ps IH]; intros pv Hm; [done|]. cbn [seg]. intros [Hn Hs]. split.
  - eapply node_frame; [|done]. apply Hm. by left.
  - apply IH; [|done]. intros k Hk. apply Hm. by right.
Qed.

(** Writing page [n] *)
Lemma node_upd m n d : node (upd m (idx n) (Some (of_dir d))) n (sfIndexes d) (sfIndexNext d) (sfIndexPrevious d).
Proof. exists d. split; [apply upd_dir|done]. Qed.

(** ** The abstract directory: what adding and removing do to the list of pages *)

(** The directory with the entry [x] appended, and the page it is on; [None]: the page numbers
    are used up *)
Definition dir_add (ps : pages) (x : Z) : option (pages * Z) :=
  match last ps with
  | None => Some ([(0, [x])], 0)
  | Some (n, l) =>
      if (length l =? DIR_NODE_MAX)%nat
      then if n + 1 =? 2^64 then None else Some (ps ++ [(n + 1, [x])], n + 1)
      else Some (take (length ps - 1) ps ++ [(n, l ++ [x])], n)
  end.

(** What is left of the pages [a ++ (n, []) :: b] once page [n] is empty *)
Definition prune (bKeepRoot : bool) (a : pages) (n : Z) (b : pages) : pages :=
  match a, b with
  | [], [] => []
  | [], [(_, [])] => if bKeepRoot then (n, []) :: b else []
  | [], _ => (n, []) :: b
  | [(_, [])], [] => if bKeepRoot then a ++ [(n, [])] else []
  | _, [] => a ++ [(n, [])]
  | _, _ => a ++ b
  end.

Lemma existsb_elem (x : Z) l : existsb (λ y, y =? x) l = true ↔ x ∈ l.
Proof.
  rewrite existsb_exists. setoid_rewrite Z.eqb_eq. setoid_rewrite <- list_elem_of_In. split.
  - by intros (y & Hy & ->).
  - intros Hx. by exists x.
Qed.

Lemma remove_entry_none st x l : x ∉ l → remove_entry st x l = None.
Proof.
  intros H. unfold remove_entry. destruct (existsb _ l) eqn:E; [|done]. by apply existsb_elem in E.
Qed.

Lemma remove_stable_spec x l : x ∈ l → ∃ c d, l = c ++ x :: d ∧ remove_stable x l = Some (c ++ d).
Proof.
  induction l as [|y l IH]; [by intros ?%not_elem_of_nil|]. simpl. intros Hx.
  destruct (Z.eqb_spec y x) as [->|Hne]; [by exists [], l|].
  apply elem_of_cons in Hx as [?|Hx]; [congruence|]. destruct (IH Hx) as (c & d & -> & ->). by exists (y :: c), d.
Qed.

Lemma replace_first_spec x z l : x ∈ l → ∃ c d, l = c ++ x :: d ∧ replace_first x z l = c ++ z :: d.
Proof.
  induction l as [|y l IH]; [by intros ?%not_elem_of_nil|]. simpl. intros Hx.
  destruct (Z.eqb_spec y x) as [->|Hne]; [by exists [], l|].
  apply elem_of_cons in Hx as [?|Hx]; [congruence|]. destruct (IH Hx) as (c & d & -> & ->). by exists (y :: c), d.
Qed.

(** The entry found is removed, once; the stable form keeps the order of the others. *)
Lemma remove_entry_spec st x l :
  x ∈ l → ∃ l', remove_entry st x l = Some l' ∧ l ≡ₚ x :: l'
                ∧ (st = true → ∃ c d, l = c ++ x :: d ∧ l' = c ++ d).
Proof.
  intros Hx. unfold remove_entry. rewrite (proj2 (existsb_elem x l) Hx).
  destruct (Nat.ltb_spec 1 (length l)) as [Hlen|Hlen].
  - destruct st.
    + destruct (remove_stable_spec x l Hx) as (c & d & -> & ->). exists (c ++ d).
      split_and!; [done|by rewrite Permutation_middle|]. intros _. by exists c, d.
    + destruct l as [|z l0 _] using rev_ind; [simpl in Hlen; lia|]. rewrite last_snoc. cbn [default from_option id].
      destruct (replace_first_spec x z (l0 ++ [z]) Hx) as (c & d & Heq & ->). eexists. split_and!; [done| |done].
      destruct d as [|z' d _] using rev_ind.
      * apply app_inj_tail in Heq as [-> ->]. rewrite length_app, Nat.add_sub, take_app_length.
        by rewrite Permutation_app_comm.
      * rewrite (app_assoc c [x] (d ++ [z']) : c ++ x :: d ++ [z'] = _), (app_assoc (c ++ [x])) in Heq.
        apply app_inj_tail in Heq as [-> <-]. rewrite !length_app. simpl.
        rewrite (app_assoc c [z] (d ++ [z]) : c ++ z :: d ++ [z] = _), (app_assoc (c ++ [z])).
        rewrite take_app_length'; [|rewrite !length_app; simpl; lia]. solve_Permutation.
  - destruct l as [|y [|]]; [by apply not_elem_of_nil in Hx| |simpl in Hlen; lia].
    apply list_elem_of_singleton in Hx as ->. exists []. split_and!; [done..|]. intros _. by exists [], [].
Qed.

(** The pages after the removal of [x] from page [n] *)
Definition dir_del (bKeepRoot bStable : bool) (a : pages) (n : Z) (l : list Z) (b : pages) (x : Z) : pages :=
  match remove_entry bStable x l with
  | None => a ++ (n, l) :: b
  | Some [] => prune bKeepRoot a n b
  | Some l' => a ++ (n, l') :: b
  end.

Lemma entries_app a b : entries (a ++ b) = entries a ++ entries b.
Proof. unfold entries. by rewrite fmap_app, concat_app. Qed.
Lemma entries_mid a n l b : entries (a ++ (n, l) :: b) = entries a ++ l ++ entries b.
Proof. by rewrite entries_app. Qed.

Lemma prune_entries keep a n b : entries (prune keep a n b) = entries a ++ entries b.
Proof.
  unfold prune. destruct a as [|[? [|]] [|]], b as [|[? [|]] [|]], keep;
    rewrite <- ?entries_app; try done; by rewrite ?entries_app, ?(right_id_L [] app).
Qed.

Lemma dir_del_entries keep st a n l b x :
  x ∈ l → ∃ l', remove_entry st x l = Some l' ∧ entries (dir_del keep st a n l b x) = entries a ++ l' ++ entries b.
Proof.
  intros Hx. destruct (remove_entry_spec st x l Hx) as (l' & He & _). exists l'. split; [done|].
  unfold dir_del. rewrite He. destruct l' as [|y l']; [by rewrite prune_entries|]. by rewrite entries_mid.
Qed.

Lemma take_last_app (ps : pages) n l : last ps = Some (n, l) → ps = take (length ps - 1) ps ++ [(n, l)].
Proof.
  intros H. apply last_Some in H as [ps' ->]. by rewrite length_app, Nat.add_sub, take_app_length.
Qed.

Lemma dir_add_entries ps x ps' n : dir_add ps x = Some (ps', n) → entries ps' = entries ps ++ [x].
Proof.
  unfold dir_add. destruct (last ps) as [[k l]|] eqn:E.
  - destruct (length l =? DIR_NODE_MAX)%nat; [destruct (_ =? _); [done|]|]; intros [= <- <-].
    + by rewrite entries_app.
    + trans (entries (take (length ps - 1) ps ++ [(k, l)]) ++ [x]); [|by rewrite <- (take_last_app ps k l E)].
      rewrite !entries_mid. change (entries []) with (@nil Z). by rewrite !app_nil_r, app_assoc.
  - apply last_None in E as ->. by intros [= <- <-].
Qed.

(** Pages hold between 0 and 32 entries. *)
Definition page_sizes (ps : pages) : Prop := Forall (λ p, (length p.2 <= DIR_NODE_MAX)%nat) ps.

Lemma dir_add_sizes ps x ps' n : page_sizes ps → dir_add ps x = Some (ps', n) → page_sizes ps'.
Proof.
  unfold page_sizes, dir_add. intros H. destruct (last ps) as [[k l]|] eqn:E.
  - destruct (Nat.eqb_spec (length l) DIR_NODE_MAX) as [Hl|Hl]; [destruct (_ =? _); [done|]|]; intros [= <- <-].
    + apply Forall_app. split; [done|]. by repeat constructor.
    + rewrite (take_last_app ps k l E) in H. apply Forall_app in H as [H1 H2]. apply Forall_app. split; [done|].
      apply Forall_cons in H2 as [H2 _]. cbn [snd] in H2. constructor; [|constructor]. cbn [snd]. rewrite length_app. simpl. lia.
  - intros [= <- <-]. by repeat constructor.
Qed.

Lemma prune_sizes keep a n b : page_sizes a → page_sizes b → page_sizes (prune keep a n b).
Proof.
  intros Ha Hb. assert (page_sizes [(n, [])]) by (constructor; [simpl; lia|constructor]).
  assert (page_sizes ((n, []) :: b)) by (by apply (Forall_app_2 _ [(n, [])])).
  assert (page_sizes (a ++ [(n, [])])) by (by apply Forall_app_2).
  assert (page_sizes (a ++ b)) by (by apply Forall_app_2). assert (page_sizes []) by constructor.
  unfold prune. by destruct a as [|[? [|]] [|]], b as [|[? [|]] [|]], keep.
Qed.

Lemma dir_del_sizes keep st a n l b x :
  page_sizes (a ++ (n, l) :: b) → x ∈ l → page_sizes (dir_del keep st a n l b x).
Proof.
  intros [Ha [Hl Hb]%Forall_cons]%Forall_app Hx. cbn [snd] in Hl.
  destruct (remove_entry_spec st x l Hx) as (l' & He & Hp & _). unfold dir_del. rewrite He.
  apply Permutation_length in Hp. destruct l' as [|y l']; [by apply prune_sizes|].
  apply Forall_app. split; [done|]. constructor; [|done]. cbn [snd] in *. simpl in *. lia.
Qed.

Lemma sorted_app_nums (a b : list Z) n :
  StronglySorted Z.lt (a ++ n :: b) →
  StronglySorted Z.lt (a ++ b) ∧ (∀ k, k ∈ a → k < n) ∧ (∀ k, k ∈ b → n < k).
Proof.
  induction a as [|x a IH]; simpl; intros H; inversion H as [|? ? Hs Hf]; subst.
  - split; [done|]. split; [by intros k ?%not_elem_of_nil|]. rewrite Forall_forall in Hf. done.
  - destruct (IH Hs) as (Hab & Ha & Hb). rewrite Forall_forall in Hf. split; [|split].
    + constructor; [done|]. rewrite Forall_forall. intros y Hy. apply Hf. set_solver.
    + intros k [->|Hk]%elem_of_cons; [apply Hf; set_solver|auto].
    + done.
Qed.

Lemma sorted_snoc (a : list Z) n k :
  StronglySorted Z.lt (a ++ [n]) → n < k → StronglySorted Z.lt (a ++ [n; k]).
Proof.
  intros Hs Hk. induction a as [|y r IH]; simpl in *; [repeat constructor; lia|].
  inversion Hs as [|? ? Hr Hf]; subst. constructor; [by apply IH|].
  apply Forall_app in Hf as [Hf Hn]. apply Forall_cons in Hn as [Hn _].
  apply Forall_app. split; [done|]. repeat constructor; lia.
Qed.

Lemma last_page_mid pv a n l b : last_page pv (a ++ (n, l) :: b) = last_page n b.
Proof. by rewrite last_page_app. Qed.

Lemma hd_mid fin (a : pages) n l b : hd fin (a ++ (n, l) :: b).*1 = hd n a.*1.
Proof. by destruct a as [|[]]. Qed.

Lemma last_page_in pv a : last_page pv a = pv ∧ a = [] ∨ last_page pv a ∈ a.*1.
Proof.
  revert pv. induction a as [|[n l] a IH]; intros pv; [by left|]. right. simpl.
  destruct (IH n) as [[-> _]|H]; set_solver.
Qed.

Hypothesis Hroot : good_root.

Lemma idx_ne n k : is_u64 n → is_u64 k → n ≠ k → idx n ≠ idx k.
Proof. intros Hn Hk Hne H. by apply Hne, (proj2 Hroot). Qed.

(** The facts about the page in the middle of a directory *)
Lemma rep_facts m a n l b :
  dir_rep m (a ++ (n, l) :: b) →
  is_u64 n ∧ (∀ k, k ∈ a.*1 → is_u64 k ∧ k < n) ∧ (∀ k, k ∈ b.*1 → is_u64 k ∧ n < k)
  ∧ node m n l (hd 0 b.*1) (match a with [] => last_page 0 b | _ => last_page 0 a end)
  ∧ (a = [] → n = 0) ∧ (a ≠ [] → 0 < n).
Proof.
  intros (_ & H). destruct a as [|[n0 l0] a].
  - destruct H as (-> & Hn & Hseg & Hs & Hu). cbn [app fmap list_fmap] in Hs, Hu.
    destruct (sorted_app_nums [] b.*1 0 Hs) as (_ & _ & Hb). apply Forall_cons in Hu as [Hu0 Hu]. rewrite Forall_forall in Hu.
    split_and!; try done.
    + by intros k ?%not_elem_of_nil.
    + intros k Hk. split; [by apply Hu|by apply Hb].
  - destruct H as (-> & Hn & Hseg & Hs & Hu). cbn [app fmap list_fmap] in Hs, Hu.
    rewrite fmap_app in Hs, Hu. cbn [fmap list_fmap] in Hs, Hu.
    destruct (sorted_app_nums (0 :: a.*1) b.*1 n Hs) as (_ & Ha & Hb).
    rewrite Forall_forall in Hu. apply seg_app in Hseg as [_ [Hnode _]].
    split_and!; try done.
    + apply Hu. set_solver.
    + intros k Hk. split; [apply Hu; set_solver|by apply Ha].
    + intros k Hk. split; [apply Hu; set_solver|by apply Hb].
    + intros _. apply Ha. left.
Qed.

Lemma rep_others m ps n : dir_rep m ps → is_u64 n → n ∉ ps.*1 → m (idx n) = None.
Proof. intros [H _]. apply H. Qed.

(** Changing the entries of one page *)
Lemma rep_replace m a n l b l' d :
  dir_rep m (a ++ (n, l) :: b) → m (idx n) ≫= to_dir = Some d →
  dir_rep (upd m (idx n) (Some (of_dir (set_indexes d l')))) (a ++ (n, l') :: b).
Proof.
  intros Hrep Hd. destruct (rep_facts m a n l b Hrep) as (Hn & Ha & Hb & (d' & Hd' & _ & Hnx & Hpv) & Ha0 & _).
  rewrite Hd in Hd'. injection Hd' as <-.
  assert (∀ k, is_u64 k → k ≠ n → upd m (idx n) (Some (of_dir (set_indexes d l'))) (idx k) = m (idx k)) as Hother.
  { intros k Hk Hne. apply upd_ne, idx_ne; done. }
  assert (∀ k, k ∈ b.*1 → upd m (idx n) (Some (of_dir (set_indexes d l'))) (idx k) = m (idx k)) as Hfb.
  { intros k Hk. destruct (Hb k Hk). apply Hother; [done|lia]. }
  pose proof (node_upd m n (set_indexes d l')) as Hnew. cbn [set_indexes sfIndexes sfIndexNext sfIndexPrevious] in Hnew.
  rewrite Hnx, Hpv in Hnew. destruct Hrep as [Hnone Hrep].
  split.
  { intros k Hk Hin. rewrite fmap_app in Hin. cbn [fmap list_fmap] in Hin. rewrite Hother by set_solver.
    apply Hnone; [done|]. rewrite fmap_app. done. }
  destruct a as [|[n0 l0] a].
  - destruct Hrep as (-> & _ & Hseg & Hs & Hu). split_and!; try done. by eapply seg_frame.
  - destruct Hrep as (-> & Hroot0 & Hseg & Hs & Hu). cbn [app] in *.
    rewrite last_page_mid, hd_mid in Hroot0. apply seg_app in Hseg as (Hsa & Hna & Hsb).
    assert (is_u64 0 ∧ 0 < n) as [H0 H0n] by (apply Ha; left).
    split_and!; [done| | | |].
    + rewrite last_page_mid, hd_mid. eapply node_frame; [|exact Hroot0]. apply Hother; [done|lia].
    + apply seg_app. split; [|split; [done|by eapply seg_frame]].
      eapply seg_frame; [|exact Hsa]. intros k Hk. destruct (Ha k); [set_solver|]. apply Hother; [done|lia].
    + cbn [fmap list_fmap] in Hs |- *. rewrite fmap_app in Hs |- *. done.
    + cbn [fmap list_fmap] in Hu |- *. rewrite fmap_app in Hu |- *. done.
Qed.

(** A new last page *)
Lemma rep_extend m m' a n l x :
  dir_rep m (a ++ [(n, l)]) → is_u64 (n + 1) →
  (∀ k, is_u64 k → k ≠ 0 → k ≠ n → k ≠ n + 1 → m' (idx k) = m (idx k)) →
  (∃ d, m (idx n) ≫= to_dir = Some d ∧ m' (idx n) ≫= to_dir =
     Some (if n =? 0 then set_previous_page (set_next_page d (n + 1)) (n + 1) else set_next_page d (n + 1))) →
  (n ≠ 0 → ∃ d, m (idx 0) ≫= to_dir = Some d ∧ m' (idx 0) ≫= to_dir = Some (set_previous_page d (n + 1))) →
  node m' (n + 1) [x] 0 n →
  dir_rep m' (a ++ [(n, l); (n + 1, [x])]).
Proof.
  intros Hrep Hn1 Hother (d & Hd & Hd') H0 Hnew.
  destruct (rep_facts m a n l [] Hrep) as (Hn & Ha & _ & (d1 & Hd1 & Hl & Hnx & Hpv) & Ha0 & Ha1).
  rewrite Hd in Hd1. injection Hd1 as <-. unfold is_u64 in Hn, Hn1. destruct Hrep as [Hnone Hrep].
  assert (∀ k, is_u64 k → k ∉ (a ++ [(n, l); (n + 1, [x])]).*1 → k ∉ (a ++ [(n, l)]).*1 ∧ k ≠ 0 ∧ k ≠ n ∧ k ≠ n + 1) as Hout.
  { intros k Hk Hin. rewrite fmap_app in *. cbn [fmap list_fmap] in *.
    assert (0 ∈ (a.*1 ++ [n; n + 1])); [|set_solver].
    destruct a as [|[n0 l0] a]; [rewrite Ha0 by done; by left|]. destruct Hrep as (-> & _). by left. }
  split.
  { intros k Hk Hin. destruct (Hout k Hk Hin) as (Hx & Hk0 & Hkn & Hk1). rewrite Hother by done. by apply Hnone. }
  destruct a as [|[n0 l0] a].
  - specialize (Ha0 eq_refl). subst n. destruct Hrep as (_ & _ & _ & _ & _). cbn [app]. split_and!; [done| | | |].
    + exists (set_previous_page (set_next_page d 1) 1). by split_and!.
    + split; [exact Hnew|done].
    + cbn. repeat constructor; lia.
    + cbn. repeat constructor; mint_range.
  - destruct Hrep as (-> & (d0 & Hd0 & Hl0 & Hnx0 & Hpv0) & Hseg & Hs & Hu). cbn [app] in *.
    specialize (Ha1 ltac:(done)). destruct (H0 ltac:(lia)) as (d0' & Hd0' & Hm0). rewrite Hd0 in Hd0'. injection Hd0' as <-.
    rewrite (proj2 (Z.eqb_neq n 0)) in Hd' by lia. apply seg_app in Hseg as (Hsa & Hna & _).
    rewrite last_page_mid, hd_mid in *. split_and!; [done| | | |].
    + exists (set_previous_page d0 (n + 1)). split_and!; try done.
    + apply seg_app. split.
      * eapply seg_frame; [|exact Hsa]. intros k Hk. destruct (Ha k); [set_solver|].
        assert (0 < k) as Hk0; [|apply Hother; [done|lia|lia|lia]].
        cbn [fmap list_fmap] in Hs. inversion Hs as [|? ? _ Hf]; subst. rewrite Forall_forall in Hf. apply (Hf k).
        rewrite fmap_app. set_solver.
      * cbn [seg]. split_and!; [|exact Hnew|done].
        exists (set_next_page d (n + 1)). by split_and!.
    + cbn [fmap list_fmap fst] in Hs |- *. rewrite fmap_app in Hs |- *.
      apply (sorted_snoc (0 :: a.*1)); [exact Hs|simpl; lia].
    + cbn [fmap list_fmap fst] in Hu |- *. rewrite fmap_app in Hu |- *. cbn [fmap list_fmap fst] in Hu |- *.
      apply Forall_cons in Hu as [Hu0 Hu]. apply Forall_app in Hu as [Hu1 _]. constructor; [done|].
      apply Forall_app. split; [done|]. repeat constructor; unfold is_u64; lia.
Qed.

Lemma rep_sorted m ps : dir_rep m ps → StronglySorted Z.lt ps.*1 ∧ Forall is_u64 ps.*1.
Proof.
  intros [_ H]. destruct ps as [|[n l] ps]; [split; constructor|]. destruct H as (_ & _ & _ & Hs & Hu). done.
Qed.

(** The order and ranges after leaving out one page *)
Lemma nums_drop (a b : pages) n l :
  StronglySorted Z.lt (a ++ (n, l) :: b).*1 → Forall is_u64 (a ++ (n, l) :: b).*1 →
  StronglySorted Z.lt (a ++ b).*1 ∧ Forall is_u64 (a ++ b).*1.
Proof.
  rewrite !fmap_app. cbn [fmap list_fmap fst]. intros Hs Hu.
  apply Forall_app in Hu as [Hu1 Hu2]. apply Forall_cons in Hu2 as [_ Hu2]. split.
  - by apply (sorted_app_nums a.*1 b.*1 n).
  - by apply Forall_app.
Qed.

(** Taking out a page in the middle: [p], [n], [q] are neighbours. *)
Lemma rep_unlink m m' a p lp n l q lq b :
  dir_rep m (a ++ (p, lp) :: (n, l) :: (q, lq) :: b) →
  m' (idx n) = None →
  (∃ d, m (idx p) ≫= to_dir = Some d ∧ m' (idx p) ≫= to_dir = Some (set_next_page d q)) →
  (∃ d, m (idx q) ≫= to_dir = Some d ∧ m' (idx q) ≫= to_dir = Some (set_previous_page d p)) →
  (∀ k, is_u64 k → k ≠ p → k ≠ n → k ≠ q → m' (idx k) = m (idx k)) →
  dir_rep m' (a ++ (p, lp) :: (q, lq) :: b).
Proof.
  intros Hrep Hn (dp & Hdp & Hdp') (dq & Hdq & Hdq') Hother.
  destruct (rep_facts m a p lp ((n, l) :: (q, lq) :: b) Hrep) as (Hup & Hap & Hbp & (d1 & Hd1 & Hl1 & _ & Hpv1) & Ha0 & Ha1).
  rewrite Hdp in Hd1. injection Hd1 as <-.
  pose proof Hrep as Hrep2. rewrite (app_assoc a [(p, lp); (n, l)] ((q, lq) :: b) : a ++ (p, lp) :: (n, l) :: (q, lq) :: b = _) in Hrep2.
  destruct (rep_facts m _ q lq b Hrep2) as (Huq & Haq & Hbq & (d2 & Hd2 & Hl2 & Hnx2 & _) & _).
  rewrite Hdq in Hd2. injection Hd2 as <-.
  pose proof Hrep as Hrep3. rewrite (app_assoc a [(p, lp)] ((n, l) :: (q, lq) :: b) : a ++ (p, lp) :: (n, l) :: (q, lq) :: b = _) in Hrep3.
  destruct (rep_facts m _ n l ((q, lq) :: b) Hrep3) as (_ & Han & Hbn & _). clear Hrep2.
  destruct (rep_sorted m _ Hrep3) as [Hs Hu]. destruct (nums_drop _ _ _ _ Hs Hu) as [Hs' Hu']. clear Hs Hu Hrep3.
  rewrite <- app_assoc in Hs', Hu'. cbn [app] in Hs', Hu'.
  assert (p < n ∧ n < q) as [Hpn Hnq].
  { split; [apply (Han p); rewrite fmap_app; set_solver|apply (Hbn q); set_solver]. }
  assert (node m' q lq (hd 0 b.*1) p) as Hnq'. { exists (set_previous_page dq p). by split_and!. }
  assert (∀ k, k ∈ a.*1 → m' (idx k) = m (idx k)) as Hfa.
  { intros k Hk. destruct (Hap k Hk). apply Hother; [done|lia..]. }
  assert (∀ k, k ∈ b.*1 → m' (idx k) = m (idx k)) as Hfb.
  { intros k Hk. destruct (Hbq k Hk). apply Hother; [done|lia..]. }
  destruct Hrep as [Hnone Hrep]. split.
  { intros k Hk Hin. destruct (decide (k = n)) as [->|Hkn]; [done|].
    rewrite fmap_app in Hin. cbn [fmap list_fmap fst] in Hin. rewrite Hother by set_solver.
    apply Hnone; [done|]. rewrite fmap_app. cbn [fmap list_fmap fst]. set_solver. }
  destruct a as [|[n0 l0] a].
  - specialize (Ha0 eq_refl). subst p. destruct Hrep as (_ & _ & (_ & _ & Hsb) & _). cbn [app].
    split_and!; [done| | |done|done].
    + exists (set_next_page dp q). by split_and!.
    + split; [done|]. by eapply seg_frame.
  - destruct Hrep as (-> & Hr & Hseg & _). cbn [app] in *. rewrite last_page_mid, hd_mid in *.
    apply seg_app in Hseg as (Hsa & (dp2 & Hdp2 & _ & _ & Hpv2) & _ & _ & Hsb).
    rewrite Hdp in Hdp2. injection Hdp2 as <-.
    split_and!; [done| | |done|done].
    + eapply node_frame; [|exact Hr]. apply Hfa. by left.
    + apply seg_app. split.
      * eapply seg_frame; [|exact Hsa]. intros k Hk. apply Hfa. by right.
      * split; [exists (set_next_page dp q); by split_and!|]. split; [done|]. by eapply seg_frame.
Qed.

(** ** dirAdd appends *)

(** [m'] differs from [m] on pages of the directory only. *)
Definition frame (m m' : Z → option SLE) : Prop :=
  ∀ j, outside j → m' j = m j.

Lemma page_inside n : is_u64 n → ¬ outside (idx n).
Proof. intros Hn H. by apply (H n Hn). Qed.

Lemma idx_0 : idx 0 = root.
Proof. done. Qed.
Lemma root_ne_0 : root ≠ 0.
Proof. apply (proj1 Hroot 0). by split. Qed.
Lemma u64_0 : is_u64 0.
Proof. by split. Qed.

Lemma push_step w s m i p d l x n :
  tracked w s m → held s i p → m i ≫= to_dir = Some d →
  ∃ w' m', push_entry w s p l x n = Ok (w', s, (tesSUCCESS, n)) ∧ tracked w' s m'
           ∧ m' = upd m i (Some (of_dir (set_indexes d (l ++ [x])))).
Proof.
  intros Hst Hh Hd. unfold push_entry. rewrite (read_step w s m i p d) by done. cbn [mbind result_bind].
  eexists _, _. split_and!; [done| |done]. by apply write_step.
Qed.

(** The result of adding [x] to the directory [ps] in the state that tracked for [m] *)
Definition added (m : Z → option SLE) (ps : pages) (x : Z) (r : result (World * LES * (Z * Z))) : Prop :=
  ∃ w' s' m', tracked w' s' m' ∧ frame m m'
  ∧ match dir_add ps x with
    | Some (ps', n) => r = Ok (w', s', (tesSUCCESS, n)) ∧ dir_rep m' ps'
    | None => r = Ok (w', s', (tecDIR_FULL, 0)) ∧ dir_rep m' ps
    end.

(** A new directory *)
Lemma add_first w s m x desc :
  tracked w s m → dir_rep m [] → added m [] x (dirAdd w s root x desc).
Proof.
  intros Hst [Hnone _]. pose proof (Hnone 0 u64_0 ltac:(set_solver)) as Hm0. rewrite idx_0 in Hm0.
  unfold dirAdd. eapply cache_step; [done|apply root_ne_0|]. intros w1 s1 r Hst1 _ Hr.
  destruct r as [p|]; [destruct Hr as [_ [? Hr]]; congruence|].
  eapply create_step; [done|done|]. intros w2 s2 p Hst2 Hp _.
  rewrite (read_step _ _ _ root p new_page Hst2 Hp) by (rewrite upd_eq; simpl; apply to_of_dir). cbn [mbind result_bind].
  pose proof (write_step _ _ _ root p (set_root new_page root) Hst2 Hp) as Hst3.
  rewrite (read_step _ _ _ root p _ Hst3 Hp (upd_dir _ _ _)). cbn [mbind result_bind].
  pose proof (write_step _ _ _ root p (describe (set_root new_page root) desc) Hst3 Hp) as Hst4.
  destruct (push_step _ _ _ root p _ [] x 0 Hst4 Hp (upd_dir _ _ _)) as (w' & m' & -> & Hst' & ->).
  eexists w', _, _. split; [done|]. split.
  - intros j Hj. assert (j ≠ root) by (apply (Hj 0); apply u64_0). by rewrite !upd_ne.
  - split; [done|]. split.
    + intros n Hn Hin. rewrite !upd_ne; [|rewrite <- idx_0; apply idx_ne; [done|apply u64_0|set_solver]..].
      apply Hnone; [done|]. set_solver.
    + split_and!; [done| |done|repeat constructor|constructor; [apply u64_0|constructor]].
      eexists. split; [apply upd_dir|]. done.
Qed.

(** The root links to the last page. *)
Lemma rep_root m a n l :
  dir_rep m (a ++ [(n, l)]) → ∃ d, m root ≫= to_dir = Some d ∧ sfIndexPrevious d = n ∧ (n = 0 ↔ a = []).
Proof.
  intros Hrep. destruct (rep_facts m a n l [] Hrep) as (Hn & _ & _ & (d & Hd & _ & _ & Hpv) & Ha0 & Ha1).
  destruct a as [|[n0 l0] a].
  - rewrite (Ha0 eq_refl) in *. rewrite idx_0 in Hd. exists d. by split_and!.
  - destruct Hrep as (_ & -> & (d0 & Hd0 & _ & _ & Hpv0) & _). rewrite idx_0 in Hd0.
    exists d0. rewrite last_page_mid in Hpv0. split_and!; [done..|]. specialize (Ha1 ltac:(done)). split; [lia|done].
Qed.

(** Writing the new page [n + 1], for a page [p] created in a state that tracked for [m] *)
Lemma fill_new_page w s m n p x desc :
  tracked w s m → is_u64 n → is_u64 (n + 1) → held s (idx (n + 1)) p →
  m (idx (n + 1)) = Some (of_dir new_page) →
  ∃ w' m', (d ← read_dir w p;
            let w := write_dir w p (set_root d root) in
            d ← read_dir w p;
            let w := if negb (n + 1 =? 1) then write_dir w p (set_previous_page d (u64 (n + 1 - 1))) else w in
            d ← read_dir w p;
            let w := write_dir w p (describe d desc) in
            push_entry w s p [] x (n + 1)) = Ok (w', s, (tesSUCCESS, n + 1))
    ∧ tracked w' s m' ∧ (∀ j, j ≠ idx (n + 1) → m' j = m j) ∧ node m' (n + 1) [x] 0 n.
Proof.
  intros Hst Hn Hn1 Hp Hm. set (i := idx (n + 1)) in *.
  rewrite (read_step w s m i p new_page) by (done || rewrite Hm; simpl; apply to_of_dir). cbn [mbind result_bind].
  pose proof (write_step _ _ _ i p (set_root new_page root) Hst Hp) as Hst1.
  rewrite (read_step _ _ _ i p _ Hst1 Hp (upd_dir _ _ _)). cbn [mbind result_bind].
  replace (n + 1 - 1) with n by lia. rewrite (u64_id n) by done.
  assert (∃ w2 m2 d2, (if negb (n + 1 =? 1) then write_dir (write_dir w p (set_root new_page root)) p (set_previous_page (set_root new_page root) n)
             else write_dir w p (set_root new_page root)) = w2 ∧ tracked w2 s m2 ∧ m2 i ≫= to_dir = Some d2
          ∧ sfIndexes d2 = [] ∧ sfIndexNext d2 = 0 ∧ sfIndexPrevious d2 = n ∧ ∀ j, j ≠ i → m2 j = m j)
    as (w2 & m2 & d2 & -> & Hst2 & Hd2 & Hl & Hnx & Hpv & Hf2).
  { destruct (Z.eqb_spec (n + 1) 1) as [Hn0|Hn0]; cbn [negb].
    - eexists _, _, _. split_and!; [done|exact Hst1|apply upd_dir|done|done|simpl; lia|]. intros j Hj. by rewrite upd_ne.
    - eexists _, _, _. split_and!; [done|by apply write_step|apply upd_dir|done|done|done|].
      intros j Hj. by rewrite !upd_ne. }
  rewrite (read_step w2 s m2 i p d2) by done. cbn [mbind result_bind].
  pose proof (write_step _ _ _ i p (describe d2 desc) Hst2 Hp) as Hst3.
  destruct (push_step _ _ _ i p _ [] x (n + 1) Hst3 Hp (upd_dir _ _ _)) as (w' & m' & -> & Hst' & ->).
  eexists w', _. split_and!; [done|exact Hst'| |].
  - intros j Hj. by rewrite !upd_ne, Hf2.
  - eexists. split; [apply upd_dir|]. by split_and!.
Qed.

(** The last page is full: link a new one. *)
Lemma add_page w s m a n l pr p d x desc :
  tracked w s m → dir_rep m (a ++ [(n, l)]) → is_u64 (n + 1) →
  held s root pr → held s (idx n) p → m (idx n) ≫= to_dir = Some d → (n = 0 → p = pr) →
  ∃ w' s' m',
    (let w := write_dir w p (set_next_page d (n + 1)) in
     s ← entryModify s (idx n) p;
     d ← read_dir w pr;
     let w := write_dir w pr (set_previous_page d (n + 1)) in
     s ← entryModify s root pr;
     '(w, s, sleNode) ← entryCreate w s (idx (n + 1)) (of_dir new_page);
     d ← read_dir w sleNode;
     let w := write_dir w sleNode (set_root d root) in
     d ← read_dir w sleNode;
     let w := if negb (n + 1 =? 1)
              then write_dir w sleNode (set_previous_page d (u64 (n + 1 - 1))) else w in
     d ← read_dir w sleNode;
     let w := write_dir w sleNode (describe d desc) in
     push_entry w s sleNode [] x (n + 1)) = Ok (w', s', (tesSUCCESS, n + 1))
    ∧ tracked w' s' m' ∧ frame m m' ∧ dir_rep m' (a ++ [(n, l); (n + 1, [x])]).
Proof.
  intros Hst Hrep Hn1 Hhr Hp Hd Hpr. destruct (rep_root m a n l Hrep) as (dr & Hdr & _ & _).
  destruct (rep_facts m a n l [] Hrep) as (Hn & Ha & _ & _ & Ha0 & Ha1).
  assert (idx (n + 1) ≠ root ∧ idx (n + 1) ≠ idx n) as [Hi0 Hin].
  { rewrite <- idx_0. split; apply idx_ne; done || apply u64_0 || (unfold is_u64 in *; lia). }
  pose proof (write_step w s m (idx n) p (set_next_page d (n + 1)) Hst Hp) as Hst1. cbv zeta.
  eapply modify_step; [exact Hst1|done|]. intros s1 Hst2 Hk1.
  set (dr' := if n =? 0 then set_next_page d (n + 1) else dr).
  assert (upd m (idx n) (Some (of_dir (set_next_page d (n + 1)))) root ≫= to_dir = Some dr') as Hdr'.
  { unfold dr'. destruct (Z.eqb_spec n 0) as [->|Hne]; [rewrite idx_0; apply upd_dir|].
    rewrite upd_ne; [done|]. rewrite <- idx_0. apply idx_ne; [apply u64_0|done|done]. }
  rewrite (read_step _ _ _ root pr dr' Hst2) by auto. cbn [mbind result_bind].
  pose proof (write_step _ s1 _ root pr (set_previous_page dr' (n + 1)) Hst2 (Hk1 _ _ Hhr)) as Hst3.
  eapply modify_step; [exact Hst3|by apply Hk1|]. intros s2 Hst4 Hk2.
  eapply create_step; [exact Hst4| |].
  { rewrite !upd_ne by done. apply Hrep; [done|]. rewrite fmap_app. cbn [fmap list_fmap fst].
    intros [Hc|Hc]%elem_of_app; [destruct (Ha _ Hc); lia|]. apply list_elem_of_singleton in Hc. lia. }
  intros w3 s3 q Hst5 Hq Hk3.
  destruct (fill_new_page w3 s3 _ n q x desc Hst5 Hn Hn1 Hq (upd_eq _ _ _)) as (w' & m' & He & Hst' & Hf & Hnode).
  eexists w', s3, m'. split; [exact He|]. split_and!; [done| |].
  - intros j Hj. rewrite Hf by (by apply Hj). rewrite !upd_ne; auto. rewrite <- idx_0. apply Hj, u64_0.
  - eapply rep_extend; try done.
    + intros k Hk H0 H1 H2. rewrite Hf by (by apply idx_ne). rewrite !upd_ne; [done|..]; try by apply idx_ne.
      rewrite <- idx_0. apply idx_ne; [done|apply u64_0|done].
    + exists d. split; [done|]. rewrite Hf by done. rewrite upd_ne by done. unfold dr' in *.
      destruct (Z.eqb_spec n 0) as [->|Hne]; [rewrite idx_0, upd_dir; done|].
      rewrite upd_ne; [apply upd_dir|]. rewrite <- idx_0. apply idx_ne; [done|apply u64_0|done].
    + intros Hne. rewrite idx_0. exists dr. split; [done|]. rewrite Hf by done. rewrite upd_ne by done. rewrite upd_dir.
      unfold dr'. by rewrite (proj2 (Z.eqb_neq n 0) Hne).
Qed.

(** Adding to an existing directory *)
Lemma add_next w s m a n l x desc :
  tracked w s m → dir_rep m (a ++ [(n, l)]) → added m (a ++ [(n, l)]) x (dirAdd w s root x desc).
Proof.
  intros Hst Hrep. destruct (rep_root m a n l Hrep) as (dr & Hdr & Hpv & Hn0).
  destruct (rep_facts m a n l [] Hrep) as (Hn & Ha & _ & (d & Hd & Hl & Hnx & Hpvn) & Ha0 & Ha1).
  unfold dirAdd. eapply cache_step; [done|apply root_ne_0|]. intros w1 s1 r Hst1 _ Hr.
  destruct r as [pr|]; [|by rewrite Hr in Hdr]. destruct Hr as [Hhr _].
  rewrite (read_step w1 s1 m root pr dr) by done. cbn [mbind result_bind]. rewrite Hpv.
  eassert (∃ w2 s2 p, (if negb (n =? 0) then _ else _) = Ok (w2, s2, p) ∧ tracked w2 s2 m
          ∧ held s2 root pr ∧ held s2 (idx n) p ∧ (n = 0 → p = pr)) as (w2 & s2 & p & He & Hst2 & Hhr2 & Hp & Hpr); [|rewrite He].
  { destruct (Z.eqb_spec n 0) as [->|Hne]; cbn [negb].
    - eexists _, _, _. by split_and!.
    - eapply cache_step; [done|by apply Hroot|]. intros w2 s2 r Hst2 Hk Hr.
      destruct r as [p|]; [|by rewrite Hr in Hd]. destruct Hr as [Hp _].
      eexists _, _, _. split; [done|]. split_and!; [done|by apply Hk|done|done]. }
  cbn [mbind result_bind]. rewrite (read_step w2 s2 m (idx n) p d) by done. cbn [mbind result_bind]. rewrite Hl.
  unfold added, dir_add. rewrite last_snoc.
  destruct (Nat.eqb_spec (length l) DIR_NODE_MAX) as [Hfull|Hfull]; cbn [negb].
  - unfold is_u64 in Hn. destruct (Z.eqb_spec (n + 1) (2 ^ 64)) as [Hmax|Hmax].
    + assert (u64 (n + 1) = 0) as -> by (by rewrite Hmax). by exists w2, s2, m.
    + rewrite (u64_id (n + 1)) by (unfold is_u64; lia). rewrite (proj2 (Z.eqb_neq (n + 1) 0)) by lia.
      destruct (add_page w2 s2 m a n l pr p d x desc) as (w' & s' & m' & He' & Hst' & Hf & Hrep'); try done; [unfold is_u64; lia|].
      exists w', s', m'. rewrite <- app_assoc. by split_and!.
  - eapply modify_step; [exact Hst2|done|]. intros s3 Hst3 Hk3.
    destruct (push_step w2 s3 m (idx n) p d l x n) as (w' & m' & -> & Hst' & ->); [done|by apply Hk3|done|].
    eexists w', _, _. split; [exact Hst'|]. split; [intros j Hj; apply upd_ne; by apply Hj|]. split; [done|].
    rewrite length_app, Nat.add_sub, take_app_length. by eapply rep_replace.
Qed.

(** ** dirDelete removes one entry *)

Lemma rep_none m m' ps :
  dir_rep m ps → (∀ k, k ∈ ps.*1 → m' (idx k) = None) →
  (∀ k, is_u64 k → k ∉ ps.*1 → m' (idx k) = m (idx k)) → dir_rep m' [].
Proof.
  intros [Hn _] Hin Hout. split; [|done]. intros k Hk _.
  destruct (decide (k ∈ ps.*1)); [by apply Hin|]. rewrite Hout by done. by apply Hn.
Qed.

Lemma frame_refl m : frame m m.
Proof. by intros j. Qed.
Lemma frame_upd m m' n v : is_u64 n → frame m m' → frame m (upd m' (idx n) v).
Proof. intros Hn Hf j Hj. rewrite upd_ne by (by apply Hj). by apply Hf. Qed.

(** The outcome of a removal that succeeds *)
Definition removed (m : Z → option SLE) (ps' : pages) (r : result (World * LES * Z)) : Prop :=
  ∃ w' s' m', r = Ok (w', s', tesSUCCESS) ∧ tracked w' s' m' ∧ frame m m' ∧ dir_rep m' ps'.

Lemma removed_same w s m ps : tracked w s m → dir_rep m ps → removed m ps (Ok (w, s, tesSUCCESS)).
Proof. intros H1 H2. exists w, s, m. split_and!; [done..|apply frame_refl|done]. Qed.

(** Deleting the only page, or the two pages of a directory *)
Lemma delete_one w s m n l p :
  tracked w s m → dir_rep m [(n, l)] → held s (idx n) p →
  removed m [] (s ← entryDelete s (idx n) p; Ok (w, s, tesSUCCESS)).
Proof.
  intros Hst Hrep Hp. destruct (rep_facts m [] n l [] Hrep) as (Hn & _).
  eapply delete_step; [done|done|by apply page_inside|]. intros s' Hst' _. eexists w, s', _.
  split_and!; [done|exact Hst'|apply frame_upd; [done|apply frame_refl]|]. eapply rep_none; [exact Hrep|..].
  - intros k ->%list_elem_of_singleton. apply upd_eq.
  - intros k Hk Hin. apply upd_ne, idx_ne; [done..|]. set_solver.
Qed.

Lemma delete_two w s m n l n' l' i j p q :
  tracked w s m → dir_rep m [(n, l); (n', l')] → (i = n ∧ j = n' ∨ i = n' ∧ j = n) →
  held s (idx i) p → held s (idx j) q →
  removed m [] (s ← entryDelete s (idx i) p; s ← entryDelete s (idx j) q; Ok (w, s, tesSUCCESS)).
Proof.
  intros Hst Hrep Heq Hp Hq. destruct (rep_facts m [] n l [(n', l')] Hrep) as (Hn & _ & Hn' & _).
  destruct (Hn' n') as [Hu' Hlt]; [by left|].
  assert (is_u64 i ∧ is_u64 j ∧ i ≠ j) as (Hi & Hj & Hij) by (destruct Heq as [[-> ->]|[-> ->]]; split_and!; done || lia).
  eapply delete_step; [done|done|by apply page_inside|]. intros s1 Hst1 Hk.
  eapply delete_step; [exact Hst1|apply Hk; [|done]|by apply page_inside|].
  { apply idx_ne; auto. }
  intros s2 Hst2 _. eexists w, s2, _.
  split_and!; [done|exact Hst2|by apply frame_upd, frame_upd, frame_refl|].
  eapply rep_none; [exact Hrep|..].
  - intros k Hk'. assert (k = i ∨ k = j) as [->| ->]; [cbn in Hk'; set_solver|rewrite upd_ne by (by apply idx_ne); apply upd_eq|apply upd_eq].
  - intros k Hk' Hin. assert (k ≠ i ∧ k ≠ j) as [] by (cbn in Hin; set_solver).
    rewrite !upd_ne; [done|by apply idx_ne..].
Qed.

(** Page 0 has been emptied. *)
Lemma emptied_root w s m keep b p :
  tracked w s m → dir_rep m ((0, []) :: b) → held s root p →
  removed m (prune keep [] 0 b) (emptied w s keep 0 root p).
Proof.
  intros Hst Hrep Hp. destruct (rep_facts m [] 0 [] b Hrep) as (_ & _ & Hb & (d & Hd & Hl & Hnx & Hpv) & _).
  unfold emptied. rewrite (read_step w s m root p d) by done. cbn [mbind result_bind]. rewrite Hnx, Hpv.
  change (0 =? 0) with true. cbv iota zeta. destruct b as [|[q lq] b].
  { by eapply delete_one. }
  destruct (Hb q) as [Hq Hq0]; [by left|]. cbn [fmap list_fmap fst hd last_page].
  assert (last_page q b = q ∧ b = [] ∨ b ≠ [] ∧ q < last_page q b) as Hlast.
  { destruct (last_page_in q b) as [?|Hin]; [by left|]. right. split; [by intros ->; apply not_elem_of_nil in Hin|].
    destruct (rep_facts m [(0, [])] q lq b Hrep) as (_ & _ & Hb' & _). by apply Hb'. }
  rewrite (proj2 (Z.eqb_neq (last_page q b) 0)) by lia.
  destruct keep; [destruct lq, b; by apply removed_same|].
  destruct Hlast as [[-> ->]|[Hne Hlt]].
  - rewrite Z.eqb_refl. cbn [negb]. eapply cache_step; [done|by apply Hroot|]. intros w1 s1 r Hst1 Hk Hr.
    destruct (rep_facts m [(0, [])] q lq [] Hrep) as (_ & _ & _ & (dq & Hdq & Hlq & _) & _).
    destruct r as [pq|]; [|by rewrite Hr in Hdq]. destruct Hr as [Hpq _]. cbn [not_null mbind result_bind].
    rewrite (read_step w1 s1 m (idx q) pq dq) by done. cbn [mbind result_bind]. rewrite Hlq.
    destruct lq as [|e lq]; [|by apply removed_same].
    eapply delete_two; [done|exact Hrep|by left|by apply Hk|done].
  - rewrite (proj2 (Z.eqb_neq (last_page q b) q)) by lia. cbn [negb].
    destruct lq, b; try done; by apply removed_same.
Qed.

(** A page between two others has been emptied. *)
Lemma emptied_middle w s m keep a p' lp n q lq b p :
  tracked w s m → dir_rep m (a ++ (p', lp) :: (n, []) :: (q, lq) :: b) → held s (idx n) p →
  removed m (a ++ (p', lp) :: (q, lq) :: b) (emptied w s keep n root p).
Proof.
  intros Hst Hrep Hp. pose proof Hrep as Hrep'.
  rewrite (app_assoc a [(p', lp)] ((n, []) :: (q, lq) :: b) : a ++ (p', lp) :: (n, []) :: (q, lq) :: b = _) in Hrep'.
  destruct (rep_facts m _ n [] ((q, lq) :: b) Hrep') as (Hn & Ha & Hb & (d & Hd & Hl & Hnx & Hpv) & _ & Ha1). clear Hrep'.
  destruct (rep_facts m a p' lp _ Hrep) as (Hup & _ & _ & (dp & Hdp & _) & _).
  assert (sfIndexPrevious d = p') as Hpv' by (rewrite Hpv, last_page_app; by destruct a as [|[]]). clear Hpv.
  pose proof Hrep as Hrep'.
  rewrite (app_assoc a [(p', lp); (n, [])] ((q, lq) :: b) : a ++ (p', lp) :: (n, []) :: (q, lq) :: b = _) in Hrep'.
  destruct (rep_facts m _ q lq b Hrep') as (Huq & _ & _ & (dq & Hdq & _) & _). clear Hrep'.
  destruct (Ha p') as [_ Hpn]; [rewrite fmap_app; set_solver|]. destruct (Hb q) as [_ Hnq]; [by left|].
  assert (0 < n) as Hn0 by (apply Ha1; by destruct a). clear Ha1.
  unfold emptied. rewrite (read_step w s m (idx n) p d) by done. cbn [mbind result_bind]. rewrite Hnx, Hpv'.
  cbn [fmap list_fmap fst hd]. rewrite (proj2 (Z.eqb_neq n 0)), (proj2 (Z.eqb_neq q 0)) by lia. cbn [negb].
  eapply cache_step; [done|by apply Hroot|]. intros w1 s1 r1 Hst1 Hk1 Hr1.
  destruct r1 as [pp|]; [|by rewrite Hr1 in Hdp]. destruct Hr1 as [Hpp _].
  eapply cache_step; [done|by apply Hroot|]. intros w2 s2 r2 Hst2 Hk2 Hr2.
  destruct r2 as [pq|]; [|by rewrite Hr2 in Hdq]. destruct Hr2 as [Hpq _].
  rewrite (read_step w2 s2 m (idx p') pp dp Hst2) by auto. cbn [mbind result_bind].
  pose proof (write_step w2 s2 m (idx p') pp (set_next_page dp q) Hst2 (Hk2 _ _ Hpp)) as Hst3.
  eapply modify_step; [exact Hst3|by apply Hk2|]. intros s3 Hst4 Hk3.
  erewrite (read_step _ s3 _ (idx q) pq dq Hst4); [|by apply Hk3|rewrite upd_ne; [done|apply idx_ne; done || lia]].
  cbn [mbind result_bind].
  pose proof (write_step _ s3 _ (idx q) pq (set_previous_page dq p') Hst4 (Hk3 _ _ Hpq)) as Hst5.
  eapply modify_step; [exact Hst5|by apply Hk3|]. intros s4 Hst6 Hk4.
  eapply delete_step; [exact Hst6|by auto|by apply page_inside|]. intros s5 Hst7 _.
  eexists _, s5, _. split_and!; [done|exact Hst7|by apply frame_upd, frame_upd, frame_upd, frame_refl|].
  eapply rep_unlink; [exact Hrep|apply upd_eq|..].
  - exists dp. split; [done|]. rewrite (upd_ne _ (idx n)), (upd_ne _ (idx q)) by (apply idx_ne; done || lia). apply upd_dir.
  - exists dq. split; [done|]. rewrite upd_ne by (apply idx_ne; done || lia). apply upd_dir.
  - intros k Hk H1 H2 H3. by rewrite !upd_ne by (by apply idx_ne).
Qed.

(** The last page, not the root, has been emptied. *)
Lemma emptied_last w s m keep a n p :
  tracked w s m → a ≠ [] → dir_rep m (a ++ [(n, [])]) → held s (idx n) p →
  removed m (prune keep a n []) (emptied w s keep n root p).
Proof.
  intros Hst Hne Hrep Hp. destruct (rep_facts m a n [] [] Hrep) as (Hn & Ha & _ & (d & Hd & Hl & Hnx & Hpv) & _ & Ha1).
  specialize (Ha1 Hne). unfold emptied. rewrite (read_step w s m (idx n) p d) by done. cbn [mbind result_bind].
  rewrite Hnx, Hpv, (proj2 (Z.eqb_neq n 0)) by lia. cbn [fmap list_fmap hd negb Z.eqb].
  destruct a as [|[n0 l0] a]; [done|]. destruct Hrep as (Hnone & -> & Hrep). cbn [last_page].
  assert (dir_rep m (((0, l0) :: a) ++ [(n, [])])) as Hrep' by done. clear Hrep Hnone.
  assert (last_page 0 a = 0 ∧ a = [] ∨ a ≠ [] ∧ last_page 0 a ≠ 0) as Hlast.
  { destruct (last_page_in 0 a) as [?|Hin]; [by left|]. right. split; [by intros ->; apply not_elem_of_nil in Hin|].
    destruct (rep_facts m [] 0 l0 (a ++ [(n, [])]) Hrep') as (_ & _ & Hb & _).
    destruct (Hb (last_page 0 a)); [rewrite fmap_app; set_solver|lia]. }
  destruct keep.
  { cbn [orb]. replace (prune true ((0, l0) :: a) n []) with (((0, l0) :: a) ++ [(n, [])]) by (by destruct l0, a).
    by apply removed_same. }
  destruct Hlast as [[-> ->]|[Hna Hnz]].
  - cbn [Z.eqb negb orb]. eapply cache_step; [done|apply root_ne_0|]. intros w1 s1 r Hst1 Hk Hr.
    destruct (rep_facts m [] 0 l0 [(n, [])] Hrep') as (_ & _ & _ & (d0 & Hd0 & Hl0 & _) & _). rewrite idx_0 in Hd0.
    destruct r as [pr|]; [|by rewrite Hr in Hd0]. destruct Hr as [Hpr _]. cbn [not_null mbind result_bind].
    rewrite (read_step w1 s1 m root pr d0) by done. cbn [mbind result_bind]. rewrite Hl0.
    destruct l0 as [|e l0]; [|by apply removed_same].
    eapply (delete_two w1 s1 m 0 [] n [] 0 n); [done|exact Hrep'|by left|done|by apply Hk].
  - rewrite (proj2 (Z.eqb_neq _ 0) Hnz). cbn [negb orb].
    replace (prune false ((0, l0) :: a) n []) with (((0, l0) :: a) ++ [(n, [])]) by (by destruct l0, a).
    by apply removed_same.
Qed.

Lemma emptied_spec w s m keep a n b p :
  tracked w s m → dir_rep m (a ++ (n, []) :: b) → held s (idx n) p →
  removed m (prune keep a n b) (emptied w s keep n root p).
Proof.
  intros Hst Hrep Hp. destruct (decide (a = [])) as [->|Ha].
  { destruct (rep_facts m [] n [] b Hrep) as (_ & _ & _ & _ & Hn & _). rewrite (Hn eq_refl) in *. by apply emptied_root. }
  destruct b as [|[q lq] b]; [by apply emptied_last|].
  replace (prune keep a n ((q, lq) :: b)) with (a ++ (q, lq) :: b) by (by destruct a as [|[? []] []]).
  destruct a as [|[p' lp] a _] using rev_ind; [done|]. rewrite <- app_assoc in Hrep |- *. by apply emptied_middle.
Qed.

(** Removing [x] from the page it is on *)
Lemma delete_here fuel w s m keep a n l b x st soft :
  tracked w s m → dir_rep m (a ++ (n, l) :: b) → x ∈ l →
  removed m (dir_del keep st a n l b x) (dirDelete_loop (S fuel) w s keep n root x st soft).
Proof.
  intros Hst Hrep Hx. destruct (rep_facts m a n l b Hrep) as (Hn & _ & _ & (d & Hd & Hl & _) & _).
  destruct (remove_entry_spec st x l Hx) as (l' & He & _).
  cbn [dirDelete_loop]. eapply cache_step; [done|by apply Hroot|]. intros w1 s1 r Hst1 _ Hr.
  destruct r as [p|]; [|by rewrite Hr in Hd]. destruct Hr as [Hp _].
  rewrite (read_step w1 s1 m (idx n) p d) by done. cbn [mbind result_bind]. rewrite Hl, He.
  pose proof (write_step w1 s1 m (idx n) p (set_indexes d l') Hst1 Hp) as Hst2.
  eapply modify_step; [exact Hst2|done|]. intros s2 Hst3 Hk.
  pose proof (rep_replace m a n l b l' d Hrep Hd) as Hrep'. unfold dir_del. rewrite He.
  destruct l' as [|y l'].
  - destruct (emptied_spec _ s2 _ keep a n b p Hst3 Hrep' (Hk _ _ Hp)) as (w' & s' & m' & Hr & Hst' & Hf & Hrep2).
    exists w', s', m'. split_and!; [done..| |done]. intros j Hj. rewrite Hf by done. apply upd_ne. by apply Hj.
  - eexists _, s2, _. split_and!; [done|exact Hst3|by apply frame_upd, frame_refl|exact Hrep'].
Qed.

(** Page [n] does not hold [x]: the hard form gives up, the soft form goes on to the next page. *)
Lemma delete_elsewhere fuel w s m keep ps n x st soft :
  tracked w s m → dir_rep m ps → is_u64 n → (∀ l, (n, l) ∈ ps → x ∉ l) →
  ∃ w' s', tracked w' s' m ∧
    dirDelete_loop (S fuel) w s keep n root x st soft =
      (if soft && (n <? 20) then dirDelete_loop fuel w' s' keep (n + 1) root x st true
       else Ok (w', s', tefBAD_LEDGER)).
Proof.
  intros Hst Hrep Hn Hx. cbn [dirDelete_loop].
  eapply cache_step; [done|by apply Hroot|]. intros w1 s1 r Hst1 _ Hr. exists w1, s1. split; [done|].
  destruct r as [p|]; [|by destruct soft]. destruct Hr as [Hp [v Hv]].
  assert (n ∈ ps.*1) as Hin.
  { destruct (decide (n ∈ ps.*1)) as [|Hin]; [done|]. rewrite (rep_others m ps n Hrep Hn Hin) in Hv. done. }
  apply list_elem_of_fmap in Hin as ([n' l] & -> & Hin). cbn [fst] in *.
  pose proof (Hx l Hin) as Hxl. apply list_elem_of_split in Hin as (a & b & ->).
  destruct (rep_facts m a n' l b Hrep) as (_ & _ & _ & (d & Hd & Hl & _) & _).
  rewrite (read_step w1 s1 m (idx n') p d) by done. cbn [mbind result_bind].
  rewrite Hl, (remove_entry_none st x l) by done. by destruct soft.
Qed.

(** The soft search, from page [start]: pages 0 to 20 *)
Lemma delete_search fuel w s m keep start a n l b x st :
  tracked w s m → dir_rep m (a ++ (n, l) :: b) → x ∈ l →
  0 <= start <= n → n <= 20 → n - start < Z.of_nat fuel →
  (∀ k l', (k, l') ∈ a → start <= k → x ∉ l') →
  removed m (dir_del keep st a n l b x) (dirDelete_loop fuel w s keep start root x st true).
Proof.
  intros Hst Hrep Hx. revert start w s Hst. induction fuel as [|fuel IH]; intros start w s Hst Hs Hn Hf Ha; [lia|].
  destruct (decide (start = n)) as [->|Hne]; [by apply delete_here|].
  destruct (rep_facts m a n l b Hrep) as (_ & _ & Hb & _).
  destruct (delete_elsewhere fuel w s m keep (a ++ (n, l) :: b) start x st true) as (w' & s' & Hst' & ->); [done|done| | |].
  - unfold is_u64; lia.
  - intros l' [Hin|Hin]%elem_of_app; [eapply Ha; [done|lia]|].
    apply elem_of_cons in Hin as [Hin|Hin]; [congruence|].
    assert (start ∈ b.*1) as Hb' by (apply list_elem_of_fmap; by exists (start, l')). destruct (Hb start Hb'); lia.
  - rewrite (proj2 (Z.ltb_lt start 20)) by lia. cbn [andb]. apply IH; [done|lia..|].
    intros k l' Hk Hle. apply (Ha k l' Hk). lia.
Qed.

(** The soft search that finds nothing *)
Lemma delete_search_none fuel w s m keep ps start x st :
  tracked w s m → dir_rep m ps → (∀ k l, (k, l) ∈ ps → start <= k <= 20 → x ∉ l) →
  0 <= start <= 20 → 20 - start < Z.of_nat fuel →
  ∃ w' s', dirDelete_loop fuel w s keep start root x st true = Ok (w', s', tefBAD_LEDGER) ∧ tracked w' s' m.
Proof.
  intros Hst Hrep. revert start w s Hst. induction fuel as [|fuel IH]; intros start w s Hst Hx Hs Hf; [lia|].
  destruct (delete_elsewhere fuel w s m keep ps start x st true) as (w' & s' & Hst' & ->); [done|done| | |].
  - unfold is_u64; lia.
  - intros l Hin. apply (Hx start l Hin). lia.
  - cbn [andb]. destruct (Z.ltb_spec start 20); [|by exists w', s'].
    apply IH; [done| |lia..]. intros k l Hk Hle. apply (Hx k l Hk). lia.
Qed.

(** ** Iteration visits every entry in order *)

(** The position [(p, e)] is at entry [e] of page [k]; [rest] is what is still to come. *)
Definition at_pos (s : LES) (ps : pages) (pos : Z * nat) (rest : list Z) : Prop :=
  ∃ a k l b, ps = a ++ (k, l) :: b ∧ held s (idx k) pos.1 ∧ rest = drop pos.2 l ++ entries b
             ∧ (pos.2 <= length l)%nat.

(** One call of [dirNext] with fuel for the pages left gives the next entry. *)
Lemma dirNext_loop fuel w s m a k l b p e :
  tracked w s m → dir_rep m (a ++ (k, l) :: b) → held s (idx k) p → (e <= length l)%nat →
  (length b < fuel)%nat →
  ∃ w' s' p' e' , dirNext fuel w s root p e = Ok (w', s', (p', e', head (drop e l ++ entries b)))
    ∧ tracked w' s' m ∧ (drop e l ++ entries b ≠ [] → at_pos s' (a ++ (k, l) :: b) (p', e') (tail (drop e l ++ entries b))).
Proof.
  revert w s a k l b p e. induction fuel as [|fuel IH]; intros w s a k l b p e Hst Hrep Hp He Hf; [lia|].
  destruct (rep_facts m a k l b Hrep) as (Hk & _ & Hb & (d & Hd & Hl & Hnx & _) & _).
  cbn [dirNext]. rewrite (read_step w s m (idx k) p d) by done. cbn [mbind result_bind]. rewrite Hl, Hnx.
  destruct (l !! e) as [x|] eqn:Hx.
  { rewrite (drop_S l x e Hx). cbn [app head tail]. eexists w, s, _, _. split_and!; [done..|]. intros _.
    exists a, k, l, b. split_and!; [done..|]. simpl. by apply lookup_lt_Some in Hx. }
  rewrite drop_ge by (by apply lookup_ge_None). cbn [app]. destruct b as [|[q lq] b].
  { cbn. eexists w, s, _, _. by split_and!. }
  destruct (Hb q) as [Hq Hkq]; [by left|]. cbn [fmap list_fmap fst hd].
  rewrite (proj2 (Z.eqb_neq q 0)) by (unfold is_u64 in Hk; lia).
  assert (dir_rep m ((a ++ [(k, l)]) ++ (q, lq) :: b)) as Hrep' by (by rewrite <- app_assoc).
  destruct (rep_facts m _ q lq b Hrep') as (_ & _ & _ & (dq & Hdq & _) & _).
  eapply cache_step; [done|by apply Hroot|]. intros w1 s1 r Hst1 _ Hr.
  destruct r as [pq|]; [|by rewrite Hr in Hdq]. destruct Hr as [Hpq _].
  destruct (IH w1 s1 (a ++ [(k, l)]) q lq b pq 0%nat Hst1 Hrep' Hpq ltac:(lia) ltac:(simpl in Hf; lia))
    as (w' & s' & p' & e' & He' & Hst' & Hpos). exists w', s', p', e'. rewrite <- app_assoc in Hpos. by split_and!.
Qed.

(** The client's loop: [dirFirst], then [dirNext] until it answers false; [count] bounds the
    number of calls. *)
Fixpoint scan_from (count fuel : nat) (w : World) (s : LES) (uRootIndex : Z) (pos : Z * nat) : result (list Z) :=
  match count with
  | O => Throw "does not terminate"
  | S count =>
      '(w, s, (p, e, r)) ← dirNext fuel w s uRootIndex pos.1 pos.2;
      match r with
      | Some x => rest ← scan_from count fuel w s uRootIndex (p, e); Ok (x :: rest)
      | None => Ok []
      end
  end.
Definition scan (count fuel : nat) (w : World) (s : LES) (uRootIndex : Z) : result (list Z) :=
  '(w, s, (p, e, r)) ← dirFirst fuel w s uRootIndex;
  match r with
  | Some x => rest ← scan_from count fuel w s uRootIndex (p, e); Ok (x :: rest)
  | None => Ok []
  end.

Lemma scan_from_spec count fuel w s m ps pos rest :
  tracked w s m → dir_rep m ps → at_pos s ps pos rest → (length ps <= fuel)%nat → (length rest < count)%nat →
  scan_from count fuel w s root pos = Ok rest.
Proof.
  revert w s pos rest. induction count as [|count IH]; intros w s [p e] rest Hst Hrep Hpos Hf Hc; [lia|].
  destruct Hpos as (a & k & l & b & -> & Hp & -> & He). cbn [fst snd] in *. pose proof Hf as Hf'.
  rewrite length_app in Hf'. simpl in Hf'.
  destruct (dirNext_loop fuel w s m a k l b p e) as (w' & s' & p' & e' & Hn & Hst' & Hpos); [done..|lia|].
  cbn [scan_from fst snd]. rewrite Hn. cbn [mbind result_bind].
  destruct (drop e l ++ entries b) as [|x rest] eqn:E; [done|]. cbn [head tail] in *.
  rewrite (IH w' s' (p', e') rest); [done|done|done|by apply Hpos|done|simpl in Hc; lia].
Qed.

Lemma scan_entries count fuel w s m ps :
  tracked w s m → dir_rep m ps → ps ≠ [] → (length ps <= fuel)%nat → (length (entries ps) <= count)%nat →
  scan count fuel w s root = Ok (entries ps).
Proof.
  intros Hst Hrep Hne Hf Hc. destruct ps as [|[n l] b]; [done|].
  destruct (rep_facts m [] n l b Hrep) as (_ & _ & _ & (d & Hd & _) & Hn & _). rewrite (Hn eq_refl) in *.
  rewrite idx_0 in Hd. unfold scan, dirFirst. rewrite result_bind_assoc.
  eapply cache_step; [done|apply root_ne_0|]. intros w1 s1 r Hst1 _ Hr.
  destruct r as [p|]; [|by rewrite Hr in Hd]. destruct Hr as [Hp _]. cbn [not_null mbind result_bind].
  destruct (dirNext_loop fuel w1 s1 m [] 0 l b p 0) as (w' & s' & p' & e' & He & Hst' & Hpos); [done..|lia|simpl in Hf; lia|].
  rewrite He. cbn [mbind result_bind]. rewrite drop_0 in *.
  change (l ++ entries b) with (entries ((0, l) :: b)) in *.
  destruct (entries ((0, l) :: b)) as [|x rest] eqn:E; [done|]. cbn [head tail] in *.
  rewrite (scan_from_spec count fuel w' s' m ((0, l) :: b) (p', e') rest); [done|done|done|by apply Hpos|done|simpl in Hc; lia].
Qed.

(** ** dirCount *)

Lemma dirCount_loop_spec fuel w s m a k l b c :
  tracked w s m → dir_rep m (a ++ (k, l) :: b) → (length b < fuel)%nat → is_u32 c →
  ∃ w' s', dirCount_loop fuel w s root k c = Ok (w', s', (tesSUCCESS, u32 (c + Z.of_nat (length l + length (entries b)))))
           ∧ tracked w' s' m.
Proof.
  revert w s a k l b c. induction fuel as [|fuel IH]; intros w s a k l b c Hst Hrep Hf Hc; [lia|].
  destruct (rep_facts m a k l b Hrep) as (Hk & _ & Hb & (d & Hd & Hl & Hnx & _) & _).
  cbn [dirCount_loop]. eapply cache_step; [done|by apply Hroot|]. intros w1 s1 r Hst1 _ Hr.
  destruct r as [p|]; [|by rewrite Hr in Hd]. destruct Hr as [Hp _].
  rewrite (read_step w1 s1 m (idx k) p d) by done. cbn [mbind result_bind]. rewrite Hl, Hnx.
  destruct b as [|[q lq] b].
  { exists w1, s1. split; [|done]. cbn. by rewrite Nat.add_0_r. }
  destruct (Hb q) as [Hq Hkq]; [by left|]. cbn [fmap list_fmap fst hd].
  rewrite (proj2 (Z.eqb_neq q 0)) by (unfold is_u64 in Hk; lia).
  assert (dir_rep m ((a ++ [(k, l)]) ++ (q, lq) :: b)) as Hrep' by (by rewrite <- app_assoc).
  destruct (IH w1 s1 (a ++ [(k, l)]) q lq b (u32 (c + Z.of_nat (length l))) Hst1 Hrep') as (w' & s' & -> & Hst');
    [simpl in Hf; lia|apply u32_range|].
  exists w', s'. split; [|done]. change (entries ((q, lq) :: b)) with (lq ++ entries b). rewrite length_app.
  enough (u32 (u32 (c + Z.of_nat (length l)) + Z.of_nat (length lq + length (entries b)))
          = u32 (c + Z.of_nat (length l + (length lq + length (entries b))))) as -> by done.
  unfold u32. rewrite Zplus_mod_idemp_l. f_equal. lia.
Qed.
End chain.
End directory.

(** ** What callers use *)

Lemma dirAdd_since {SLE} `{DirEntry SLE} sha512half root (w : World SLE) s m ps x desc :
  good_root sha512half root → stands w s m → dir_rep sha512half root m ps →
  ∃ w' s' m', track (outside sha512half root) s w' s' m' ∧ frame sha512half root m m' ∧
    match dir_add ps x with
    | Some (ps', n) =>
        dirAdd sha512half w s root x desc = Ok (w', s', (tesSUCCESS, n)) ∧ dir_rep sha512half root m' ps'
    | None => dirAdd sha512half w s root x desc = Ok (w', s', (tecDIR_FULL, 0)) ∧ dir_rep sha512half root m' ps
    end.
Proof.
  intros Hroot Hst Hrep. apply (track_start (outside sha512half root)) in Hst.
  destruct ps as [|[n l] ps _] using rev_ind; [by apply add_first|by apply add_next].
Qed.

Lemma dirDelete_since {SLE} `{DirEntry SLE} sha512half root (w : World SLE) s m a n l b x start keep st soft :
  good_root sha512half root → stands w s m → dir_rep sha512half root m (a ++ (n, l) :: b) → x ∈ l →
  (start = n ∨ soft = true ∧ 0 <= start <= n ∧ n <= 20 ∧ ∀ k l', (k, l') ∈ a → start <= k → x ∉ l') →
  ∃ w' s' m', dirDelete sha512half w s keep start root x st soft = Ok (w', s', tesSUCCESS)
    ∧ track (outside sha512half root) s w' s' m' ∧ frame sha512half root m m'
    ∧ dir_rep sha512half root m' (dir_del keep st a n l b x).
Proof.
  intros Hroot Hst Hrep Hx Hstart. apply (track_start (outside sha512half root)) in Hst. unfold dirDelete.
  destruct Hstart as [->|(-> & Hs & Hn & Ha)]; [by apply delete_here|]. apply delete_search; try done. simpl. lia.
Qed.

(** ** The properties *)

(** A hash function that suits the demonstrations: it keeps the page number. *)
Definition demo_hash (l : list Z) : Z := be_val (drop 34 l) + 1000.

Lemma demo_idx n : is_u64 n → n ≠ 0 → getDirNodeIndex demo_hash 5 n = n + 1000.
Proof.
  intros Hn H0. unfold getDirNodeIndex. rewrite (proj2 (Z.eqb_neq n 0) H0). cbn [negb]. unfold demo_hash, add16, add64, add256.
  rewrite app_assoc, drop_app_length' by (by rewrite length_app, !be_bytes_length).
  rewrite be_val_bytes_id; [done|]. unfold is_u64 in Hn. change (256 ^ Z.of_nat 8) with 18446744073709551616. lia.
Qed.

Lemma demo_good : good_root demo_hash 5.
Proof.
  split.
  - intros n Hn. destruct (decide (n = 0)) as [->|H0]; [done|]. rewrite demo_idx by done. unfold is_u64 in Hn. lia.
  - intros n k Hn Hk. unfold is_u64 in *.
    assert (getDirNodeIndex demo_hash 5 0 = 5) as E by done.
    destruct (decide (n = 0)) as [->|H0], (decide (k = 0)) as [->|H1]; rewrite ?E, ?demo_idx by done; lia.
Qed.

#[export] Instance DirNode_entry : DirEntry DirNode :=
  {| to_dir := Some; of_dir := id; to_of_dir d := eq_refl |}.

Definition demo_world : World DirNode := mkWorld ∅ 0.
Definition demo_set : LedgerEntrySet DirNode := newLES [] 0 false.

Lemma demo_stands : stands demo_world demo_set (λ _, None).
Proof. split; [apply inv_new; constructor|done]. Qed.
Lemma demo_rep : dir_rep demo_hash 5 (λ _, None : option DirNode) [].
Proof. by split. Qed.

(** A directory with the one page [l] *)
Definition demo_page (l : list Z) : Z → option DirNode := λ j, if j =? 5 then Some (mkDirNode l 0 0 5 []) else None.
Definition demo_set1 (l : list Z) : LedgerEntrySet DirNode := newLES [(5, mkDirNode l 0 0 5 [])] 0 false.
Lemma demo_stands1 l : stands demo_world (demo_set1 l) (demo_page l).
Proof.
  split; [apply inv_new; repeat constructor|]. intros j. unfold demo_page. cbn.
  destruct (Z.compare_spec j 5) as [->|H|H]; [done|..]; by rewrite (proj2 (Z.eqb_neq j 5)) by lia.
Qed.
Lemma demo_rep1 l : dir_rep demo_hash 5 (demo_page l) [(0, l)].
Proof.
  split.
  - intros n Hn Hin. unfold demo_page. rewrite demo_idx by set_solver. rewrite (proj2 (Z.eqb_neq (n + 1000) 5)); [done|].
    unfold is_u64 in Hn. lia.
  - split; [done|]. split; [by eexists|]. split; [done|]. split; [repeat constructor|].
    constructor; [by split|constructor].
Qed.

(** C17: adding an entry to a directory of any length appends it: to the last page, to a new
    page when that one is full, or to a new directory.  The links stay those of one chain,
    no page exceeds 32 entries, and no entry of the ledger outside the directory changes.
    When the page numbers are used up nothing changes and the code is [tecDIR_FULL]. *)
Theorem dirAdd_appends {SLE} `{DirEntry SLE} sha512half root (w : World SLE) s m ps x desc :
  good_root sha512half root → stands w s m → dir_rep sha512half root m ps → page_sizes ps →
  ∃ w' s' m', stands w' s' m' ∧ frame sha512half root m m' ∧
    match dir_add ps x with
    | Some (ps', n) =>
        dirAdd sha512half w s root x desc = Ok (w', s', (tesSUCCESS, n))
        ∧ dir_rep sha512half root m' ps' ∧ entries ps' = entries ps ++ [x] ∧ page_sizes ps'
    | None =>
        dirAdd sha512half w s root x desc = Ok (w', s', (tecDIR_FULL, 0)) ∧ dir_rep sha512half root m' ps
    end.
Proof.
  intros Hroot Hst Hrep Hsz.
  destruct (dirAdd_since sha512half root w s m ps x desc Hroot Hst Hrep) as (w' & s' & m' & [Hst' _] & Hf & Hr).
  exists w', s', m'. split_and!; [done..|]. destruct (dir_add ps x) as [[ps' n]|] eqn:E; [|done].
  destruct Hr. split_and!; [done..|by eapply dir_add_entries|by eapply dir_add_sizes].
Qed.

Lemma dirAdd_appends_witness :
  ∃ w' s', dirAdd demo_hash demo_world demo_set 5 77 [] = Ok (w', s', (tesSUCCESS, 0)) ∧ stands w' s' (lookup_set w' s').
Proof.
  destruct (dirAdd_appends demo_hash 5 demo_world demo_set (λ _, None) [] 77 [] demo_good demo_stands demo_rep
    (Forall_nil_2 _)) as (w' & s' & m' & Hst & _ & Hr & _).
  exists w', s'. split; [exact Hr|]. split; [apply Hst|done].
Defined.

(** C18: removing an entry from the page it is on (or, with the soft flag, from a page up to
    number 20 reached by searching forward) succeeds, removes that entry once and no other,
    keeps the order of the others when asked to, relinks or deletes an emptied page, keeps
    the pages one chain, and changes nothing outside the directory. *)
Theorem dirDelete_removes {SLE} `{DirEntry SLE} sha512half root (w : World SLE) s m a n l b x start keep st soft :
  good_root sha512half root → stands w s m → dir_rep sha512half root m (a ++ (n, l) :: b) →
  page_sizes (a ++ (n, l) :: b) → x ∈ l →
  (start = n ∨ soft = true ∧ 0 <= start <= n ∧ n <= 20 ∧ ∀ k l', (k, l') ∈ a → start <= k → x ∉ l') →
  let ps := a ++ (n, l) :: b in
  let ps' := dir_del keep st a n l b x in
  ∃ w' s' m', dirDelete sha512half w s keep start root x st soft = Ok (w', s', tesSUCCESS)
    ∧ stands w' s' m' ∧ frame sha512half root m m' ∧ dir_rep sha512half root m' ps' ∧ page_sizes ps'
    ∧ entries ps ≡ₚ x :: entries ps'
    ∧ (st = true → ∃ c d, entries ps = c ++ x :: d ∧ entries ps' = c ++ d).
Proof.
  intros Hroot Hst Hrep Hsz Hx Hstart ps ps'.
  destruct (dirDelete_since sha512half root w s m a n l b x start keep st soft Hroot Hst Hrep Hx Hstart)
    as (w' & s' & m' & Hr & [Hst' _] & Hf & Hrep').
  exists w', s', m'. split_and!; [done..|by apply dir_del_sizes| |];
    destruct (dir_del_entries keep st a n l b x Hx) as (l' & He & Hps); unfold ps, ps'; rewrite Hps, entries_mid;
    destruct (remove_entry_spec st x l Hx) as (l2 & He2 & Hp & Hord); rewrite He in He2; injection He2 as <-.
  - rewrite Hp. solve_Permutation.
  - intros Hs. destruct (Hord Hs) as (c & d & -> & ->). exists (entries a ++ c), (d ++ entries b).
    by rewrite <- !app_assoc.
Qed.

Lemma dirDelete_removes_witness :
  ∃ w' s', dirDelete demo_hash demo_world (demo_set1 [7; 8; 9]) false 0 5 8 true false = Ok (w', s', tesSUCCESS)
    ∧ dir_rep demo_hash 5 (lookup_set w' s') [(0, [7; 9])].
Proof.
  destruct (dirDelete_removes demo_hash 5 demo_world (demo_set1 [7; 8; 9]) (demo_page [7; 8; 9]) [] 0 [7; 8; 9] [] 8 0
    false true false demo_good (demo_stands1 _) (demo_rep1 _)) as (w' & s' & m' & Hr & Hst & _ & Hrep & _).
  - repeat constructor.
  - set_solver.
  - by left.
  - exists w', s'. split; [exact Hr|]. assert (dir_del false true [] 0 [7; 8; 9] [] 8 = [(0, [7; 9])]) as E by reflexivity.
    rewrite E in Hrep. destruct Hst as [_ Hm]. destruct Hrep as [H1 (H2 & (d & Hd) & H3)].
    split; [intros n Hn Hin; rewrite Hm; by apply H1|]. split; [done|]. split; [exists d; by rewrite Hm|done].
Defined.

(** When no page that is searched holds the entry, the answer is [tefBAD_LEDGER] and the
    directory and the rest of the ledger stay as they are; the recursion of the soft search
    ends. *)
Theorem dirDelete_missing {SLE} `{DirEntry SLE} sha512half root (w : World SLE) s m ps x start keep st (soft : bool) :
  good_root sha512half root → stands w s m → dir_rep sha512half root m ps → is_u64 start →
  (∀ k l, (k, l) ∈ ps → (if soft then start <= k <= Z.max start 20 else k = start) → x ∉ l) →
  ∃ w' s', dirDelete sha512half w s keep start root x st soft = Ok (w', s', tefBAD_LEDGER) ∧ stands w' s' m.
Proof.
  intros Hroot Hst Hrep Hs Hx. apply (track_start (outside sha512half root)) in Hst. unfold dirDelete.
  destruct (decide (soft = true ∧ start <= 20)) as [[-> Hle]|Hcase].
  - destruct (delete_search_none sha512half root s Hroot 21 w s m keep ps start x st) as (w' & s' & He & [? _]);
      [done..| |unfold is_u64 in Hs; lia|unfold is_u64 in Hs; simpl; lia|by exists w', s'].
    intros k l Hk Hr. apply (Hx k l Hk). lia.
  - destruct (delete_elsewhere sha512half root s Hroot 20 w s m keep ps start x st soft) as (w' & s' & [Hst' _] & ->); [done..| |].
    + intros l Hl. apply (Hx start l Hl). destruct soft; lia.
    + exists w', s'. split; [|done]. destruct soft; [|done]. by rewrite (proj2 (Z.ltb_ge start 20)) by naive_solver lia.
Qed.

Lemma dirDelete_missing_witness :
  ∃ w' s', dirDelete demo_hash demo_world (demo_set1 [7; 8; 9]) false 0 5 4 true true = Ok (w', s', tefBAD_LEDGER)
    ∧ stands w' s' (demo_page [7; 8; 9]).
Proof.
  apply (dirDelete_missing demo_hash 5 demo_world (demo_set1 [7; 8; 9]) (demo_page [7; 8; 9]) [(0, [7; 8; 9])] 4 0
    false true true demo_good (demo_stands1 _) (demo_rep1 _)); [by split|].
  intros k l [= -> ->]%list_elem_of_singleton _. set_solver.
Defined.

(** [dirFirst] and then [dirNext] until it answers false visit every entry of the
    directory once, in order, over all its pages. *)
Theorem dir_scan_complete {SLE} `{DirEntry SLE} sha512half root (w : World SLE) s m ps count fuel :
  good_root sha512half root → stands w s m → dir_rep sha512half root m ps → ps ≠ [] →
  (length ps <= fuel)%nat → (length (entries ps) <= count)%nat →
  scan sha512half count fuel w s root = Ok (entries ps).
Proof.
  intros Hroot Hst. apply (track_start (outside sha512half root)) in Hst. intros. by eapply scan_entries.
Qed.

Lemma dir_scan_complete_witness : scan demo_hash 3 1 demo_world (demo_set1 [7; 8; 9]) 5 = Ok [7; 8; 9].
Proof.
  apply (dir_scan_complete demo_hash 5 demo_world (demo_set1 [7; 8; 9]) (demo_page [7; 8; 9]) [(0, [7; 8; 9])] 3 1
    demo_good (demo_stands1 _) (demo_rep1 _)); [done|simpl; lia|simpl; lia].
Defined.

(** [dirCount] counts the entries, modulo 2^32. *)
Theorem dirCount_total {SLE} `{DirEntry SLE} sha512half root (w : World SLE) s m ps fuel :
  good_root sha512half root → stands w s m → dir_rep sha512half root m ps → (0 < length ps <= fuel)%nat →
  ∃ w' s', dirCount sha512half fuel w s root = Ok (w', s', (tesSUCCESS, u32 (Z.of_nat (length (entries ps))))) ∧ stands w' s' m.
Proof.
  intros Hroot Hst Hrep Hf. destruct ps as [|[n l] b]; [simpl in Hf; lia|].
  apply (track_start (outside sha512half root)) in Hst. destruct (rep_facts sha512half root Hroot m [] n l b Hrep) as (_ & _ & _ & _ & Hn & _). rewrite (Hn eq_refl) in *.
  destruct (dirCount_loop_spec sha512half root s Hroot fuel w s m [] 0 l b 0) as (w' & s' & He & [Hst' _]); [done..|simpl in Hf; lia|by split|].
  exists w', s'. split; [|done]. unfold dirCount. rewrite He. unfold entries. cbn [fmap list_fmap snd concat]. by rewrite length_app.
Qed.

(** Adding the entries [xs] one after the other; removing a list of (page, entry) *)
Fixpoint add_all (w : World DirNode) (s : LedgerEntrySet DirNode) (xs : list Z)
    : result (World DirNode * LedgerEntrySet DirNode) :=
  match xs with
  | [] => Ok (w, s)
  | x :: xs => '(w, s, _) ← dirAdd demo_hash w s 5 x []; add_all w s xs
  end.
Fixpoint del_all (w : World DirNode) (s : LedgerEntrySet DirNode) (n : Z) (xs : list Z)
    : result (World DirNode * LedgerEntrySet DirNode) :=
  match xs with
  | [] => Ok (w, s)
  | x :: xs => '(w, s, _) ← dirDelete demo_hash w s false n 5 x true false; del_all w s n xs
  end.

(** Fill three pages, then empty the first, the last and the middle one. *)
Definition three_pages : result (bool * (Z * Z)) :=
  '(w, s) ← add_all demo_world demo_set (seqZ 1 65);
  '(w, s) ← del_all w s 0 (seqZ 1 32);
  '(w, s) ← del_all w s 2 [65];
  '(w, s) ← del_all w s 1 (seqZ 33 32);
  '(w, s, e) ← dirIsEmpty demo_hash w s 5;
  '(w, s, c) ← dirCount demo_hash 10 w s 5;
  Ok (e, c).

(** A directory whose every entry has been removed may be left with two empty pages:
    [dirIsEmpty] then answers false, on the ground that a page after the root must hold
    something, while [dirCount] answers 0. *)
Theorem dirIsEmpty_misses_empty : three_pages = Ok (false, (tesSUCCESS, 0)).
Proof. vm_compute. reflexivity. Qed.
