(* ===== verification/LedgerObjects.v ===== *)
(** * Ledger entries and the operations of a set as a monad

    The entries [LedgerEntrySet] works on, with the fields its balance functions use (templates
    of [src/src/protocol/impl/LedgerFormats.cpp], flags of [LedgerFormats.h]), and the operations
    of file [EntrySet] and [Directory] as computations of a state and error monad: the state is
    the heap and the set, an error is a C++ exception or the use of a null pointer.  An object is
    known by a handle: its index ([SLE::getIndex]) and its pointer.  The rules at the end are
    what the proofs about the balance functions use: each describes one operation by its effect
    on the map that the set stands for. *)

From S2P Require Import Prelude OrdMap Bytes Issue STAmount Ter Indexes DeferredCredits EntrySet Directory.

(** ** Entries *)

(** What an account says about itself: [sfEmailHash], [sfWalletLocator], [sfMessageKey] and
    [sfDomain], each optional *)
Record AccountInfo := mkAccountInfo {
  sfEmailHash : option Z;
  sfWalletLocator : option Z;
  sfMessageKey : option (list Z);
  ai_domain : option (list Z)
}.

(** [sfPreviousTxnID] and [sfPreviousTxnLgrSeq]: the last transaction that affected an entry, and
    the ledger it is in; a new entry has 0 and 0.  File [Threading] writes them. *)
Record Thread := mkThread { sfPreviousTxnID : Z; sfPreviousTxnLgrSeq : Z }.
Definition no_thread : Thread := mkThread 0 0.

(** [sfWalletSize] and [sfNickname] of the template are left out: no code reads or writes them. *)
Record AccountRoot := mkAccountRoot {
  sfAccount : Account;
  ar_flags : Z;
  ar_balance : STAmount;
  sfOwnerCount : Z;
  sfTransferRate : option Z;
  sfCurrencyRates : option (list STAmount);
  ar_sequence : Z;
  ar_txn_id : option Z;
  sfRegularKey : option Account;
  ar_info : AccountInfo;
  ar_thread : Thread
}.

(** The fields of one side of a line: [sfLowLimit], [sfLowNode], [sfLowQualityIn] and
    [sfLowQualityOut], or those of the high side.  An absent quality reads as 0. *)
Record Side := mkSide {
  sd_limit : STAmount;
  sd_node : option Z;
  sd_quality_in : Z;
  sd_quality_out : Z
}.

Record SkywellState := mkSkywellState {
  rs_flags : Z;
  rs_balance : STAmount;
  rs_low : Side;
  rs_high : Side;
  rs_thread : Thread
}.

Record OfferEntry := mkOfferEntry {
  of_account : Account;
  sfSequence : Z;
  sfTakerPays : STAmount;
  sfTakerGets : STAmount;
  sfBookDirectory : Z;
  sfBookNode : Z;
  sfOwnerNode : option Z;
  of_expiration : option Z;
  of_thread : Thread
}.

Record SignerList := mkSignerList {
  sl_account : Account;
  sfMasterWeight : Z;
  sfQuorum : Z;
  sfQuorumHigh : Z;
  sfSignerEntries : list (Account * Z)
}.

Record Ticket := mkTicket {
  tk_account : Account;
  tk_sequence : Z;
  tk_owner_node : Z;
  tk_target : option Account;
  tk_expiration : option Z
}.

Record FeeSettings := mkFeeSettings {
  sfBaseFee : Z;
  sfReferenceFeeUnits : Z;
  sfReserveBase : Z;
  sfReserveIncrement : Z
}.

Record NicknameEntry := mkNickname {
  nk_account : Account;
  nk_domain : option (list Z);
  nk_name : option (list Z)
}.

(** The entry of each [LedgerEntryType]; a [ltTrust_STATE] has the fields of a line, but for the
    thread, and a relation type. *)
Inductive SLE :=
  | ltACCOUNT_ROOT (a : AccountRoot)
  | ltSKYWELL_STATE (l : SkywellState)
  | ltTrust_STATE (t : SkywellState) (sfRelationType : Z)
  | ltOFFER (o : OfferEntry)
  | ltSIGNER_LIST (g : SignerList)
  | ltDIR_NODE (d : DirNode)
  | ltTICKET (t : Ticket)
  | ltAMENDMENTS (sfAmendments : list Z)
  | ltFEE_SETTINGS (f : FeeSettings)
  | ltMANAGE_FEE (sfFeeAccountID : Account)
  | ltMANAGE_ISSUER (sfIssuerAccountID : Account)
  | ltBLACKLIST (sfBlackListAccountID : Account)
  | ltNICKNAME (n : NicknameEntry).

#[export] Instance SLE_dir : DirEntry SLE :=
  {| to_dir e := match e with ltDIR_NODE d => Some d | _ => None end;
     of_dir := ltDIR_NODE;
     to_of_dir d := eq_refl |}.

Definition lsfPasswordSpent : Z := 0x00010000.
Definition lsfRequireDestTag : Z := 0x00020000.
Definition lsfRequireAuth : Z := 0x00040000.
Definition lsfDisallowSWT : Z := 0x00080000.
Definition lsfDisableMaster : Z := 0x00100000.
Definition lsfNoFreeze : Z := 0x00200000.
Definition lsfGlobalFreeze : Z := 0x00400000.
Definition lsfDefaultSkywell : Z := 0x00800000.
Definition lsfLowReserve : Z := 0x00010000.
Definition lsfHighReserve : Z := 0x00020000.
Definition lsfLowAuth : Z := 0x00040000.
Definition lsfHighAuth : Z := 0x00080000.
Definition lsfLowNoSkywell : Z := 0x00100000.
Definition lsfHighNoSkywell : Z := 0x00200000.
Definition lsfLowFreeze : Z := 0x00400000.
Definition lsfHighFreeze : Z := 0x00800000.

(** [flags & f] as a condition *)
Definition flag (flags f : Z) : bool := negb (Z.land flags f =? 0).

(** ** Field access *)

Definition set_owner_count (a : AccountRoot) (n : Z) : AccountRoot :=
  mkAccountRoot (sfAccount a) (ar_flags a) (ar_balance a) n (sfTransferRate a) (sfCurrencyRates a) (ar_sequence a) (ar_txn_id a) (sfRegularKey a) (ar_info a) (ar_thread a).
Definition set_account_balance (a : AccountRoot) (b : STAmount) : AccountRoot :=
  mkAccountRoot (sfAccount a) (ar_flags a) b (sfOwnerCount a) (sfTransferRate a) (sfCurrencyRates a) (ar_sequence a) (ar_txn_id a) (sfRegularKey a) (ar_info a) (ar_thread a).
Definition set_account_flags (a : AccountRoot) (f : Z) : AccountRoot :=
  mkAccountRoot (sfAccount a) f (ar_balance a) (sfOwnerCount a) (sfTransferRate a) (sfCurrencyRates a) (ar_sequence a) (ar_txn_id a) (sfRegularKey a) (ar_info a) (ar_thread a).
Definition set_sequence (a : AccountRoot) (n : Z) : AccountRoot :=
  mkAccountRoot (sfAccount a) (ar_flags a) (ar_balance a) (sfOwnerCount a) (sfTransferRate a) (sfCurrencyRates a) n (ar_txn_id a) (sfRegularKey a) (ar_info a) (ar_thread a).
Definition set_txn_id (a : AccountRoot) (o : option Z) : AccountRoot :=
  mkAccountRoot (sfAccount a) (ar_flags a) (ar_balance a) (sfOwnerCount a) (sfTransferRate a) (sfCurrencyRates a) (ar_sequence a) o (sfRegularKey a) (ar_info a) (ar_thread a).
Definition set_regular_key (a : AccountRoot) (o : option Account) : AccountRoot :=
  mkAccountRoot (sfAccount a) (ar_flags a) (ar_balance a) (sfOwnerCount a) (sfTransferRate a) (sfCurrencyRates a) (ar_sequence a) (ar_txn_id a) o (ar_info a) (ar_thread a).
Definition set_transfer_rate (a : AccountRoot) (o : option Z) : AccountRoot :=
  mkAccountRoot (sfAccount a) (ar_flags a) (ar_balance a) (sfOwnerCount a) o (sfCurrencyRates a) (ar_sequence a) (ar_txn_id a) (sfRegularKey a) (ar_info a) (ar_thread a).
Definition set_info (a : AccountRoot) (i : AccountInfo) : AccountRoot :=
  mkAccountRoot (sfAccount a) (ar_flags a) (ar_balance a) (sfOwnerCount a) (sfTransferRate a) (sfCurrencyRates a) (ar_sequence a) (ar_txn_id a) (sfRegularKey a) i (ar_thread a).
Definition set_email (i : AccountInfo) (o : option Z) : AccountInfo := mkAccountInfo o (sfWalletLocator i) (sfMessageKey i) (ai_domain i).
Definition set_locator (i : AccountInfo) (o : option Z) : AccountInfo := mkAccountInfo (sfEmailHash i) o (sfMessageKey i) (ai_domain i).
Definition set_message_key (i : AccountInfo) (o : option (list Z)) : AccountInfo := mkAccountInfo (sfEmailHash i) (sfWalletLocator i) o (ai_domain i).
Definition set_domain (i : AccountInfo) (o : option (list Z)) : AccountInfo := mkAccountInfo (sfEmailHash i) (sfWalletLocator i) (sfMessageKey i) o.
Definition set_line_flags (l : SkywellState) (f : Z) : SkywellState := mkSkywellState f (rs_balance l) (rs_low l) (rs_high l) (rs_thread l).
Definition set_line_balance (l : SkywellState) (b : STAmount) : SkywellState := mkSkywellState (rs_flags l) b (rs_low l) (rs_high l) (rs_thread l).
Definition rs_side (high : bool) (l : SkywellState) : Side := if high then rs_high l else rs_low l.
Definition set_side (high : bool) (l : SkywellState) (d : Side) : SkywellState :=
  if high then mkSkywellState (rs_flags l) (rs_balance l) (rs_low l) d (rs_thread l)
  else mkSkywellState (rs_flags l) (rs_balance l) d (rs_high l) (rs_thread l).
Definition set_limit (d : Side) (x : STAmount) : Side := mkSide x (sd_node d) (sd_quality_in d) (sd_quality_out d).
Definition set_node (d : Side) (n : Z) : Side := mkSide (sd_limit d) (Some n) (sd_quality_in d) (sd_quality_out d).
Definition set_quality_in (d : Side) (q : Z) : Side := mkSide (sd_limit d) (sd_node d) q (sd_quality_out d).
Definition set_quality_out (d : Side) (q : Z) : Side := mkSide (sd_limit d) (sd_node d) (sd_quality_in d) q.

(** A default-constructed [STAmount], and the fields of a new line *)
Definition amount_zero : STAmount := mkNative 0 false.
(** The fields of a new account root, as the template gives them *)
Definition no_info : AccountInfo := mkAccountInfo None None None None.
Definition new_account : AccountRoot := mkAccountRoot 0 0 amount_zero 0 None None 0 None None no_info no_thread.
Definition set_account_id (a : AccountRoot) (i : Account) : AccountRoot :=
  mkAccountRoot i (ar_flags a) (ar_balance a) (sfOwnerCount a) (sfTransferRate a) (sfCurrencyRates a) (ar_sequence a) (ar_txn_id a)
    (sfRegularKey a) (ar_info a) (ar_thread a).
Definition new_side : Side := mkSide amount_zero None 0 0.
Definition new_line : SkywellState := mkSkywellState 0 amount_zero new_side new_side no_thread.
Definition new_signer_list : SignerList := mkSignerList 0 0 0 0 [].

(** ** The monad *)

Notation St := (World SLE * LedgerEntrySet SLE)%type.
Definition M (A : Type) : Type := St → result (St * A).

#[export] Instance M_ret : MRet M := λ A a st, Ok (st, a).
#[export] Instance M_bind : MBind M := λ A B f m st, '(st', a) ← m st; f a st'.

Definition throw {A} (what : string) : M A := λ _, Throw what.
Definition lift {A} (r : result A) : M A := λ st, a ← r; Ok (st, a).

Record handle := mkHandle { h_index : Z; h_ptr : Z }.

Definition les_cache (index : Z) : M (option handle) := λ st,
  '(w, s, o) ← entryCache st.1 st.2 index; Ok (w, s, option_map (mkHandle index) o).
Definition les_modify (h : handle) : M () := λ st,
  s ← entryModify st.2 (h_index h) (h_ptr h); Ok (st.1, s, ()).
Definition les_delete (h : handle) : M () := λ st,
  s ← entryDelete st.2 (h_index h) (h_ptr h); Ok (st.1, s, ()).
Definition les_create (index : Z) (v : SLE) : M handle := λ st,
  '(w, s, p) ← entryCreate st.1 st.2 index v; Ok (w, s, mkHandle index p).

(** [sle->...] for a pointer that may be null *)
Definition deref (o : option handle) : M handle :=
  match o with Some h => mret h | None => throw "null pointer" end.

Definition read_sle (h : handle) : M SLE := λ st,
  match w_obj st.1 !! h_ptr h with Some v => Ok (st, v) | None => Throw "dangling pointer" end.
Definition write_sle (h : handle) (v : SLE) : M () := λ st, Ok (write st.1 (h_ptr h) v, st.2, ()).

Definition get_account (h : handle) : M AccountRoot :=
  v ← read_sle h; match v with ltACCOUNT_ROOT a => mret a | _ => throw "Field not found" end.
Definition get_line (h : handle) : M SkywellState :=
  v ← read_sle h; match v with ltSKYWELL_STATE l => mret l | _ => throw "Field not found" end.
(** A line or a relation, which have the fields of a line in common *)
Definition get_state (h : handle) : M SkywellState :=
  v ← read_sle h;
  match v with ltSKYWELL_STATE l => mret l | ltTrust_STATE t _ => mret t | _ => throw "Field not found" end.
Definition get_offer (h : handle) : M OfferEntry :=
  v ← read_sle h; match v with ltOFFER o => mret o | _ => throw "Field not found" end.
Definition set_account (h : handle) (a : AccountRoot) : M () := write_sle h (ltACCOUNT_ROOT a).
Definition set_line (h : handle) (l : SkywellState) : M () := write_sle h (ltSKYWELL_STATE l).

(** Parameters of the run and the deferred credits, as the set keeps them *)
Definition get_params : M Z := λ st, Ok (st, mParams st.2).
Definition get_ledger : M (list (Z * SLE)) := λ st, Ok (st, mLedger st.2).

Definition set_credits (s : LedgerEntrySet SLE) (d : option DeferredCredits) : LedgerEntrySet SLE :=
  mkLES (mLedger s) (mEntries s) d (mParams s) (mSeq s) (mImmutable s).

Definition cacheCredit (sender receiver : Account) (amount : STAmount) : M () := λ st,
  match mDeferredCredits st.2 with
  | Some d => d ← credit d sender receiver amount; Ok (st.1, set_credits st.2 (Some d), ())
  | None => Ok (st, ())
  end.

Definition les_adjustedBalance (main other : Account) (amount : STAmount) : M STAmount := λ st,
  match mDeferredCredits st.2 with
  | Some d => a ← adjustedBalance d main other amount; Ok (st, a)
  | None => Ok (st, amount)
  end.

Definition areCreditsDeferred : M bool := λ st,
  Ok (st, match mDeferredCredits st.2 with Some _ => true | None => false end).
Definition enableDeferredCredits (enable : bool) : M () := λ st,
  Ok (st.1, set_credits st.2
        (if negb enable then None else match mDeferredCredits st.2 with Some d => Some d | None => Some ∅ end), ()).

(** A sequence that ends ends in both parts. *)
Lemma M_bind_Ok {A B} (c : M A) (k : A → M B) w s w' s' b :
  (c ≫= k) (w, s) = Ok (w', s', b) → ∃ w1 s1 a, c (w, s) = Ok (w1, s1, a) ∧ k a (w1, s1) = Ok (w', s', b).
Proof. intros H. unfold mbind, M_bind in H. destruct (c (w, s)) as [[[w1 s1] a]|]; [|done]. by exists w1, s1, a. Qed.
Lemma lift_Ok {A} (r : result A) w s w' s' a : lift r (w, s) = Ok (w', s', a) → w' = w ∧ s' = s ∧ r = Ok a.
Proof. unfold lift. destruct r; [|done]. by intros [= <- <- <-]. Qed.

(** ** Rules

    [wp c Q w s]: from [(w, s)] the computation [c] ends without an exception, and [Q] holds of
    its answer and of the state it leaves. *)
Definition wp {A} (c : M A) (Q : A → World SLE → LedgerEntrySet SLE → Prop) (w : World SLE) (s : LedgerEntrySet SLE) : Prop :=
  ∃ w' s' a, c (w, s) = Ok (w', s', a) ∧ Q a w' s'.

(** The state stands for the map [m] and the deferred credits [d]. *)
Definition shows (w : World SLE) (s : LedgerEntrySet SLE) (m : Z → option SLE) (d : option DeferredCredits) : Prop :=
  stands w s m ∧ mDeferredCredits s = d.

(** What no operation changes: the ledger below, the parameters and the number of the copy *)
Definition env (s : LedgerEntrySet SLE) : list (Z * SLE) * Z * Z * bool := (mLedger s, mParams s, mSeq s, mImmutable s).

(** Pointers stay valid and the surroundings stay the same. *)
Definition keeps (s s' : LedgerEntrySet SLE) : Prop := keeps_held s s' ∧ env s' = env s.

Notation valid s h := (held s (h_index h) (h_ptr h)).

Lemma keeps_refl s : keeps s s.
Proof. split; [by intros j q|done]. Qed.
Lemma keeps_trans s1 s2 s3 : keeps s1 s2 → keeps s2 s3 → keeps s1 s3.
Proof. intros [H1 E1] [H2 E2]. split; [by intros j q ?; apply H2, H1|congruence]. Qed.
Lemma keeps_valid s s' h : keeps s s' → valid s h → valid s' h.
Proof. intros [H _]. apply H. Qed.

Lemma same_set_env (s s' : LedgerEntrySet SLE) : same_set s s' → env s' = env s ∧ mDeferredCredits s' = mDeferredCredits s.
Proof. unfold same_set. intros ->. done. Qed.

Lemma wp_ret {A} (a : A) (Q : A → World SLE → LedgerEntrySet SLE → Prop) w s : Q a w s → wp (mret a) Q w s.
Proof. intros H. by exists w, s, a. Qed.

Lemma wp_bind {A B} (c : M A) (k : A → M B) Q w s :
  wp c (λ a w' s', wp (k a) Q w' s') w s → wp (c ≫= k) Q w s.
Proof.
  intros (w1 & s1 & a & H1 & w2 & s2 & b & H2 & HQ). exists w2, s2, b. split; [|done].
  unfold mbind, M_bind. rewrite H1. exact H2.
Qed.

Lemma wp_mono {A} (c : M A) (Q Q' : A → World SLE → LedgerEntrySet SLE → Prop) w s :
  wp c Q w s → (∀ a w' s', Q a w' s' → Q' a w' s') → wp c Q' w s.
Proof. intros (w' & s' & a & H & HQ) Hm. exists w', s', a. auto. Qed.

Lemma wp_lift {A} (r : result A) a (Q : A → World SLE → LedgerEntrySet SLE → Prop) w s :
  r = Ok a → Q a w s → wp (lift r) Q w s.
Proof. intros -> HQ. by exists w, s, a. Qed.

Lemma wp_deref h (Q : handle → World SLE → LedgerEntrySet SLE → Prop) w s : Q h w s → wp (deref (Some h)) Q w s.
Proof. intros HQ. by exists w, s, h. Qed.

Lemma wp_cache i m d (Q : option handle → World SLE → LedgerEntrySet SLE → Prop) w s :
  shows w s m d → i ≠ 0 →
  (∀ w' s' o, shows w' s' m d → keeps s s' →
     match o with None => m i = None | Some h => h_index h = i ∧ valid s' h ∧ is_Some (m i) end → Q o w' s') →
  wp (les_cache i) Q w s.
Proof.
  intros [Hst Hd] Hi HQ. unfold wp, les_cache. cbn [fst snd].
  eapply (cache_step (λ r, ∃ w' s' a, r = Ok (w', s', a) ∧ Q a w' s') (λ _, True) s); [by apply track_start|done|].
  intros w' s' r [Hst' [_ Hss]] Hk Hr. apply same_set_env in Hss as [He Hd'].
  eexists w', s', _. split; [done|]. apply HQ; [split; [done|congruence]|done|]. by destruct r.
Qed.

(** A cached entry that the map is known to have *)
Lemma wp_cache_some i v m d (Q : option handle → World SLE → LedgerEntrySet SLE → Prop) w s :
  shows w s m d → i ≠ 0 → m i = Some v →
  (∀ w' s' h, shows w' s' m d → keeps s s' → h_index h = i → valid s' h → Q (Some h) w' s') →
  wp (les_cache i) Q w s.
Proof.
  intros Hv Hi Hm HQ. eapply wp_cache; [done|done|]. intros w' s' [h|] Hv' Hk Ho; [|congruence].
  destruct Ho as (? & ? & _). by apply HQ.
Qed.

Lemma wp_modify h m d (Q : () → World SLE → LedgerEntrySet SLE → Prop) w s :
  shows w s m d → valid s h → (∀ s', shows w s' m d → keeps s s' → Q () w s') → wp (les_modify h) Q w s.
Proof.
  intros [Hst Hd] Hh HQ. unfold wp, les_modify. cbn [fst snd].
  eapply (modify_step (λ r, ∃ w' s' a, r = Ok (w', s', a) ∧ Q a w' s') (λ _, True) s); [by apply track_start|done|].
  intros s' [Hst' [_ Hss]] Hk. apply same_set_env in Hss as [He Hd'].
  eexists w, s', _. split; [done|]. apply HQ; [split; [done|congruence]|done].
Qed.

Lemma wp_delete h m d (Q : () → World SLE → LedgerEntrySet SLE → Prop) w s :
  shows w s m d → valid s h →
  (∀ s', shows w s' (upd m (h_index h) None) d → (∀ j q, j ≠ h_index h → held s j q → held s' j q) → env s' = env s → Q () w s') →
  wp (les_delete h) Q w s.
Proof.
  intros [Hst Hd] Hh HQ. unfold wp, les_delete. cbn [fst snd].
  eapply (delete_step (λ r, ∃ w' s' a, r = Ok (w', s', a) ∧ Q a w' s') (λ _, False) s); [by apply track_start|done|by intros []|].
  intros s' [Hst' [_ Hss]] Hk. apply same_set_env in Hss as [He Hd'].
  eexists w, s', _. split; [done|]. apply HQ; [split; [done|congruence]|done|done].
Qed.

Lemma wp_create i v m d (Q : handle → World SLE → LedgerEntrySet SLE → Prop) w s :
  shows w s m d → m i = None →
  (∀ w' s' h, shows w' s' (upd m i (Some v)) d → keeps s s' → h_index h = i → valid s' h → Q h w' s') →
  wp (les_create i v) Q w s.
Proof.
  intros [Hst Hd] Hi HQ. unfold wp, les_create. cbn [fst snd].
  eapply (create_step (λ r, ∃ w' s' a, r = Ok (w', s', a) ∧ Q a w' s') (λ _, True) s); [by apply track_start|done|].
  intros w' s' p [Hst' [_ Hss]] Hh Hk. apply same_set_env in Hss as [He Hd'].
  eexists w', s', _. split; [done|]. apply HQ; [split; [done|congruence]|done|done|done].
Qed.

Lemma wp_read h v m d (Q : SLE → World SLE → LedgerEntrySet SLE → Prop) w s :
  shows w s m d → valid s h → m (h_index h) = Some v → Q v w s → wp (read_sle h) Q w s.
Proof.
  intros [[Hinv Hm] Hd] Hh Hv HQ. unfold wp, read_sle. cbn [fst snd].
  rewrite (held_lookup w s _ _ Hinv Hh), Hm, Hv. by exists w, s, v.
Qed.

Lemma wp_write h v m d (Q : () → World SLE → LedgerEntrySet SLE → Prop) w s :
  shows w s m d → valid s h →
  (∀ w', shows w' s (upd m (h_index h) (Some v)) d → Q () w' s) → wp (write_sle h v) Q w s.
Proof.
  intros [Hst Hd] Hh HQ. unfold wp, write_sle. cbn [fst snd]. eexists _, s, (). split; [done|]. apply HQ.
  apply (track_start (λ _, True)) in Hst. destruct (write_track w s m _ _ v Hst Hh) as [Hst' _]. by split.
Qed.

Lemma wp_get_account h a m d (Q : AccountRoot → World SLE → LedgerEntrySet SLE → Prop) w s :
  shows w s m d → valid s h → m (h_index h) = Some (ltACCOUNT_ROOT a) → Q a w s → wp (get_account h) Q w s.
Proof. intros. apply wp_bind. eapply wp_read; [done..|]. by apply wp_ret. Qed.
Lemma wp_get_line h l m d (Q : SkywellState → World SLE → LedgerEntrySet SLE → Prop) w s :
  shows w s m d → valid s h → m (h_index h) = Some (ltSKYWELL_STATE l) → Q l w s → wp (get_line h) Q w s.
Proof. intros. apply wp_bind. eapply wp_read; [done..|]. by apply wp_ret. Qed.
Lemma wp_get_state h l m d (Q : SkywellState → World SLE → LedgerEntrySet SLE → Prop) w s :
  shows w s m d → valid s h → m (h_index h) = Some (ltSKYWELL_STATE l) → Q l w s → wp (get_state h) Q w s.
Proof. intros. apply wp_bind. eapply wp_read; [done..|]. by apply wp_ret. Qed.

Lemma wp_get_params (Q : Z → World SLE → LedgerEntrySet SLE → Prop) w s : Q (mParams s) w s → wp get_params Q w s.
Proof. intros HQ. by exists w, s, (mParams s). Qed.

(** The credits after [cacheCredit] *)
Definition credited (d : option DeferredCredits) (sender receiver : Account) (amount : STAmount) (d' : option DeferredCredits) : Prop :=
  match d with
  | None => d' = None
  | Some c => ∃ c', credit c sender receiver amount = Ok c' ∧ d' = Some c'
  end.

Lemma wp_cacheCredit sender receiver amount m d d' (Q : () → World SLE → LedgerEntrySet SLE → Prop) w s :
  shows w s m d → credited d sender receiver amount d' →
  (∀ s', shows w s' m d' → keeps s s' → Q () w s') → wp (cacheCredit sender receiver amount) Q w s.
Proof.
  intros [[Hinv Hm] Hd] Hc HQ. unfold wp, cacheCredit. cbn [fst snd]. rewrite Hd. destruct d as [c|].
  - destruct Hc as (c' & Hc & ->). rewrite Hc. cbn [mbind result_bind]. eexists w, _, (). split; [done|]. apply HQ.
    + split; [|done]. split; [by destruct Hinv|done].
    + split; [by intros j q|done].
  - cbn in Hc. subst d'. exists w, s, (). split; [done|]. apply HQ; [by split|apply keeps_refl].
Qed.
