(* ===== verification/Threading.v ===== *)
(** * Threading: which transaction touched an entry last

    Model of [LedgerEntrySet::calcRawMeta] with [getForMod], [threadTx] and [threadOwners]
    ([src/src/ledger/LedgerEntrySet.cpp]), of [STLedgerEntry::thread], the owners of an entry and
    [isThreadedType] ([src/src/protocol/impl/STLedgerEntry.cpp]), of the comparison of entries
    ([STObject::operator==]), and of the nodes of [TransactionMetaSet].

    Before a transaction is committed, each entry it changed, and the accounts that own the entries
    it made or removed, are threaded: the transaction and the number of the ledger are written into
    [sfPreviousTxnID] and [sfPreviousTxnLgrSeq] of the entry, and what was there before into the
    metadata of the transaction.  An owner that was not an entry of the set becomes one.  Of the
    metadata, the list of nodes with their kind and previous thread is modelled; what it says about
    the other fields of a node ([sfPreviousFields], [sfFinalFields], [sfNewFields]) is not. *)

From S2P Require Import Prelude OrdMap Issue STAmount Ter Indexes DeferredCredits EntrySet Directory LedgerObjects.

(** ** Comparing entries *)

#[export] Instance DirNode_eq_dec : EqDecision DirNode.
Proof. solve_decision. Defined.
#[export] Instance AccountInfo_eq_dec : EqDecision AccountInfo.
Proof. solve_decision. Defined.
#[export] Instance Thread_eq_dec : EqDecision Thread.
Proof. solve_decision. Defined.
#[export] Instance SignerList_eq_dec : EqDecision SignerList.
Proof. solve_decision. Defined.
#[export] Instance Ticket_eq_dec : EqDecision Ticket.
Proof. solve_decision. Defined.
#[export] Instance FeeSettings_eq_dec : EqDecision FeeSettings.
Proof. solve_decision. Defined.
#[export] Instance NicknameEntry_eq_dec : EqDecision NicknameEntry.
Proof. solve_decision. Defined.

(** [STArray] of amounts *)
Fixpoint amounts_eq (l1 l2 : list STAmount) : bool :=
  match l1, l2 with
  | [], [] => true
  | a :: l1, b :: l2 => op_eq a b && amounts_eq l1 l2
  | _, _ => false
  end.

(** [STObject::operator==]: the same fields are present and each is equivalent.  Amounts are
    compared by their own [operator==], which does not look at the issuer. *)
Definition account_eq (a b : AccountRoot) : bool :=
  (sfAccount a =? sfAccount b) && (ar_flags a =? ar_flags b) && op_eq (ar_balance a) (ar_balance b)
  && (sfOwnerCount a =? sfOwnerCount b) && bool_decide (sfTransferRate a = sfTransferRate b)
  && match sfCurrencyRates a, sfCurrencyRates b with
     | Some x, Some y => amounts_eq x y
     | None, None => true
     | _, _ => false
     end
  && (ar_sequence a =? ar_sequence b) && bool_decide (ar_txn_id a = ar_txn_id b)
  && bool_decide (sfRegularKey a = sfRegularKey b) && bool_decide (ar_info a = ar_info b)
  && bool_decide (ar_thread a = ar_thread b).

Definition side_eq (a b : Side) : bool :=
  op_eq (sd_limit a) (sd_limit b) && bool_decide (sd_node a = sd_node b)
  && (sd_quality_in a =? sd_quality_in b) && (sd_quality_out a =? sd_quality_out b).

Definition line_eq (a b : SkywellState) : bool :=
  (rs_flags a =? rs_flags b) && op_eq (rs_balance a) (rs_balance b) && side_eq (rs_low a) (rs_low b)
  && side_eq (rs_high a) (rs_high b) && bool_decide (rs_thread a = rs_thread b).

Definition offer_eq (a b : OfferEntry) : bool :=
  (of_account a =? of_account b) && (sfSequence a =? sfSequence b) && op_eq (sfTakerPays a) (sfTakerPays b)
  && op_eq (sfTakerGets a) (sfTakerGets b) && (sfBookDirectory a =? sfBookDirectory b)
  && (sfBookNode a =? sfBookNode b) && bool_decide (sfOwnerNode a = sfOwnerNode b)
  && bool_decide (of_expiration a = of_expiration b) && bool_decide (of_thread a = of_thread b).

Definition sle_eq (u v : SLE) : bool :=
  match u, v with
  | ltACCOUNT_ROOT a, ltACCOUNT_ROOT b => account_eq a b
  | ltSKYWELL_STATE a, ltSKYWELL_STATE b => line_eq a b
  | ltTrust_STATE a x, ltTrust_STATE b y => line_eq a b && (x =? y)
  | ltOFFER a, ltOFFER b => offer_eq a b
  | ltSIGNER_LIST a, ltSIGNER_LIST b => bool_decide (a = b)
  | ltDIR_NODE a, ltDIR_NODE b => bool_decide (a = b)
  | ltTICKET a, ltTICKET b => bool_decide (a = b)
  | ltAMENDMENTS a, ltAMENDMENTS b => bool_decide (a = b)
  | ltFEE_SETTINGS a, ltFEE_SETTINGS b => bool_decide (a = b)
  | ltMANAGE_FEE a, ltMANAGE_FEE b => a =? b
  | ltMANAGE_ISSUER a, ltMANAGE_ISSUER b => a =? b
  | ltBLACKLIST a, ltBLACKLIST b => a =? b
  | ltNICKNAME a, ltNICKNAME b => bool_decide (a = b)
  | _, _ => false
  end.

(** ** Threads and owners of an entry *)

Definition set_account_thread (a : AccountRoot) (t : Thread) : AccountRoot :=
  mkAccountRoot (sfAccount a) (ar_flags a) (ar_balance a) (sfOwnerCount a) (sfTransferRate a) (sfCurrencyRates a) (ar_sequence a) (ar_txn_id a)
    (sfRegularKey a) (ar_info a) t.
Definition set_line_thread (l : SkywellState) (t : Thread) : SkywellState :=
  mkSkywellState (rs_flags l) (rs_balance l) (rs_low l) (rs_high l) t.
Definition set_offer_thread (o : OfferEntry) (t : Thread) : OfferEntry :=
  mkOfferEntry (of_account o) (sfSequence o) (sfTakerPays o) (sfTakerGets o) (sfBookDirectory o) (sfBookNode o) (sfOwnerNode o)
    (of_expiration o) t.

(** [isThreadedType]: the template has [sfPreviousTxnID]. *)
Definition isThreadedType (v : SLE) : bool :=
  match v with ltACCOUNT_ROOT _ | ltSKYWELL_STATE _ | ltOFFER _ => true | _ => false end.

Definition get_thread (v : SLE) : result Thread :=
  match v with
  | ltACCOUNT_ROOT a => Ok (ar_thread a)
  | ltSKYWELL_STATE l => Ok (rs_thread l)
  | ltOFFER o => Ok (of_thread o)
  | _ => Throw "Field not found"
  end.
Definition set_thread (v : SLE) (t : Thread) : SLE :=
  match v with
  | ltACCOUNT_ROOT a => ltACCOUNT_ROOT (set_account_thread a t)
  | ltSKYWELL_STATE l => ltSKYWELL_STATE (set_line_thread l t)
  | ltOFFER o => ltOFFER (set_offer_thread o t)
  | v => v
  end.

(** [STLedgerEntry::thread]: the entry, and what its thread was; nothing when the entry already
    has the transaction. *)
Definition thread (txID ledgerSeq : Z) (v : SLE) : result (SLE * option Thread) :=
  old ← get_thread v;
  if sfPreviousTxnID old =? txID then Ok (v, None)
  else Ok (set_thread v (mkThread txID ledgerSeq), Some old).

(** [hasOneOwner] and [getOwner]: an entry with [sfAccount] that is not an account root *)
Definition one_owner (v : SLE) : option Account :=
  match v with
  | ltOFFER o => Some (of_account o)
  | ltSIGNER_LIST g => Some (sl_account g)
  | ltTICKET t => Some (tk_account t)
  | ltNICKNAME n => Some (nk_account n)
  | _ => None
  end.
(** [hasTwoOwners], [getFirstOwner] and [getSecondOwner] *)
Definition two_owners (v : SLE) : option (Account * Account) :=
  match v with
  | ltSKYWELL_STATE l => Some (account (mIssue (sd_limit (rs_low l))), account (mIssue (sd_limit (rs_high l))))
  | _ => None
  end.

(** ** The nodes of the metadata *)

Inductive NodeKind := sfCreatedNode | sfModifiedNode | sfDeletedNode.
Record AffectedNode := mkAffected { an_index : Z; an_kind : NodeKind; an_previous : option Thread }.

(** [setAffectedNode]: make sure the node exists and force its kind. *)
Fixpoint setAffectedNode (node : Z) (kind : NodeKind) (l : list AffectedNode) : list AffectedNode :=
  match l with
  | [] => [mkAffected node kind None]
  | n :: l => if an_index n =? node then mkAffected node kind (an_previous n) :: l else n :: setAffectedNode node kind l
  end.

(** [TransactionMetaSet::thread (getAffectedNode (...), ...)] *)
Fixpoint thread_node (node : Z) (prev : Thread) (l : list AffectedNode) : list AffectedNode * bool :=
  match l with
  | [] => ([mkAffected node sfModifiedNode (Some prev)], true)
  | n :: l =>
      if an_index n =? node then
        match an_previous n with
        | None => (mkAffected node (an_kind n) (Some prev) :: l, true)
        | Some _ => (n :: l, false)
        end
      else let '(l, b) := thread_node node prev l in (n :: l, b)
  end.

(** ** [calcRawMeta] *)

(** [newMods], by index (a hash map in the code; the order in which it is gone through at the end
    does not matter, as each element makes another entry), and the nodes of [mSet] *)
Record Meta := mkMeta { newMods : list (Z * Z); mt_nodes : list AffectedNode }.
Definition set_nodes (mt : Meta) (l : list AffectedNode) : Meta := mkMeta (newMods mt) l.

Section threading.
  Variable sha512half : list Z → Z.
  (** The transaction and the ledger, as [init] gave them to [mSet] *)
  Variables txID lgrSeq : Z.

Definition getForMod (node : Z) (mt : Meta) : M (Meta * option handle) := λ st,
  let '(w, s) := st in
  match om_find node (mEntries s) with
  | Some e =>
      if is_delete (mAction e) then Ok (st, (mt, None))
      else
        let action := match mAction e with taaCACHED => taaMODIFY | a => a end in
        if e_seq e =? mSeq s then
          Ok (w, set_entries s (om_set node (mkLSE (mEntry e) action (e_seq e)) (mEntries s)), (mt, Some (mkHandle node (mEntry e))))
        else
          match w_obj w !! mEntry e with
          | None => Throw "dangling pointer"
          | Some v =>
              let '(p, w) := alloc w v in
              Ok (w, set_entries s (om_set node (mkLSE p action (mSeq s)) (mEntries s)), (mt, Some (mkHandle node p)))
          end
  | None =>
      match om_find node (newMods mt) with
      | Some p => Ok (st, (mt, Some (mkHandle node p)))
      | None =>
          match om_find node (mLedger s) with
          | None => Ok (st, (mt, None))
          | Some v => let '(p, w) := alloc w v in Ok (w, s, (mkMeta (om_set node p (newMods mt)) (mt_nodes mt), Some (mkHandle node p)))
          end
      end
  end.

(** [threadTx (SLE::ref, ...)] *)
Definition threadTx_sle (threadTo : handle) (mt : Meta) : M (Meta * bool) :=
  v ← read_sle threadTo;
  '(v, prev) ← lift (thread txID lgrSeq v);
  match prev with
  | None => mret (mt, false)
  | Some prev =>
      write_sle threadTo v;;
      if sfPreviousTxnID prev =? 0 then mret (mt, true)
      else let '(l, b) := thread_node (h_index threadTo) prev (mt_nodes mt) in mret (set_nodes mt l, b)
  end.

(** [threadTx (SkywellAddress, ...)] *)
Definition threadTx (threadTo : Account) (mt : Meta) : M (Meta * bool) :=
  '(mt, sle) ← getForMod (getAccountRootIndex sha512half threadTo) mt;
  match sle with
  | None => mret (mt, false)
  | Some sle => threadTx_sle sle mt
  end.

(** The second owner of a line is threaded only when the first one just was. *)
Definition threadOwners (node : SLE) (mt : Meta) : M (Meta * bool) :=
  match one_owner node with
  | Some a => threadTx a mt
  | None =>
      match two_owners node with
      | Some (a, b) =>
          '(mt, done) ← threadTx a mt;
          if (done : bool) then threadTx b mt else mret (mt, false)
      | None => mret (mt, false)
      end
  end.

Definition node_kind (a : LedgerEntryAction) : option NodeKind :=
  match a with
  | taaMODIFY => Some sfModifiedNode
  | taaDELETE => Some sfDeletedNode
  | taaCREATE => Some sfCreatedNode
  | _ => None
  end.

(** The body of the loop, for the entry with the given index *)
Definition calc_node (mt : Meta) (index : Z) : M Meta := λ st,
  match om_find index (mEntries st.2) with
  | None => Ok (st, mt)
  | Some e =>
      match node_kind (mAction e) with
      | None => Ok (st, mt)
      | Some kind =>
          let origNode := om_find index (mLedger st.2) in
          (curNode ← read_sle (mkHandle index (mEntry e));
           let mt' := set_nodes mt (setAffectedNode index kind (mt_nodes mt)) in
           match kind with
           | sfModifiedNode =>
               match origNode with
               | None => throw "null pointer"
               | Some orig =>
                   if sle_eq curNode orig then mret mt
                   else if isThreadedType curNode then '(mt', _) ← threadTx_sle (mkHandle index (mEntry e)) mt'; mret mt'
                   else mret mt'
               end
           | sfDeletedNode =>
               match origNode with
               | None => throw "null pointer"
               | Some orig => '(mt', _) ← threadOwners orig mt'; mret mt'
               end
           | sfCreatedNode =>
               '(mt', _) ← threadOwners curNode mt';
               if isThreadedType curNode then '(mt', _) ← threadTx_sle (mkHandle index (mEntry e)) mt'; mret mt'
               else mret mt'
           end) st
      end
  end.

Fixpoint calc_nodes (l : list Z) (mt : Meta) : M Meta :=
  match l with
  | [] => mret mt
  | i :: l => mt ← calc_node mt i; calc_nodes l mt
  end.

(** [for (auto& it : newMod) entryModify (it.second)] *)
Fixpoint modify_all (l : list (Z * Z)) : M () :=
  match l with
  | [] => mret ()
  | (i, p) :: l => les_modify (mkHandle i p);; modify_all l
  end.

(** The loop changes the entries it goes through, and their actions, but neither adds nor removes
    one: its indexes are those at the start. *)
Definition calcRawMeta : M (list AffectedNode) := λ st,
  (mt ← calc_nodes (mEntries st.2).*1 (mkMeta [] []);
   modify_all (newMods mt);;
   mret (mt_nodes mt)) st.

End threading.
