(* ===== verification/TrustLines.v ===== *)
(** * Balances and trust lines

    Model of the balance functions of [src/src/ledger/LedgerEntrySet.cpp]: owner counts, trust
    lines ([trustCreate], [trustDelete], [relationCreate], [signCreate]), what an account holds
    ([skywellHolds], [accountHolds], [accountFunds], [isFrozen]), and the transfers
    ([skywellCredit], [skywellSend], [accountSend], [issue_iou], [redeem_iou], [transfer_xrp]).
    Each is a computation of the monad of file [LedgerObjects], with the reads, writes and
    markings of entries in the order of the code.  The asserts about accounts (no sending to
    oneself, the native account is not a party of a line) are hypotheses of the theorems.  The
    hash function and the reserve settings of the ledger are parameters. *)

From S2P Require Import Prelude OrdMap Bytes Issue BigNum STAmount STAmountText Quality Ter Indexes DeferredCredits EntrySet Directory LedgerObjects.

Inductive FreezeHandling := fhIGNORE_FREEZE | fhZERO_IF_FROZEN.


(** [boost::lexical_cast <std::uint32_t>]: an optional sign and digits; a minus sign negates
    modulo 2^32 *)
Definition lexical_u32 (l : list Z) : result Z :=
  let '(sg, d) := opt_sign l in
  match d with
  | [] => Throw "bad_lexical_cast"
  | _ => if forallb is_digit d && (dec_val d <? 4294967296)
         then Ok (if is_minus sg then u32 (- dec_val d) else dec_val d)
         else Throw "bad_lexical_cast"
  end.

Section trust_lines.
  Context {BN : BigNum}.
  Variable sha512half : list Z → Z.
  (** [Ledger::mReserveBase] and [mReserveIncrement] *)
  Variables mReserveBase mReserveIncrement : Z.

  Notation getAccountRootIndex := (Indexes.getAccountRootIndex sha512half).
  Notation getOwnerDirIndex := (Indexes.getOwnerDirIndex sha512half).
  Notation getSkywellStateIndex := (Indexes.getSkywellStateIndex sha512half).

(** [Ledger::getReserve (int increments)] *)
Definition getReserve (increments : Z) : Z := u64 (u64 (s32 increments) * mReserveIncrement + mReserveBase).

(** The directory functions in the monad; [Ledger::ownerDirDescriber] records the owner. *)
Definition owner_dirAdd (owner : Account) (uLedgerIndex : Z) : M (Z * Z) := λ st,
  dirAdd sha512half st.1 st.2 (getOwnerDirIndex owner) uLedgerIndex [owner].
Definition les_dirDelete (bKeepRoot : bool) (uNodeDir uRootIndex uLedgerIndex : Z) (bStable bSoft : bool) : M Z := λ st,
  dirDelete sha512half st.1 st.2 bKeepRoot uNodeDir uRootIndex uLedgerIndex bStable bSoft.

(** ** Owner counts *)

Definition incrementOwnerCount (sleAccount : handle) : M () :=
  a ← get_account sleAccount;
  if sfOwnerCount a =? 4294967295 then mret ()
  else set_account sleAccount (set_owner_count a (sfOwnerCount a + 1));; les_modify sleAccount.
Definition incrementOwnerCount_of (owner : Account) : M () :=
  o ← les_cache (getAccountRootIndex owner); h ← deref o; incrementOwnerCount h.

Definition decrementOwnerCount (sleAccount : handle) : M () :=
  a ← get_account sleAccount;
  if sfOwnerCount a =? 0 then mret ()
  else set_account sleAccount (set_owner_count a (sfOwnerCount a - 1));; les_modify sleAccount.
Definition decrementOwnerCount_of (owner : Account) : M () :=
  o ← les_cache (getAccountRootIndex owner); h ← deref o; decrementOwnerCount h.

Definition offerDelete (sleOffer : option handle) : M Z :=
  match sleOffer with
  | None => mret tesSUCCESS
  | Some sleOffer =>
      o ← get_offer sleOffer;
      let offerIndex := h_index sleOffer in
      let owner := of_account o in
      let bOwnerNode := match sfOwnerNode o with Some _ => true | None => false end in
      let uOwnerNode := default 0 (sfOwnerNode o) in
      terResult ← les_dirDelete false uOwnerNode (getOwnerDirIndex owner) offerIndex false (negb bOwnerNode);
      terResult2 ← les_dirDelete false (sfBookNode o) (sfBookDirectory o) offerIndex true false;
      (if terResult =? tesSUCCESS then decrementOwnerCount_of owner else mret ());;
      les_delete sleOffer;;
      mret (if terResult =? tesSUCCESS then terResult2 else terResult)
  end.

(** ** What an account holds *)

Definition isGlobalFrozen (issuer : Account) : M bool :=
  if isSWT issuer then mret false
  else
    o ← les_cache (getAccountRootIndex issuer);
    match o with
    | None => mret false
    | Some sle => a ← get_account sle; mret (flag (ar_flags a) lsfGlobalFreeze)
    end.

Definition isFrozen (account : Account) (currency : Currency) (issuer : Account) : M bool :=
  if isSWT currency then mret false
  else
    o ← les_cache (getAccountRootIndex issuer);
    global ← match o with
             | None => mret false
             | Some sle => a ← get_account sle; mret (flag (ar_flags a) lsfGlobalFreeze)
             end;
    if (global : bool) then mret true
    else if negb (issuer =? account) then
      o ← les_cache (getSkywellStateIndex account issuer currency);
      match o with
      | None => mret false
      | Some sle =>
          l ← get_line sle; mret (flag (rs_flags l) (if issuer >? account then lsfHighFreeze else lsfLowFreeze))
      end
    else mret false.

Definition skywellHolds (account : Account) (currency : Currency) (issuer : Account) (zeroIfFrozen : FreezeHandling) : M STAmount :=
  o ← les_cache (getSkywellStateIndex account issuer currency);
  saBalance ←
    match o with
    | None => mret (clear_issue amount_zero (mkIssue currency issuer))
    | Some sleSkywellState =>
        frozen ← match zeroIfFrozen with
                 | fhZERO_IF_FROZEN => isFrozen account currency issuer
                 | fhIGNORE_FREEZE => mret false
                 end;
        if (frozen : bool) then mret (clear_issue amount_zero (mkIssue currency issuer))
        else
          l ← get_line sleSkywellState;
          if account >? issuer then mret (setIssuer (negate (rs_balance l)) issuer)
          else mret (setIssuer (rs_balance l) issuer)
    end;
  les_adjustedBalance account issuer saBalance.

Definition accountHolds (account : Account) (currency : Currency) (issuer : Account) (zeroIfFrozen : FreezeHandling) : M STAmount :=
  if currency =? 0 then
    o ← les_cache (getAccountRootIndex account);
    sleAccount ← deref o;
    a ← get_account sleAccount;
    let uReserve := getReserve (sfOwnerCount a) in
    let saBalance := ar_balance a in
    less ← lift (lt_u64 saBalance uReserve);
    saAmount ← (if (less : bool) then mret (clear amount_zero) else lift (sub_u64 saBalance uReserve));
    les_adjustedBalance account issuer saAmount
  else skywellHolds account currency issuer zeroIfFrozen.

Definition accountFunds (account : Account) (saDefault : STAmount) (zeroIfFrozen : FreezeHandling) : M STAmount :=
  if negb (mIsNative saDefault) && (Issue.account (mIssue saDefault) =? account) then mret saDefault
  else accountHolds account (currency (mIssue saDefault)) (Issue.account (mIssue saDefault)) zeroIfFrozen.

(** ** Lines *)

(** The fields [trustCreate] and [relationCreate] set alike: the hints for deletion, the limits
    and the qualities *)
Definition init_line (bSetHigh : bool) (uLowNode uHighNode : Z) (saLimit peerLimit : STAmount) (uQualityIn uQualityOut : Z)
    (l : SkywellState) : SkywellState :=
  let l := set_side false l (set_node (rs_low l) uLowNode) in
  let l := set_side true l (set_node (rs_high l) uHighNode) in
  let l := set_side bSetHigh l (set_limit (rs_side bSetHigh l) saLimit) in
  let l := set_side (negb bSetHigh) l (set_limit (rs_side (negb bSetHigh) l) peerLimit) in
  let l := if negb (uQualityIn =? 0) then set_side bSetHigh l (set_quality_in (rs_side bSetHigh l) uQualityIn) else l in
  if negb (uQualityOut =? 0) then set_side bSetHigh l (set_quality_out (rs_side bSetHigh l) uQualityOut) else l.

(** [uFlags] of a new line; the last test compares a masked flag with 1 *)
Definition line_flags (bSetHigh bAuth bNoSkywell bFreeze : bool) (peerFlags : Z) : Z :=
  let uFlags := if bSetHigh then lsfHighReserve else lsfLowReserve in
  let uFlags := if bAuth then Z.lor uFlags (if bSetHigh then lsfHighAuth else lsfLowAuth) else uFlags in
  let uFlags := if bNoSkywell then Z.lor uFlags (if bSetHigh then lsfHighNoSkywell else lsfLowNoSkywell) else uFlags in
  let uFlags := if bFreeze then Z.lor uFlags (if negb bSetHigh then lsfLowFreeze else lsfHighFreeze) else uFlags in
  if Z.land peerFlags lsfDefaultSkywell =? 1
  then Z.lor uFlags (if bSetHigh then lsfLowNoSkywell else lsfHighNoSkywell) else uFlags.

(** Enter the new entry in the owner directories of both accounts. *)
Definition both_dirAdd (uLowAccountID uHighAccountID : Account) (index : Z) : M (Z * Z * Z) :=
  '(terResult, uLowNode) ← owner_dirAdd uLowAccountID index;
  if terResult =? tesSUCCESS then
    '(terResult, uHighNode) ← owner_dirAdd uHighAccountID index;
    mret (terResult, uLowNode, uHighNode)
  else mret (terResult, uLowNode, 0).

Definition trustCreate (bSrcHigh : bool) (uSrcAccountID uDstAccountID : Account) (uIndex : Z) (sleAccount : handle)
    (bAuth bNoSkywell bFreeze : bool) (saBalance saLimit : STAmount) (uQualityIn uQualityOut : Z) : M Z :=
  let uLowAccountID := if negb bSrcHigh then uSrcAccountID else uDstAccountID in
  let uHighAccountID := if bSrcHigh then uSrcAccountID else uDstAccountID in
  sleSkywellState ← les_create uIndex (ltSKYWELL_STATE new_line);
  '(terResult, uLowNode, uHighNode) ← both_dirAdd uLowAccountID uHighAccountID (h_index sleSkywellState);
  if terResult =? tesSUCCESS then
    let bSetDst := account (mIssue saLimit) =? uDstAccountID in
    let bSetHigh := xorb bSrcHigh bSetDst in
    o ← les_cache (getAccountRootIndex (if bSetHigh then uLowAccountID else uHighAccountID));
    peerLimit ← lift (mkZero (mkIssue (currency (mIssue saBalance)) (if bSetDst then uSrcAccountID else uDstAccountID)));
    l ← get_line sleSkywellState;
    set_line sleSkywellState (init_line bSetHigh uLowNode uHighNode saLimit peerLimit uQualityIn uQualityOut l);;
    slePeer ← deref o;
    peer ← get_account slePeer;
    l ← get_line sleSkywellState;
    set_line sleSkywellState (set_line_flags l (line_flags bSetHigh bAuth bNoSkywell bFreeze (ar_flags peer)));;
    incrementOwnerCount sleAccount;;
    l ← get_line sleSkywellState;
    set_line sleSkywellState (set_line_balance l (if bSetHigh then op_neg saBalance else saBalance));;
    cacheCredit uSrcAccountID uDstAccountID saBalance;;
    mret terResult
  else mret terResult.

Definition get_trust (h : handle) : M (SkywellState * Z) :=
  v ← read_sle h; match v with ltTrust_STATE t r => mret (t, r) | _ => throw "Field not found" end.

Definition relationCreate (bSrcHigh : bool) (uSrcAccountID uDstAccountID : Account) (uIndex : Z) (sleAccount : handle)
    (saBalance saLimit : STAmount) (uQualityIn uQualityOut : Z) : M Z :=
  let uLowAccountID := if negb bSrcHigh then uSrcAccountID else uDstAccountID in
  let uHighAccountID := if bSrcHigh then uSrcAccountID else uDstAccountID in
  sleSkywellState ← les_create uIndex (ltTrust_STATE new_line 0);
  '(terResult, uLowNode, uHighNode) ← both_dirAdd uLowAccountID uHighAccountID (h_index sleSkywellState);
  if terResult =? tesSUCCESS then
    let bSetDst := account (mIssue saLimit) =? uDstAccountID in
    let bSetHigh := xorb bSrcHigh bSetDst in
    o ← les_cache (getAccountRootIndex (if bSetHigh then uLowAccountID else uHighAccountID));
    peerLimit ← lift (mkZero (mkIssue (currency (mIssue saBalance)) (if bSetDst then uSrcAccountID else uDstAccountID)));
    '(l, r) ← get_trust sleSkywellState;
    write_sle sleSkywellState
      (ltTrust_STATE (init_line bSetHigh uLowNode uHighNode saLimit peerLimit uQualityIn uQualityOut l) r);;
    incrementOwnerCount sleAccount;;
    '(l, r) ← get_trust sleSkywellState;
    write_sle sleSkywellState (ltTrust_STATE (set_line_balance l (if bSetHigh then op_neg saBalance else saBalance)) r);;
    cacheCredit uSrcAccountID uDstAccountID saBalance;;
    mret terResult
  else mret terResult.

Definition get_signers (h : handle) : M SignerList :=
  v ← read_sle h; match v with ltSIGNER_LIST g => mret g | _ => throw "Field not found" end.

Definition signCreate (uIndex : Z) (sleAccount : handle) (uSrcAccountID : Account) (uMasterWeight uQuorum uQuorumHigh : Z)
    (saSignEntries : list (Account * Z)) : M Z :=
  sleSkywellState ← les_create uIndex (ltSIGNER_LIST new_signer_list);
  '(terResult, uNode) ← owner_dirAdd uSrcAccountID (h_index sleSkywellState);
  if terResult =? tesSUCCESS then
    g ← get_signers sleSkywellState;
    write_sle sleSkywellState (ltSIGNER_LIST (mkSignerList uSrcAccountID
      (if negb (uMasterWeight =? 0) then uMasterWeight else sfMasterWeight g)
      (if negb (uQuorum =? 0) then uQuorum else sfQuorum g)
      (if negb (uQuorumHigh =? 0) then uQuorumHigh else sfQuorumHigh g)
      (match saSignEntries with [] => sfSignerEntries g | _ => saSignEntries end)));;
    incrementOwnerCount sleAccount;;
    mret terResult
  else mret terResult.

Definition trustDelete (sleSkywellState : handle) (uLowAccountID uHighAccountID : Account) : M Z :=
  l ← get_state sleSkywellState;
  let bLowNode := match sd_node (rs_low l) with Some _ => true | None => false end in
  let bHighNode := match sd_node (rs_high l) with Some _ => true | None => false end in
  terResult ← les_dirDelete false (default 0 (sd_node (rs_low l))) (getOwnerDirIndex uLowAccountID)
                (h_index sleSkywellState) false (negb bLowNode);
  terResult ← (if terResult =? tesSUCCESS
               then les_dirDelete false (default 0 (sd_node (rs_high l))) (getOwnerDirIndex uHighAccountID)
                      (h_index sleSkywellState) false (negb bHighNode)
               else mret terResult);
  les_delete sleSkywellState;;
  mret terResult.

(** ** Transfers *)

(** The condition under which the sender's reserve is given back, but for its account: the
    balance was positive and no longer is, the reserve is set, the side is not frozen and has no
    limit and no qualities.  [beforeAccount] is the part the code tests before it looks the
    account up, [afterAccount] the part after. *)
Definition beforeAccount (bSenderHigh : bool) (flags : Z) (before after : STAmount) : bool :=
  (signum before >? 0) && (signum after <=? 0)
  && flag flags (if negb bSenderHigh then lsfLowReserve else lsfHighReserve).
Definition sameNoSkywell (bSenderHigh : bool) (flags accountFlags : Z) : bool :=
  Bool.eqb (flag flags (if negb bSenderHigh then lsfLowNoSkywell else lsfHighNoSkywell))
           (flag accountFlags lsfDefaultSkywell).
Definition afterAccount (bSenderHigh : bool) (flags : Z) (l : SkywellState) : bool :=
  negb (flag flags (if negb bSenderHigh then lsfLowFreeze else lsfHighFreeze))
  && is_zero (sd_limit (rs_side bSenderHigh l))
  && (sd_quality_in (rs_side bSenderHigh l) =? 0)
  && (sd_quality_out (rs_side bSenderHigh l) =? 0).

(** [flags & ~lsfLowReserve], or the high one *)
Definition clear_reserve (bSenderHigh : bool) (flags : Z) : Z :=
  Z.ldiff flags (if negb bSenderHigh then lsfLowReserve else lsfHighReserve).
(** The balance is zero and the receiver's reserve is clear. *)
Definition line_unused (bSenderHigh : bool) (flags : Z) (after : STAmount) : bool :=
  is_zero after && negb (flag flags (if bSenderHigh then lsfLowReserve else lsfHighReserve)).

Definition negate_if (b : bool) (a : STAmount) : STAmount := if b then negate a else a.

Definition skywellCredit (uSenderID uReceiverID : Account) (saAmount : STAmount) (bCheckIssuer : bool) : M Z :=
  let cur := currency (mIssue saAmount) in
  let bSenderHigh := uSenderID >? uReceiverID in
  let uIndex := getSkywellStateIndex uSenderID uReceiverID cur in
  o ← les_cache uIndex;
  match o with
  | None =>
      saReceiverLimit ← lift (mkZero (mkIssue cur uReceiverID));
      let saBalance := setIssuer saAmount noAccount in
      o ← les_cache (getAccountRootIndex uReceiverID);
      sleAccount ← deref o;
      a ← get_account sleAccount;
      let noSkywell := Z.land (ar_flags a) lsfDefaultSkywell =? 1 in
      trustCreate bSenderHigh uSenderID uReceiverID uIndex sleAccount false noSkywell false saBalance saReceiverLimit 0 0
  | Some sleSkywellState =>
      cacheCredit uSenderID uReceiverID saAmount;;
      l ← get_line sleSkywellState;
      let saBefore := negate_if bSenderHigh (rs_balance l) in
      saBalance ← lift (op_sub saBefore saAmount);
      let uFlags := rs_flags l in
      clears ←
        (if beforeAccount bSenderHigh uFlags saBefore saBalance then
           o ← les_cache (getAccountRootIndex uSenderID);
           h ← deref o;
           a ← get_account h;
           mret (sameNoSkywell bSenderHigh uFlags (ar_flags a) && afterAccount bSenderHigh uFlags l)
         else mret false);
      bDelete ←
        (if (clears : bool) then
           decrementOwnerCount_of uSenderID;;
           l ← get_line sleSkywellState;
           set_line sleSkywellState (set_line_flags l (clear_reserve bSenderHigh uFlags));;
           mret (line_unused bSenderHigh uFlags saBalance)
         else mret false);
      let saBalance := negate_if bSenderHigh saBalance in
      l ← get_line sleSkywellState;
      set_line sleSkywellState (set_line_balance l saBalance);;
      if (bDelete : bool) then
        trustDelete sleSkywellState (if bSenderHigh then uReceiverID else uSenderID)
          (if negb bSenderHigh then uReceiverID else uSenderID)
      else les_modify sleSkywellState;; mret tesSUCCESS
  end.

Definition skywellTransferRate (issuer : Account) (cur : Currency) : M Z :=
  o ← les_cache (getAccountRootIndex issuer);
  match o with
  | None => mret QUALITY_ONE
  | Some sleAccount =>
      a ← get_account sleAccount;
      let general := default QUALITY_ONE (sfTransferRate a) in
      if cur =? noCurrency then mret general
      else
        match list_find (λ fee, cur = currency (mIssue fee)) (default [] (sfCurrencyRates a)) with
        | Some (_, fee) => lift (lexical_u32 (getText fee))
        | None => mret general
        end
  end.

(** The overload for a sender and a receiver *)
Definition skywellTransferRate_between (uSenderID uReceiverID issuer : Account) (cur : Currency) : M Z :=
  if (uSenderID =? issuer) || (uReceiverID =? issuer) then mret QUALITY_ONE else skywellTransferRate issuer cur.

Definition skywellTransferFee (from to issuer : Account) (saAmount : STAmount) : M STAmount :=
  if negb (from =? issuer) && negb (to =? issuer) then
    uTransitRate ← skywellTransferRate issuer (currency (mIssue saAmount));
    if negb (QUALITY_ONE =? uTransitRate) then
      r ← lift (amountFromRate uTransitRate);
      saTransferTotal ← lift (multiply saAmount r (mIssue saAmount));
      lift (op_sub saTransferTotal saAmount)
    else lift (zeroed saAmount)
  else lift (zeroed saAmount).

(** The result and [saActual] *)
Definition skywellSend (uSenderID uReceiverID : Account) (saAmount : STAmount) : M (Z * STAmount) :=
  let issuer := account (mIssue saAmount) in
  if (uSenderID =? issuer) || (uReceiverID =? issuer) || (issuer =? noAccount) then
    _ ← skywellCredit uSenderID uReceiverID saAmount false;
    mret (tesSUCCESS, saAmount)
  else
    saTransitFee ← skywellTransferFee uSenderID uReceiverID issuer saAmount;
    saActual ← (if is_zero saTransitFee then mret saAmount else lift (op_add saAmount saTransitFee));
    let saActual := setIssuer saActual issuer in
    terResult ← skywellCredit issuer uReceiverID saAmount true;
    terResult ← (if terResult =? tesSUCCESS then skywellCredit uSenderID issuer saActual true else mret terResult);
    mret (terResult, saActual).

Definition failed_processing (params : Z) : Z :=
  if flag params tapOPEN_LEDGER then telFAILED_PROCESSING else tecFAILED_PROCESSING.

Definition accountSend (uSenderID uReceiverID : Account) (saAmount : STAmount) : M Z :=
  if is_zero saAmount || (uSenderID =? uReceiverID) then mret tesSUCCESS
  else if negb (mIsNative saAmount) then
    '(ter, _) ← skywellSend uSenderID uReceiverID saAmount; mret ter
  else
    cacheCredit uSenderID uReceiverID saAmount;;
    sender ← (if negb (uSenderID =? 0) then les_cache (getAccountRootIndex uSenderID) else mret None);
    receiver ← (if negb (uReceiverID =? 0) then les_cache (getAccountRootIndex uReceiverID) else mret None);
    terResult ←
      match sender with
      | None => mret tesSUCCESS
      | Some sender =>
          a ← get_account sender;
          less ← lift (op_lt (ar_balance a) saAmount);
          if (less : bool) then p ← get_params; mret (failed_processing p)
          else
            b ← lift (op_sub (ar_balance a) saAmount);
            set_account sender (set_account_balance a b);;
            les_modify sender;;
            mret tesSUCCESS
      end;
    match receiver with
    | Some receiver =>
        if terResult =? tesSUCCESS then
          a ← get_account receiver;
          b ← lift (op_add (ar_balance a) saAmount);
          set_account receiver (set_account_balance a b);;
          les_modify receiver;;
          mret terResult
        else mret terResult
    | None => mret terResult
    end.

Definition checkState (state : handle) (bSenderHigh : bool) (sender : Account) (before after : STAmount) : M bool :=
  l ← get_line state;
  let flags := rs_flags l in
  o ← les_cache (getAccountRootIndex sender);
  if beforeAccount bSenderHigh flags before after then
    sender_account ← deref o;
    a ← get_account sender_account;
    if sameNoSkywell bSenderHigh flags (ar_flags a) && afterAccount bSenderHigh flags l then
      decrementOwnerCount sender_account;;
      l ← get_line state;
      set_line state (set_line_flags l (clear_reserve bSenderHigh flags));;
      mret (line_unused bSenderHigh flags after)
    else mret false
  else mret false.

(** Moving [amount] on the line [state], from [sender] to [receiver]: the end of [issue_iou]
    and of [redeem_iou] *)
Definition move_on_line (state : handle) (bSenderHigh : bool) (sender receiver : Account) (amount : STAmount) : M Z :=
  l ← get_line state;
  let start_balance := negate_if bSenderHigh (rs_balance l) in
  final_balance ← lift (op_sub start_balance amount);
  must_delete ← checkState state bSenderHigh sender start_balance final_balance;
  let final_balance := negate_if bSenderHigh final_balance in
  cacheCredit sender receiver amount;;
  l ← get_line state;
  set_line state (set_line_balance l final_balance);;
  if (must_delete : bool) then
    trustDelete state (if bSenderHigh then receiver else sender) (if bSenderHigh then sender else receiver)
  else les_modify state;; mret tesSUCCESS.

Definition issue_iou (acct : Account) (amount : STAmount) (issue : Issue) : M Z :=
  let bSenderHigh := account issue >? acct in
  let index := getSkywellStateIndex (account issue) acct (currency issue) in
  o ← les_cache index;
  match o with
  | None =>
      limit ← lift (mkZero (mkIssue (currency issue) acct));
      let final_balance := setIssuer amount noAccount in
      o ← les_cache (getAccountRootIndex acct);
      receiverAccount ← deref o;
      a ← get_account receiverAccount;
      let noSkywell := Z.land (ar_flags a) lsfDefaultSkywell =? 1 in
      trustCreate bSenderHigh (account issue) acct index receiverAccount false noSkywell false final_balance limit 0 0
  | Some state => move_on_line state bSenderHigh (account issue) acct amount
  end.

Definition redeem_iou (acct : Account) (amount : STAmount) (issue : Issue) : M Z :=
  let bSenderHigh := acct >? account issue in
  let index := getSkywellStateIndex acct (account issue) (currency issue) in
  o ← les_cache index;
  match o with
  | None => mret tefINTERNAL
  | Some state => move_on_line state bSenderHigh acct (account issue) amount
  end.

(** "10000000000" *)
Definition trust_auto_limit : list Z := [49; 48; 48; 48; 48; 48; 48; 48; 48; 48; 48].

Definition issue_trust_auto (acct : Account) (amount : STAmount) (issue : Issue) (autodel : bool) : M Z :=
  let bSenderHigh := acct >? account issue in
  let index := getSkywellStateIndex acct (account issue) (currency (mIssue amount)) in
  o ← les_cache index;
  match o with
  | None =>
      if negb autodel then
        limit ← lift (mkZero (mkIssue (currency issue) acct));
        let final_balance := setIssuer amount noAccount in
        o ← les_cache (getAccountRootIndex acct);
        receiverAccount ← deref o;
        a ← get_account receiverAccount;
        let noSkywell := Z.land (ar_flags a) lsfDefaultSkywell =? 0 in
        let limit := default limit (setValue limit trust_auto_limit) in
        trustCreate bSenderHigh acct (account issue) index receiverAccount false noSkywell false final_balance limit 0 0
      else mret tesSUCCESS
  | Some _ => mret tesSUCCESS
  end.

Definition transfer_xrp (from to : Account) (amount : STAmount) : M Z :=
  sender ← les_cache (getAccountRootIndex from);
  receiver ← les_cache (getAccountRootIndex to);
  sender ← deref sender;
  a ← get_account sender;
  less ← lift (op_lt (ar_balance a) amount);
  if (less : bool) then p ← get_params; mret (failed_processing p)
  else
    b ← lift (op_sub (ar_balance a) amount);
    set_account sender (set_account_balance a b);;
    les_modify sender;;
    receiver ← deref receiver;
    a ← get_account receiver;
    b ← lift (op_add (ar_balance a) amount);
    set_account receiver (set_account_balance a b);;
    les_modify receiver;;
    mret tesSUCCESS.

End trust_lines.
