(* ===== verification/TrustLineProps.v ===== *)
(** * Balances and trust lines: the theorems

    What the transfers of file [TrustLines] do to the map of entries a set stands for: native
    currency is moved exactly and conserved, an account never spends its reserve, and a credit
    on a trust line moves the balance, gives back the reserve and deletes the line under the
    documented conditions. *)

From S2P Require Import Prelude OrdMap Bytes Issue BigNum STAmount STAmountProps STAmountArith STAmountText Quality Ter Indexes DeferredCredits EntrySet Directory LedgerObjects TrustLines.

(** ** Native amounts *)

(** [n] drops of the native currency *)
Definition swt (n : Z) : STAmount := mkSTAmount xrpIssue n 0 true false.

Lemma swt_canonical n : 0 <= n <= cMaxNativeN → canonical (swt n) = true.
Proof.
  intros Hn. apply canonical_iff. apply shape_native; try done.
Qed.

Lemma op_lt_swt a b : 0 <= a <= cMaxNativeN → 0 <= b <= cMaxNativeN → op_lt (swt a) (swt b) = Ok (a <? b).
Proof.
  intros Ha Hb. destruct (op_order (swt a) (swt b)) as (-> & _); [by apply swt_canonical..|done|].
  f_equal. unfold amount_val, magnitude, sval. cbn [swt mIsNegative mValue mOffset].
  change (10 ^ (0 + 100)) with (10 ^ 100). pose proof (p10_pos 100 ltac:(lia)).
  case_bool_decide; symmetry; [apply Z.ltb_lt|apply Z.ltb_ge]; nia.
Qed.

Lemma op_sub_swt a b : 0 <= b <= a → a <= cMaxNativeN → op_sub (swt a) (swt b) = Ok (swt (a - b)).
Proof.
  unfold cMaxNativeN. intros Hb Ha. unfold op_sub. cbn [swt throwComparable isComparable mIsNative mbind result_bind].
  unfold is_zero, signum. cbn [swt mValue mIsNegative].
  destruct (Z.eqb_spec b 0) as [->|H0]; [by rewrite Z.sub_0_r|]. cbn [Z.eqb mIsNative].
  unfold getSNValue. cbn [swt mIsNative mValue mIsNegative negb mbind result_bind].
  rewrite !s64_id by (unfold is_s64; rewrite ?s64_id by (unfold is_s64; lia); lia).
  unfold createFromInt64, mkNativeU. rewrite Z.geb_leb, (proj2 (Z.leb_le 0 (a - b))) by lia.
  by rewrite u64_id by (unfold is_u64; lia).
Qed.

Lemma op_add_swt a b : 0 <= a → 0 <= b → a + b <= cMaxNativeN → op_add (swt a) (swt b) = Ok (swt (a + b)).
Proof.
  unfold cMaxNativeN. intros Ha Hb Hab. unfold op_add. cbn [swt throwComparable isComparable mIsNative mbind result_bind].
  unfold is_zero, signum. cbn [swt mValue mIsNegative].
  destruct (Z.eqb_spec b 0) as [->|H0]; [by rewrite Z.add_0_r|]. cbn [Z.eqb].
  destruct (Z.eqb_spec a 0) as [->|H1]; cbn [Z.eqb].
  - trans (canonicalize (swt b)); [done|]. apply canonicalize_fix, swt_canonical. unfold cMaxNativeN. lia.
  - cbn [mIsNative]. unfold getSNValue. cbn [swt mIsNative mValue mIsNegative negb mbind result_bind].
    rewrite !s64_id by (unfold is_s64; rewrite ?s64_id by (unfold is_s64; lia); lia).
    unfold mkNativeS, set_s64. rewrite (proj2 (Z.ltb_ge (a + b) 0)) by lia.
    unfold set_val, set_negative. cbn [mIssue mOffset mIsNative mIsNegative]. by rewrite u64_id by (unfold is_u64; lia).
Qed.

Section props.
  Context {BN : BigNum}.
  Variable sha512half : list Z → Z.
  Variables mReserveBase mReserveIncrement : Z.
  Notation getAccountRootIndex := (Indexes.getAccountRootIndex sha512half).
  Notation getOwnerDirIndex := (Indexes.getOwnerDirIndex sha512half).
  Notation getSkywellStateIndex := (Indexes.getSkywellStateIndex sha512half).

(** ** Transfers of native currency *)

(** Reading a field and writing it back through a valid pointer, then marking the entry *)
Lemma wp_debit h a m d b (Q : Z → World SLE → LedgerEntrySet SLE → Prop) w s (k : M Z) :
  shows w s m d → valid s h →
  (∀ w' s', shows w' s' (upd m (h_index h) (Some (ltACCOUNT_ROOT (set_account_balance a b)))) d → keeps s s' → wp k Q w' s') →
  wp (set_account h (set_account_balance a b);; les_modify h;; k) Q w s.
Proof.
  intros Hs Hh HQ. apply wp_bind. eapply wp_write; [exact Hs|exact Hh|]. intros w' Hs'.
  apply wp_bind. eapply wp_modify; [exact Hs'|exact Hh|]. intros s' Hs2 Hk. by apply HQ.
Qed.

(** The map after moving [x] drops from the account at [ia] to the one at [ib] *)
Definition moved (m : Z → option SLE) (ia ib : Z) (a b : AccountRoot) (na nb x : Z) : Z → option SLE :=
  upd (upd m ia (Some (ltACCOUNT_ROOT (set_account_balance a (swt (na - x))))))
      ib (Some (ltACCOUNT_ROOT (set_account_balance b (swt (nb + x))))).

Lemma transfer_xrp_spec w s m d from to a b na nb x :
  let ia := getAccountRootIndex from in let ib := getAccountRootIndex to in
  shows w s m d → ia ≠ 0 → ib ≠ 0 → ia ≠ ib →
  m ia = Some (ltACCOUNT_ROOT a) → m ib = Some (ltACCOUNT_ROOT b) →
  ar_balance a = swt na → ar_balance b = swt nb → 0 <= na → 0 <= nb → na + nb <= cMaxNativeN → 0 <= x <= cMaxNativeN →
  wp (transfer_xrp sha512half from to (swt x)) (λ ter w' s',
    if na <? x then ter = failed_processing (mParams s) ∧ shows w' s' m d
    else ter = tesSUCCESS ∧ shows w' s' (moved m ia ib a b na nb x) d) w s.
Proof.
  intros ia ib Hs Ha0 Hb0 Hab Ma Mb Ba Bb Hna Hnb Hsum Hx. unfold transfer_xrp.
  apply wp_bind. eapply wp_cache_some; [exact Hs|done|exact Ma|]. intros w1 s1 h1 Hs1 K1 I1 V1.
  apply wp_bind. eapply wp_cache_some; [exact Hs1|done|exact Mb|]. intros w2 s2 h2 Hs2 K2 I2 V2.
  apply wp_bind, wp_deref, wp_bind. eapply wp_get_account; [exact Hs2|by eapply keeps_valid|by rewrite I1|].
  rewrite Ba. apply wp_bind. eapply wp_lift; [apply op_lt_swt; lia|].
  destruct (Z.ltb_spec na x) as [Hlt|Hge].
  { apply wp_bind, wp_get_params, wp_ret. split; [|done]. f_equal.
    pose proof (proj2 (keeps_trans _ _ _ K1 K2)) as He. unfold env in He. by injection He. }
  apply wp_bind. eapply wp_lift; [apply op_sub_swt; lia|].
  eapply wp_debit; [exact Hs2|by eapply keeps_valid|]. rewrite I1. intros w3 s3 Hs3 K3.
  apply wp_bind, wp_deref, wp_bind.
  eapply wp_get_account; [exact Hs3|by eapply keeps_valid|rewrite I2, upd_ne by done; exact Mb|].
  rewrite Bb. apply wp_bind. eapply wp_lift; [apply op_add_swt; lia|].
  eapply wp_debit; [exact Hs3|by eapply keeps_valid|]. rewrite I2. intros w4 s4 Hs4 K4.
  apply wp_ret. split; [done|exact Hs4].
Qed.

(** [accountSend] of native currency moves it in the same way and records the credit.  A party
    that is the zero account stands for no entry. *)
Lemma accountSend_spec w s m d d' from to a b na nb x :
  let ia := getAccountRootIndex from in let ib := getAccountRootIndex to in
  shows w s m d → ia ≠ 0 → ib ≠ 0 → ia ≠ ib → from ≠ 0 → to ≠ 0 →
  m ia = Some (ltACCOUNT_ROOT a) → m ib = Some (ltACCOUNT_ROOT b) →
  ar_balance a = swt na → ar_balance b = swt nb → 0 <= na → 0 <= nb → na + nb <= cMaxNativeN → 0 < x <= cMaxNativeN →
  credited d from to (swt x) d' →
  wp (accountSend sha512half from to (swt x)) (λ ter w' s',
    if na <? x then ter = failed_processing (mParams s) ∧ shows w' s' m d'
    else ter = tesSUCCESS ∧ shows w' s' (moved m ia ib a b na nb x) d') w s.
Proof.
  intros ia ib Hs Ha0 Hb0 Hab Hf Ht Ma Mb Ba Bb Hna Hnb Hsum Hx Hc. unfold accountSend.
  assert (from ≠ to) as Hft by (by intros ->).
  assert (is_zero (swt x) = false) as ->.
  { unfold is_zero, signum. cbn. by rewrite (proj2 (Z.eqb_neq x 0)) by lia. }
  rewrite (proj2 (Z.eqb_neq from to)), (proj2 (Z.eqb_neq from 0)), (proj2 (Z.eqb_neq to 0)) by done. cbn [orb negb swt mIsNative].
  apply wp_bind. eapply wp_cacheCredit; [exact Hs|exact Hc|]. intros s0 Hs0 K0.
  apply wp_bind. eapply wp_cache_some; [exact Hs0|done|exact Ma|]. intros w1 s1 h1 Hs1 K1 I1 V1.
  apply wp_bind. eapply wp_cache_some; [exact Hs1|done|exact Mb|]. intros w2 s2 h2 Hs2 K2 I2 V2.
  apply wp_bind, wp_bind. eapply wp_get_account; [exact Hs2|by eapply keeps_valid|by rewrite I1|].
  rewrite Ba. apply wp_bind. eapply wp_lift; [apply op_lt_swt; lia|].
  destruct (Z.ltb_spec na x) as [Hlt|Hge].
  { apply wp_bind, wp_get_params, wp_ret.
    assert (mParams s2 = mParams s) as ->.
    { pose proof (proj2 (keeps_trans _ _ _ K0 (keeps_trans _ _ _ K1 K2))) as He. unfold env in He. by injection He. }
    assert (failed_processing (mParams s) =? tesSUCCESS = false) as -> by (unfold failed_processing; by destruct (flag _ _)).
    apply wp_ret. done. }
  apply wp_bind. eapply wp_lift; [apply op_sub_swt; lia|].
  eapply wp_debit; [exact Hs2|by eapply keeps_valid|]. rewrite I1. intros w3 s3 Hs3 K3. apply wp_ret.
  cbn [Z.eqb tesSUCCESS]. apply wp_bind.
  eapply wp_get_account; [exact Hs3|by eapply keeps_valid|rewrite I2, upd_ne by done; exact Mb|].
  rewrite Bb. apply wp_bind. eapply wp_lift; [apply op_add_swt; lia|].
  eapply wp_debit; [exact Hs3|by eapply keeps_valid|]. rewrite I2. intros w4 s4 Hs4 K4.
  apply wp_ret. split; [done|exact Hs4].
Qed.

(** ** Directories in the monad *)

(** Entry [x] is on page [n] of the directory [ps] at [root]. *)
Definition has_entry (root : Z) (m : Z → option SLE) (ps : list (Z * list Z)) (n x : Z) : Prop :=
  dir_rep sha512half root m ps ∧ ∃ a l b, ps = a ++ (n, l) :: b ∧ x ∈ l.

Lemma shows_ext w s m m' d : (∀ j, m' j = m j) → shows w s m d → shows w s m' d.
Proof. intros H [[Hi Hm] Hd]. split; [split; [done|]|done]. intros j. by rewrite Hm, H. Qed.

Lemma dir_rep_frame root m m' ps :
  (∀ n, is_u64 n → m' (getDirNodeIndex sha512half root n) = m (getDirNodeIndex sha512half root n)) →
  dir_rep sha512half root m ps → dir_rep sha512half root m' ps.
Proof.
  intros Hf [Hn Hp]. split; [intros n Hu Hin; rewrite Hf by done; by apply Hn|].
  destruct ps as [|[n0 l0] rest]; [done|]. destruct Hp as (-> & Hr & Hseg & Hs & Hu).
  apply Forall_cons in Hu as [Hu0 Hu]. split_and!; [done| | |done|by constructor].
  - eapply node_frame; [|exact Hr]. by apply Hf.
  - eapply seg_frame; [|exact Hseg]. intros k Hk. apply Hf. rewrite Forall_forall in Hu. by apply Hu.
Qed.

(** Two directories share no page. *)
Definition separate (r r' : Z) : Prop := ∀ n, is_u64 n → outside sha512half r' (getDirNodeIndex sha512half r n).

Lemma frame_other r r' m m' ps :
  separate r r' → frame sha512half r' m m' → dir_rep sha512half r m ps → dir_rep sha512half r m' ps.
Proof. intros Hsep Hf. apply dir_rep_frame. intros n Hn. by apply Hf, Hsep. Qed.

Lemma upd_frame r m i v ps :
  outside sha512half r i → dir_rep sha512half r m ps → dir_rep sha512half r (upd m i v) ps.
Proof. intros Ho. apply dir_rep_frame. intros n Hn. apply upd_ne. intros He. by apply (Ho n Hn). Qed.

Lemma dir_add_listed ps x ps' n : dir_add ps x = Some (ps', n) → ∃ a l b, ps' = a ++ (n, l) :: b ∧ x ∈ l.
Proof.
  unfold dir_add. destruct (last ps) as [[k l]|].
  - destruct (length l =? DIR_NODE_MAX)%nat; [destruct (_ =? _); [done|]|]; intros [= <- <-].
    + exists ps, [x], []. split; [done|]. by left.
    + eexists _, _, []. split; [done|]. apply elem_of_app. right. by left.
  - intros [= <- <-]. exists [], [x], []. split; [done|]. by left.
Qed.

Lemma wp_dirAdd owner x ps ps' n m d (Q : Z * Z → World SLE → LedgerEntrySet SLE → Prop) w s :
  let r := getOwnerDirIndex owner in
  shows w s m d → good_root sha512half r → dir_rep sha512half r m ps → dir_add ps x = Some (ps', n) →
  (∀ w' s' m', shows w' s' m' d → env s' = env s → (∀ j q, outside sha512half r j → held s j q → held s' j q) →
     frame sha512half r m m' → has_entry r m' ps' n x → Q (tesSUCCESS, n) w' s') →
  wp (owner_dirAdd sha512half owner x) Q w s.
Proof.
  intros r [Hst Hd] Hg Hrep Ha HQ.
  destruct (dirAdd_since sha512half r w s m ps x [owner] Hg Hst Hrep) as (w' & s' & m' & [Hst' [Hh Hss]] & Hf & He).
  rewrite Ha in He. destruct He as [He Hrep']. apply same_set_env in Hss as [Henv Hd'].
  exists w', s', (tesSUCCESS, n). split; [exact He|]. eapply HQ; [split; [exact Hst'|congruence]|done|auto|exact Hf|].
  split; [done|by eapply dir_add_listed].
Qed.

Lemma wp_dirDelete r x ps n m d (Q : Z → World SLE → LedgerEntrySet SLE → Prop) w s :
  shows w s m d → good_root sha512half r → has_entry r m ps n x →
  (∀ w' s' m' ps', shows w' s' m' d → env s' = env s → (∀ j q, outside sha512half r j → held s j q → held s' j q) →
     frame sha512half r m m' → dir_rep sha512half r m' ps' → entries ps ≡ₚ x :: entries ps' → Q tesSUCCESS w' s') →
  wp (les_dirDelete sha512half false n r x false false) Q w s.
Proof.
  intros [Hst Hd] Hg (Hrep & a & l & b & -> & Hx) HQ.
  destruct (dirDelete_since sha512half r w s m a n l b x n false false false Hg Hst Hrep Hx (or_introl eq_refl))
    as (w' & s' & m' & He & [Hst' [Hh Hss]] & Hf & Hrep'). apply same_set_env in Hss as [Henv Hd'].
  exists w', s', tesSUCCESS. split; [exact He|].
  eapply HQ; [split; [exact Hst'|congruence]|done|auto|exact Hf|exact Hrep'|].
  destruct (dir_del_entries false false a n l b x Hx) as (l' & Hl' & Hps). rewrite Hps, entries_mid.
  destruct (remove_entry_spec false x l Hx) as (l2 & Hl2 & Hp & _). rewrite Hl' in Hl2. injection Hl2 as <-.
  rewrite Hp. solve_Permutation.
Qed.

(** ** The life of a trust line *)

(** What the hash function must provide for a line at index [i] between [low] and [high]: the two
    owner directories have pages of their own, and [i] is not one of them. *)
Record line_place (low high : Account) (i : Z) : Prop := mkPlace {
  place_low : good_root sha512half (getOwnerDirIndex low);
  place_high : good_root sha512half (getOwnerDirIndex high);
  place_sep : separate (getOwnerDirIndex low) (getOwnerDirIndex high);
  place_sep' : separate (getOwnerDirIndex high) (getOwnerDirIndex low);
  place_out : outside sha512half (getOwnerDirIndex low) i ∧ outside sha512half (getOwnerDirIndex high) i;
  place_ne : i ≠ 0
}.

(** Index [j] is neither the line nor a page of the two directories. *)
Definition elsewhere (low high : Account) (i j : Z) : Prop :=
  j ≠ i ∧ outside sha512half (getOwnerDirIndex low) j ∧ outside sha512half (getOwnerDirIndex high) j.

(** The line [l] at [i] is listed in both owner directories, on the pages it names. *)
Definition linked (low high : Account) (i : Z) (m : Z → option SLE) (l : SkywellState) (pl ph : list (Z * list Z)) : Prop :=
  m i = Some (ltSKYWELL_STATE l)
  ∧ (∃ n, sd_node (rs_low l) = Some n ∧ has_entry (getOwnerDirIndex low) m pl n i)
  ∧ (∃ n, sd_node (rs_high l) = Some n ∧ has_entry (getOwnerDirIndex high) m ph n i).

(** [trustDelete] takes the line out of both directories and deletes it. *)
Lemma trustDelete_spec w s m d h low high l pl ph :
  shows w s m d → valid s h → line_place low high (h_index h) → linked low high (h_index h) m l pl ph →
  wp (trustDelete sha512half h low high) (λ ter w' s', ter = tesSUCCESS ∧ env s' = env s ∧ ∃ m' pl' ph', shows w' s' m' d
    ∧ m' (h_index h) = None
    ∧ dir_rep sha512half (getOwnerDirIndex low) m' pl' ∧ entries pl ≡ₚ h_index h :: entries pl'
    ∧ dir_rep sha512half (getOwnerDirIndex high) m' ph' ∧ entries ph ≡ₚ h_index h :: entries ph'
    ∧ ∀ j, elsewhere low high (h_index h) j → m' j = m j) w s.
Proof.
  intros Hs Hv [Gl Gh Sl Sh [Ol Oh] Hi0] (Hm & (nl & Nl & El) & (nh & Nh & Eh)). unfold trustDelete.
  apply wp_bind. eapply wp_get_state; [exact Hs|exact Hv|exact Hm|]. rewrite Nl, Nh. cbn [default from_option negb].
  apply wp_bind. eapply wp_dirDelete; [exact Hs|exact Gl|exact El|]. intros w1 s1 m1 pl' Hs1 E1 K1 F1 R1 P1.
  change (tesSUCCESS =? tesSUCCESS) with true. cbn iota.
  apply wp_bind. eapply wp_dirDelete; [exact Hs1|exact Gh| |].
  { split; [by eapply frame_other; [exact Sh|exact F1|apply Eh]|apply Eh]. }
  intros w2 s2 m2 ph' Hs2 E2 K2 F2 R2 P2.
  apply wp_bind. eapply wp_delete; [exact Hs2|by apply K2, K1|]. intros s3 Hs3 K3 E3.
  apply wp_ret. split; [done|]. split; [congruence|]. eexists _, pl', ph'. split; [exact Hs3|]. split; [apply upd_eq|].
  split; [apply upd_frame; [done|]; by eapply frame_other; [exact Sl|exact F2|exact R1]|]. split; [done|].
  split; [by apply upd_frame|]. split; [done|].
  intros j (Hj & Hjl & Hjh). rewrite upd_ne by done. by rewrite F2, F1.
Qed.

(** The account after its owner count was raised, or lowered *)
Definition count_up (a : AccountRoot) : AccountRoot :=
  if sfOwnerCount a =? 4294967295 then a else set_owner_count a (sfOwnerCount a + 1).
Definition count_down (a : AccountRoot) : AccountRoot :=
  if sfOwnerCount a =? 0 then a else set_owner_count a (sfOwnerCount a - 1).

Lemma upd_same (m : Z → option SLE) i v j : m i = v → upd m i v j = m j.
Proof. intros H. unfold upd. by destruct (Z.eqb_spec j i) as [->|]. Qed.

Lemma wp_set_count h a n m d (Q : () → World SLE → LedgerEntrySet SLE → Prop) w s :
  shows w s m d → valid s h →
  (∀ w' s', shows w' s' (upd m (h_index h) (Some (ltACCOUNT_ROOT (set_owner_count a n)))) d → keeps s s' → Q () w' s') →
  wp (set_account h (set_owner_count a n);; les_modify h) Q w s.
Proof.
  intros Hs Hv HQ. apply wp_bind. eapply wp_write; [exact Hs|exact Hv|]. intros w' Hs'.
  eapply wp_modify; [exact Hs'|exact Hv|]. intros s' Hs2 K. by apply HQ.
Qed.

Lemma wp_increment h a m d (Q : () → World SLE → LedgerEntrySet SLE → Prop) w s :
  shows w s m d → valid s h → m (h_index h) = Some (ltACCOUNT_ROOT a) →
  (∀ w' s', shows w' s' (upd m (h_index h) (Some (ltACCOUNT_ROOT (count_up a)))) d → keeps s s' → Q () w' s') →
  wp (incrementOwnerCount h) Q w s.
Proof.
  intros Hs Hv Hm HQ. unfold incrementOwnerCount. apply wp_bind. eapply wp_get_account; [done..|].
  unfold count_up in HQ. destruct (sfOwnerCount a =? 4294967295).
  - apply wp_ret, HQ; [|apply keeps_refl]. eapply shows_ext; [|exact Hs]. intros j. by apply upd_same.
  - by eapply wp_set_count.
Qed.

Lemma wp_decrement h a m d (Q : () → World SLE → LedgerEntrySet SLE → Prop) w s :
  shows w s m d → valid s h → m (h_index h) = Some (ltACCOUNT_ROOT a) →
  (∀ w' s', shows w' s' (upd m (h_index h) (Some (ltACCOUNT_ROOT (count_down a)))) d → keeps s s' → Q () w' s') →
  wp (decrementOwnerCount h) Q w s.
Proof.
  intros Hs Hv Hm HQ. unfold decrementOwnerCount. apply wp_bind. eapply wp_get_account; [done..|].
  unfold count_down in HQ. destruct (sfOwnerCount a =? 0).
  - apply wp_ret, HQ; [|apply keeps_refl]. eapply shows_ext; [|exact Hs]. intros j. by apply upd_same.
  - by eapply wp_set_count.
Qed.

(** The line [trustCreate] makes *)
Definition created_line (bSetHigh : bool) (nl nh : Z) (saLimit peerLimit saBalance : STAmount) (flags : Z) (qin qout : Z) : SkywellState :=
  set_line_balance (set_line_flags (init_line bSetHigh nl nh saLimit peerLimit qin qout new_line) flags)
    (if bSetHigh then op_neg saBalance else saBalance).

Lemma created_line_nodes bh nl nh lim plim bal f qin qout :
  sd_node (rs_low (created_line bh nl nh lim plim bal f qin qout)) = Some nl
  ∧ sd_node (rs_high (created_line bh nl nh lim plim bal f qin qout)) = Some nh.
Proof. unfold created_line, init_line. destruct bh, (qin =? 0), (qout =? 0); by split. Qed.

Lemma mkZero_ok i : mkZero i = Ok (mkSTAmount i 0 (if isSWT (currency i) then 0 else -100) (isSWT (currency i)) false).
Proof. unfold mkZero, mkAmount. by rewrite canonicalize_zero. Qed.

(** Entering the line in both directories *)
Lemma wp_both_dirAdd low high h pl pl' nl ph ph' nh m d (Q : Z * Z * Z → World SLE → LedgerEntrySet SLE → Prop) w s :
  shows w s m d → line_place low high h →
  dir_rep sha512half (getOwnerDirIndex low) m pl → dir_rep sha512half (getOwnerDirIndex high) m ph →
  dir_add pl h = Some (pl', nl) → dir_add ph h = Some (ph', nh) →
  (∀ w' s' m', shows w' s' m' d → env s' = env s →
     (∀ j q, outside sha512half (getOwnerDirIndex low) j → outside sha512half (getOwnerDirIndex high) j → held s j q → held s' j q) →
     (∀ j, outside sha512half (getOwnerDirIndex low) j → outside sha512half (getOwnerDirIndex high) j → m' j = m j) →
     has_entry (getOwnerDirIndex low) m' pl' nl h → has_entry (getOwnerDirIndex high) m' ph' nh h →
     Q (tesSUCCESS, nl, nh) w' s') →
  wp (both_dirAdd sha512half low high h) Q w s.
Proof.
  intros Hs [Gl Gh Sl Sh [Ol Oh] Hi0] Rl Rh Al Ah HQ. unfold both_dirAdd.
  apply wp_bind. eapply wp_dirAdd; [exact Hs|exact Gl|exact Rl|exact Al|]. intros w1 s1 m1 Hs1 E1 K1 F1 L1.
  change (tesSUCCESS =? tesSUCCESS) with true. cbn iota.
  apply wp_bind. eapply wp_dirAdd; [exact Hs1|exact Gh| |exact Ah|].
  { by eapply frame_other; [exact Sh|exact F1|exact Rh]. }
  intros w2 s2 m2 Hs2 E2 K2 F2 L2. apply wp_ret. eapply HQ; [exact Hs2|congruence|auto| | |exact L2].
  - intros j Hl Hh. by rewrite F2, F1.
  - split; [by eapply frame_other; [exact Sl|exact F2|apply L1]|apply L1].
Qed.

(** [trustCreate], for the account [sa] whose limit is set and its peer *)
Lemma trustCreate_spec w s m d d' src dst h hA sa peer auth nosky freeze bal lim qin qout pl pl' nl ph ph' nh :
  let bSrcHigh := src >? dst in
  let low := if negb bSrcHigh then src else dst in
  let high := if bSrcHigh then src else dst in
  let bSetDst := account (mIssue lim) =? dst in
  let bSetHigh := xorb bSrcHigh bSetDst in
  let ip := getAccountRootIndex (if bSetHigh then low else high) in
  shows w s m d → valid s hA → line_place low high h → m h = None →
  dir_rep sha512half (getOwnerDirIndex low) m pl → dir_rep sha512half (getOwnerDirIndex high) m ph →
  dir_add pl h = Some (pl', nl) → dir_add ph h = Some (ph', nh) →
  elsewhere low high h (h_index hA) → elsewhere low high h ip → ip ≠ 0 →
  m (h_index hA) = Some (ltACCOUNT_ROOT sa) → m ip = Some (ltACCOUNT_ROOT peer) →
  credited d src dst bal d' →
  wp (trustCreate sha512half bSrcHigh src dst h hA auth nosky freeze bal lim qin qout) (λ ter w' s',
    ter = tesSUCCESS ∧ ∃ m' l, shows w' s' m' d' ∧ linked low high h m' l pl' ph'
    ∧ rs_balance l = (if bSetHigh then op_neg bal else bal)
    ∧ rs_flags l = line_flags bSetHigh auth nosky freeze (ar_flags peer)
    ∧ sd_limit (rs_side bSetHigh l) = lim
    ∧ is_zero (sd_limit (rs_side (negb bSetHigh) l)) = true
    ∧ m' (h_index hA) = Some (ltACCOUNT_ROOT (count_up sa))
    ∧ ∀ j, elsewhere low high h j → j ≠ h_index hA → m' j = m j) w s.
Proof.
  intros bSrcHigh low high bSetDst bSetHigh ip Hs HvA Hp Hm Rl Rh Al Ah HeA Hep Hip MA Mp Hc.
  pose proof Hp as [_ _ _ _ [Ol Oh] Hi0]. destruct HeA as (NA & OAl & OAh). destruct Hep as (Np & Opl & Oph).
  unfold trustCreate. fold bSrcHigh low high bSetDst bSetHigh ip.
  apply wp_bind. eapply wp_create; [exact Hs|exact Hm|]. intros w1 s1 hL Hs1 K1 IL VL. rewrite IL.
  apply wp_bind. eapply wp_both_dirAdd; [exact Hs1|exact Hp|by apply upd_frame|by apply upd_frame|exact Al|exact Ah|].
  intros w2 s2 m2 Hs2 E2 K2 F2 L2l L2h. change (tesSUCCESS =? tesSUCCESS) with true. cbn iota.
  assert (m2 h = Some (ltSKYWELL_STATE new_line)) as M2h by (rewrite F2, upd_eq; done).
  assert (m2 (h_index hA) = Some (ltACCOUNT_ROOT sa)) as M2A by (rewrite F2, upd_ne by done; done).
  assert (m2 ip = Some (ltACCOUNT_ROOT peer)) as M2p by (rewrite F2, upd_ne by done; done).
  assert (valid s2 hL) as VL2 by (rewrite IL in *; by apply K2).
  assert (valid s2 hA) as VA2 by (by apply K2, K1).
  apply wp_bind. eapply wp_cache_some; [exact Hs2|exact Hip|exact M2p|]. intros w3 s3 hp Hs3 K3 Ip Vp.
  apply wp_bind. eapply wp_lift; [apply mkZero_ok|].
  apply wp_bind. eapply wp_get_line; [exact Hs3|by eapply keeps_valid|by rewrite IL|].
  apply wp_bind. eapply wp_write; [exact Hs3|by eapply keeps_valid|]. rewrite IL. intros w4 Hs4.
  apply wp_bind, wp_deref, wp_bind. eapply wp_get_account; [exact Hs4|exact Vp|rewrite Ip, upd_ne by done; exact M2p|].
  apply wp_bind. eapply wp_get_line; [exact Hs4|by eapply keeps_valid|rewrite IL; apply upd_eq|].
  apply wp_bind. eapply wp_write; [exact Hs4|by eapply keeps_valid|]. rewrite IL. intros w5 Hs5.
  apply wp_bind. eapply wp_increment; [exact Hs5|by eapply keeps_valid|rewrite !upd_ne by done; exact M2A|]. intros w6 s6 Hs6 K6.
  assert (valid s6 hL) as VL6 by (by eapply keeps_valid, keeps_valid).
  apply wp_bind. eapply wp_get_line; [exact Hs6|exact VL6|rewrite IL, upd_ne, upd_eq by done; done|].
  apply wp_bind. eapply wp_write; [exact Hs6|exact VL6|]. rewrite IL. intros w7 Hs7.
  apply wp_bind. eapply wp_cacheCredit; [exact Hs7|exact Hc|]. intros s8 Hs8 K8. apply wp_ret. split; [done|].
  set (plim := mkSTAmount _ 0 _ _ false) in *. set (fl := line_flags _ _ _ _ _) in *.
  eexists _, (created_line bSetHigh nl nh lim plim bal fl qin qout). split; [exact Hs8|].
  destruct (created_line_nodes bSetHigh nl nh lim plim bal fl qin qout) as [Nl Nh].
  assert (∀ r v v' v'' v3, outside sha512half r h → outside sha512half r (h_index hA) → ∀ ps, dir_rep sha512half r m2 ps →
    dir_rep sha512half r (upd (upd (upd (upd m2 h v) h v') (h_index hA) v'') h v3) ps) as Hfr.
  { intros r v v' v'' v3 Hr HrA ps Hps. by repeat apply upd_frame. }
  split; [split; [apply upd_eq|split]|].
  - exists nl. split; [exact Nl|]. split; [by apply Hfr, L2l|apply L2l].
  - exists nh. split; [exact Nh|]. split; [by apply Hfr, L2h|apply L2h].
  - split; [by destruct bSetHigh|]. split; [done|].
    split; [unfold created_line, init_line; by destruct bSetHigh, (qin =? 0), (qout =? 0)|].
    split; [unfold created_line, init_line; by destruct bSetHigh, (qin =? 0), (qout =? 0)|].
    split; [rewrite upd_ne, upd_eq by done; done|].
    intros j (Hj & Hjl & Hjh) HjA. rewrite !upd_ne by done. rewrite F2 by done. by apply upd_ne.
Qed.

(** ** Credits on a line *)

(** Whether the sender's reserve is given back *)
Definition clears (sh : bool) (l : SkywellState) (a : AccountRoot) (start final : STAmount) : bool :=
  beforeAccount sh (rs_flags l) start final && (sameNoSkywell sh (rs_flags l) (ar_flags a) && afterAccount sh (rs_flags l) l).

(** The map with the sender's account and the line as they are before the balance is set *)
Definition reserved (m : Z → option SLE) (ia i : Z) (sh : bool) (l : SkywellState) (a : AccountRoot) (clr : bool) : Z → option SLE :=
  upd (upd m ia (Some (ltACCOUNT_ROOT (if clr then count_down a else a))))
      i (Some (ltSKYWELL_STATE (if clr then set_line_flags l (clear_reserve sh (rs_flags l)) else l))).

(** The line after the credit *)
Definition line_after (sh : bool) (l : SkywellState) (clr : bool) (final : STAmount) : SkywellState :=
  set_line_balance (if clr then set_line_flags l (clear_reserve sh (rs_flags l)) else l) (negate_if sh final).

Definition after_credit (m : Z → option SLE) (ia i : Z) (sh : bool) (l : SkywellState) (a : AccountRoot) (clr : bool) (final : STAmount) : Z → option SLE :=
  upd (upd m ia (Some (ltACCOUNT_ROOT (if clr then count_down a else a)))) i (Some (ltSKYWELL_STATE (line_after sh l clr final))).

(** The line is gone from the map and from both directories; everything else is as in [m]. *)
Definition line_deleted (low high : Account) (i : Z) (m : Z → option SLE) (pl ph : list (Z * list Z))
    (w' : World SLE) (s' : LedgerEntrySet SLE) (d : option DeferredCredits) : Prop :=
  ∃ m' pl' ph', shows w' s' m' d ∧ m' i = None
    ∧ dir_rep sha512half (getOwnerDirIndex low) m' pl' ∧ entries pl ≡ₚ i :: entries pl'
    ∧ dir_rep sha512half (getOwnerDirIndex high) m' ph' ∧ entries ph ≡ₚ i :: entries ph'
    ∧ ∀ j, elsewhere low high i j → m' j = m j.

(** The outcome of a credit of [final] (in the sender's terms) on the line [l] *)
Definition credit_outcome (low high : Account) (m : Z → option SLE) (ia i : Z) (sh : bool) (l : SkywellState) (a : AccountRoot)
    (start final : STAmount) (pl ph : list (Z * list Z)) (d' : option DeferredCredits) (ter : Z)
    (w' : World SLE) (s' : LedgerEntrySet SLE) : Prop :=
  let clr := clears sh l a start final in
  ter = tesSUCCESS
  ∧ if clr && line_unused sh (rs_flags l) final
    then line_deleted low high i (after_credit m ia i sh l a clr final) pl ph w' s' d'
    else shows w' s' (after_credit m ia i sh l a clr final) d'.

Lemma linked_after low high i m l pl ph ia sh a clr final :
  line_place low high i → elsewhere low high i ia → linked low high i m l pl ph →
  linked low high i (after_credit m ia i sh l a clr final) (line_after sh l clr final) pl ph.
Proof.
  intros [_ _ _ _ [Ol Oh] _] (Hne & Al & Ah) (Hm & (nl & Nl & El & Ll) & (nh & Nh & Eh & Lh)).
  split; [apply upd_eq|]. assert (∀ r, outside sha512half r i → outside sha512half r ia → ∀ ps, dir_rep sha512half r m ps →
    dir_rep sha512half r (after_credit m ia i sh l a clr final) ps) as Hf by (intros; by repeat apply upd_frame).
  split; [exists nl|exists nh]; (split; [by destruct clr|split; [by apply Hf|done]]).
Qed.

(** The end of the three functions: set the balance, then delete or mark the line. *)
Lemma wp_finish w s m d h low high ia sh l a clr final del pl ph :
  let i := h_index h in
  shows w s (reserved m ia i sh l a clr) d → valid s h → line_place low high i → elsewhere low high i ia →
  linked low high i m l pl ph →
  wp (l ← get_line h; set_line h (set_line_balance l (negate_if sh final));;
      if (del : bool) then trustDelete sha512half h low high else les_modify h;; mret tesSUCCESS)
    (λ ter w' s', ter = tesSUCCESS
       ∧ if del then line_deleted low high i (after_credit m ia i sh l a clr final) pl ph w' s' d
         else shows w' s' (after_credit m ia i sh l a clr final) d) w s.
Proof.
  intros i Hs Hv Hp He Hl. apply wp_bind. eapply wp_get_line; [exact Hs|exact Hv|apply upd_eq|].
  apply wp_bind. eapply wp_write; [exact Hs|exact Hv|]. fold i. intros w1 Hs1.
  assert (shows w1 s (after_credit m ia i sh l a clr final) d) as Hs2.
  { eapply shows_ext; [|exact Hs1]. intros j. unfold after_credit, reserved, line_after, upd. by destruct (j =? i), (j =? ia). }
  destruct del.
  - pose proof (linked_after low high i m l pl ph ia sh a clr final Hp He Hl) as Hl'.
    eapply wp_mono; [exact (trustDelete_spec w1 s _ d h low high _ pl ph Hs2 Hv Hp Hl')|].
    intros ter w' s' (-> & _ & H). split; [done|exact H].
  - apply wp_bind. eapply wp_modify; [exact Hs2|exact Hv|]. intros s2 Hs3 _. apply wp_ret. done.
Qed.

(** Giving back the reserve: the sender's count, then the flag of the line. *)
Lemma wp_clear_reserve w s m d h hA ia sh l a (B : bool) :
  let i := h_index h in
  shows w s m d → valid s h → valid s hA → h_index hA = ia → ia ≠ i → m i = Some (ltSKYWELL_STATE l) → m ia = Some (ltACCOUNT_ROOT a) →
  ∀ Q : bool → World SLE → LedgerEntrySet SLE → Prop,
  (∀ w' s', shows w' s' (reserved m ia i sh l a true) d → keeps s s' → Q B w' s') →
  wp (decrementOwnerCount hA;; l' ← get_line h; set_line h (set_line_flags l' (clear_reserve sh (rs_flags l)));; mret B) Q w s.
Proof.
  intros i Hs Hv HvA HiA Hne Hm Ma Q HQ. apply wp_bind. eapply wp_decrement; [exact Hs|exact HvA|by rewrite HiA|].
  rewrite HiA. intros w1 s1 Hs1 K1.
  apply wp_bind. eapply wp_get_line; [exact Hs1|by eapply keeps_valid|fold i; rewrite upd_ne by done; exact Hm|].
  apply wp_bind. eapply wp_write; [exact Hs1|by eapply keeps_valid|]. fold i. intros w2 Hs2. apply wp_ret. by apply HQ.
Qed.

Lemma reserved_false m ia i sh l a j :
  m i = Some (ltSKYWELL_STATE l) → m ia = Some (ltACCOUNT_ROOT a) → reserved m ia i sh l a false j = m j.
Proof. intros Hi Ha. unfold reserved. rewrite upd_same by (unfold upd; by destruct (Z.eqb_spec i ia) as [->|]; congruence). by apply upd_same. Qed.

(** [skywellCredit] on an existing line *)
Lemma skywellCredit_spec w s m d d' sender receiver amount check l a final pl ph :
  let sh := sender >? receiver in
  let i := getSkywellStateIndex sender receiver (currency (mIssue amount)) in
  let ia := getAccountRootIndex sender in
  let low := if sh then receiver else sender in
  let high := if negb sh then receiver else sender in
  shows w s m d → line_place low high i → elsewhere low high i ia → ia ≠ 0 →
  linked low high i m l pl ph → m ia = Some (ltACCOUNT_ROOT a) →
  op_sub (negate_if sh (rs_balance l)) amount = Ok final → credited d sender receiver amount d' →
  wp (skywellCredit sha512half sender receiver amount check)
    (credit_outcome low high m ia i sh l a (negate_if sh (rs_balance l)) final pl ph d') w s.
Proof.
  intros sh i ia low high Hs Hp He Hia Hl Ma Hsub Hc. pose proof Hp as [_ _ _ _ _ Hi0]. pose proof Hl as [Hm _].
  destruct He as (Hne & He'). unfold skywellCredit. fold sh i ia low high.
  apply wp_bind. eapply wp_cache_some; [exact Hs|exact Hi0|exact Hm|]. intros w1 s1 h Hs1 K1 I1 V1.
  apply wp_bind. eapply wp_cacheCredit; [exact Hs1|exact Hc|]. intros s2 Hs2 K2. pose proof (keeps_valid _ _ _ K2 V1) as V2.
  apply wp_bind. eapply wp_get_line; [exact Hs2|exact V2|by rewrite I1|].
  apply wp_bind. eapply wp_lift; [exact Hsub|]. set (start := negate_if sh (rs_balance l)) in *.
  apply wp_bind. eassert (wp _ (λ b w' s', b = clears sh l a start final ∧ shows w' s' m d' ∧ valid s' h) w1 s2) as Hclr;
    [|eapply wp_mono; [exact Hclr|]].
  { unfold clears. destruct (beforeAccount sh (rs_flags l) start final); cbn [andb]; [|apply wp_ret; done].
    apply wp_bind. eapply wp_cache_some; [exact Hs2|exact Hia|exact Ma|]. intros w3 s3 hA Hs3 K3 IA VA.
    apply wp_bind, wp_deref, wp_bind. eapply wp_get_account; [exact Hs3|exact VA|by rewrite IA|]. apply wp_ret.
    split_and!; [done|done|by eapply keeps_valid]. }
  intros b w3 s3 (-> & Hs3 & V3). unfold credit_outcome. set (clr := clears sh l a start final).
  apply wp_bind.
  eassert (wp _ (λ b w' s', b = clr && line_unused sh (rs_flags l) final ∧ shows w' s' (reserved m ia i sh l a clr) d' ∧ valid s' h) w3 s3) as Hdel;
    [|eapply wp_mono; [exact Hdel|]].
  { destruct clr; cbn [andb].
    - apply wp_bind. unfold decrementOwnerCount_of. fold ia. apply wp_bind.
      eapply wp_cache_some; [exact Hs3|exact Hia|exact Ma|]. intros w4 s4 hA Hs4 K4 IA VA. apply wp_bind, wp_deref.
      rewrite <- I1 in Hm, Hne |- *. pose proof (wp_clear_reserve w4 s4 m d' h hA ia sh l a (line_unused sh (rs_flags l) final)
        Hs4 (keeps_valid _ _ _ K4 V3) VA IA Hne Hm Ma) as HW.
      assert (wp (decrementOwnerCount hA;; l' ← get_line h; set_line h (set_line_flags l' (clear_reserve sh (rs_flags l)));;
                  mret (line_unused sh (rs_flags l) final))
        (λ b w' s', b = line_unused sh (rs_flags l) final ∧ shows w' s' (reserved m ia (h_index h) sh l a true) d' ∧ valid s' h) w4 s4) as HW2.
      { apply HW. intros w' s' Hs' K'. split_and!; [done|done|by eapply keeps_valid, keeps_valid]. }
      destruct HW2 as (w5 & s5 & b & Hrun & HQ). unfold mbind, M_bind in Hrun.
      apply result_bind_Ok in Hrun as ([[w6 s6] []] & H1 & H2). by exists w6, s6, (); split; [exact H1|exists w5, s5, b].
    - apply wp_ret. split_and!; [done| |done]. eapply shows_ext; [|exact Hs3]. intros j. by apply reserved_false. }
  intros b w4 s4 (-> & Hs4 & V4). rewrite <- I1 in *.
  eapply wp_mono; [exact (wp_finish w4 s4 m d' h low high ia sh l a clr final _ pl ph Hs4 V4 Hp (conj Hne He') Hl)|].
  intros ter w' s' H. exact H.
Qed.

(** [checkState] decides the same and has the same effect. *)
Lemma wp_checkState w s m d h sender sh l a start final :
  let i := h_index h in let ia := getAccountRootIndex sender in
  shows w s m d → valid s h → ia ≠ i → ia ≠ 0 → m i = Some (ltSKYWELL_STATE l) → m ia = Some (ltACCOUNT_ROOT a) →
  let clr := clears sh l a start final in
  wp (checkState sha512half h sh sender start final) (λ b w' s',
    b = clr && line_unused sh (rs_flags l) final ∧ shows w' s' (reserved m ia i sh l a clr) d ∧ valid s' h) w s.
Proof.
  intros i ia Hs Hv Hne Hia Hm Ma clr. unfold checkState. fold ia.
  apply wp_bind. eapply wp_get_line; [exact Hs|exact Hv|exact Hm|].
  apply wp_bind. eapply wp_cache_some; [exact Hs|exact Hia|exact Ma|]. intros w1 s1 hA Hs1 K1 IA VA.
  pose proof (keeps_valid _ _ _ K1 Hv) as V1.
  assert (clr = false → shows w1 s1 (reserved m ia i sh l a clr) d) as Hno.
  { intros ->. eapply shows_ext; [|exact Hs1]. intros j. by apply reserved_false. }
  unfold clr, clears in *. destruct (beforeAccount sh (rs_flags l) start final); cbn [andb] in *; [|apply wp_ret; auto].
  apply wp_bind, wp_deref, wp_bind. eapply wp_get_account; [exact Hs1|exact VA|by rewrite IA|].
  destruct (sameNoSkywell sh (rs_flags l) (ar_flags a) && afterAccount sh (rs_flags l) l); cbn [andb]; [|apply wp_ret; auto].
  eapply wp_clear_reserve; [exact Hs1|exact V1|exact VA|exact IA|done|exact Hm|exact Ma|].
  intros w2 s2 Hs2 K2. split_and!; [done|exact Hs2|by eapply keeps_valid].
Qed.

Lemma move_on_line_spec w s m d d' h sender receiver amount l a final pl ph :
  let sh := sender >? receiver in
  let i := h_index h in let ia := getAccountRootIndex sender in
  let low := if sh then receiver else sender in let high := if sh then sender else receiver in
  shows w s m d → valid s h → line_place low high i → elsewhere low high i ia → ia ≠ 0 →
  linked low high i m l pl ph → m ia = Some (ltACCOUNT_ROOT a) →
  op_sub (negate_if sh (rs_balance l)) amount = Ok final → credited d sender receiver amount d' →
  wp (move_on_line sha512half h sh sender receiver amount)
    (credit_outcome low high m ia i sh l a (negate_if sh (rs_balance l)) final pl ph d') w s.
Proof.
  intros sh i ia low high Hs Hv Hp He Hia Hl Ma Hsub Hc. pose proof Hl as [Hm _]. pose proof He as [Hne _].
  unfold move_on_line. fold low high.
  apply wp_bind. eapply wp_get_line; [exact Hs|exact Hv|exact Hm|]. apply wp_bind. eapply wp_lift; [exact Hsub|].
  set (start := negate_if sh (rs_balance l)) in *. apply wp_bind.
  eapply wp_mono; [exact (wp_checkState w s m d h sender sh l a start final Hs Hv Hne Hia Hm Ma)|].
  intros b w1 s1 (-> & Hs1 & V1). fold i ia in Hs1.
  apply wp_bind. eapply wp_cacheCredit; [exact Hs1|exact Hc|]. intros s2 Hs2 K2.
  eapply wp_mono; [exact (wp_finish w1 s2 m d' h low high ia sh l a _ final _ pl ph Hs2 (keeps_valid _ _ _ K2 V1) Hp He Hl)|].
  intros ter w' s' H. exact H.
Qed.

Lemma redeem_iou_spec w s m d d' acct amount issue l a final pl ph :
  let sh := acct >? account issue in
  let i := getSkywellStateIndex acct (account issue) (currency issue) in
  let ia := getAccountRootIndex acct in
  let low := if sh then account issue else acct in let high := if sh then acct else account issue in
  shows w s m d → line_place low high i → elsewhere low high i ia → ia ≠ 0 →
  linked low high i m l pl ph → m ia = Some (ltACCOUNT_ROOT a) →
  op_sub (negate_if sh (rs_balance l)) amount = Ok final → credited d acct (account issue) amount d' →
  wp (redeem_iou sha512half acct amount issue)
    (credit_outcome low high m ia i sh l a (negate_if sh (rs_balance l)) final pl ph d') w s.
Proof.
  intros sh i ia low high Hs Hp He Hia Hl Ma Hsub Hc. unfold redeem_iou. fold i sh.
  apply wp_bind. eapply wp_cache_some; [exact Hs|apply Hp|apply Hl|]. intros w1 s1 h Hs1 K1 <- V1.
  by eapply move_on_line_spec.
Qed.

Lemma issue_iou_spec w s m d d' acct amount issue l a final pl ph :
  let sh := account issue >? acct in
  let i := getSkywellStateIndex (account issue) acct (currency issue) in
  let ia := getAccountRootIndex (account issue) in
  let low := if sh then acct else account issue in let high := if sh then account issue else acct in
  shows w s m d → line_place low high i → elsewhere low high i ia → ia ≠ 0 →
  linked low high i m l pl ph → m ia = Some (ltACCOUNT_ROOT a) →
  op_sub (negate_if sh (rs_balance l)) amount = Ok final → credited d (account issue) acct amount d' →
  wp (issue_iou sha512half acct amount issue)
    (credit_outcome low high m ia i sh l a (negate_if sh (rs_balance l)) final pl ph d') w s.
Proof.
  intros sh i ia low high Hs Hp He Hia Hl Ma Hsub Hc. unfold issue_iou. fold i sh.
  apply wp_bind. eapply wp_cache_some; [exact Hs|apply Hp|apply Hl|]. intros w1 s1 h Hs1 K1 <- V1.
  by eapply move_on_line_spec.
Qed.

(** No line: redeeming is an internal error, and nothing changes. *)
Lemma redeem_iou_none w s m d acct amount issue :
  let i := getSkywellStateIndex acct (account issue) (currency issue) in
  shows w s m d → i ≠ 0 → m i = None →
  wp (redeem_iou sha512half acct amount issue) (λ ter w' s', ter = tefINTERNAL ∧ shows w' s' m d) w s.
Proof.
  intros i Hs Hi Hm. unfold redeem_iou. fold i. apply wp_bind. eapply wp_cache; [exact Hs|exact Hi|].
  intros w' s' [h|] Hs' _ Ho; [destruct Ho as (_ & _ & ?); by rewrite Hm in *; destruct H|]. by apply wp_ret.
Qed.

(** ** Reserves *)

Lemma lt_u64_swt n r : 0 <= n <= cMaxNativeN → 0 <= r < 9223372036854775808 → lt_u64 (swt n) r = Ok (n <? r).
Proof.
  unfold cMaxNativeN. intros Hn Hr. unfold lt_u64, getSNValue. cbn [swt mIsNative mValue mIsNegative negb mbind result_bind].
  by rewrite !s64_id by (unfold is_s64; lia).
Qed.

Lemma sub_u64_swt n r : 0 <= r <= n → n <= cMaxNativeN → sub_u64 (swt n) r = Ok (swt (n - r)).
Proof.
  unfold cMaxNativeN. intros Hr Hn. unfold sub_u64, getSNValue. cbn [swt mIsNative mValue mIsNegative negb mbind result_bind].
  rewrite (s64_id n), (s64_id r), (s64_id (n - r)) by (unfold is_s64; lia).
  unfold mkNativeS, set_s64. rewrite (proj2 (Z.ltb_ge (n - r) 0)) by lia.
  unfold set_val, set_negative. cbn [mIssue mOffset mIsNative mIsNegative]. by rewrite u64_id by (unfold is_u64; lia).
Qed.

(** What an account can spend: its balance less the reserve, never below 0 *)
Lemma accountHolds_spec w s m acct issuer fz a n :
  let ia := getAccountRootIndex acct in
  let r := getReserve mReserveBase mReserveIncrement (sfOwnerCount a) in
  shows w s m None → ia ≠ 0 → m ia = Some (ltACCOUNT_ROOT a) → ar_balance a = swt n → 0 <= n <= cMaxNativeN →
  0 <= r < 9223372036854775808 →
  wp (accountHolds sha512half mReserveBase mReserveIncrement acct 0 issuer fz) (λ x w' s',
    x = swt (Z.max 0 (n - r)) ∧ shows w' s' m None ∧ keeps s s') w s.
Proof.
  intros ia r Hs Hia Ma Hb Hn Hr. unfold accountHolds. cbn [Z.eqb]. fold ia.
  apply wp_bind. eapply wp_cache_some; [exact Hs|exact Hia|exact Ma|]. intros w1 s1 h Hs1 K1 I1 V1.
  apply wp_bind, wp_deref, wp_bind. eapply wp_get_account; [exact Hs1|exact V1|by rewrite I1|]. rewrite Hb. fold r.
  apply wp_bind. eapply wp_lift; [by apply lt_u64_swt|].
  assert (∀ x, shows w1 s1 m None → x = swt (Z.max 0 (n - r)) →
    wp (les_adjustedBalance acct issuer x) (λ x w' s', x = swt (Z.max 0 (n - r)) ∧ shows w' s' m None ∧ keeps s s') w1 s1) as Hadj.
  { intros x Hsx ->. destruct Hsx as [? Hd]. unfold wp, les_adjustedBalance. cbn [fst snd]. rewrite Hd. by eexists _, _, _. }
  destruct (Z.ltb_spec n r) as [Hlt|Hge].
  - apply wp_bind, wp_ret, Hadj; [done|]. rewrite Z.max_l by lia. done.
  - apply wp_bind. eapply wp_lift; [apply sub_u64_swt; lia|]. apply Hadj; [done|]. by rewrite Z.max_r by lia.
Qed.

End props.
