(* ===== verification/TrustLineClaims.v ===== *)
(** * Balances and trust lines: the properties

    The properties of the transfers and of the life of a trust line, from the lemmas of file
    [TrustLineProps], and a small ledger on which each is applied: two accounts with a line
    between them, listed in both owner directories. *)

From S2P Require Import Prelude OrdMap Bytes Issue BigNum STAmount STAmountProps STAmountArith STAmountText Quality Ter Indexes DeferredCredits EntrySet Directory LedgerObjects TrustLines TrustLineProps.

(** ** A hash function without collisions on keys *)

Definition hash1 (l : list Z) : Z := be_val (1 :: l).

Lemma hash1_range l : byte_list l → 256 ^ Z.of_nat (length l) <= hash1 l < 2 * 256 ^ Z.of_nat (length l).
Proof.
  intros Hl. unfold hash1. rewrite (be_val_app [1] l : be_val (1 :: l) = _). pose proof (be_val_bound l Hl). cbn [be_val foldl]. lia.
Qed.

Lemma hash1_inj l l' : byte_list l → byte_list l' → hash1 l = hash1 l' → l = l'.
Proof.
  intros Hl Hl' H. pose proof (hash1_range l Hl) as R. pose proof (hash1_range l' Hl') as R'.
  assert (length l = length l') as Hlen.
  { assert (∀ a b : nat, 256 ^ Z.of_nat a < 2 * 256 ^ Z.of_nat b → (a <= b)%nat) as Hle.
    { intros a b Hab. destruct (decide (a <= b)%nat) as [|Hn]; [done|].
      pose proof (Z.pow_le_mono_r 256 (Z.of_nat b + 1) (Z.of_nat a) ltac:(lia) ltac:(lia)) as Hp.
      rewrite Z.pow_add_r in Hp by lia. pose proof (Z.pow_pos_nonneg 256 (Z.of_nat b)). lia. }
    assert (length l <= length l')%nat by (apply Hle; lia). assert (length l' <= length l)%nat by (apply Hle; lia). lia. }
  unfold hash1 in H. rewrite (be_val_app [1] l : be_val (1 :: l) = _), (be_val_app [1] l' : be_val (1 :: l') = _), Hlen in H.
  apply be_val_inj; [done|done|done|lia].
Qed.

Definition not_book (k : LedgerKey) : Prop := match k with keyBook _ => False | _ => True end.

Lemma preimage_bytes k : byte_list (preimage k).
Proof.
  assert (∀ l l', byte_list l → byte_list l' → byte_list (l ++ l')) as Ha by (intros; by apply Forall_app_2).
  destruct k; cbn [preimage]; repeat match goal with |- byte_list (_ ++ _) => apply Ha end; apply be_bytes_byte_list.
Qed.

Lemma hash1_key k k' :
  key_ok k → key_ok k' → not_book k → not_book k' → key_index hash1 k = key_index hash1 k' → same_key k k'.
Proof.
  intros Hk Hk' Hb Hb'. rewrite (key_index_hash hash1 k Hk), (key_index_hash hash1 k' Hk').
  intros H. apply preimage_inj; [done..|]. apply hash1_inj; [apply preimage_bytes..|]. by destruct k, k'.
Qed.

Lemma hash1_pos k : key_ok k → not_book k → 0 < key_index hash1 k.
Proof.
  intros Hk Hb. rewrite (key_index_hash hash1 k Hk).
  assert (0 < hash1 (preimage k)) as H; [|by destruct k].
  pose proof (hash1_range _ (preimage_bytes k)). pose proof (Z.pow_pos_nonneg 256 (Z.of_nat (length (preimage k)))). lia.
Qed.

#[local] Opaque hash1.

(** The key of page [n] of the owner directory of [a] *)
Definition page_key (a n : Z) : LedgerKey :=
  if n =? 0 then keyOwnerDir a else keyDirPage (getOwnerDirIndex hash1 a) n.

Lemma page_key_ok a n : is_u160 a → is_u64 n → key_ok (page_key a n) ∧ not_book (page_key a n).
Proof.
  intros Ha Hn. unfold page_key. destruct (Z.eqb_spec n 0) as [|H0]; [done|]. split; [|done]. cbn [key_ok].
  split; [|done]. unfold getOwnerDirIndex.
  pose proof (hash1_range _ (preimage_bytes (keyOwnerDir a))) as Hr.
  assert (length (preimage (keyOwnerDir a)) = 22%nat) as Hl by (cbn [preimage]; rewrite length_app; unfold add16, add160; by rewrite !be_bytes_length).
  rewrite Hl in Hr. change (256 ^ Z.of_nat 22) with (2 ^ 176) in Hr. cbn [preimage] in Hr.
  assert (2 * 2 ^ 176 < 2 ^ 256) by (by vm_compute). assert (0 <= 2 ^ 176) by (by vm_compute). lia.
Qed.

Lemma page_key_index a n : getDirNodeIndex hash1 (getOwnerDirIndex hash1 a) n = key_index hash1 (page_key a n).
Proof. unfold page_key, getDirNodeIndex. destruct (Z.eqb_spec n 0) as [->|H0]; cbn [key_index]; [done|]. unfold getDirNodeIndex. by rewrite (proj2 (Z.eqb_neq n 0)). Qed.

Lemma page_key_same a n a' n' :
  is_u160 a → is_u160 a' → is_u64 n → is_u64 n' → same_key (page_key a n) (page_key a' n') → a = a' ∧ n = n'.
Proof.
  intros Ha Ha' Hn Hn'. unfold page_key. destruct (Z.eqb_spec n 0) as [->|H0], (Z.eqb_spec n' 0) as [->|H0']; cbn [same_key]; try done.
  - by intros [= ->].
  - intros [= Hr ->]. split; [|done].
    pose proof (hash1_key (keyOwnerDir a) (keyOwnerDir a') Ha Ha' I I Hr) as Hs. cbn [same_key] in Hs. congruence.
Qed.

Lemma hash1_good_root a : is_u160 a → good_root hash1 (getOwnerDirIndex hash1 a).
Proof.
  intros Ha. split.
  - intros n Hn. rewrite page_key_index. destruct (page_key_ok a n Ha Hn) as [H1 H2]. pose proof (hash1_pos _ H1 H2). lia.
  - intros n n' Hn Hn'. rewrite !page_key_index. intros H. apply hash1_key in H; try by apply page_key_ok.
    by apply page_key_same in H as [_ ?].
Qed.

Lemma hash1_separate a a' : is_u160 a → is_u160 a' → a ≠ a' → separate hash1 (getOwnerDirIndex hash1 a) (getOwnerDirIndex hash1 a').
Proof.
  intros Ha Ha' Hne n Hn n' Hn'. rewrite !page_key_index. intros H. apply hash1_key in H; try by apply page_key_ok.
  by apply page_key_same in H as [? _].
Qed.

Lemma hash1_outside a k :
  is_u160 a → key_ok k → match k with keyAccount _ | keyState _ _ _ => True | _ => False end →
  outside hash1 (getOwnerDirIndex hash1 a) (key_index hash1 k).
Proof.
  intros Ha Hk Hkind n Hn. rewrite page_key_index. intros H. apply hash1_key in H; [|done|by apply page_key_ok|by destruct k|by apply page_key_ok].
  unfold page_key in H. by destruct k, (n =? 0).
Qed.

(** ** The ledger of the demonstrations *)

Definition demo_low : Account := 7.
Definition demo_high : Account := 9.
Definition demo_line_index : Z := getSkywellStateIndex hash1 7 9 5.
(** The line: the low account holds 50 of currency 5. *)
Definition demo_balance : STAmount := mkSTAmount (mkIssue 5 1) 5000000000000000 (-14) false false.
Definition demo_amount : STAmount := mkSTAmount (mkIssue 5 9) 2000000000000000 (-14) false false.
Definition demo_final : STAmount := mkSTAmount (mkIssue 5 1) 3000000000000000 (-14) false false.
Definition demo_line : SkywellState :=
  mkSkywellState lsfLowReserve demo_balance (mkSide (mkSTAmount (mkIssue 5 7) 0 (-100) false false) (Some 0) 0 0)
    (mkSide (mkSTAmount (mkIssue 5 9) 0 (-100) false false) (Some 0) 0 0) no_thread.
Definition demo_account (id n count : Z) : AccountRoot := mkAccountRoot id 0 (swt n) count None None 1 None None no_info no_thread.
Definition demo_dir (l : list Z) (owner : Account) : DirNode := mkDirNode l 0 0 (getOwnerDirIndex hash1 owner) [owner].
Definition demo_ledger : list (Z * SLE) :=
  [(getOwnerDirIndex hash1 7, ltDIR_NODE (demo_dir [demo_line_index] 7));
   (getOwnerDirIndex hash1 9, ltDIR_NODE (demo_dir [demo_line_index] 9));
   (getAccountRootIndex hash1 7, ltACCOUNT_ROOT (demo_account 7 1000 1));
   (getAccountRootIndex hash1 9, ltACCOUNT_ROOT (demo_account 9 2000 0));
   (demo_line_index, ltSKYWELL_STATE demo_line)].
Definition demo_w : World SLE := mkWorld ∅ 0.
Definition demo_s : LedgerEntrySet SLE := newLES demo_ledger 0 false.
Definition demo_m (j : Z) : option SLE := om_find j demo_ledger.

Lemma demo_shows : shows demo_w demo_s demo_m None.
Proof.
  split; [|done]. split; [|done]. apply inv_new.
  repeat (constructor; [|repeat constructor; vm_compute; reflexivity]); constructor.
Qed.

Lemma u160_7 : is_u160 7.
Proof. by split. Qed.
Lemma u160_9 : is_u160 9.
Proof. by split. Qed.
Lemma u160_5 : is_u160 5.
Proof. by split. Qed.

Lemma line_key_ok c : is_u160 c → key_ok (keyState 7 9 c).
Proof. intros Hc. split_and!; [apply u160_7|apply u160_9|exact Hc]. Qed.

Lemma demo_place c : is_u160 c → line_place hash1 7 9 (getSkywellStateIndex hash1 7 9 c).
Proof.
  intros Hc. pose proof (line_key_ok c Hc) as Hk. split.
  - apply hash1_good_root, u160_7.
  - apply hash1_good_root, u160_9.
  - apply hash1_separate; [apply u160_7|apply u160_9|done].
  - apply hash1_separate; [apply u160_9|apply u160_7|done].
  - split; apply (hash1_outside _ (keyState 7 9 c)); [apply u160_7|exact Hk|done|apply u160_9|exact Hk|done].
  - pose proof (hash1_pos (keyState 7 9 c) Hk I) as Hp.
    change (key_index hash1 (keyState 7 9 c)) with (getSkywellStateIndex hash1 7 9 c) in Hp. lia.
Qed.

Lemma demo_elsewhere c a :
  is_u160 c → (a = 7 ∨ a = 9) →
  elsewhere hash1 7 9 (getSkywellStateIndex hash1 7 9 c) (getAccountRootIndex hash1 a) ∧ getAccountRootIndex hash1 a ≠ 0.
Proof.
  intros Hc Ha. assert (is_u160 a) as Hu by (destruct Ha as [->| ->]; by split).
  pose proof (line_key_ok c Hc) as Hk. split; [split_and!|].
  - intros H. by apply (hash1_key (keyAccount a) (keyState 7 9 c)) in H.
  - apply (hash1_outside _ (keyAccount a)); [apply u160_7|done|done].
  - apply (hash1_outside _ (keyAccount a)); [apply u160_9|done|done].
  - pose proof (hash1_pos (keyAccount a) Hu I) as Hp. change (key_index hash1 (keyAccount a)) with (getAccountRootIndex hash1 a) in Hp. lia.
Qed.

(** The keys of the demonstration ledger *)
Definition demo_keys : list LedgerKey := [keyOwnerDir 7; keyOwnerDir 9; keyAccount 7; keyAccount 9; keyState 7 9 5].

Lemma demo_keys_index : demo_ledger.*1 = key_index hash1 <$> demo_keys.
Proof. reflexivity. Qed.

Lemma demo_keys_ok : Forall (λ k, key_ok k ∧ not_book k) demo_keys.
Proof. repeat constructor; cbn [key_ok]; try done; split_and!; done. Qed.

Lemma demo_none j : (∀ k, k ∈ demo_keys → j ≠ key_index hash1 k) → demo_m j = None.
Proof.
  intros H. unfold demo_m. destruct (om_find j demo_ledger) as [v|] eqn:E; [|done]. exfalso.
  apply om_find_In in E; [|apply (inv_ledger demo_w demo_s), demo_shows].
  assert (j ∈ demo_ledger.*1) as Hj by (apply list_elem_of_fmap; by exists (j, v)).
  rewrite demo_keys_index in Hj. apply list_elem_of_fmap in Hj as (k & -> & Hk). by apply (H k Hk).
Qed.

Lemma demo_rep_dir a : (a = 7 ∨ a = 9) → dir_rep hash1 (getOwnerDirIndex hash1 a) demo_m [(0, [demo_line_index])].
Proof.
  intros Ha. assert (is_u160 a) as Hu by (destruct Ha as [->| ->]; by split). split.
  - intros n Hn Hin. apply demo_none. intros k Hk. rewrite page_key_index. intros H.
    pose proof demo_keys_ok as Hok. rewrite Forall_forall in Hok. destruct (Hok k Hk) as [Hk1 Hk2].
    destruct (page_key_ok a n Hu Hn) as [Hp1 Hp2]. pose proof (hash1_key _ _ Hp1 Hk1 Hp2 Hk2 H) as Hs.
    unfold page_key in Hs. rewrite (proj2 (Z.eqb_neq n 0)) in Hs by set_solver.
    unfold demo_keys in Hk. repeat (apply elem_of_cons in Hk as [->|Hk]; [done|]). by apply not_elem_of_nil in Hk.
  - split; [done|]. split; [|split; [done|split; [repeat constructor|constructor; [by split|constructor]]]].
    exists (demo_dir [demo_line_index] a). split; [|done]. destruct Ha as [->| ->]; vm_compute; reflexivity.
Qed.

Lemma demo_linked : linked hash1 7 9 demo_line_index demo_m demo_line [(0, [demo_line_index])] [(0, [demo_line_index])].
Proof.
  split; [vm_compute; reflexivity|].
  split; exists 0; (split; [done|split; [apply demo_rep_dir; auto|exists [], [demo_line_index], []; split; [done|by left]]]).
Qed.

Lemma demo_account_7 : demo_m (getAccountRootIndex hash1 7) = Some (ltACCOUNT_ROOT (demo_account 7 1000 1)).
Proof. vm_compute. reflexivity. Qed.
Lemma demo_account_9 : demo_m (getAccountRootIndex hash1 9) = Some (ltACCOUNT_ROOT (demo_account 9 2000 0)).
Proof. vm_compute. reflexivity. Qed.
Lemma demo_accounts_ne : getAccountRootIndex hash1 7 ≠ getAccountRootIndex hash1 9.
Proof.
  intros H. pose proof (hash1_key (keyAccount 7) (keyAccount 9) u160_7 u160_9 I I H) as Hs. cbn [same_key] in Hs. congruence.
Qed.

(** ** The properties *)

(** The outcome of moving [x] drops between two accounts: refused when the sender has less, and
    otherwise exactly [x] less here and [x] more there, with every other entry as it was. *)
Definition native_moved (m : Z → option SLE) (ia ib : Z) (a b : AccountRoot) (na nb x params : Z)
    (d : option DeferredCredits) (ter : Z) (w' : World SLE) (s' : LedgerEntrySet SLE) : Prop :=
  if na <? x then ter = failed_processing params ∧ shows w' s' m d
  else ter = tesSUCCESS ∧ ∃ m', shows w' s' m' d
    ∧ m' ia = Some (ltACCOUNT_ROOT (set_account_balance a (swt (na - x))))
    ∧ m' ib = Some (ltACCOUNT_ROOT (set_account_balance b (swt (nb + x))))
    ∧ ∀ j, j ≠ ia → j ≠ ib → m' j = m j.

Lemma moved_native m ia ib a b na nb x params d ter w' s' :
  ia ≠ ib →
  (if na <? x then ter = failed_processing params ∧ shows w' s' m d
   else ter = tesSUCCESS ∧ shows w' s' (moved m ia ib a b na nb x) d) →
  native_moved m ia ib a b na nb x params d ter w' s'.
Proof.
  intros Hne H. unfold native_moved. destruct (na <? x); [done|]. destruct H as [-> H]. split; [done|].
  exists (moved m ia ib a b na nb x). split; [done|]. unfold moved. split; [by rewrite upd_ne, upd_eq|].
  split; [apply upd_eq|]. intros j H1 H2. by rewrite !upd_ne.
Qed.

(** C19: both ways of moving native currency between two accounts, [transfer_xrp] and
    [accountSend], conserve it: they refuse with the code for the kind of ledger when the sender
    has less than the amount, change nothing then, and otherwise debit and credit exactly the
    amount and change no other entry. *)
Theorem native_transfer_conserves sha512half w s m d d' from to a b na nb x :
  let ia := getAccountRootIndex sha512half from in
  let ib := getAccountRootIndex sha512half to in
  shows w s m d → ia ≠ 0 → ib ≠ 0 → ia ≠ ib →
  m ia = Some (ltACCOUNT_ROOT a) → m ib = Some (ltACCOUNT_ROOT b) → ar_balance a = swt na → ar_balance b = swt nb →
  0 <= na → 0 <= nb → na + nb <= cMaxNativeN → 0 < x <= cMaxNativeN →
  from ≠ 0 → to ≠ 0 → credited d from to (swt x) d' →
  wp (transfer_xrp sha512half from to (swt x)) (native_moved m ia ib a b na nb x (mParams s) d) w s
  ∧ wp (accountSend sha512half from to (swt x)) (native_moved m ia ib a b na nb x (mParams s) d') w s.
Proof.
  intros ia ib Hs Ha0 Hb0 Hab Ma Mb Ba Bb Hna Hnb Hsum Hx Hf Ht Hc. split.
  - eapply wp_mono; [apply (transfer_xrp_spec sha512half w s m d from to a b na nb x); try done; lia|].
    intros ter w' s' H. by apply moved_native.
  - eapply wp_mono; [by apply (accountSend_spec sha512half w s m d d' from to a b na nb x)|].
    intros ter w' s' H. by apply moved_native.
Qed.

Lemma native_transfer_conserves_witness :
  ∃ w' s' m', transfer_xrp hash1 7 9 (swt 300) (demo_w, demo_s) = Ok (w', s', tesSUCCESS) ∧ shows w' s' m' None
    ∧ m' (getAccountRootIndex hash1 7) = Some (ltACCOUNT_ROOT (demo_account 7 700 1))
    ∧ m' (getAccountRootIndex hash1 9) = Some (ltACCOUNT_ROOT (demo_account 9 2300 0)).
Proof.
  destruct (demo_elsewhere 5 7 u160_5 (or_introl eq_refl)) as [_ H7]. destruct (demo_elsewhere 5 9 u160_5 (or_intror eq_refl)) as [_ H9].
  destruct (native_transfer_conserves hash1 demo_w demo_s demo_m None None 7 9 _ _ 1000 2000 300 demo_shows H7 H9 demo_accounts_ne
    demo_account_7 demo_account_9 eq_refl eq_refl) as [(w' & s' & ter & Hr & -> & m' & Hs & Ha & Hb & _) _];
    [lia|lia|unfold cMaxNativeN; lia|unfold cMaxNativeN; lia|lia|lia|reflexivity|].
  exists w', s', m'. exact (conj Hr (conj Hs (conj Ha Hb))).
Defined.

(** C20: the three pieces of code that move issued currency along a trust line agree:
    [skywellCredit], [redeem_iou] when the receiver is the issuer and [issue_iou] when the sender
    is.  The line's balance becomes the difference, in the terms of the low account; the
    sender's reserve is given back under the same condition; the line is deleted, and taken out
    of both owner directories, exactly when it is then unused; nothing else changes. *)
Theorem credit_paths_agree sha512half w s m d d' sender receiver amount l a final pl ph :
  let sh := sender >? receiver in
  let cur := currency (mIssue amount) in
  let i := getSkywellStateIndex sha512half sender receiver cur in
  let ia := getAccountRootIndex sha512half sender in
  let low := if sh then receiver else sender in
  let high := if sh then sender else receiver in
  let start := negate_if sh (rs_balance l) in
  shows w s m d → line_place sha512half low high i → elsewhere sha512half low high i ia → ia ≠ 0 →
  linked sha512half low high i m l pl ph → m ia = Some (ltACCOUNT_ROOT a) →
  op_sub start amount = Ok final → credited d sender receiver amount d' →
  let outcome := credit_outcome sha512half low high m ia i sh l a start final pl ph d' in
  (∀ check, wp (skywellCredit sha512half sender receiver amount check) outcome w s)
  ∧ wp (redeem_iou sha512half sender amount (mkIssue cur receiver)) outcome w s
  ∧ wp (issue_iou sha512half receiver amount (mkIssue cur sender)) outcome w s.
Proof.
  intros sh cur i ia low high start Hs Hp He Hia Hl Ma Hsub Hc outcome.
  assert ((if negb sh then receiver else sender) = high) as Eh by (unfold high; by destruct sh).
  split_and!.
  - intros check. pose proof (skywellCredit_spec sha512half w s m d d' sender receiver amount check l a final pl ph) as H.
    cbv zeta in H. change (sender >? receiver) with sh in H. rewrite Eh in H. by apply H.
  - by apply (redeem_iou_spec sha512half w s m d d' sender amount (mkIssue cur receiver) l a final pl ph).
  - by apply (issue_iou_spec sha512half w s m d d' receiver amount (mkIssue cur sender) l a final pl ph).
Qed.

Lemma credit_paths_agree_witness :
  ∃ w' s', redeem_iou hash1 7 demo_amount (mkIssue 5 9) (demo_w, demo_s) = Ok (w', s', tesSUCCESS)
    ∧ lookup_set w' s' demo_line_index = Some (ltSKYWELL_STATE (set_line_balance demo_line demo_final)).
Proof.
  destruct (demo_elsewhere 5 7 u160_5 (or_introl eq_refl)) as [He H7].
  destruct (credit_paths_agree hash1 demo_w demo_s demo_m None None 7 9 demo_amount demo_line (demo_account 7 1000 1) demo_final
    _ _ demo_shows (demo_place 5 u160_5) He H7 demo_linked demo_account_7 eq_refl eq_refl) as (_ & (w' & s' & ter & Hr & Hter & Ho) & _).
  exists w', s'. rewrite Hter in Hr. split; [exact Hr|].
  assert (clears (7 >? 9) demo_line (demo_account 7 1000 1) (negate_if (7 >? 9) (rs_balance demo_line)) demo_final = false) as E
    by (vm_compute; reflexivity).
  rewrite E in Ho. cbn [andb] in Ho. destruct Ho as [[_ Hm] _]. rewrite Hm. apply upd_eq.
Defined.

(** C21: a trust line that [trustCreate] makes and [trustDelete] removes leaves no trace: the line
    is gone, both owner directories list what they listed before, and every other entry is
    unchanged but for the owner count of the account that got the line. *)
Theorem trust_line_lifecycle sha512half w s m d d' src dst i hA sa peer auth nosky freeze bal lim qin qout pl pl' nl ph ph' nh :
  let sh := src >? dst in
  let low := if negb sh then src else dst in
  let high := if sh then src else dst in
  let bSetHigh := xorb sh (account (mIssue lim) =? dst) in
  let ip := getAccountRootIndex sha512half (if bSetHigh then low else high) in
  shows w s m d → valid s hA → line_place sha512half low high i → m i = None →
  dir_rep sha512half (getOwnerDirIndex sha512half low) m pl → dir_rep sha512half (getOwnerDirIndex sha512half high) m ph →
  dir_add pl i = Some (pl', nl) → dir_add ph i = Some (ph', nh) →
  elsewhere sha512half low high i (h_index hA) → elsewhere sha512half low high i ip → ip ≠ 0 →
  m (h_index hA) = Some (ltACCOUNT_ROOT sa) → m ip = Some (ltACCOUNT_ROOT peer) → credited d src dst bal d' →
  wp (ter ← trustCreate sha512half sh src dst i hA auth nosky freeze bal lim qin qout;
      o ← les_cache i; h ← deref o;
      ter' ← trustDelete sha512half h low high; mret (ter, ter'))
    (λ r w' s', r = (tesSUCCESS, tesSUCCESS) ∧ ∃ m' ql qh, shows w' s' m' d' ∧ m' i = None
      ∧ dir_rep sha512half (getOwnerDirIndex sha512half low) m' ql ∧ entries ql ≡ₚ entries pl
      ∧ dir_rep sha512half (getOwnerDirIndex sha512half high) m' qh ∧ entries qh ≡ₚ entries ph
      ∧ m' (h_index hA) = Some (ltACCOUNT_ROOT (count_up sa))
      ∧ ∀ j, elsewhere sha512half low high i j → j ≠ h_index hA → m' j = m j) w s.
Proof.
  intros sh low high bSetHigh ip Hs Hv Hp Hi Rl Rh Al Ah HeA Hep Hip MA Mp Hc. apply wp_bind.
  eapply wp_mono; [by apply (trustCreate_spec sha512half w s m d d' src dst i hA sa peer auth nosky freeze bal lim qin qout pl pl' nl ph ph' nh)|].
  intros ter w1 s1 (-> & m1 & l & Hs1 & Hl & _ & _ & _ & _ & HA & Hf). fold sh low high in Hl, Hf.
  apply wp_bind. eapply wp_cache_some; [exact Hs1|apply Hp|apply Hl|]. intros w2 s2 h Hs2 K2 I2 V2.
  apply wp_bind, wp_deref, wp_bind. rewrite <- I2 in *.
  eapply wp_mono; [exact (trustDelete_spec sha512half w2 s2 m1 d' h low high l pl' ph' Hs2 V2 Hp Hl)|].
  intros ter w3 s3 (-> & _ & m2 & ql & qh & Hs3 & Hn & R1 & P1 & R2 & P2 & Hf2). apply wp_ret. split; [done|].
  rewrite (dir_add_entries _ _ _ _ Al), <- Permutation_cons_append in P1. rewrite (dir_add_entries _ _ _ _ Ah), <- Permutation_cons_append in P2.
  apply Permutation_cons_inv in P1, P2.
  exists m2, ql, qh. split_and!; [done..|by symmetry|done|by symmetry| |].
  - by rewrite Hf2.
  - intros j Hj HjA. by rewrite Hf2, Hf.
Qed.

Definition demo_limit : STAmount := mkSTAmount (mkIssue 6 9) 0 (-100) false false.

Lemma trust_line_lifecycle_witness :
  ∃ w s h w' s', trustCreate hash1 false 7 9 (getSkywellStateIndex hash1 7 9 6) h false false false demo_amount demo_limit 0 0 (w, s)
                 = Ok (w', s', tesSUCCESS).
Proof.
  assert (is_u160 6) as Hc by (by split).
  destruct (demo_elsewhere 6 7 Hc (or_introl eq_refl)) as [He7 H7]. destruct (demo_elsewhere 6 9 Hc (or_intror eq_refl)) as [He9 H9].
  assert (wp (les_cache (getAccountRootIndex hash1 9)) (λ o w s, ∃ h, o = Some h ∧ shows w s demo_m None
    ∧ h_index h = getAccountRootIndex hash1 9 ∧ valid s h) demo_w demo_s) as (w & s & o & _ & h & _ & Hs & Ih & Vh).
  { eapply wp_cache_some; [apply demo_shows|exact H9|apply demo_account_9|]. intros w s h Hs _ Ih Vh.
    exists h. exact (conj eq_refl (conj Hs (conj Ih Vh))). }
  assert (demo_m (getSkywellStateIndex hash1 7 9 6) = None) as Hn by (vm_compute; reflexivity).
  destruct (trust_line_lifecycle hash1 w s demo_m None None 7 9 _ h (demo_account 9 2000 0) (demo_account 7 1000 1) false false false demo_amount demo_limit 0 0
    [(0, [demo_line_index])] _ _ [(0, [demo_line_index])] _ _ Hs Vh (demo_place 6 Hc) Hn
    (demo_rep_dir 7 (or_introl eq_refl)) (demo_rep_dir 9 (or_intror eq_refl)) eq_refl eq_refl) as (w2 & s2 & r & Hr & -> & _).
  - rewrite Ih. exact He9.
  - exact He7.
  - exact H7.
  - rewrite Ih. apply demo_account_9.
  - apply demo_account_7.
  - reflexivity.
  - unfold mbind, M_bind in Hr. apply result_bind_Ok in Hr as ([[w3 s3] t] & H1 & Hr).
    apply result_bind_Ok in Hr as ([[w4 s4] o4] & _ & Hr). apply result_bind_Ok in Hr as ([[w5 s5] h5] & _ & Hr).
    apply result_bind_Ok in Hr as ([[w6 s6] t6] & _ & Hr). unfold mret, M_ret in Hr.
    exists w, s, h, w3, s3. injection Hr as _ _ Ht _. rewrite Ht in H1. exact H1.
Defined.

(** What an account may spend of the native currency is its balance less the reserve for the
    entries it owns, and nothing when the balance is below the reserve. *)
Theorem spendable_above_reserve sha512half base inc w s m acct issuer fz a n :
  let ia := getAccountRootIndex sha512half acct in
  shows w s m None → ia ≠ 0 → m ia = Some (ltACCOUNT_ROOT a) → ar_balance a = swt n → 0 <= n <= cMaxNativeN →
  0 <= sfOwnerCount a < 2147483648 → is_u32 base → is_u32 inc → sfOwnerCount a * inc + base < 9223372036854775808 →
  wp (accountHolds sha512half base inc acct 0 issuer fz) (λ x w' s',
    x = swt (Z.max 0 (n - (sfOwnerCount a * inc + base))) ∧ shows w' s' m None) w s.
Proof.
  intros ia Hs Hia Ma Hb Hn Hc Hbase Hinc Hlt. unfold is_u32 in *.
  assert (0 <= sfOwnerCount a * inc) by nia.
  assert (getReserve base inc (sfOwnerCount a) = sfOwnerCount a * inc + base) as Hr.
  { unfold getReserve. rewrite s32_id, (u64_id (sfOwnerCount a)), u64_id; unfold is_u64, is_s32; lia. }
  pose proof (accountHolds_spec sha512half base inc w s m acct issuer fz a n) as H1. cbv zeta in H1. rewrite Hr in H1.
  eapply wp_mono; [apply H1; try done; lia|]. by intros x w' s' (? & ? & _).
Qed.

Lemma spendable_above_reserve_witness :
  ∃ w' s', accountHolds hash1 200 50 7 0 0 fhIGNORE_FREEZE (demo_w, demo_s) = Ok (w', s', swt 750).
Proof.
  destruct (demo_elsewhere 5 7 u160_5 (or_introl eq_refl)) as [_ H7].
  destruct (spendable_above_reserve hash1 200 50 demo_w demo_s demo_m 7 0 fhIGNORE_FREEZE _ 1000 demo_shows H7 demo_account_7 eq_refl)
    as (w' & s' & x & Hr & -> & _); [unfold cMaxNativeN; lia|cbn; lia|by split|by split|cbn; lia|].
  exists w', s'. exact Hr.
Defined.

(** The peer's flag [lsfDefaultSkywell] is masked and then compared with 1, which it never
    equals: the other side of a new line never gets the no-skywell flag. *)
Theorem peer_default_ignored sh auth nosky freeze peerFlags :
  line_flags sh auth nosky freeze peerFlags = line_flags sh auth nosky freeze 0.
Proof.
  assert (∀ f, (Z.land f lsfDefaultSkywell =? 1) = false) as H.
  { intros f. apply Z.eqb_neq. intros H. assert (Z.testbit (Z.land f lsfDefaultSkywell) 0 = true) as Ht by (by rewrite H).
    rewrite Z.land_spec in Ht. change (Z.testbit lsfDefaultSkywell 0) with false in Ht. by rewrite andb_false_r in Ht. }
  unfold line_flags. by rewrite !H.
Qed.

(** A direct send reports success whatever the credit answers: here the receiver's directory is
    full of page numbers, or any other failure. *)
Theorem direct_send_hides_failure {BN : BigNum} sha512half sender receiver amount st st' ter :
  let issuer := account (mIssue amount) in
  (sender = issuer ∨ receiver = issuer ∨ issuer = noAccount) →
  skywellCredit sha512half sender receiver amount false st = Ok (st', ter) →
  skywellSend sha512half sender receiver amount st = Ok (st', (tesSUCCESS, amount)).
Proof.
  intros issuer Hd Hc. unfold skywellSend. fold issuer.
  assert ((sender =? issuer) || (receiver =? issuer) || (issuer =? noAccount) = true) as ->.
  { destruct Hd as [->|[->| ->]]; rewrite ?Z.eqb_refl, ?orb_true_r; done. }
  unfold mbind, M_bind. rewrite Hc. by destruct st'.
Qed.
