(* ===== verification/OrderBook.v ===== *)
(** * Walking an order book

    Model of [src/src/transaction/book/BookTip.h], [impl/BookTip.cpp], [OfferStream.h] and
    [impl/OfferStream.cpp].  The offers of a book are listed in directories, one for each price;
    the indexes of these lie next to each other, ordered by price.  A [BookTip] deletes the offer
    it is at and goes on to the first offer of the best price; an [OfferStream] does so until it
    finds an offer that can be taken, over two views of the ledger: the one that counts if the
    transaction succeeds, and the one that counts if it fails.

    An object is a record that is passed on.  The number of directories, and of pages of one, that
    a step may look at is a parameter.  The theorem [book_drained] of file
    [OrderBookClaims] says that stepping through a book presents every offer
    once, from the best price to the worst and in the order of the directories, and takes each
    out of the ledger, the book and the directory of its owner. *)

From S2P Require Import Prelude OrdMap Bytes Issue BigNum STAmount Quality Taker Ter Indexes DeferredCredits EntrySet Directory LedgerObjects TrustLines TrustLineProps.

(** ** [BookTip] *)

Record BookTip := mkBookTip {
  bt_valid : bool;
  bt_book : Z;
  bt_end : Z;
  bt_dir : Z;
  bt_index : Z;
  bt_entry : option handle;
  bt_quality : Quality
}.

(** The operations of the view *)
Definition les_next (uHash uEnd : Z) : M Z := λ st, Ok (st, getNextLedgerIndex_end st.2 uHash uEnd).
(** [sle->getIndex ()]: the index of the entry of the set with this object *)
Definition les_index (p : Z) : M Z := λ st,
  match find (λ e, mEntry e.2 =? p) (mEntries st.2) with
  | Some e => Ok (st, e.1)
  | None => Throw "dangling pointer"
  end.

Section tip.
  Context {BN : BigNum}.
  Variable sha512half : list Z → Z.

Definition les_dirFirst (fuel : nat) (uRootIndex : Z) : M (Z * nat * option Z) := λ st,
  dirFirst sha512half fuel st.1 st.2 uRootIndex.
(** [offerDelete (uint256 const& offerIndex)] *)
Definition les_offerDelete (offerIndex : Z) : M Z :=
  o ← les_cache offerIndex; offerDelete sha512half o.

Definition newBookTip (book : Book) : BookTip :=
  let m_book := getBookBase sha512half book in
  mkBookTip false m_book (getQualityNext m_book) 0 0 None 0.

(** The loop over the directories; [--m_book] is on 256 bits.  After a directory without
    entries the index is 0. *)
Fixpoint BookTip_loop (n fuel : nat) (t : BookTip) : M (BookTip * bool) :=
  match n with
  | O => throw "does not terminate"
  | S n =>
      first_page ← les_next (bt_book t) (bt_end t);
      if first_page =? 0 then mret (t, false)
      else
        '(dir, _, r) ← les_dirFirst fuel first_page;
        match r with
        | Some uEntryIndex =>
            m_dir ← les_index dir;
            entry ← les_cache uEntryIndex;
            mret (mkBookTip true ((first_page - 1) mod 2 ^ 256) (bt_end t) m_dir uEntryIndex entry (getQuality first_page), true)
        | None => BookTip_loop n fuel (mkBookTip (bt_valid t) first_page (bt_end t) (bt_dir t) 0 (bt_entry t) (bt_quality t))
        end
  end.

Definition BookTip_step (fuel : nat) (t : BookTip) : M (BookTip * bool) :=
  t ← (if bt_valid t then
         match bt_entry t with
         | Some _ =>
             les_offerDelete (bt_index t);;
             mret (mkBookTip (bt_valid t) (bt_book t) (bt_end t) (bt_dir t) (bt_index t) None (bt_quality t))
         | None => mret t
         end
       else mret t);
  BookTip_loop fuel fuel t.

(** ** [OfferStream] *)

(** The state: the heap and the two views *)
Notation LES := (LedgerEntrySet SLE).
Definition V (A : Type) : Type := World SLE * (LES * LES) → result (World SLE * (LES * LES) * A).
#[local] Instance V_ret : MRet V := λ A a st, Ok (st, a).
#[local] Instance V_bind : MBind V := λ A B f m st, '(st', a) ← m st; f a st'.

Definition view {A} (c : M A) : V A := λ '(w, (v, vc)), '(w, v, a) ← c (w, v); Ok (w, (v, vc), a).
Definition view_cancel {A} (c : M A) : V A := λ '(w, (v, vc)), '(w, vc, a) ← c (w, vc); Ok (w, (v, vc), a).

Record OfferStream := mkOfferStream {
  os_book : Book;
  os_when : Z;
  os_tip : BookTip;
  os_offer : option Offer
}.

Definition newOfferStream (book : Book) (when : Z) : OfferStream := mkOfferStream book when (newBookTip book) None.

(** [erase (view)]: the index is taken off the page by hand. *)
Definition OfferStream_erase (t : BookTip) : M () :=
  o ← les_cache (bt_dir t);
  match o with
  | None => mret ()
  | Some p =>
      v ← read_sle p;
      match v with
      | ltDIR_NODE d =>
          match remove_stable (bt_index t) (sfIndexes d) with
          | None => mret ()
          | Some l => write_sle p (ltDIR_NODE (set_indexes d l));; les_modify p
          end
      | _ => throw "Field not found"
      end
  end.

Definition set_tip (os : OfferStream) (t : BookTip) : OfferStream := mkOfferStream (os_book os) (os_when os) t (os_offer os).
Definition set_offer (os : OfferStream) (o : option Offer) : OfferStream := mkOfferStream (os_book os) (os_when os) (os_tip os) o.
Definition no_effect {A} (c : M A) : M () := c;; mret ().

  Variables mReserveBase mReserveIncrement : Z.

Fixpoint OfferStream_step (fuel : nat) (os : OfferStream) : V (OfferStream * bool) :=
  match fuel with
  | O => λ _, Throw "does not terminate"
  | S fuel' =>
      '(t, more) ← view (BookTip_step fuel (os_tip os));
      let os := set_tip os t in
      if negb more then mret (os, false)
      else
        match bt_entry t with
        | None => view (OfferStream_erase t);; view_cancel (OfferStream_erase t);; OfferStream_step fuel' os
        | Some entry =>
            o ← view (get_offer entry);
            if match of_expiration o with Some e => e <=? os_when os | None => false end then
              view_cancel (no_effect (les_offerDelete (h_index entry)));; OfferStream_step fuel' os
            else
              let amount := mkAmounts (sfTakerPays o) (sfTakerGets o) in
              let os := set_offer os (Some (mkOffer (h_index entry) (bt_quality t) (of_account o) amount)) in
              if amounts_empty amount then
                view_cancel (no_effect (les_offerDelete (h_index entry)));; OfferStream_step fuel' (set_offer os None)
              else
                owner_funds ← view (accountFunds sha512half mReserveBase mReserveIncrement (of_account o) (a_out amount) fhZERO_IF_FROZEN);
                if signum owner_funds <=? 0 then
                  original_funds ← view_cancel (accountFunds sha512half mReserveBase mReserveIncrement (of_account o) (a_out amount) fhZERO_IF_FROZEN);
                  (if op_eq original_funds owner_funds
                   then view_cancel (no_effect (les_offerDelete (h_index entry))) else mret ());;
                  OfferStream_step fuel' (set_offer os None)
                else mret (os, true)
        end
  end.

End tip.
