(* ===== verification/OrderBookClaims.v ===== *)
(** * Walking an order book: the theorem

    What a [BookTip] does to a ledger whose book is in order: every price has its directory,
    every offer is listed there and in the directory of its owner, on the pages it names. *)

From S2P Require Import Prelude OrdMap Bytes Issue BigNum STAmount Quality Taker Ter Indexes DeferredCredits EntrySet Directory LedgerObjects TrustLines TrustLineProps TrustLineClaims OrderBook.

(** ** Pages after a removal *)

Notation pages := (list (Z * list Z)).

(** Entry [x] is on page [n]. *)
Definition on_page (ps : pages) (n x : Z) : Prop := ∃ l, (n, l) ∈ ps ∧ x ∈ l.

Lemma on_page_app a b n x : on_page (a ++ b) n x ↔ on_page a n x ∨ on_page b n x.
Proof. unfold on_page. setoid_rewrite elem_of_app. naive_solver. Qed.
Lemma on_page_cons k l b n x : on_page ((k, l) :: b) n x ↔ n = k ∧ x ∈ l ∨ on_page b n x.
Proof.
  unfold on_page. setoid_rewrite elem_of_cons. split.
  - intros (l' & [[= -> ->]|H] & Hx); [by left|right; by exists l'].
  - intros [[-> Hx]|(l' & H & Hx)]; [exists l; auto|exists l'; auto].
Qed.
Lemma on_page_nil n x : ¬ on_page [] n x.
Proof. intros (l & H & _). by apply not_elem_of_nil in H. Qed.

Lemma on_page_entries ps n x : on_page ps n x → x ∈ entries ps.
Proof.
  intros (l & Hl & Hx). apply list_elem_of_split in Hl as (a & b & ->). rewrite entries_mid. set_solver.
Qed.
Lemma entries_on_page ps x : x ∈ entries ps → ∃ n, on_page ps n x.
Proof.
  induction ps as [|[k l] ps IH]; [by intros ?%not_elem_of_nil|]. rewrite (entries_mid [] k l ps : entries ((k, l) :: ps) = _).
  cbn [entries]. rewrite !elem_of_app. intros [H|[H|H]]; [by apply not_elem_of_nil in H| |].
  - exists k. apply on_page_cons. by left.
  - destruct (IH H) as [n Hn]. exists n. apply on_page_cons. by right.
Qed.

Lemma on_page_split ps n x : on_page ps n x → ∃ a l b, ps = a ++ (n, l) :: b ∧ x ∈ l.
Proof. intros (l & Hl & Hx). apply list_elem_of_split in Hl as (a & b & ->). by exists a, l, b. Qed.

Ltac page_logic :=
  repeat first [rewrite on_page_app | rewrite on_page_cons | rewrite elem_of_nil
    | match goal with |- context [on_page (?p :: _)] => is_var p; destruct p end];
  repeat match goal with |- context [on_page [] ?k ?y] => pose proof (on_page_nil k y); generalize dependent (on_page [] k y); intros end; tauto.

Ltac num_logic := cbn [app fmap list_fmap fst]; rewrite ?fmap_app; cbn [app fmap list_fmap fst]; rewrite ?elem_of_cons, ?elem_of_app, ?elem_of_cons, ?elem_of_nil; tauto.

(** What pruning leaves is what was there, but for empty pages. *)
Lemma prune_on_page keep a n b k y : on_page (prune keep a n b) k y ↔ on_page (a ++ b) k y.
Proof.
  unfold prune. destruct a as [|[? [|]] [|]], b as [|[? [|]] [|]], keep; cbn [app]; page_logic.
Qed.
Lemma prune_nums keep a n b k : k ∈ (prune keep a n b).*1 → k ∈ (a ++ (n, []) :: b).*1.
Proof. unfold prune. destruct a as [|[? [|]] [|]], b as [|[? [|]] [|]], keep; num_logic. Qed.
Lemma prune_length keep a n b : (length (prune keep a n b) <= length (a ++ (n, []) :: b))%nat.
Proof. unfold prune. destruct a as [|[? [|]] [|]], b as [|[? [|]] [|]], keep; cbn; rewrite ?length_app; cbn; lia. Qed.

Lemma del_on_page keep st a n l b x k y :
  x ∈ l → y ≠ x → on_page (dir_del keep st a n l b x) k y ↔ on_page (a ++ (n, l) :: b) k y.
Proof.
  intros Hx Hy. destruct (remove_entry_spec st x l Hx) as (l' & He & Hp & _). unfold dir_del. rewrite He.
  assert (y ∈ l ↔ y ∈ l') as Hl by (rewrite Hp; set_solver).
  destruct l' as [|z l']; [rewrite elem_of_nil in Hl|]; rewrite ?prune_on_page; page_logic.
Qed.
Lemma del_on_page_sub keep st a n l b x k y :
  x ∈ l → on_page (dir_del keep st a n l b x) k y → on_page (a ++ (n, l) :: b) k y.
Proof.
  intros Hx. destruct (remove_entry_spec st x l Hx) as (l' & He & Hp & _). unfold dir_del. rewrite He.
  assert (y ∈ l' → y ∈ l) as Hl by (rewrite Hp; set_solver).
  destruct l' as [|z l']; [rewrite elem_of_nil in Hl|]; rewrite ?prune_on_page; page_logic.
Qed.
Lemma del_nums keep st a n l b x k : k ∈ (dir_del keep st a n l b x).*1 → k ∈ (a ++ (n, l) :: b).*1.
Proof.
  unfold dir_del. destruct (remove_entry st x l) as [[|]|]; [intros H%prune_nums; revert H| |]; num_logic.
Qed.
Lemma del_length keep st a n l b x : (length (dir_del keep st a n l b x) <= length (a ++ (n, l) :: b))%nat.
Proof.
  unfold dir_del. destruct (remove_entry st x l) as [[|]|]; rewrite ?length_app; cbn; try lia.
  pose proof (prune_length keep a n b) as H. by rewrite length_app in H.
Qed.
Lemma del_permutation keep st a n l b x : x ∈ l → entries (a ++ (n, l) :: b) ≡ₚ x :: entries (dir_del keep st a n l b x).
Proof.
  intros Hx. destruct (dir_del_entries keep st a n l b x Hx) as (l' & Hl' & ->).
  destruct (remove_entry_spec st x l Hx) as (l'' & Hl'' & Hp & _). rewrite Hl' in Hl''. injection Hl'' as <-.
  rewrite entries_mid, Hp. solve_Permutation.
Qed.
(** The first entry goes. *)
Lemma del_first a n l b x rest :
  NoDup (entries (a ++ (n, l) :: b)) → x ∈ l → entries (a ++ (n, l) :: b) = x :: rest → entries (dir_del false true a n l b x) = rest.
Proof.
  intros Hnd Hx He. destruct (dir_del_entries false true a n l b x Hx) as (l' & Hl' & ->).
  destruct (remove_entry_spec true x l Hx) as (l2 & Hl2 & _ & Hst). rewrite Hl' in Hl2. injection Hl2 as <-.
  destruct (Hst eq_refl) as (c & d & -> & ->). rewrite entries_mid in *.
  rewrite <- app_assoc, (app_assoc _ c) in He, Hnd. destruct (entries a ++ c) as [|y r] eqn:E.
  - apply app_eq_nil in E as [-> ->]. by injection He as <-.
  - injection He as -> _. cbn in Hnd. apply NoDup_cons in Hnd as [Hnd _]. set_solver.
Qed.

(** ** A book in order *)

Section book.
  Context {BN : BigNum}.
  Variable sha512half : list Z → Z.
  Notation idx := (getDirNodeIndex sha512half).
  Notation own := (getOwnerDirIndex sha512half).
  Notation root_of := (getAccountRootIndex sha512half).

  (** The base of the book and its end; the prices at which there may be offers, best first; the
      owners *)
  Variables base fin : Z.
  Variable prices : list Z.
  Variable owners : list Account.
  Notation roots := (prices ++ (own <$> owners)).

(** What the indexes must provide: the directories share no pages, and the prices lie in order
    between the base and the end. *)
Record place : Prop := mkBookPlace {
  bp_good r : r ∈ roots → good_root sha512half r;
  bp_apart r r' : r ∈ roots → r' ∈ roots → r ≠ r' → separate sha512half r r';
  bp_owner a q : a ∈ owners → q ∈ prices → own a ≠ q;
  bp_account a : a ∈ owners → root_of a ≠ 0;
  bp_range q : q ∈ prices → base < q < fin;
  bp_sorted : StronglySorted Z.lt prices;
  bp_base : 0 <= base ∧ fin <= 2 ^ 256
}.

(** The offers of the book, in the order in which they are to be presented *)
Definition book_offers (D : Z → pages) : list Z := concat ((λ q, entries (D q)) <$> prices).

(** Offer [x] names the page [n] of the price [q] it is listed on, and that of its owner. *)
Definition offer_ok (m : Z → option SLE) (D : Z → pages) (q n x : Z) : Prop :=
  ∃ o k a, m x = Some (ltOFFER o) ∧ sfBookDirectory o = q ∧ sfBookNode o = n ∧ sfOwnerNode o = Some k
    ∧ of_account o ∈ owners ∧ on_page (D (own (of_account o))) k x ∧ m (root_of (of_account o)) = Some (ltACCOUNT_ROOT a).

(** The map [m] holds the directories [D], and the book they make. *)
Record book (m : Z → option SLE) (D : Z → pages) : Prop := mkInOrder {
  bk_dir r : r ∈ roots → dir_rep sha512half r m (D r);
  bk_none i : base < i <= fin → i ∉ prices → m i = None;
  bk_zero : m 0 = None;
  bk_offer q n x : q ∈ prices → on_page (D q) n x → offer_ok m D q n x;
  bk_once : NoDup (book_offers D)
}.

(** An index on a page of a directory holds a page or nothing. *)
Lemma page_or_nothing r m ps n :
  good_root sha512half r → dir_rep sha512half r m ps → is_u64 n →
  n ∉ ps.*1 ∧ m (idx r n) = None ∨ n ∈ ps.*1 ∧ ∃ d, m (idx r n) = Some (ltDIR_NODE d).
Proof.
  intros Hg Hr Hn. destruct (decide (n ∈ ps.*1)) as [Hin|Hout]; [right; split; [done|]|left; split; [done|by eapply rep_others]].
  apply list_elem_of_fmap in Hin as ([k l] & -> & Hin). apply list_elem_of_split in Hin as (a & b & ->).
  destruct (rep_facts sha512half r Hg m a k l b Hr) as (_ & _ & _ & (d & Hd & _) & _).
  apply bind_Some in Hd as (v & Hv & Hd). exists d. destruct v; try done. by injection Hd as ->.
Qed.

Lemma not_page r m ps i v :
  good_root sha512half r → dir_rep sha512half r m ps → m i = Some v → to_dir v = None → outside sha512half r i.
Proof.
  intros Hg Hr Hm Hv n Hn ->. destruct (page_or_nothing r m ps n Hg Hr Hn) as [[_ H]|(_ & d & H)]; [congruence|].
  rewrite Hm in H. by injection H as ->.
Qed.

(** Where nothing is, a removal from a directory leaves nothing. *)
Lemma frame_none r m m' ps ps' i :
  good_root sha512half r → frame sha512half r m m' → dir_rep sha512half r m ps → dir_rep sha512half r m' ps' →
  (∀ k, k ∈ ps'.*1 → k ∈ ps.*1) → m i = None → m' i = None.
Proof.
  intros Hg Hf Hr Hr' Hsub Hi. destruct (m' i) as [v|] eqn:E; [|done]. assert (outside sha512half r i) as Ho.
  { intros n Hn ->. destruct (page_or_nothing r m' ps' n Hg Hr' Hn) as [[_ H]|[Hin _]]; [congruence|].
    destruct (page_or_nothing r m ps n Hg Hr Hn) as [[H _]|(_ & d & H)]; [by apply H, Hsub|congruence]. }
  by rewrite <- E, (Hf i Ho).
Qed.

(** [dirDelete] of an entry on a page *)
Lemma wp_remove st r x n a l b m d (Q : Z → World SLE → LedgerEntrySet SLE → Prop) w s :
  let ps := a ++ (n, l) :: b in let ps' := dir_del false st a n l b x in
  shows w s m d → good_root sha512half r → dir_rep sha512half r m ps → x ∈ l →
  (∀ w' s' m', shows w' s' m' d → env s' = env s → (∀ j q, outside sha512half r j → held s j q → held s' j q) →
     frame sha512half r m m' → dir_rep sha512half r m' ps' → Q tesSUCCESS w' s') →
  wp (les_dirDelete sha512half false n r x st false) Q w s.
Proof.
  intros ps ps' [Hst Hd] Hg Hrep Hx HQ.
  destruct (dirDelete_since sha512half r w s m a n l b x n false st false Hg Hst Hrep Hx (or_introl eq_refl))
    as (w' & s' & m' & He & [Hst' [Hh Hss]] & Hf & Hrep'). apply same_set_env in Hss as [Henv Hd'].
  exists w', s', tesSUCCESS. split; [exact He|]. eapply HQ; [split; [exact Hst'|congruence]|done|auto|exact Hf|exact Hrep'].
Qed.

Lemma in_concat_fmap (f : Z → list Z) (l : list Z) q x : q ∈ l → x ∈ f q → x ∈ concat (f <$> l).
Proof.
  intros Hq Hx. apply list_elem_of_split in Hq as (a & b & ->). rewrite fmap_app, fmap_cons, concat_app. cbn [concat]. set_solver.
Qed.

Lemma concat_change (f g : Z → list Z) (l : list Z) q x :
  NoDup l → q ∈ l → f q ≡ₚ x :: g q → (∀ r, r ∈ l → r ≠ q → g r = f r) → concat (f <$> l) ≡ₚ x :: concat (g <$> l).
Proof.
  intros Hnd Hq Hx Ho. apply list_elem_of_split in Hq as (a & b & ->). apply NoDup_app in Hnd as (_ & Ha & Hb).
  apply NoDup_cons in Hb as [Hb _].
  assert (g <$> a = f <$> a) as Ea by (apply list_fmap_ext; intros i y Hy%list_elem_of_lookup_2; apply Ho; set_solver).
  assert (g <$> b = f <$> b) as Eb by (apply list_fmap_ext; intros i y Hy%list_elem_of_lookup_2; apply Ho; set_solver).
  rewrite !fmap_app, !fmap_cons, !concat_app, Ea, Eb. cbn [concat]. rewrite Hx. solve_Permutation.
Qed.

Definition put (D : Z → pages) (r : Z) (ps : pages) : Z → pages := λ i, if i =? r then ps else D i.
Lemma put_eq D r ps : put D r ps r = ps.
Proof. unfold put. by rewrite Z.eqb_refl. Qed.
Lemma put_ne D r ps i : i ≠ r → put D r ps i = D i.
Proof. intros H. unfold put. by rewrite (proj2 (Z.eqb_neq i r) H). Qed.

(** The book after the deletion of offer [x] *)
Lemma deleted_book m m' D D' q n x o k a :
  place → book m D → q ∈ prices → on_page (D q) n x →
  m x = Some (ltOFFER o) → of_account o ∈ owners → m (root_of (of_account o)) = Some (ltACCOUNT_ROOT a) →
  (∀ r, r ∈ roots → dir_rep sha512half r m' (D' r)) → (∀ i, m i = None → m' i = None) →
  (∀ k y, on_page (D' q) k y → on_page (D q) k y) → entries (D q) ≡ₚ x :: entries (D' q) →
  (∀ k y, y ≠ x → on_page (D (own (of_account o))) k y → on_page (D' (own (of_account o))) k y) →
  (∀ r, r ≠ q → r ≠ own (of_account o) → D' r = D r) →
  (∀ j v, j ≠ x → j ≠ root_of (of_account o) → m j = Some v → to_dir v = None → m' j = Some v) →
  m' (root_of (of_account o)) = Some (ltACCOUNT_ROOT k) →
  book m' D'.
Proof.
  intros P B Hq Hx Mx Hin Ma Hdir Hnone Hsub Hperm Hkeep Hother Hj Ma'.
  assert (∀ r, r ∈ prices → r ≠ q → D' r = D r) as Hpr.
  { intros r Hr Hne. apply Hother; [done|]. intros ->. by apply (bp_owner P _ _ Hin Hr). }
  assert (book_offers D ≡ₚ x :: book_offers D') as Hp.
  { apply concat_change with q; [by apply sorted_nodup, bp_sorted|done|done|]. intros r Hr Hne. by rewrite Hpr. }
  pose proof (bk_once _ _ B) as Hnd. rewrite Hp in Hnd. apply NoDup_cons in Hnd as [Hxn Hnd].
  split; try done.
  - intros i Hi Hip. apply Hnone. by apply (bk_none _ _ B).
  - apply Hnone, (bk_zero _ _ B).
  - intros r j y Hr Hy. assert (y ≠ x) as Hne.
    { intros ->. apply Hxn. apply in_concat_fmap with r; [done|]. by eapply on_page_entries. }
    assert (on_page (D r) j y) as Hy' by (destruct (decide (r = q)) as [->|Hrq]; [auto|by rewrite <- Hpr]).
    destruct (bk_offer _ _ B r j y Hr Hy') as (o' & k' & a' & My & H1 & H2 & H3 & H4 & H5 & H6).
    exists o', k'. destruct (decide (root_of (of_account o') = root_of (of_account o))) as [E|E].
    1: exists k; rewrite E. 2: exists a'.
    all: split_and!; try done.
    all: try (apply Hj; try done; intros Ej; congruence).
    all: destruct (decide (own (of_account o') = own (of_account o))) as [Eo|Eo]; [rewrite Eo in H5 |- *; by apply Hkeep|].
    all: rewrite Hother; [done| |done]; by apply bp_owner.
Qed.

(** What the deletion of the offer [x] on page [n] of price [q] leaves: the offer is gone from
    the ledger, from its price and from the directory of its owner, whose owner count is one
    less, and nothing else has changed. *)
Record offer_gone (m m' : Z → option SLE) (D D' : Z → pages) (q n x : Z) (o : OfferEntry) (acct : AccountRoot) : Prop := mkOfferGone {
  og_book : book m' D';
  og_none : m' x = None;
  og_offer : m x = Some (ltOFFER o) ∧ of_account o ∈ owners;
  og_price : ∃ a l b, D q = a ++ (n, l) :: b ∧ x ∈ l ∧ D' q = dir_del false true a n l b x;
  og_owner : entries (D (own (of_account o))) ≡ₚ x :: entries (D' (own (of_account o)));
  og_other r : r ∈ roots → r ≠ q → r ≠ own (of_account o) → D' r = D r;
  og_length r : r ∈ roots → (length (D' r) <= length (D r))%nat;
  og_account : m (root_of (of_account o)) = Some (ltACCOUNT_ROOT acct)
               ∧ m' (root_of (of_account o)) = Some (ltACCOUNT_ROOT (count_down acct));
  og_absent i : m i = None → m' i = None;
  og_frame j : j ≠ x → j ≠ root_of (of_account o) → (∀ r, r ∈ roots → outside sha512half r j) → m' j = m j
}.

(** An entry that is no page lies outside the directories. *)
Lemma entry_outside m D i v : place → book m D → m i = Some v → to_dir v = None → ∀ r, r ∈ roots → outside sha512half r i.
Proof. intros P B Hm Hv r Hr. eapply not_page; [by apply bp_good|by apply (bk_dir _ _ B)|exact Hm|exact Hv]. Qed.

(** The maps after the two removals, the change of the account and the deletion *)
Lemma removed_offer m m1 m2 D q n x o k a a1 l1 b1 a2 l2 b2 :
  let ra := own (of_account o) in let ia := root_of (of_account o) in
  let m' := upd (upd m2 ia (Some (ltACCOUNT_ROOT (count_down a)))) x None in
  place → book m D → q ∈ prices → m x = Some (ltOFFER o) → of_account o ∈ owners → m ia = Some (ltACCOUNT_ROOT a) →
  D ra = a1 ++ (k, l1) :: b1 → x ∈ l1 → D q = a2 ++ (n, l2) :: b2 → x ∈ l2 →
  frame sha512half ra m m1 → dir_rep sha512half ra m1 (dir_del false false a1 k l1 b1 x) →
  frame sha512half q m1 m2 → dir_rep sha512half q m2 (dir_del false true a2 n l2 b2 x) →
  ∃ D', offer_gone m m' D D' q n x o a.
Proof.
  intros ra ia m' P B Hq Mx Hin Ma E1 X1 E2 X2 F1 R1' F2 R2'.
  assert (ra ∈ roots) as Hra by (apply elem_of_app; right; by apply list_elem_of_fmap_2).
  assert (q ∈ roots) as Hqr by set_solver.
  assert (ra ≠ q) as Hne by (by apply bp_owner).
  pose proof (bk_dir _ _ B ra Hra) as R1. pose proof (bk_dir _ _ B q Hqr) as R2. rewrite E1 in R1. rewrite E2 in R2.
  pose proof (entry_outside m D x _ P B Mx eq_refl) as Ox. pose proof (entry_outside m D ia _ P B Ma eq_refl) as Oa.
  assert (x ≠ ia) as Hxa by (intros E; congruence).
  set (D' := put (put D q (dir_del false true a2 n l2 b2 x)) ra (dir_del false false a1 k l1 b1 x)).
  assert (∀ r ps, r ∈ roots → dir_rep sha512half r m2 ps → dir_rep sha512half r m' ps) as Hup.
  { intros r ps Hr HR. apply upd_frame; [by apply Ox|]. apply upd_frame; [by apply Oa|done]. }
  assert (D' q = dir_del false true a2 n l2 b2 x) as Dq by (unfold D'; rewrite put_ne by done; apply put_eq).
  assert (D' ra = dir_del false false a1 k l1 b1 x) as Da by apply put_eq.
  assert (∀ r, r ≠ q → r ≠ ra → D' r = D r) as Do by (intros r H1 H2; unfold D'; by rewrite !put_ne).
  assert (∀ i, m i = None → m' i = None) as Hnone.
  { intros i Hi. unfold m', upd. destruct (i =? x); [done|]. destruct (Z.eqb_spec i ia) as [->|_]; [congruence|].
    eapply (frame_none q m1 m2); [by apply bp_good|exact F2|eapply frame_other; [by apply (bp_apart P q ra)|exact F1|exact R2]|exact R2'|apply del_nums|].
    eapply (frame_none ra m m1); [by apply bp_good|exact F1|exact R1|exact R1'|apply del_nums|done]. }
  assert (∀ j v, j ≠ x → j ≠ ia → m j = Some v → to_dir v = None → m' j = Some v) as Hsame.
  { intros j v Hj1 Hj2 Hj Hdv. unfold m'. rewrite !upd_ne by done. pose proof (entry_outside m D j v P B Hj Hdv) as Oj. by rewrite F2, F1 by auto. }
  exists D'. split.
  - eapply (deleted_book m m' D D' q n x o (count_down a) a P B Hq); try done.
    + rewrite E2. exists l2. split; [set_solver|done].
    + intros r Hr. destruct (decide (r = ra)) as [->|Hr1]; [|destruct (decide (r = q)) as [->|Hr2]].
      * rewrite Da. apply Hup; [done|]. eapply frame_other; [by apply (bp_apart P ra q)|exact F2|exact R1'].
      * rewrite Dq. by apply Hup.
      * rewrite Do by done. apply Hup; [done|]. eapply frame_other; [by apply (bp_apart P r q)|exact F2|].
        eapply frame_other; [by apply (bp_apart P r ra)|exact F1|by apply (bk_dir _ _ B)].
    + intros j y. rewrite Dq, E2. by apply del_on_page_sub.
    + rewrite Dq, E2. by apply del_permutation.
    + intros j y Hy. fold ra. rewrite Da, E1. by apply del_on_page.
    + unfold m'. rewrite upd_ne by done. apply upd_eq.
  - apply upd_eq.
  - done.
  - exists a2, l2, b2. by rewrite Dq.
  - fold ra. rewrite Da, E1. by apply del_permutation.
  - intros r _. apply Do.
  - intros r Hr. destruct (decide (r = ra)) as [->|Hr1]; [rewrite Da, E1; apply del_length|].
    destruct (decide (r = q)) as [->|Hr2]; [rewrite Dq, E2; apply del_length|by rewrite Do].
  - split; [done|]. unfold m'. rewrite upd_ne by done. apply upd_eq.
  - exact Hnone.
  - intros j Hj1 Hj2 Oj. unfold m'. rewrite !upd_ne by done. by rewrite F2, F1 by auto.
Qed.

(** [offerDelete] of an offer of the book *)
Lemma wp_offerDelete m D w s d h q n (Q : Z → World SLE → LedgerEntrySet SLE → Prop) :
  let x := h_index h in
  place → book m D → shows w s m d → valid s h → q ∈ prices → on_page (D q) n x →
  (∀ w' s' m' D' o acct, shows w' s' m' d → env s' = env s → offer_gone m m' D D' q n x o acct → Q tesSUCCESS w' s') →
  wp (offerDelete sha512half (Some h)) Q w s.
Proof.
  intros x P B Hs Hv Hq Hx HQ. destruct (bk_offer _ _ B q n x Hq Hx) as (o & k & a & Mx & Bq & Bn & Bk & Hin & Hk & Ma).
  set (ra := own (of_account o)) in *. set (ia := root_of (of_account o)) in *.
  assert (ra ∈ roots) as Hra by (apply elem_of_app; right; by apply list_elem_of_fmap_2).
  assert (q ∈ roots) as Hqr by set_solver.
  destruct (on_page_split _ _ _ Hk) as (a1 & l1 & b1 & E1 & X1). destruct (on_page_split _ _ _ Hx) as (a2 & l2 & b2 & E2 & X2).
  pose proof (entry_outside m D x _ P B Mx eq_refl) as Ox. pose proof (entry_outside m D ia _ P B Ma eq_refl) as Oa.
  unfold offerDelete. apply wp_bind. unfold get_offer. apply wp_bind. eapply wp_read; [exact Hs|exact Hv|exact Mx|]. apply wp_ret.
  rewrite Bk, Bq, Bn. cbn [default from_option id negb]. fold x ra.
  pose proof (bk_dir _ _ B ra Hra) as R1. pose proof (bk_dir _ _ B q Hqr) as R2. rewrite E1 in R1. rewrite E2 in R2.
  apply wp_bind. eapply wp_remove; [exact Hs|by apply bp_good|exact R1|exact X1|]. intros w1 s1 m1 Hs1 V1 K1 F1 R1'.
  apply wp_bind. eapply wp_remove; [exact Hs1|by apply bp_good| |exact X2|].
  { eapply frame_other; [|exact F1|exact R2]. apply (bp_apart P q ra); [done..|]. intros E. by apply (bp_owner P _ _ Hin Hq). }
  intros w2 s2 m2 Hs2 V2 K2 F2 R2'. change (tesSUCCESS =? tesSUCCESS) with true. cbn iota.
  assert (m2 ia = Some (ltACCOUNT_ROOT a)) as M2 by (by rewrite F2, F1 by auto).
  apply wp_bind. unfold decrementOwnerCount_of. apply wp_bind.
  eapply wp_cache_some; [exact Hs2|by apply bp_account|exact M2|]. intros w3 s3 h3 Hs3 K3 I3 V3.
  apply wp_bind, wp_deref. eapply wp_decrement; [exact Hs3|exact V3|rewrite I3; exact M2|]. rewrite I3. intros w4 s4 Hs4 K4.
  apply wp_bind. eapply wp_delete; [exact Hs4|apply (keeps_valid _ _ _ K4), (keeps_valid _ _ _ K3), K2, K1; try done; by auto|].
  intros s5 Hs5 _ V5. apply wp_ret.
  destruct (removed_offer m m1 m2 D q n x o k a a1 l1 b1 a2 l2 b2 P B Hq Mx Hin Ma E1 X1 E2 X2 F1 R1' F2 R2') as [D' Hg].
  eapply HQ; [exact Hs5|by rewrite V5, (proj2 K4), (proj2 K3), V2, V1|exact Hg].
Qed.

(** ** Finding the next price *)

Lemma price_present m D q : place → book m D → q ∈ prices → m q = None ↔ D q = [].
Proof.
  intros P B Hq. assert (q ∈ roots) as Hr by set_solver. pose proof (bk_dir _ _ B q Hr) as HR.
  change (m q) with (m (idx q 0)). destruct (page_or_nothing q m (D q) 0 (bp_good P q Hr) HR ltac:(by split)) as [[Hn H]|(Hn & v & H)].
  - split; [|done]. intros _. destruct (D q) as [|[k l] ps]; [done|]. destruct HR as (_ & -> & _). set_solver.
  - split; [congruence|]. intros E. rewrite E in Hn. by apply not_elem_of_nil in Hn.
Qed.

Lemma next_price w s m D d b :
  place → book m D → shows w s m d → keys_pos s → base <= b →
  let i := getNextLedgerIndex_end s b fin in
  i = 0 ∧ (∀ q, q ∈ prices → b < q → D q = [])
  ∨ i ≠ 0 ∧ i ∈ prices ∧ b < i ∧ D i ≠ [] ∧ ∀ q, q ∈ prices → b < q < i → D q = [].
Proof.
  intros P B [[Hinv Hm] _] Hpos Hb i. unfold i, getNextLedgerIndex_end. destruct (bp_base P) as [Hb0 _].
  destruct (getNextLedgerIndex_least w s b Hinv Hpos ltac:(lia)) as [[-> Hall]|(H0 & Hbn & Hn & Hall)].
  - left. split; [by destruct (_ >? _)|]. intros q Hq Hbq. apply (price_present m D q P B Hq). rewrite <- Hm. by apply Hall.
  - set (n := getNextLedgerIndex s b) in *. rewrite Hm in Hn. rewrite Z.gtb_ltb. destruct (Z.ltb_spec fin n) as [Hf|Hf]; [left|right].
    + split; [done|]. intros q Hq Hbq. apply (price_present m D q P B Hq). rewrite <- Hm. apply Hall. pose proof (bp_range P q Hq). lia.
    + assert (n ∈ prices) as Hin.
      { destruct (decide (n ∈ prices)) as [|Hout]; [done|]. rewrite (bk_none _ _ B n) in Hn by (lia || done). by destruct Hn. }
      split_and!; [lia|done|done| |].
      * intros E. apply (price_present m D n P B Hin) in E. rewrite E in Hn. by destruct Hn.
      * intros q Hq Hbq. apply (price_present m D q P B Hq). rewrite <- Hm. by apply Hall.
Qed.

Lemma wp_dirFirst fuel r ps w s m d (Q : Z * nat * option Z → World SLE → LedgerEntrySet SLE → Prop) :
  good_root sha512half r → shows w s m d → dir_rep sha512half r m ps → ps ≠ [] → (length ps <= fuel)%nat →
  (∀ w' s' p e, shows w' s' m d → env s' = env s → (entries ps ≠ [] → ∃ j, held s' j p) → Q (p, e, head (entries ps)) w' s') →
  wp (les_dirFirst sha512half fuel r) Q w s.
Proof.
  intros Hg [Hst Hd] Hrep Hne Hf HQ. apply (track_start (outside sha512half r)) in Hst. destruct ps as [|[n l] b]; [done|].
  destruct (rep_facts sha512half r Hg m [] n l b Hrep) as (_ & _ & _ & (v & Hv & _) & Hn & _). rewrite (Hn eq_refl) in *.
  change (m (idx r 0)) with (m r) in Hv. unfold wp, les_dirFirst, dirFirst. cbn [fst snd].
  eapply (cache_step (λ z, ∃ w' s' a, z = Ok (w', s', a) ∧ Q a w' s')); [exact Hst|by apply (root_ne_0 sha512half r)|].
  intros w1 s1 o Hst1 _ Ho. destruct o as [p|]; [|by rewrite Ho in Hv]. destruct Ho as [Hp _]. cbn [not_null mbind result_bind].
  destruct (dirNext_loop sha512half r s Hg fuel w1 s1 m [] 0 l b p 0) as (w' & s' & p' & e' & He & [Hst' [_ Hss]] & Hpos); [done..|lia|simpl in Hf; lia|].
  rewrite He. eexists w', s', _. split; [done|]. rewrite drop_0 in *. change (l ++ entries b) with (entries ((0, l) :: b)) in *.
  apply same_set_env in Hss as [V E]. apply HQ; [split; [done|congruence]|done|].
  intros Hent. destruct (Hpos Hent) as (a & k & l' & b' & _ & Hh & _). by exists (idx r k).
Qed.

Lemma wp_index p j w s m d (Q : Z → World SLE → LedgerEntrySet SLE → Prop) :
  shows w s m d → held s j p → Q j w s → wp (les_index p) Q w s.
Proof.
  intros [[Hinv _] _] (e & He & Hp & _) HQ. unfold wp, les_index. cbn [fst snd]. apply om_find_In in He as Hin; [|apply Hinv].
  destruct (find _ _) as [[i f]|] eqn:E.
  - apply find_some in E as [Hi Hf]. cbn in Hf. apply Z.eqb_eq in Hf. apply list_elem_of_In, om_find_In in Hi; [|apply Hinv].
    exists w, s, i. split; [done|]. replace i with j; [done|]. by apply (inv_inj _ _ Hinv j i e f); [done..|congruence].
  - eapply find_none in E; [|apply list_elem_of_In; exact Hin]. cbn in E. by apply Z.eqb_neq in E.
Qed.

(** ** One step *)

Lemma offers_none D : (∀ q, q ∈ prices → entries (D q) = []) → book_offers D = [].
Proof.
  unfold book_offers. induction prices as [|q l IH]; [done|]. intros H. rewrite fmap_cons. cbn [concat]. rewrite H by (by left).
  apply IH. intros r Hr. apply H. by right.
Qed.

(** With nothing at better prices the book starts with the offers at [q]. *)
Lemma offers_from D q :
  place → q ∈ prices → (∀ r, r ∈ prices → r < q → entries (D r) = []) → ∃ l, book_offers D = entries (D q) ++ l.
Proof.
  intros P Hq Hb. pose proof (bp_sorted P) as Hs. unfold book_offers. apply list_elem_of_split in Hq as (a & b & E).
  rewrite E in Hs, Hb |- *. destruct (sorted_app_nums sha512half a b q Hs) as (_ & Ha & _).
  exists (concat ((λ r, entries (D r)) <$> b)). rewrite fmap_app, fmap_cons, concat_app. cbn [concat].
  assert (concat ((λ r, entries (D r)) <$> a) = []) as ->; [|done].
  assert (∀ r, r ∈ a → entries (D r) = []) as Hnil by (intros r Hr; apply Hb; [set_solver|by apply Ha]).
  clear -Hnil. induction a as [|r a IH]; [done|]. rewrite fmap_cons. cbn [concat]. rewrite Hnil by (by left).
  apply IH. intros k Hk. apply Hnil. by right.
Qed.

(** The tip is at the first offer of the book. *)
Record at_offer (s : LedgerEntrySet SLE) (D : Z → pages) (t : BookTip) (q x : Z) : Prop := mkAtOffer {
  ao_price : q ∈ prices ∧ bt_quality t = getQuality q;
  ao_valid : bt_valid t = true;
  ao_book : bt_book t = q - 1 ∧ bt_end t = fin;
  ao_index : bt_index t = x;
  ao_entry : ∃ h, bt_entry t = Some h ∧ h_index h = x ∧ valid s h;
  ao_first : head (entries (D q)) = Some x;
  ao_better r : r ∈ prices → r < q → entries (D r) = []
}.
Definition tip_at (s : LedgerEntrySet SLE) (D : Z → pages) (t : BookTip) (more : bool) : Prop :=
  match book_offers D with [] => more = false | x :: _ => more = true ∧ ∃ q, at_offer s D t q x end.

Definition prices_above (b : Z) : nat := length (filter (λ q, b < q) prices).

Lemma prices_above_less b q : q ∈ prices → b < q → (prices_above q < prices_above b)%nat.
Proof.
  unfold prices_above. induction prices as [|r l IH]; [by intros ?%not_elem_of_nil|]. intros Hq Hb. rewrite !filter_cons.
  assert (length (filter (λ i, (q < i)%Z) l) <= length (filter (λ i, (b < i)%Z) l))%nat as Hle.
  { clear -Hb. induction l as [|r l IH]; [done|]. rewrite !filter_cons. repeat case_decide; cbn; lia. }
  apply elem_of_cons in Hq as [->|Hq].
  - rewrite decide_False, decide_True by lia. cbn. lia.
  - specialize (IH Hq Hb). repeat case_decide; cbn; lia.
Qed.

Lemma wp_loop n fuel t w s m D d :
  place → book m D → shows w s m d → keys_pos s → base <= bt_book t → bt_end t = fin → (prices_above (bt_book t) < n)%nat →
  (∀ r, r ∈ prices → (length (D r) <= fuel)%nat) → (∀ r, r ∈ prices → r <= bt_book t → entries (D r) = []) →
  wp (BookTip_loop sha512half n fuel t) (λ '(t', more) w' s', shows w' s' m d ∧ env s' = env s ∧ tip_at s' D t' more) w s.
Proof.
  intros P B. revert t w s. induction n as [|n IH]; intros t w s Hs Hpos Hb He Hn Hf Hw; [lia|]. cbn [BookTip_loop].
  apply wp_bind. unfold les_next. eexists w, s, _. split; [done|]. cbn [snd]. rewrite He.
  destruct (next_price w s m D d (bt_book t) P B Hs Hpos Hb) as [[-> Hnone]|(Hi0 & Hi & Hbi & Hne & Hbetween)].
  { apply wp_ret. split; [done|]. split; [done|]. unfold tip_at. rewrite offers_none; [done|]. intros q Hq.
    destruct (decide (q <= bt_book t)); [by apply Hw|]. rewrite Hnone by (done || lia). done. }
  set (q := getNextLedgerIndex_end s (bt_book t) fin) in *. rewrite (proj2 (Z.eqb_neq q 0)) by done.
  assert (q ∈ roots) as Hq by set_solver.
  assert (∀ r, r ∈ prices → r < q → entries (D r) = []) as Hbetter.
  { intros r Hr Hrq. destruct (decide (r <= bt_book t)); [by apply Hw|]. rewrite Hbetween by (done || lia). done. }
  apply wp_bind. eapply wp_dirFirst; [by apply bp_good|exact Hs|by apply (bk_dir _ _ B)|done|by apply Hf|].
  intros w1 s1 p e Hs1 V1 Hp. destruct (entries (D q)) as [|x rest] eqn:E; cbn [head].
  - eapply wp_mono; [apply IH; cbn [bt_book bt_end]; try done|].
    + unfold keys_pos. by injection V1 as ->.
    + pose proof (bp_range P q Hi). lia.
    + pose proof (prices_above_less (bt_book t) q Hi Hbi). lia.
    + intros r Hr Hrq. destruct (decide (r = q)) as [->|]; [done|]. apply Hbetter; [done|lia].
    + intros [t' more] w' s' (H1 & H2 & H3). split; [done|]. split; [congruence|done].
  - destruct (Hp ltac:(done)) as [j Hj]. apply wp_bind. eapply wp_index; [exact Hs1|exact Hj|].
    destruct (entries_on_page (D q) x) as [k Hk]; [rewrite E; by left|].
    destruct (bk_offer _ _ B q k x Hi Hk) as (o & k' & a & Mx & _).
    apply wp_bind. eapply wp_cache_some; [exact Hs1|intros ->; by rewrite (bk_zero _ _ B) in Mx|exact Mx|].
    intros w2 s2 h Hs2 K2 I2 V2. apply wp_ret. split; [done|]. split; [by rewrite (proj2 K2)|]. unfold tip_at.
    destruct (offers_from D q P Hi Hbetter) as [l ->]. rewrite E. cbn [app]. split; [done|]. exists q.
    split; try done; cbn [bt_quality bt_valid bt_book bt_end bt_index bt_entry].
    + split; [|done]. pose proof (bp_range P q Hi). destruct (bp_base P). apply Z.mod_small. lia.
    + by exists h.
    + by rewrite E.
Qed.

(** The offers of the book with their prices *)
Definition book_list (D : Z → pages) : list (Z * Quality) := concat ((λ q, (λ x, (x, getQuality q)) <$> entries (D q)) <$> prices).

Lemma concat_tail {B} (h : Z → Z → B) (D D' : Z → pages) q x :
  place → q ∈ prices → (∀ r, r ∈ prices → r < q → entries (D r) = []) → entries (D q) = x :: entries (D' q) →
  (∀ r, r ∈ prices → r ≠ q → D' r = D r) →
  concat ((λ r, h r <$> entries (D r)) <$> prices) = h q x :: concat ((λ r, h r <$> entries (D' r)) <$> prices).
Proof.
  intros P Hq Hb Hx Ho. pose proof (bp_sorted P) as Hs. apply list_elem_of_split in Hq as (a & b & E). rewrite E in Hs, Hb, Ho |- *.
  destruct (sorted_app_nums sha512half a b q Hs) as (_ & Ha & Hb').
  assert (∀ r, r ∈ a → entries (D r) = [] ∧ D' r = D r) as Hl.
  { intros r Hr. pose proof (Ha r Hr). split; [apply Hb; [set_solver|done]|apply Ho; [set_solver|lia]]. }
  rewrite !fmap_app, !fmap_cons, !concat_app. cbn [concat]. rewrite Hx. cbn [fmap list_fmap app].
  assert (∀ r, r ∈ b → D' r = D r) as Hr by (intros r Hr; pose proof (Hb' r Hr); apply Ho; [set_solver|lia]).
  assert ((λ r, h r <$> entries (D' r)) <$> b = (λ r, h r <$> entries (D r)) <$> b) as ->
    by (apply list_fmap_ext; intros j r Hj%list_elem_of_lookup_2; by rewrite Hr).
  clear -Hl. induction a as [|r a IH]; [done|]. rewrite !fmap_cons. cbn [concat]. destruct (Hl r ltac:(by left)) as [E1 E2].
  rewrite E2, E1. apply IH. intros k Hk. apply Hl. by right.
Qed.

Lemma book_list_fst D : (book_list D).*1 = book_offers D.
Proof.
  unfold book_list, book_offers. induction prices as [|q l IH]; [done|]. rewrite !fmap_cons. cbn [concat].
  rewrite fmap_app, IH. f_equal. rewrite <- list_fmap_compose. apply list_fmap_id.
Qed.

Lemma wp_step_first bk fuel w s m D d :
  let t := newBookTip sha512half bk in
  place → book m D → shows w s m d → keys_pos s → bt_book t = base → bt_end t = fin → (length prices < fuel)%nat →
  (∀ r, r ∈ roots → (length (D r) <= fuel)%nat) →
  wp (BookTip_step sha512half fuel t) (λ '(t', more) w' s', shows w' s' m d ∧ env s' = env s ∧ tip_at s' D t' more) w s.
Proof.
  intros t P B Hs Hpos Eb Ef Hn Hf. unfold BookTip_step. cbn [t newBookTip bt_valid]. fold t. apply wp_bind, wp_ret.
  apply wp_loop; try done; rewrite ?Eb; try done.
  - unfold prices_above. pose proof (length_filter (λ q, base < q) prices). lia.
  - intros r Hr. apply Hf. set_solver.
  - intros r Hr Hle. pose proof (bp_range P r Hr). lia.
Qed.

Lemma wp_step_next fuel t w s m D d q x :
  place → book m D → shows w s m d → keys_pos s → at_offer s D t q x → (length prices < fuel)%nat →
  (∀ r, r ∈ roots → (length (D r) <= fuel)%nat) →
  wp (BookTip_step sha512half fuel t) (λ '(t', more) w' s', ∃ m' D' n o acct, offer_gone m m' D D' q n x o acct ∧ shows w' s' m' d ∧ env s' = env s
    ∧ tip_at s' D' t' more ∧ book_list D = (x, getQuality q) :: book_list D' ∧ ∀ r, r ∈ roots → (length (D' r) <= fuel)%nat) w s.
Proof.
  intros P B Hs Hpos [[Hq Eq] Ev [Eb Ee] Ei (h & Eh & _) Hfirst Hbetter] Hn Hf. unfold BookTip_step. rewrite Ev, Eh, Ei.
  destruct (entries (D q)) as [|y l] eqn:El; [done|]. injection Hfirst as ->.
  destruct (entries_on_page (D q) x) as [n Hx]; [rewrite El; by left|].
  destruct (bk_offer _ _ B q n x Hq Hx) as (o & k & a & Mx & _).
  apply wp_bind, wp_bind. unfold les_offerDelete. apply wp_bind.
  eapply wp_cache_some; [exact Hs|intros ->; by rewrite (bk_zero _ _ B) in Mx|exact Mx|]. intros w1 s1 h1 Hs1 K1 I1 V1.
  eapply (wp_offerDelete m D w1 s1 d h1 q n); [exact P|exact B|exact Hs1|exact V1|exact Hq|by rewrite I1|]. rewrite I1.
  intros w2 s2 m2 D' o2 acct Hs2 E2 Hg. apply wp_ret. pose proof (og_book _ _ _ _ _ _ _ _ _ Hg) as B2.
  pose proof (og_length _ _ _ _ _ _ _ _ _ Hg) as Hlen. destruct (og_price _ _ _ _ _ _ _ _ _ Hg) as (a2 & l2 & b2 & Eq2 & Hx' & Eq2').
  assert (∀ r, r ∈ prices → r ≠ q → D' r = D r) as Ho.
  { intros r Hr Hrq. apply (og_other _ _ _ _ _ _ _ _ _ Hg); [set_solver|done|]. intros ->.
    by apply (bp_owner P _ _ (proj2 (og_offer _ _ _ _ _ _ _ _ _ Hg)) Hr). }
  assert (entries (D q) = x :: entries (D' q)) as Hrest.
  { assert (NoDup (entries (D q))) as Hnd.
    { destruct (offers_from D q P Hq Hbetter) as [l' E]. pose proof (bk_once _ _ B) as H. rewrite E in H. by apply NoDup_app in H as [? _]. }
    rewrite Eq2' , (del_first a2 n l2 b2 x l); [done|by rewrite <- Eq2|done|by rewrite <- Eq2]. }
  eapply wp_mono; [apply (wp_loop fuel fuel _ w2 s2 m2 D' d P B2 Hs2); cbn [bt_book bt_end]; try done|].
  - unfold keys_pos. pose proof (f_equal (λ z, z.1.1.1) E2) as E. pose proof (f_equal (λ z, z.1.1.1) (proj2 K1)) as E'. cbn in E, E'. by rewrite E, E'.
  - pose proof (bp_range P q Hq). rewrite Eb. lia.
  - unfold prices_above. pose proof (length_filter (λ r, bt_book t < r) prices). lia.
  - intros r Hr. specialize (Hlen r ltac:(set_solver)). specialize (Hf r ltac:(set_solver)). lia.
  - intros r Hr Hrq. rewrite Ho by (done || lia). apply Hbetter; [done|lia].
  - intros [t' more] w' s' (H1 & H2 & H3). exists m2, D', n, o2, acct. split_and!; try done.
    + by rewrite H2, E2, (proj2 K1).
    + unfold book_list. by apply (concat_tail (λ r y, (y, getQuality r)) D D' q x).
    + intros r Hr. specialize (Hlen r Hr). specialize (Hf r Hr). lia.
Qed.

(** The client's loop: step until there are no more offers, and list what was presented. *)
Fixpoint drain (n fuel : nat) (t : BookTip) : M (list (Z * Quality)) :=
  match n with
  | O => throw "does not terminate"
  | S n =>
      '(t, more) ← BookTip_step sha512half fuel t;
      if (more : bool) then rest ← drain n fuel t; mret ((bt_index t, bt_quality t) :: rest) else mret []
  end.

(** The offers of [l] that are listed in the owner directory [r], and those that count for the
    account root [i] *)
Definition filed_in (m : Z → option SLE) (r x : Z) : bool :=
  match m x with Some (ltOFFER o) => own (of_account o) =? r | _ => false end.
Definition counted_for (m : Z → option SLE) (i x : Z) : bool :=
  match m x with Some (ltOFFER o) => root_of (of_account o) =? i | _ => false end.

(** The book [D] is drained: its offers are gone from the ledger, from the directories of the
    prices, which list nothing more, and from the directories of their owners, which list what
    else they did; each owner's count is lowered by the number of its offers; and no other entry
    has changed but the pages of these directories. *)
Record drained_map (m m' : Z → option SLE) (D D' : Z → pages) : Prop := mkDrained {
  dr_book : book m' D';
  dr_offers x : x ∈ book_offers D → m' x = None;
  dr_prices q : q ∈ prices → entries (D' q) = [];
  dr_owners a : a ∈ owners →
    entries (D (own a)) ≡ₚ filter (λ x, filed_in m (own a) x = true) (book_offers D) ++ entries (D' (own a));
  dr_counts a acct : a ∈ owners → m (root_of a) = Some (ltACCOUNT_ROOT acct) →
    m' (root_of a) = Some (ltACCOUNT_ROOT
      (Nat.iter (length (filter (λ x, counted_for m (root_of a) x = true) (book_offers D))) count_down acct));
  dr_absent i : m i = None → m' i = None;
  dr_frame j : j ∉ book_offers D → j ∉ root_of <$> owners → (∀ r, r ∈ roots → outside sha512half r j) → m' j = m j
}.
Definition drained (m : Z → option SLE) (D : Z → pages) (d : option DeferredCredits) (w : World SLE) (s : LedgerEntrySet SLE) : Prop :=
  ∃ m' D', shows w s m' d ∧ drained_map m m' D D'.

Lemma drained_none m D : book m D → book_offers D = [] → drained_map m m D D.
Proof.
  intros B E. split; rewrite ?E; try done; [by intros ? ?%not_elem_of_nil|]. intros q Hq. apply elem_of_nil_inv. intros x Hx.
  apply (not_elem_of_nil x). rewrite <- E. by apply in_concat_fmap with q.
Qed.

(** The offers that are left are as they were. *)
Lemma offers_kept m m' D D' q n x o acct y :
  place → book m D → offer_gone m m' D D' q n x o acct → book_offers D = x :: book_offers D' → y ∈ book_offers D' → m' y = m y.
Proof.
  intros P B Hg E Hy. pose proof (bk_once _ _ B) as Hnd. rewrite E in Hnd. apply NoDup_cons in Hnd as [Hx _].
  assert (y ∈ book_offers D) as HyD by (rewrite E; by right).
  apply list_elem_of_In, in_concat in HyD as (l & Hl & HyD%list_elem_of_In).
  apply list_elem_of_In, list_elem_of_fmap in Hl as (r0 & -> & Hr0). destruct (entries_on_page _ _ HyD) as [k0 Hk0].
  destruct (bk_offer _ _ B r0 k0 y Hr0 Hk0) as (o' & _ & _ & My & _).
  apply (og_frame _ _ _ _ _ _ _ _ _ Hg); [by intros ->| |by apply (entry_outside m D y _ P B My)].
  intros ->. destruct (og_account _ _ _ _ _ _ _ _ _ Hg) as [H _]. congruence.
Qed.

Lemma filter_kept (f g : Z → bool) (l : list Z) :
  (∀ y, y ∈ l → f y = g y) → filter (λ y, f y = true) l = filter (λ y, g y = true) l.
Proof.
  induction l as [|y l IH]; [done|]. intros H. rewrite !filter_cons, IH by (intros z Hz; apply H; by right).
  by rewrite (H y) by (by left).
Qed.

(** One deletion and then the rest *)
Lemma drained_step m m' m'' D D' D'' q n x o acct :
  place → book m D → q ∈ prices → offer_gone m m' D D' q n x o acct → book_offers D = x :: book_offers D' →
  drained_map m' m'' D' D'' → drained_map m m'' D D''.
Proof.
  intros P B Hq Hg E H. pose proof (λ y, offers_kept m m' D D' q n x o acct y P B Hg E) as Hkept.
  destruct (og_offer _ _ _ _ _ _ _ _ _ Hg) as [Mx Hin]. destruct (og_account _ _ _ _ _ _ _ _ _ Hg) as [Ma Ma'].
  split.
  - apply (dr_book _ _ _ _ H).
  - rewrite E. intros y [->|Hy]%elem_of_cons; [|by apply (dr_offers _ _ _ _ H)].
    apply (dr_absent _ _ _ _ H), (og_none _ _ _ _ _ _ _ _ _ Hg).
  - apply (dr_prices _ _ _ _ H).
  - intros a Ha. rewrite E, filter_cons. rewrite (filter_kept _ (filed_in m' (own a)) (book_offers D'))
      by (intros y Hy; unfold filed_in; by rewrite Hkept).
    assert (filed_in m (own a) x = (own (of_account o) =? own a)) as Hfx by (unfold filed_in; by rewrite Mx).
    pose proof (dr_owners _ _ _ _ H a Ha) as Hp.
    destruct (Z.eqb_spec (own (of_account o)) (own a)) as [Ea|Ea].
    + rewrite decide_True by exact Hfx. cbn [app]. rewrite <- Hp, <- Ea. apply (og_owner _ _ _ _ _ _ _ _ _ Hg).
    + rewrite decide_False by (by rewrite Hfx). rewrite <- Hp, (og_other _ _ _ _ _ _ _ _ _ Hg (own a)); [done| |by apply bp_owner|done].
      apply elem_of_app. right. by apply list_elem_of_fmap_2.
  - intros a c Ha Hc. rewrite E, filter_cons. rewrite (filter_kept _ (counted_for m' (root_of a)) (book_offers D'))
      by (intros y Hy; unfold counted_for; by rewrite Hkept).
    assert (counted_for m (root_of a) x = (root_of (of_account o) =? root_of a)) as Hfx by (unfold counted_for; by rewrite Mx).
    destruct (Z.eqb_spec (root_of (of_account o)) (root_of a)) as [Ea|Ea].
    + rewrite decide_True by exact Hfx. cbn [length]. rewrite Nat.iter_succ_r. apply (dr_counts _ _ _ _ H a); [done|].
      rewrite Ea in Ma, Ma'. rewrite Ma'. by simplify_eq.
    + rewrite decide_False by (by rewrite Hfx). apply (dr_counts _ _ _ _ H a); [done|].
      rewrite <- Hc. apply (og_frame _ _ _ _ _ _ _ _ _ Hg); [intros Ex; congruence|done|by apply (entry_outside m D _ _ P B Hc)].
  - intros i Hi. by apply (dr_absent _ _ _ _ H), (og_absent _ _ _ _ _ _ _ _ _ Hg).
  - rewrite E. intros j [Hjx Hj]%not_elem_of_cons Hjo Ho. rewrite (dr_frame _ _ _ _ H j) by done.
    apply (og_frame _ _ _ _ _ _ _ _ _ Hg); [done| |done]. intros ->. apply Hjo. by apply list_elem_of_fmap_2.
Qed.

(** After a step, with fuel for the offers that are left *)
Lemma wp_rest n fuel t more w s m D d :
  place → book m D → shows w s m d → keys_pos s → tip_at s D t more → (length prices < fuel)%nat →
  (∀ r, r ∈ roots → (length (D r) <= fuel)%nat) → (length (book_offers D) <= n)%nat →
  wp (if more then rest ← drain n fuel t; mret ((bt_index t, bt_quality t) :: rest) else mret [])
    (λ l w' s', l = book_list D ∧ drained m D d w' s') w s.
Proof.
  intros P. revert t more w s m D. induction n as [|n IH]; intros t more w s m D B Hs Hpos Ht Hp Hf Hn;
    unfold tip_at in Ht; rewrite <- book_list_fst in Ht, Hn; destruct (book_list D) as [|[x z] l] eqn:El; cbn in Ht, Hn; try lia.
  1, 2: subst more; apply wp_ret; split; [done|]; exists m, D; split; [done|]; apply drained_none; [done|]; by rewrite <- book_list_fst, El.
  destruct Ht as [-> [q Hat]]. cbn [drain]. apply wp_bind, wp_bind.
  eapply wp_mono; [by eapply wp_step_next|]. intros [t' more'] w' s' (m' & D' & k & o & acct & Hg & Hs' & V' & Ht' & Hl' & Hf').
  rewrite El in Hl'. injection Hl' as -> ->. pose proof (og_book _ _ _ _ _ _ _ _ _ Hg) as B'.
  eapply wp_mono; [apply IH; try done|].
  - unfold keys_pos. by injection V' as ->.
  - rewrite <- book_list_fst. lia.
  - intros l w'' s'' [-> (m'' & D'' & H1 & H2)]. apply wp_ret. split.
    + rewrite (ao_index _ _ _ _ _ Hat), (proj2 (ao_price _ _ _ _ _ Hat)). done.
    + exists m'', D''. split; [done|]. eapply drained_step; try done; [apply (ao_price _ _ _ _ _ Hat)|].
      by rewrite <- !book_list_fst, El.
Qed.

(** The prices are presented from the best, that is the smallest rate, on. *)
Lemma book_list_sorted D :
  place → base mod 2 ^ 64 = 0 → fin <= base + 2 ^ 64 → StronglySorted Z.le (book_list D).*2.
Proof.
  intros P Hb Hf. pose proof (bp_range P) as Hr. pose proof (bp_sorted P) as Hs. unfold book_list. revert Hr Hs.
  assert (∀ q, base < q < fin → getQuality q = q - base) as Hq.
  { intros q Hq. unfold getQuality. replace q with (q - base + base) at 1 by lia.
    rewrite Zplus_mod, Hb, Z.add_0_r, Z.mod_mod by lia. apply Z.mod_small. lia. }
  induction prices as [|q l IH]; intros Hr Hs; [constructor|]. apply StronglySorted_inv in Hs as [Hs Hall]. rewrite Forall_forall in Hall.
  rewrite fmap_cons. cbn [concat]. rewrite fmap_app.
  assert (∀ z, z ∈ (concat ((λ q, (λ x, (x, getQuality q)) <$> entries (D q)) <$> l)).*2 → getQuality q <= z) as Hle.
  { clear IH Hs. induction l as [|r l IH]; [by intros z ?%not_elem_of_nil|]. intros z. rewrite fmap_cons. cbn [concat]. rewrite fmap_app.
    intros [Hz|Hz]%elem_of_app; [|apply IH; [intros k Hk; apply Hr; set_solver|intros k Hk; apply Hall; set_solver|done]].
    rewrite <- list_fmap_compose in Hz. apply list_elem_of_fmap in Hz as (y & -> & _). cbn.
    rewrite !Hq by (apply Hr; set_solver). specialize (Hall r ltac:(by left)). lia. }
  specialize (IH ltac:(intros k Hk; apply Hr; by right) Hs). induction (entries (D q)) as [|y e IHe]; [done|].
  cbn [fmap list_fmap app snd]. constructor; [done|]. apply Forall_forall. intros z [Hz|Hz]%elem_of_app; [|by apply Hle].
  rewrite <- list_fmap_compose in Hz. apply list_elem_of_fmap in Hz as (y' & -> & _). cbn. lia.
Qed.

End book.

(** C22: stepping a [BookTip] through an order book, from its creation until it answers false,
    presents every offer of the book exactly once, from the best price to the worst and at one
    price in the order of the directory.  It ends without an error, and leaves the book empty:
    the offers are gone from the ledger, the directories of the prices list nothing, each owner's
    directory lists exactly what it did less that owner's offers of the book, each owner count
    is lowered once per offer of that owner, and no other entry of the ledger has changed but
    the pages of these directories. *)
Theorem book_drained {BN : BigNum} sha512half bk prices owners n fuel w s m D d :
  let base := getBookBase sha512half bk in
  let fin := getQualityNext base in
  place sha512half base fin prices owners → book sha512half base fin prices owners m D → shows w s m d → keys_pos s →
  (length prices < fuel)%nat → (∀ r, (length (D r) <= fuel)%nat) → (length (book_offers prices D) < n)%nat →
  ∃ w' s', drain sha512half n fuel (newBookTip sha512half bk) (w, s) = Ok (w', s', book_list prices D)
    ∧ (book_list prices D).*1 = book_offers prices D ∧ StronglySorted Z.le (book_list prices D).*2
    ∧ drained sha512half base fin prices owners m D d w' s'.
Proof.
  intros base fin P B Hs Hpos Hp Hf Hn. destruct n as [|n]; [lia|].
  assert (wp (drain sha512half (S n) fuel (newBookTip sha512half bk))
    (λ l w' s', l = book_list prices D ∧ drained sha512half base fin prices owners m D d w' s') w s) as (w' & s' & l & He & -> & Hd).
  { cbn [drain]. apply wp_bind. eapply wp_mono; [by eapply wp_step_first|].
    intros [t' more] w' s' (Hs' & V' & Ht). eapply wp_rest; try done; [|lia]. unfold keys_pos. by injection V' as ->. }
  exists w', s'. split; [done|]. split; [apply book_list_fst|]. split; [|done]. eapply book_list_sorted; [exact P| |].
  - unfold base, getBookBase, getQualityIndex. rewrite Z.add_0_r. apply Z.mod_mul. lia.
  - unfold fin, getQualityNext. apply Z.mod_le; [|lia]. destruct (bp_base _ _ _ _ _ P). lia.
Qed.

(** ** The stream *)

(** What the documentation of [OfferStream::step] promises of the tip: the entry is there, it has
    not expired, neither amount is zero, and its owner has funds for it in the view. *)
Record takeable {BN : BigNum} (sha512half : list Z → Z) (base incr when : Z) (os : OfferStream) (w : World SLE) (v : LedgerEntrySet SLE) : Prop := mkTakeable {
  tk_when : os_when os = when;
  tk_more : ∃ entry o offer w0 v0 funds,
    bt_entry (os_tip os) = Some entry ∧ w_obj w0 !! h_ptr entry = Some (ltOFFER o)
    ∧ (∀ e, of_expiration o = Some e → when < e)
    ∧ os_offer os = Some offer ∧ m_entry offer = h_index entry ∧ m_quality offer = bt_quality (os_tip os) ∧ m_account offer = of_account o
    ∧ m_amounts offer = mkAmounts (sfTakerPays o) (sfTakerGets o) ∧ fully_consumed offer = false
    ∧ accountFunds sha512half base incr (of_account o) (sfTakerGets o) fhZERO_IF_FROZEN (w0, v0) = Ok (w, v, funds) ∧ 0 < signum funds
}.

Lemma view_Ok {A} (c : M A) w v vc w' v' vc' a : view c (w, (v, vc)) = Ok (w', (v', vc'), a) ↔ c (w, v) = Ok (w', v', a) ∧ vc' = vc.
Proof. unfold view. destruct (c (w, v)) as [[[w1 v1] a1]|]; cbn; naive_solver. Qed.

Lemma V_bind_Ok {A B} (c : V A) (k : A → V B) st st' b :
  V_bind _ _ k c st = Ok (st', b) → ∃ st1 a, c st = Ok (st1, a) ∧ k a st1 = Ok (st', b).
Proof. unfold V_bind. destruct (c st) as [[st1 a]|]; cbn; [|done]. intros H. by exists st1, a. Qed.

Theorem stream_takeable {BN : BigNum} sha512half base incr fuel os w v vc w' v' vc' os' :
  OfferStream_step sha512half base incr fuel os (w, (v, vc)) = Ok (w', (v', vc'), (os', true)) →
  takeable sha512half base incr (os_when os) os' w' v'.
Proof.
  revert os w v vc. induction fuel as [|fuel IH]; intros os w v vc; [done|]. cbn [OfferStream_step].
  intros ([w1 [v1 vc1]] & [t more] & H1 & H)%V_bind_Ok. destruct more; cbn [negb] in H; [|by injection H].
  destruct (bt_entry t) as [entry|] eqn:Et.
  2: { apply V_bind_Ok in H as ([w2 [v2 vc2]] & [] & _ & H). apply V_bind_Ok in H as ([w3 [v3 vc3]] & [] & _ & H). by apply IH in H. }
  apply V_bind_Ok in H as ([w2 [v2 vc2]] & o & H2 & H). apply view_Ok in H2 as [H2 ->].
  destruct (match of_expiration o with Some e => e <=? _ | None => false end) eqn:Ee.
  { apply V_bind_Ok in H as ([w3 [v3 vc3]] & [] & _ & H). by apply IH in H. }
  destruct (amounts_empty _) eqn:Ea.
  { apply V_bind_Ok in H as ([w3 [v3 vc3]] & [] & _ & H). by apply IH in H. }
  apply V_bind_Ok in H as ([w3 [v3 vc3]] & funds & H3 & H). apply view_Ok in H3 as [H3 ->].
  destruct (signum funds <=? 0) eqn:Ef.
  { apply V_bind_Ok in H as ([w4 [v4 vc4]] & f & _ & H). apply V_bind_Ok in H as ([w5 [v5 vc5]] & [] & _ & H). by apply IH in H. }
  injection H as <- <- <- <-. zbool. split; [done|]. unfold get_offer in H2. apply M_bind_Ok in H2 as (w4 & v4 & x & H4 & H5).
  unfold read_sle in H4. cbn in H4. destruct (w_obj w1 !! h_ptr entry) as [y|] eqn:Ey; [|done]. injection H4 as <- <- <-.
  destruct y; try done. injection H5 as <- <- ->.
  eexists entry, o, _, w1, v1, funds. cbn [set_offer set_tip os_tip os_offer]. split_and!; try done.
  intros e He. rewrite He in Ee. zbool. exact Ee.
Qed.

(** ** Witness: two owners, three offers at two prices *)

(** A hash function that keeps accounts, pages and books apart *)
Definition hash2 (l : list Z) : Z :=
  if (length l =? 42)%nat then 2 ^ 200 + be_val (drop 2 l) mod 2 ^ 184 else if (length l =? 22)%nat then be_val l else 2 ^ 210.

(** The root of a directory: no page, and told from other roots by its last 120 bits *)
Definition plain_root (r : Z) : Prop := 0 < r < 2 ^ 200 ∨ 2 ^ 210 <= r < 2 ^ 256.

Lemma hash2_idx r n : plain_root r → is_u64 n → n ≠ 0 → getDirNodeIndex hash2 r n = 2 ^ 200 + ((r mod 2 ^ 120) * 2 ^ 64 + n).
Proof.
  intros Hr Hn H0. unfold getDirNodeIndex. rewrite (proj2 (Z.eqb_neq n 0) H0). cbn [negb]. unfold hash2, add16, add64, add256.
  rewrite !length_app, !be_bytes_length. cbn [Nat.add Nat.eqb]. f_equal.
  rewrite drop_app_length' by (by rewrite be_bytes_length). rewrite be_val_app, be_bytes_length.
  unfold is_u64, plain_root in *. rewrite !be_val_bytes_id by (change (256 ^ Z.of_nat 8) with (2 ^ 64); change (256 ^ Z.of_nat 32) with (2 ^ 256); lia).
  change (256 ^ Z.of_nat 8) with (2 ^ 64). rewrite (Z.div_mod r (2 ^ 120)) at 1 by lia.
  replace ((2 ^ 120 * (r / 2 ^ 120) + r mod 2 ^ 120) * 2 ^ 64 + n) with ((r mod 2 ^ 120) * 2 ^ 64 + n + (r / 2 ^ 120) * 2 ^ 184) by lia.
  rewrite Z.mod_add by lia. apply Z.mod_small. pose proof (Z.mod_pos_bound r (2 ^ 120)). lia.
Qed.

(** A page is no root. *)
Lemma hash2_page r n : plain_root r → is_u64 n → n ≠ 0 → 2 ^ 200 <= getDirNodeIndex hash2 r n < 2 ^ 210.
Proof.
  intros Hr Hn H0. rewrite hash2_idx by done. pose proof (Z.mod_pos_bound r (2 ^ 120)). unfold is_u64 in Hn. lia.
Qed.

Lemma hash2_same r r' n n' :
  plain_root r → plain_root r' → is_u64 n → is_u64 n' → getDirNodeIndex hash2 r n = getDirNodeIndex hash2 r' n' →
  n = n' ∧ (r = r' ∨ r mod 2 ^ 120 = r' mod 2 ^ 120).
Proof.
  intros Hr Hr' Hn Hn' H. pose proof (hash2_page r n Hr Hn) as H1. pose proof (hash2_page r' n' Hr' Hn') as H2.
  assert (getDirNodeIndex hash2 r 0 = r ∧ getDirNodeIndex hash2 r' 0 = r') as [E E'] by done. unfold plain_root in *.
  destruct (decide (n = 0)) as [->|H0], (decide (n' = 0)) as [->|H0'].
  - split; [done|]. left. congruence.
  - specialize (H2 H0'). lia.
  - specialize (H1 H0). lia.
  - rewrite !hash2_idx in H by done. unfold is_u64 in *. pose proof (Z.mod_pos_bound r (2 ^ 120)). pose proof (Z.mod_pos_bound r' (2 ^ 120)). lia.
Qed.

Definition demo_book : Book := Issue.mkBook (mkIssue 5 9) (mkIssue 0 0).
Definition price (q : Z) : Z := 2 ^ 210 + q.
Definition owner7 : Z := 79 * 2 ^ 160 + 7.
Definition owner9 : Z := 79 * 2 ^ 160 + 9.
Definition demo_offer (owner q : Z) : SLE := ltOFFER (mkOfferEntry owner 1 demo_amount (swt 100) (price q) 0 (Some 0) None no_thread).
Definition demo_page_of (l : list Z) (r : Z) : SLE := ltDIR_NODE (mkDirNode l 0 0 r []).
Definition demo_orders : list (Z * SLE) :=
  [(11, demo_offer 7 5); (12, demo_offer 9 5); (13, demo_offer 7 8);
   (owner7, demo_page_of [11; 13] owner7); (owner9, demo_page_of [12] owner9);
   (97 * 2 ^ 160 + 7, ltACCOUNT_ROOT (demo_account 7 1000 2)); (97 * 2 ^ 160 + 9, ltACCOUNT_ROOT (demo_account 9 1000 1));
   (price 5, demo_page_of [12; 11] (price 5)); (price 8, demo_page_of [13] (price 8))].
Definition demo_dirs (r : Z) : pages :=
  if r =? owner7 then [(0, [11; 13])] else if r =? owner9 then [(0, [12])]
  else if r =? price 5 then [(0, [12; 11])] else if r =? price 8 then [(0, [13])] else [].
Notation demo_roots := ([price 5; price 8] ++ (getOwnerDirIndex hash2 <$> [7; 9])).

Lemma demo_roots_eq : demo_roots = [price 5; price 8; owner7; owner9].
Proof. vm_compute. reflexivity. Qed.
Lemma demo_bases : getBookBase hash2 demo_book = 2 ^ 210 ∧ getQualityNext (2 ^ 210) = 2 ^ 210 + 2 ^ 64.
Proof. split; vm_compute; reflexivity. Qed.

Lemma demo_plain r : r ∈ demo_roots → plain_root r.
Proof.
  rewrite demo_roots_eq. revert r. apply Forall_forall. assert (∀ r, bool_decide (0 < r < 2 ^ 200) || bool_decide (2 ^ 210 <= r < 2 ^ 256) = true → plain_root r) as H.
  { intros r H. apply orb_true_iff in H as [H|H]; apply bool_decide_eq_true in H; [by left|by right]. }
  repeat (constructor; [apply H; vm_compute; reflexivity|]). constructor.
Qed.
Lemma demo_told r r' : r ∈ demo_roots → r' ∈ demo_roots → r mod 2 ^ 120 = r' mod 2 ^ 120 → r = r'.
Proof.
  rewrite demo_roots_eq.
  assert (Forall (λ r, Forall (λ r', r mod 2 ^ 120 = r' mod 2 ^ 120 → r = r') [price 5; price 8; owner7; owner9]) [price 5; price 8; owner7; owner9])
    as H by (apply (bool_decide_unpack _); vm_compute; exact I).
  rewrite Forall_forall in H. intros Hr. specialize (H r Hr). rewrite Forall_forall in H. apply H.
Qed.

Lemma demo_book_place : place hash2 (2 ^ 210) (2 ^ 210 + 2 ^ 64) [price 5; price 8] [7; 9].
Proof.
  split.
  - intros r Hr. pose proof (demo_plain r Hr) as Hp. split.
    + intros n Hn E. destruct (decide (n = 0)) as [->|H0]; [|pose proof (hash2_page r n Hp Hn H0); lia].
      change (r = 0) in E. unfold plain_root in Hp. lia.
    + intros n n' Hn Hn' E. by apply (hash2_same r r n n').
  - intros r r' Hr Hr' Hne n Hn n' Hn' E. pose proof (demo_plain r Hr) as Hp. pose proof (demo_plain r' Hr') as Hp'.
    destruct (hash2_same r r' n n' Hp Hp' Hn Hn' E) as [_ [->|H]]; [done|]. by apply Hne, demo_told.
  - assert (Forall (λ a, Forall (λ q, getOwnerDirIndex hash2 a ≠ q) [price 5; price 8]) [7; 9]) as H by (apply (bool_decide_unpack _); vm_compute; exact I).
    rewrite Forall_forall in H. intros a q Ha. specialize (H a Ha). rewrite Forall_forall in H. apply H.
  - apply Forall_forall, (bool_decide_unpack _). vm_compute. exact I.
  - apply Forall_forall, (bool_decide_unpack _). vm_compute. exact I.
  - repeat constructor.
  - by split.
Qed.

Definition demo_orders_map (j : Z) : option SLE := om_find j demo_orders.

Lemma absent {V} (l : list (Z * V)) i : i ∉ l.*1 → om_find i l = None.
Proof. induction l as [|[k v] l IH]; [done|]. cbn. intros [Hk Hl]%not_elem_of_cons. rewrite (proj2 (Z.eqb_neq i k)) by done. by apply IH. Qed.

Lemma demo_absent (P : Z → Prop) `{∀ k, Decision (P k)} i : bool_decide (Forall (λ k, ¬ P k) demo_orders.*1) = true → P i → demo_orders_map i = None.
Proof. intros Hall%bool_decide_eq_true Hi. apply absent. rewrite Forall_forall in Hall. intros Hin. by apply (Hall i Hin). Qed.

Lemma single_page r l v :
  plain_root r → demo_orders_map r = Some v → to_dir v = Some (mkDirNode l 0 0 r []) → dir_rep hash2 r demo_orders_map [(0, l)].
Proof.
  intros Hr Hv Hd. split.
  - intros n Hn Hin. apply (demo_absent (λ k, 2 ^ 200 <= k < 2 ^ 210)); [vm_compute; reflexivity|]. apply hash2_page; [done|done|set_solver].
  - split; [done|]. split; [|split; [done|split; [repeat constructor|constructor; [by split|constructor]]]].
    exists (mkDirNode l 0 0 r []). split; [|done]. change (getDirNodeIndex hash2 r 0) with r. by rewrite Hv.
Qed.

Lemma demo_dir_reps r : r ∈ demo_roots → dir_rep hash2 r demo_orders_map (demo_dirs r).
Proof.
  intros H. pose proof (demo_plain r H) as Hp. rewrite demo_roots_eq in H.
  repeat (apply elem_of_cons in H as [->|H]); [..|by apply not_elem_of_nil in H].
  - exact (single_page (price 5) [12; 11] (demo_page_of [12; 11] (price 5)) Hp ltac:(vm_compute; reflexivity) eq_refl).
  - exact (single_page (price 8) [13] (demo_page_of [13] (price 8)) Hp ltac:(vm_compute; reflexivity) eq_refl).
  - exact (single_page owner7 [11; 13] (demo_page_of [11; 13] owner7) Hp ltac:(vm_compute; reflexivity) eq_refl).
  - exact (single_page owner9 [12] (demo_page_of [12] owner9) Hp ltac:(vm_compute; reflexivity) eq_refl).
Qed.

Lemma demo_offer_ok owner n q x :
  bool_decide (owner ∈ [7; 9]) = true → demo_orders_map x = Some (demo_offer owner q) →
  demo_orders_map (getAccountRootIndex hash2 owner) = Some (ltACCOUNT_ROOT (demo_account owner 1000 n)) →
  bool_decide (x ∈ entries (demo_dirs (getOwnerDirIndex hash2 owner))) = true → (demo_dirs (getOwnerDirIndex hash2 owner)).*1 = [0] →
  offer_ok hash2 [7; 9] demo_orders_map demo_dirs (price q) 0 x.
Proof.
  intros Ho%bool_decide_eq_true Hx Ha He%bool_decide_eq_true Hn. eexists _, 0, _. split_and!; [exact Hx|done..|exact Ho| |exact Ha].
  apply entries_on_page in He as [k (l & Hl & Hk)]. exists l. split; [|done].
  assert (k ∈ [0]) as Hk0 by (rewrite <- Hn; apply list_elem_of_fmap; by exists (k, l)). apply list_elem_of_singleton in Hk0 as ->. done.
Qed.

Lemma demo_in_order : book hash2 (2 ^ 210) (2 ^ 210 + 2 ^ 64) [price 5; price 8] [7; 9] demo_orders_map demo_dirs.
Proof.
  split.
  - exact demo_dir_reps.
  - intros i Hi Hn. apply (demo_absent (λ k, 2 ^ 210 < k ∧ k ∉ [price 5; price 8])); [vm_compute; reflexivity|]. split; [lia|done].
  - vm_compute; reflexivity.
  - intros q n x Hq (l & Hl & Hx). repeat (apply elem_of_cons in Hq as [->|Hq]); [..|by apply not_elem_of_nil in Hq].
    + change (demo_dirs (price 5)) with [(0, [12; 11])] in Hl. apply list_elem_of_singleton in Hl. injection Hl as -> ->.
      repeat (apply elem_of_cons in Hx as [->|Hx]); [..|by apply not_elem_of_nil in Hx].
      * apply (demo_offer_ok 9 1); vm_compute; reflexivity.
      * apply (demo_offer_ok 7 2); vm_compute; reflexivity.
    + change (demo_dirs (price 8)) with [(0, [13])] in Hl. apply list_elem_of_singleton in Hl. injection Hl as -> ->.
      apply list_elem_of_singleton in Hx as ->. apply (demo_offer_ok 7 2); vm_compute; reflexivity.
  - apply (bool_decide_unpack _). vm_compute. exact I.
Qed.

Lemma book_drained_witness :
  ∃ w s, drain hash2 4 3 (newBookTip hash2 demo_book) (mkWorld ∅ 0, newLES demo_orders 0 false) = Ok (w, s, [(12, 5); (11, 5); (13, 8)])
    ∧ drained hash2 (2 ^ 210) (2 ^ 210 + 2 ^ 64) [price 5; price 8] [7; 9] demo_orders_map demo_dirs None w s.
Proof.
  destruct demo_bases as [Eb Ee].
  pose proof (book_drained hash2 demo_book [price 5; price 8] [7; 9] 4 3 (mkWorld ∅ 0) (newLES demo_orders 0 false) demo_orders_map demo_dirs None) as H.
  cbv zeta in H. rewrite Eb, Ee in H.
  destruct (H demo_book_place demo_in_order) as (w & s & Hd & _ & _ & Hr); [..|exists w, s; exact (conj Hd Hr)].
  - split; [|done]. split; [|done]. apply inv_new. repeat (constructor; [|repeat constructor; vm_compute; reflexivity]); constructor.
  - apply Forall_forall. intros [k v] Hk. cbn.
    assert (Forall (λ k, 0 < k) demo_orders.*1) as Hall by (apply (bool_decide_unpack _); vm_compute; exact I).
    rewrite Forall_forall in Hall. apply Hall, list_elem_of_fmap. by exists (k, v).
  - cbn. lia.
  - intros r. unfold demo_dirs. repeat case_match; cbn; lia.
  - vm_compute. lia.
Defined.
