(* ===== verification/Tx.v ===== *)
(** * Transactions

    The transactions of [src/src/protocol/impl/TxFormats.cpp] with the fields the transactors
    read, their flags ([src/src/protocol/TxFlags.h]) and the accessors of
    [src/src/protocol/STTx.h].  A field that is optional in its template is an [option]; an
    accessor reads an absent one as the default value of its type, as [STObject::getField...]
    do.  The cached state of the signature, a mutable member of the class, is a field. *)

From S2P Require Import Prelude Issue STAmount LedgerObjects.

(** ** Flags *)

Definition tfUniversal : Z := 0x80000000.
Definition mask (allowed : Z) : Z := u32 (Z.lnot allowed).
Definition tfUniversalMask : Z := mask tfUniversal.
Definition requireDestTag : Z := 0x00010000.
Definition tfOptionalDestTag : Z := 0x00020000.
Definition tfRequireAuth : Z := 0x00040000.
Definition tfOptionalAuth : Z := 0x00080000.
Definition tfDisallowSWT : Z := 0x00100000.
Definition tfAllowSWT : Z := 0x00200000.
Definition tfAccountSetMask : Z :=
  mask (Z.lor tfUniversal (Z.lor requireDestTag (Z.lor tfOptionalDestTag (Z.lor tfRequireAuth
    (Z.lor tfOptionalAuth (Z.lor tfDisallowSWT tfAllowSWT)))))).
Definition asfRequireDest : Z := 1.
Definition asfRequireAuth : Z := 2.
Definition asfDisallowSWT : Z := 3.
Definition asfDisableMaster : Z := 4.
Definition asfAccountTxnID : Z := 5.
Definition asfNoFreeze : Z := 6.
Definition asfGlobalFreeze : Z := 7.
Definition asfDefaultSkywell : Z := 8.
Definition tfNoSkywellDirect : Z := 0x00010000.
Definition tfPartialPayment : Z := 0x00020000.
Definition tfLimitQuality : Z := 0x00040000.
Definition tfPaymentMask : Z :=
  mask (Z.lor tfUniversal (Z.lor tfPartialPayment (Z.lor tfLimitQuality tfNoSkywellDirect))).
Definition tfSetfAuth : Z := 0x00010000.
Definition tfSetNoSkywell : Z := 0x00020000.
Definition tfClearNoSkywell : Z := 0x00040000.
Definition tfSetFreeze : Z := 0x00100000.
Definition tfClearFreeze : Z := 0x00200000.
Definition tfTrustSetMask : Z :=
  mask (Z.lor tfUniversal (Z.lor tfSetfAuth (Z.lor tfSetNoSkywell (Z.lor tfClearNoSkywell (Z.lor tfSetFreeze tfClearFreeze))))).
Definition tfRelationSetMask : Z := mask tfUniversal.
Definition tfAccountMergeMask : Z := mask tfUniversal.

(** ** Fields *)

Notation Blob := (list Z).

(** Common fields; [tx_hash] is the identifier, the hash of the serialized transaction. *)
Record TxCommon := mkTxCommon {
  tx_flags : Z;
  tx_source : Account;
  tx_sequence : Z;
  tx_previous : option Z;
  tx_last_ledger : option Z;
  tx_account_txn_id : option Z;
  tx_fee : option STAmount;
  tx_signing_key : Blob;
  tx_signature : Blob;
  tx_hash : Z
}.

Record STPathElement := mkPathElement { pe_type : Z; pe_account : Account; pe_currency : Currency; pe_issuer : Account }.
Notation STPathSet := (list (list STPathElement)).

Record PaymentTx := mkPaymentTx {
  py_destination : Account;
  py_amount : STAmount;
  py_send_max : option STAmount;
  py_paths : option STPathSet;
  py_tag : option Z
}.

Record AccountSetTx := mkAccountSetTx {
  as_set_flag : option Z;
  as_clear_flag : option Z;
  as_email : option Z;
  as_locator : option Z;
  as_message_key : option Blob;
  as_domain : option Blob;
  as_rate : option Z
}.

Record SignSetTx := mkSignSetTx {
  ss_master_weight : option Z;
  ss_quorum : option Z;
  ss_quorum_high : option Z;
  ss_entries : option (list (Account * Z))
}.

(** The operations of a [ttOPERATION] are [None] when one of them is not a legal transaction. *)
Inductive STTx :=
  | mkSTTx (common : TxCommon) (sig_state : option bool) (body : TxBody)
with TxBody :=
  | ttPAYMENT (p : PaymentTx)
  | ttACCOUNT_SET (p : AccountSetTx)
  | ttREGULAR_KEY_SET (key : option Account)
  | ttTRUST_SET (limit : option STAmount) (qualityIn qualityOut : option Z)
  | ttREL_SET (target : Account) (type : Z) (limit : option STAmount)
  | ttREL_DEL (target : Account) (type : Z) (limit : option STAmount)
  | ttAMENDMENT (amendment : Z)
  | ttFEE (fees : FeeSettings)
  | ttTICKET_CREATE (target : option Account) (expiration : option Z)
  | ttTICKET_CANCEL (ticket : Z)
  | ttNICKNAME_SET (domain nickname : option Blob)
  | ttACCOUNT_MERGE (destination : Account)
  | ttMNGFEE (feeAccount : Account)
  | ttMNGISSUER (issuerAccount : Account)
  | ttBLKLISTSET (account : Account)
  | ttBLKLISTRMV (account : Account)
  | ttSIGN_SET (p : SignSetTx)
  | ttMESSAGE (destination : Account)
  | ttOPERATION (operations : option (list STTx)) (signs : option (list Blob)).

Definition tx_common (t : STTx) : TxCommon := let '(mkSTTx c _ _) := t in c.
Definition sig_state (t : STTx) : option bool := let '(mkSTTx _ s _) := t in s.
Definition tx_body (t : STTx) : TxBody := let '(mkSTTx _ _ b) := t in b.

Definition getFlags (t : STTx) : Z := tx_flags (tx_common t).
Definition getSourceAccount (t : STTx) : Account := tx_source (tx_common t).
Definition getSequence (t : STTx) : Z := tx_sequence (tx_common t).
Definition getTransactionFee (t : STTx) : STAmount := default amount_zero (tx_fee (tx_common t)).
Definition getSigningPubKey (t : STTx) : Blob := tx_signing_key (tx_common t).
Definition getSignature (t : STTx) : Blob := tx_signature (tx_common t).
Definition getTransactionID (t : STTx) : Z := tx_hash (tx_common t).

Definition isKnownGood (t : STTx) : bool := match sig_state t with Some b => b | None => false end.
Definition isKnownBad (t : STTx) : bool := match sig_state t with Some b => negb b | None => false end.
Definition setGood (t : STTx) : STTx := mkSTTx (tx_common t) (Some true) (tx_body t).
Definition setBad (t : STTx) : STTx := mkSTTx (tx_common t) (Some false) (tx_body t).

(** [getSTTxs]: the operations of a batch, or the transaction itself; [None] is the exception. *)
Definition getSTTxs (t : STTx) : option (list STTx) :=
  match tx_body t with ttOPERATION ops _ => ops | _ => Some [t] end.

(** [getSignAccount], with the account of a public key as parameter: the accounts that signed *)
Definition getSignAccount (accountID : Blob → Account) (t : STTx) : list Account :=
  match tx_body t with
  | ttOPERATION _ (Some signs) => accountID <$> signs
  | _ => [accountID (getSigningPubKey t)]
  end.
