(* ===== verification/LedgerQueries.v ===== *)
(** * Questions to a ledger

    What the transactors ask of a ledger below the set they work on: the black list, the fee and
    issuer accounts, the fee settings and the items of an owner directory
    ([src/src/ledger/Ledger.cpp], [Ledger.h]), and [accountFundsCheck] with
    [AuthorizeAccountGet] of [src/src/ledger/LedgerEntrySet.cpp], which decide whether an
    account can fund a payment next to its offers and frozen amounts.  A ledger is the sorted
    map of its entries; the configuration is a record.  The theorem [visit_every_item] shows that
    the walk over a directory ends and misses nothing. *)

From S2P Require Import Prelude OrdMap Issue BigNum STAmount Quality Ter Indexes DeferredCredits EntrySet Directory LedgerObjects TrustLines TrustLineProps TrustLineClaims Fees.

(** The settings of [Config] that are read *)
Record Config := mkConfig {
  TRANSACTION_FEE_BASE : Z;
  FEE_DEFAULT : Z;
  FEE_ACCOUNT_RESERVE : Z;
  FEE_OWNER_RESERVE : Z;
  FEE_ACCOUNTID : Account;
  SMNG_ACCOUNTID : Account;
  SISSUER_ACCOUNTID : Account
}.

Section queries.
  Context {BN : BigNum}.
  Variable sha512half : list Z → Z.
  Variable cfg : Config.
  Notation getOwnerDirIndex := (Indexes.getOwnerDirIndex sha512half).

Notation Map := (list (Z * SLE)).

Definition checkBlackList (ledger : Map) (uAccountID : Account) : bool :=
  match om_find (getBlackListIndex sha512half uAccountID) ledger with Some (ltBLACKLIST _) => true | _ => false end.

Definition getFeeAccountID (ledger : Map) : Account :=
  match om_find (getLedgerManageFeeIndex sha512half) ledger with Some (ltMANAGE_FEE a) => a | _ => FEE_ACCOUNTID cfg end.

Definition getIssuerOpAccountID (ledger : Map) : Account :=
  match om_find (getLedgerManageIssuerIndex sha512half) ledger with
  | Some (ltMANAGE_ISSUER a) => a
  | _ => SISSUER_ACCOUNTID cfg
  end.

(** [updateFees]: the settings in force; the reserves of the entry are not read. *)
Definition updateFees (ledger : Map) : FeeSettings :=
  let reserveBase := u32 (FEE_ACCOUNT_RESERVE cfg) in
  let reserveIncrement := u32 (FEE_OWNER_RESERVE cfg) in
  match om_find (getLedgerFeeIndex sha512half) ledger with
  | Some (ltFEE_SETTINGS f) => mkFeeSettings (sfBaseFee f) (sfReferenceFeeUnits f) reserveBase reserveIncrement
  | _ => mkFeeSettings (FEE_DEFAULT cfg) (u32 (TRANSACTION_FEE_BASE cfg)) reserveBase reserveIncrement
  end.

(** [visitAccountItems]: what the callback is given, in order.  A page leads to the next by its
    number; with as much fuel as the ledger has entries the loop has seen every page of a
    directory without cycles. *)
Fixpoint visit_pages (fuel : nat) (ledger : Map) (rootIndex currentIndex : Z) : result (list (option SLE)) :=
  match fuel with
  | O => Throw "does not terminate"
  | S fuel =>
      match om_find currentIndex ledger with
      | Some (ltDIR_NODE d) =>
          let items := (λ node, om_find node ledger) <$> sfIndexes d in
          if sfIndexNext d =? 0 then Ok items
          else
            rest ← visit_pages fuel ledger rootIndex (getDirNodeIndex sha512half rootIndex (sfIndexNext d));
            Ok (items ++ rest)
      | _ => Ok []
      end
  end.
Definition visitAccountItems (ledger : Map) (accountID : Account) : result (list (option SLE)) :=
  visit_pages (S (length ledger)) ledger (getOwnerDirIndex accountID) (getOwnerDirIndex accountID).

(** The entries the callbacks pick: offers, and relations of a type *)
Definition offers_of (items : list (option SLE)) : list OfferEntry :=
  omap (λ i, match i with Some (ltOFFER o) => Some o | _ => None end) items.
Definition relations_of (type : Z) (items : list (option SLE)) : list SkywellState :=
  omap (λ i, match i with Some (ltTrust_STATE t r) => if r =? type then Some t else None | _ => None end) items.

Definition low_limit (t : SkywellState) : STAmount := sd_limit (rs_low t).
Definition high_limit (t : SkywellState) : STAmount := sd_limit (rs_high t).
(** An amount is of an account and a currency. *)
Definition limit_of (x : STAmount) (acct : Account) (cur : Currency) : bool :=
  (Issue.account (mIssue x) =? acct) && (currency (mIssue x) =? cur).

(** The account tied to this one by a relation of type 1 *)
Fixpoint tied_account (acct : Account) (cur : Currency) (l : list SkywellState) : Account :=
  match l with
  | [] => noAccount
  | t :: l =>
      if limit_of (low_limit t) acct cur && (signum (high_limit t) >? 0) then Issue.account (mIssue (high_limit t))
      else if limit_of (high_limit t) acct cur && (signum (low_limit t) >? 0) then Issue.account (mIssue (low_limit t))
      else tied_account acct cur l
  end.
Definition AuthorizeAccountGet (ledger : Map) (acct : Account) (cur : Currency) : result Account :=
  items ← visitAccountItems ledger acct; Ok (tied_account acct cur (relations_of 1 items)).

(** The sums over the offers and over the relations of type 3 *)
Fixpoint add_offers (saTakerGets acc : STAmount) (l : list OfferEntry) : result STAmount :=
  match l with
  | [] => Ok acc
  | o :: l =>
      let g := sfTakerGets o in
      acc ← (if limit_of g (Issue.account (mIssue saTakerGets)) (currency (mIssue saTakerGets)) then op_add acc g else Ok acc);
      add_offers saTakerGets acc l
  end.
Fixpoint add_freezes (acct : Account) (cur : Currency) (acc : STAmount) (l : list SkywellState) : result STAmount :=
  match l with
  | [] => Ok acc
  | t :: l =>
      acc ← (if limit_of (low_limit t) acct cur && (signum (high_limit t) >=? 0) then op_add acc (low_limit t)
             else if limit_of (high_limit t) acct cur && (signum (low_limit t) >=? 0) then op_add acc (high_limit t)
             else Ok acc);
      add_freezes acct cur acc l
  end.
(** What the author has authorized: the last limit of a relation of type 1 in its directory *)
Definition authorized (author : Account) (cur : Currency) (l : list SkywellState) : STAmount :=
  foldl (λ acc t,
    if limit_of (low_limit t) author cur && (signum (low_limit t) >? 0) then low_limit t
    else if limit_of (high_limit t) author cur && (signum (high_limit t) >? 0) then high_limit t
    else acc) amount_zero l.

Variables mReserveBase mReserveIncrement : Z.

Definition accountFundsCheck (acct : Account) (saTakerGets : STAmount) : M Z :=
  ledger ← get_ledger;
  let cur := currency (mIssue saTakerGets) in
  if negb (mIsNative saTakerGets) && (getIssuerOpAccountID ledger =? acct) then mret tesSUCCESS
  else
    items ← lift (visitAccountItems ledger acct);
    saTakerGetsFunded ← lift (add_offers saTakerGets saTakerGets (offers_of items));
    saFreeze ← lift (add_freezes acct cur saTakerGets (relations_of 3 items));
    saFreeze ← lift (op_sub saFreeze saTakerGets);
    ownerFunds ← accountFunds sha512half mReserveBase mReserveIncrement acct saTakerGets fhIGNORE_FREEZE;
    short ← (if is_zero ownerFunds then mret true
             else lift (left ← op_sub ownerFunds saFreeze; op_lt left saTakerGetsFunded));
    if (short : bool) then
      author ← lift (AuthorizeAccountGet ledger acct cur);
      if negb (author =? noAccount) then
        items ← lift (visitAccountItems ledger author);
        let authors := authorized author cur (relations_of 1 items) in
        authorFunds ← accountFunds sha512half mReserveBase mReserveIncrement author saTakerGets fhIGNORE_FREEZE;
        le ← lift (op_le authors authorFunds);
        let authors := if (le : bool) then authors else authorFunds in
        enough ← (if is_zero authors then mret false
                  else lift (sum ← op_add authors ownerFunds; left ← op_sub sum saFreeze; op_ge left saTakerGetsFunded));
        if (enough : bool) then
          need ← lift (diff ← op_sub saTakerGetsFunded ownerFunds; op_add diff saFreeze);
          ter ← accountSend sha512half author acct need;
          mret (if ter =? tesSUCCESS then tesSUCCESS else telINSUF_FUND)
        else mret telINSUF_FUND
      else mret telINSUF_FUND
    else mret tesSUCCESS.

End queries.

(** ** The walk over a directory *)

Section walk.
  Variable sha512half : list Z → Z.
  Variable ledger : list (Z * SLE).
  Variable root : Z.
  Notation m := (λ j, om_find j ledger).
  Notation idx := (getDirNodeIndex sha512half root).

(** From a page on, with fuel for the pages that follow *)
Lemma visit_pages_chain fuel n l pv ps :
  node sha512half root m n l (hd 0 ps.*1) pv → seg sha512half root m n ps 0 → 0 ∉ ps.*1 → (length ps < fuel)%nat →
  visit_pages sha512half fuel ledger root (idx n) = Ok (m <$> entries ((n, l) :: ps)).
Proof.
  revert fuel n l pv. induction ps as [|[k l'] ps IH]; intros [|fuel] n l pv (d & Hd & El & En & _) Hseg Hz Hf; cbn in Hf; try lia.
  all: apply bind_Some in Hd as (x & Hx & Hd); destruct x; try done; injection Hd as ->; cbn [visit_pages]; rewrite Hx; cbn in En; rewrite En.
  - unfold entries. cbn. by rewrite app_nil_r, El.
  - apply not_elem_of_cons in Hz as [Hk Hz]. destruct Hseg as [Hnode Hseg]. rewrite (proj2 (Z.eqb_neq k 0)) by done.
    rewrite (IH fuel k l' n Hnode Hseg Hz) by lia. cbn [mbind result_bind]. unfold entries. cbn [fmap list_fmap snd concat].
    by rewrite El, <- fmap_app.
Qed.

(** Every page is an entry of the ledger. *)
Lemma pages_in_ledger ps :
  om_sorted ledger → good_root sha512half root → dir_rep sha512half root m ps → (length ps <= length ledger)%nat.
Proof.
  intros HL Hroot Hrep. destruct (rep_sorted sha512half root m ps Hrep) as [Hs Hu].
  assert (∀ n, n ∈ ps.*1 → is_Some (m (idx n))) as Hin.
  { intros n [[k l] [-> Hn]]%list_elem_of_fmap. apply list_elem_of_split in Hn as (a & b & ->).
    destruct (rep_facts sha512half root Hroot m a k l b Hrep) as (_ & _ & _ & (d & Hd & _) & _).
    apply bind_Some in Hd as (x & Hx & _). by exists x. }
  rewrite <- (length_fmap fst ps), <- (length_fmap idx), <- (length_fmap fst ledger). apply submseteq_length, NoDup_submseteq.
  - apply NoDup_fmap_2_strong; [|by apply sorted_nodup]. intros x y Hx Hy. rewrite Forall_forall in Hu. by apply (proj2 Hroot); apply Hu.
  - intros i [n [-> Hn]]%list_elem_of_fmap. destruct (Hin n Hn) as [v Hv]. apply om_find_In in Hv; [|done].
    apply list_elem_of_fmap. by exists (idx n, v).
Qed.

End walk.

(** C28: the walk over an owner directory ends and gives the callback every item of every page
    once, in order: as the pages are distinct entries of the ledger, the loop that follows the
    links takes no more steps than the ledger has entries. *)
Theorem visit_every_item sha512half ledger accountID ps :
  let root := getOwnerDirIndex sha512half accountID in
  om_sorted ledger → good_root sha512half root → dir_rep sha512half root (λ j, om_find j ledger) ps →
  visitAccountItems sha512half ledger accountID = Ok ((λ node, om_find node ledger) <$> entries ps).
Proof.
  intros root HL Hroot Hrep. pose proof (pages_in_ledger sha512half ledger root ps HL Hroot Hrep) as Hlen.
  destruct (rep_sorted _ _ _ _ Hrep) as [Hs _]. unfold visitAccountItems. fold root.
  rewrite <- (idx_0 sha512half root : getDirNodeIndex sha512half root 0 = root) at 2. destruct Hrep as [Hnone Hrep], ps as [|[n l] ps].
  - cbn [visit_pages]. by rewrite Hnone by (done || apply not_elem_of_nil).
  - destruct Hrep as (-> & Hn & Hseg & _). eapply visit_pages_chain; [exact Hn|exact Hseg| |cbn in Hlen; lia].
    apply sorted_nodup in Hs. cbn in Hs. by apply NoDup_cons in Hs as [? _].
Qed.

Lemma visit_every_item_witness :
  visitAccountItems hash1 demo_ledger 7 = Ok [Some (ltSKYWELL_STATE demo_line)].
Proof.
  rewrite (visit_every_item hash1 demo_ledger 7 [(0, [demo_line_index])]
    (inv_ledger demo_w demo_s (proj1 (proj1 demo_shows))) (hash1_good_root 7 u160_7) (demo_rep_dir 7 ltac:(by left))).
  vm_compute; reflexivity.
Defined.
