(* ===== verification/Transactor.v ===== *)
(** * Transactor: what every transaction goes through

    Model of [src/src/transaction/transactors/Transactor.h] and [Transactor.cpp].  A transactor
    object is the record [Transactor]; its virtual functions are the record [Virtual], which a
    kind of transaction overrides in part; [apply] runs them in the order of the code over the
    set of entries (the monad [M] of file [LedgerObjects]).  An object is passed on explicitly:
    a function that assigns members returns the object.

    What the application gives a transactor is the record [Env]: the configuration, the closed
    ledger of the ledger master, and of the engine's ledger its number, its parent's close time,
    its transactions, its fee settings and the load fee.  The account of a public key and the
    check of a signature are parameters. *)

From S2P Require Import Prelude OrdMap Issue BigNum STAmount Quality Ter Indexes DeferredCredits EntrySet Directory LedgerObjects TrustLines Fees Tx LedgerQueries.

Record Env := mkEnv {
  e_config : Config;
  e_closed : list (Z * SLE);
  e_ledger_seq : Z;
  e_parent_close : Z;
  e_transactions : list Z;
  e_fees : FeeSettings;
  e_fee_track : LoadFeeTrack.t
}.

(** [Ledger::hasTransaction] *)
Definition hasTransaction (e : Env) (id : Z) : bool := bool_decide (id ∈ e_transactions e).

Record Transactor := mkTransactor {
  mTxn : STTx;
  t_params : Z;
  mTxnAccountID : Account;
  mFeeAccountID : Account;
  mFeeDue : STAmount;
  mPriorBalance : STAmount;
  mSourceBalance : STAmount;
  mTxnAccount : option handle;
  mFeeAccount : option handle;
  mHasAuthKey : bool;
  mSigMaster : bool;
  mSigningPubKey : Blob
}.

(** The constructor; accounts and amounts are zero by default. *)
Definition newTransactor (txn : STTx) (params : Z) : Transactor :=
  mkTransactor txn params 0 0 amount_zero amount_zero amount_zero None None false false [].

Definition set_txn (t : Transactor) (x : STTx) : Transactor :=
  mkTransactor x (t_params t) (mTxnAccountID t) (mFeeAccountID t) (mFeeDue t) (mPriorBalance t) (mSourceBalance t)
    (mTxnAccount t) (mFeeAccount t) (mHasAuthKey t) (mSigMaster t) (mSigningPubKey t).
Definition set_ids (t : Transactor) (src fee : Account) : Transactor :=
  mkTransactor (mTxn t) (t_params t) src fee (mFeeDue t) (mPriorBalance t) (mSourceBalance t)
    (mTxnAccount t) (mFeeAccount t) (mHasAuthKey t) (mSigMaster t) (mSigningPubKey t).
Definition set_key (t : Transactor) (k : Blob) : Transactor :=
  mkTransactor (mTxn t) (t_params t) (mTxnAccountID t) (mFeeAccountID t) (mFeeDue t) (mPriorBalance t) (mSourceBalance t)
    (mTxnAccount t) (mFeeAccount t) (mHasAuthKey t) (mSigMaster t) k.
Definition set_accounts (t : Transactor) (src fee : option handle) : Transactor :=
  mkTransactor (mTxn t) (t_params t) (mTxnAccountID t) (mFeeAccountID t) (mFeeDue t) (mPriorBalance t) (mSourceBalance t)
    src fee (mHasAuthKey t) (mSigMaster t) (mSigningPubKey t).
Definition set_fee_due (t : Transactor) (x : STAmount) : Transactor :=
  mkTransactor (mTxn t) (t_params t) (mTxnAccountID t) (mFeeAccountID t) x (mPriorBalance t) (mSourceBalance t)
    (mTxnAccount t) (mFeeAccount t) (mHasAuthKey t) (mSigMaster t) (mSigningPubKey t).
Definition set_balances (t : Transactor) (prior source : STAmount) (auth : bool) : Transactor :=
  mkTransactor (mTxn t) (t_params t) (mTxnAccountID t) (mFeeAccountID t) (mFeeDue t) prior source
    (mTxnAccount t) (mFeeAccount t) auth (mSigMaster t) (mSigningPubKey t).
Definition set_source_balance (t : Transactor) (x : STAmount) : Transactor := set_balances t (mPriorBalance t) x (mHasAuthKey t).
Definition set_sig_master (t : Transactor) : Transactor :=
  mkTransactor (mTxn t) (t_params t) (mTxnAccountID t) (mFeeAccountID t) (mFeeDue t) (mPriorBalance t) (mSourceBalance t)
    (mTxnAccount t) (mFeeAccount t) (mHasAuthKey t) true (mSigningPubKey t).

(** The virtual functions *)
Record Virtual := mkVirtual {
  v_preCheck : Transactor → M (Transactor * Z);
  v_checkSeq : Transactor → M Z;
  v_payFee : Transactor → M (Transactor * Z);
  v_calculateBaseFee : Transactor → M Z;
  v_checkSig : Transactor → M (Transactor * Z);
  v_mustHaveValidAccount : bool;
  v_doApply : Transactor → M Z
}.

(** Write a function of the account through the pointer. *)
Definition edit_account (h : handle) (f : AccountRoot → AccountRoot) : M () :=
  a ← get_account h; set_account h (f a).

Section transactor.
  Context {BN : BigNum}.
  Variable sha512half : list Z → Z.
  Variable accountID : Blob → Account.
  Variable checkSign : STTx → bool.
  Variable e : Env.
  Notation getAccountRootIndex := (Indexes.getAccountRootIndex sha512half).

(** ** The functions of the base class *)

Definition preCheck (t : Transactor) : Transactor * Z :=
  let t := set_ids t (getSourceAccount (mTxn t)) (getFeeAccountID sha512half (e_config e) (e_closed e)) in
  if mTxnAccountID t =? 0 then (t, temBAD_SRC_ACCOUNT)
  else if checkBlackList sha512half (e_closed e) (mTxnAccountID t) then (t, telBLKLIST)
  else
    let t := set_key t (getSigningPubKey (mTxn t)) in
    if negb (isKnownGood (mTxn t)) then
      if isKnownBad (mTxn t) || (negb (flag (t_params t) tapNO_CHECK_SIGN) && negb (checkSign (mTxn t)))
      then (set_txn t (setBad (mTxn t)), temINVALID)
      else (set_txn t (setGood (mTxn t)), tesSUCCESS)
    else (t, tesSUCCESS).

Definition checkSeq (t : Transactor) : M Z :=
  h ← deref (mTxnAccount t);
  a ← get_account h;
  let t_seq := getSequence (mTxn t) in
  let a_seq := ar_sequence a in
  if negb (t_seq =? a_seq) then
    if a_seq <? t_seq then mret terPRE_SEQ
    else if hasTransaction e (getTransactionID (mTxn t)) then mret tefALREADY
    else mret tefPAST_SEQ
  else if match tx_account_txn_id (tx_common (mTxn t)) with
          | Some id => negb (default 0 (ar_txn_id a) =? id)
          | None => false
          end then mret tefWRONG_PRIOR
  else if match tx_last_ledger (tx_common (mTxn t)) with Some n => e_ledger_seq e >? n | None => false end
  then mret tefMAX_LEDGER
  else
    edit_account h (λ a, set_sequence a (u32 (t_seq + 1)));;
    edit_account h (λ a, match ar_txn_id a with Some _ => set_txn_id a (Some (getTransactionID (mTxn t))) | None => a end);;
    mret tesSUCCESS.

Definition payFee (t : Transactor) : M (Transactor * Z) :=
  let saPaid := getTransactionFee (mTxn t) in
  if negb (isLegalNet saPaid) then mret (t, temBAD_AMOUNT)
  else
    low ← (if flag (t_params t) tapOPEN_LEDGER then lift (op_lt saPaid (mFeeDue t)) else mret false);
    if (low : bool) then mret (t, telINSUF_FEE_P)
    else if (signum saPaid <? 0) || negb (mIsNative saPaid) then mret (t, temBAD_FEE)
    else if is_zero saPaid then mret (t, tesSUCCESS)
    else
      short ← lift (op_lt (mSourceBalance t) saPaid);
      if (short : bool) then
        if (signum (mSourceBalance t) >? 0) && negb (flag (t_params t) tapOPEN_LEDGER) then
          let t := set_source_balance t (clear (mSourceBalance t)) in
          h ← deref (mTxnAccount t);
          edit_account h (λ a, set_account_balance a (mSourceBalance t));;
          mret (t, tecINSUFF_FEE)
        else mret (t, terINSUF_FEE_B)
      else
        left ← lift (op_sub (mSourceBalance t) saPaid);
        let t := set_source_balance t left in
        h ← deref (mTxnAccount t);
        edit_account h (λ a, set_account_balance a (mSourceBalance t));;
        f ← deref (mFeeAccount t);
        a ← get_account f;
        sum ← lift (op_add (ar_balance a) saPaid);
        set_account f (set_account_balance a sum);;
        mret (t, tesSUCCESS).

Definition calculateBaseFee (t : Transactor) : M Z := mret (u64 (TRANSACTION_FEE_BASE (e_config e))).

(** [mEngine->getLedger ()->scaleFeeLoad (fee, mParams & tapADMIN)] *)
Definition scaleFeeLoad (fee params : Z) : Z :=
  LoadFeeTrack.scaleFeeLoad (e_fee_track e) fee (sfBaseFee (e_fees e)) (sfReferenceFeeUnits (e_fees e)) (flag params tapADMIN).

Definition checkSig (t : Transactor) : M (Transactor * Z) :=
  if flag (t_params t) tapPRE_CHECKED then
    mret (if flag (t_params t) tapMASTER_SIGN then set_sig_master t else t, tesSUCCESS)
  else
    let signing_account := accountID (mSigningPubKey t) in
    if signing_account =? mTxnAccountID t then
      h ← deref (mTxnAccount t);
      a ← get_account h;
      if flag (ar_flags a) lsfDisableMaster then mret (t, tefMASTER_DISABLED)
      else mret (set_sig_master t, tesSUCCESS)
    else if negb (mHasAuthKey t) then mret (t, temBAD_AUTH_MASTER)
    else
      h ← deref (mTxnAccount t);
      a ← get_account h;
      if signing_account =? default 0 (sfRegularKey a) then mret (t, tesSUCCESS) else mret (t, tefBAD_AUTH).

(** ** [apply] *)

Definition calculateFee (v : Virtual) (t : Transactor) : M Transactor :=
  fee ← v_calculateBaseFee v t; mret (set_fee_due t (mkNative (scaleFeeLoad fee (t_params t)) false)).

(** The fee account, which is made when it does not exist *)
Definition need_fee_account (t : Transactor) : M Transactor :=
  match mFeeAccount t with
  | Some _ => mret t
  | None =>
      f ← les_create (getAccountRootIndex (mFeeAccountID t)) (ltACCOUNT_ROOT new_account);
      edit_account f (λ a, set_account_id a (mFeeAccountID t));;
      edit_account f (λ a, set_sequence a 1);;
      mret (set_accounts t (mTxnAccount t) (Some f))
  end.

(** [if (!(mParams & tapPRE_CHECKED))]: the sequence number and the fee *)
Definition charge (v : Virtual) (t : Transactor) : M (Transactor * Z) :=
  if flag (t_params t) tapPRE_CHECKED then mret (t, tesSUCCESS)
  else
    ter ← v_checkSeq v t;
    if negb (ter =? tesSUCCESS) then mret (t, ter) else t ← need_fee_account t; v_payFee v t.

Definition modify_if (o : option handle) : M () := match o with Some h => les_modify h | None => mret () end.

(** After the accounts are found *)
Definition apply_to (v : Virtual) (t : Transactor) : M (Transactor * Z) :=
  '(t, ter) ← charge v t;
  if negb (ter =? tesSUCCESS) then mret (t, ter)
  else
    '(t, ter) ← v_checkSig v t;
    if negb (ter =? tesSUCCESS) then mret (t, ter)
    else
      modify_if (mTxnAccount t);;
      modify_if (mFeeAccount t);;
      ter ← v_doApply v t;
      mret (t, ter).

Definition apply (v : Virtual) (t : Transactor) : M (Transactor * Z) :=
  '(t, ter) ← v_preCheck v t;
  if negb (ter =? tesSUCCESS) then mret (t, ter)
  else
    src ← les_cache (getAccountRootIndex (mTxnAccountID t));
    fee ← les_cache (getAccountRootIndex (mFeeAccountID t));
    t ← calculateFee v (set_accounts t src fee);
    match src with
    | None => if v_mustHaveValidAccount v then mret (t, terNO_ACCOUNT) else apply_to v t
    | Some h =>
        a ← get_account h;
        apply_to v (set_balances t (ar_balance a) (ar_balance a) (match sfRegularKey a with Some _ => true | None => false end))
    end.

(** A transactor that overrides only [preCheck] and [doApply] *)
Definition ordinary (pre : Transactor → M (Transactor * Z)) (doApply : Transactor → M Z) : Virtual :=
  mkVirtual pre checkSeq payFee calculateBaseFee checkSig true doApply.

End transactor.
