(* ===== verification/Transactors.v ===== *)
(** * The kinds of transactions

    The classes of [src/src/transaction/transactors/] that derive from [Transactor], but for
    [Payment] and [Operations] (file [TransactionEngine]): the functions each overrides, with the
    checks in the order of the code.  The fields of the transaction are arguments.  A function
    that reads and writes through [mTxnAccount] does so through its pointer; a group of writes
    to one object with nothing between them is one write. *)

From S2P Require Import Prelude OrdMap Issue BigNum STAmount Quality Ter Indexes DeferredCredits EntrySet Directory LedgerObjects TrustLines Fees Tx LedgerQueries Transactor.

(** [uFlagsOut |= f] and [uFlagsOut &= ~f] *)
Definition set_flag (f flags : Z) : Z := Z.lor flags f.
Definition clear_flag (f flags : Z) : Z := Z.ldiff flags f.

(** ** SetAccount *)

Definition DOMAIN_BYTES_MAX : nat := 256.
Definition PUBLIC_BYTES_MAX : nat := 33.
Definition NICKNAME_BYTES_MAX : nat := 256.

(** A legacy flag of the transaction, or the value of [sfSetFlag] or [sfClearFlag] *)
Definition asks (uTxFlags legacy uFlag asf : Z) : bool := flag uTxFlags legacy || (uFlag =? asf).

(** Set or clear a flag of the account that is not as asked. *)
Definition toggle (bSet bClear : bool) (f uFlagsIn uFlagsOut : Z) : Z :=
  let uFlagsOut := if bSet && negb (flag uFlagsIn f) then set_flag f uFlagsOut else uFlagsOut in
  if bClear && flag uFlagsIn f then clear_flag f uFlagsOut else uFlagsOut.

Definition SetAccount_check (uTxFlags : Z) (p : AccountSetTx) : Z :=
  let uSetFlag := default 0 (as_set_flag p) in
  let uClearFlag := default 0 (as_clear_flag p) in
  if flag uTxFlags tfAccountSetMask then temINVALID_FLAG
  else if negb (uSetFlag =? 0) && (uSetFlag =? uClearFlag) then temINVALID_FLAG
  else if asks uTxFlags tfRequireAuth uSetFlag asfRequireAuth && asks uTxFlags tfOptionalAuth uClearFlag asfRequireAuth
  then temINVALID_FLAG
  else if asks uTxFlags requireDestTag uSetFlag asfRequireDest && asks uTxFlags tfOptionalDestTag uClearFlag asfRequireDest
  then temINVALID_FLAG
  else if asks uTxFlags tfDisallowSWT uSetFlag asfDisallowSWT && asks uTxFlags tfAllowSWT uClearFlag asfDisallowSWT
  then temINVALID_FLAG
  else match as_rate p with
       | Some uRate => if negb (uRate =? 0) && (uRate <? QUALITY_ONE) then temBAD_TRANSFER_RATE else tesSUCCESS
       | None => tesSUCCESS
       end.

(** [uFlagsOut], or the code of an early return; the test of the owner directory is in
    [SetAccount_doApply]. *)
Definition SetAccount_flags (uTxFlags uSetFlag uClearFlag : Z) (sigMaster hasKey : bool) (uFlagsIn : Z) : Z + Z :=
  let out := toggle (asks uTxFlags tfRequireAuth uSetFlag asfRequireAuth)
               (asks uTxFlags tfOptionalAuth uClearFlag asfRequireAuth) lsfRequireAuth uFlagsIn uFlagsIn in
  let out := toggle (asks uTxFlags requireDestTag uSetFlag asfRequireDest)
               (asks uTxFlags tfOptionalDestTag uClearFlag asfRequireDest) lsfRequireDestTag uFlagsIn out in
  let out := toggle (asks uTxFlags tfDisallowSWT uSetFlag asfDisallowSWT)
               (asks uTxFlags tfAllowSWT uClearFlag asfDisallowSWT) lsfDisallowSWT uFlagsIn out in
  let disable := (uSetFlag =? asfDisableMaster) && negb (flag uFlagsIn lsfDisableMaster) in
  if disable && negb sigMaster then inl tecNEED_MASTER_KEY
  else if disable && negb hasKey then inl tecNO_REGULAR_KEY
  else
    let out := toggle (uSetFlag =? asfDisableMaster) (uClearFlag =? asfDisableMaster) lsfDisableMaster uFlagsIn out in
    let out := if uSetFlag =? asfDefaultSkywell then set_flag lsfDefaultSkywell out
               else if uClearFlag =? asfDefaultSkywell then clear_flag lsfDefaultSkywell out else out in
    if (uSetFlag =? asfNoFreeze) && negb sigMaster && negb (flag uFlagsIn lsfDisableMaster) then inl tecNEED_MASTER_KEY
    else
      let out := if uSetFlag =? asfNoFreeze then set_flag lsfNoFreeze out else out in
      let out := if uSetFlag =? asfGlobalFreeze then set_flag lsfGlobalFreeze out else out in
      inr (if negb (uSetFlag =? asfGlobalFreeze) && (uClearFlag =? asfGlobalFreeze) && negb (flag out lsfNoFreeze)
           then clear_flag lsfGlobalFreeze out else out).

(** Present and zero or empty: the field is removed. *)
Definition unset_if {A} (b : bool) (x : A) : option A := if b then None else Some x.

(** The other fields; an early return leaves those before it written. *)
Definition SetAccount_fields (p : AccountSetTx) (a : AccountRoot) : AccountRoot * Z :=
  let uSetFlag := default 0 (as_set_flag p) in
  let uClearFlag := default 0 (as_clear_flag p) in
  let a := match ar_txn_id a with None => if uSetFlag =? asfAccountTxnID then set_txn_id a (Some 0) else a | Some _ => a end in
  let a := match ar_txn_id a with Some _ => if uClearFlag =? asfAccountTxnID then set_txn_id a None else a | None => a end in
  let a := match as_email p with Some h => set_info a (set_email (ar_info a) (unset_if (h =? 0) h)) | None => a end in
  let a := match as_locator p with Some h => set_info a (set_locator (ar_info a) (unset_if (h =? 0) h)) | None => a end in
  if match as_message_key p with Some k => bool_decide (PUBLIC_BYTES_MAX < length k)%nat | None => false end
  then (a, telBAD_PUBLIC_KEY)
  else
    let a := match as_message_key p with
             | Some k => set_info a (set_message_key (ar_info a) (unset_if (bool_decide (k = [])) k))
             | None => a
             end in
    if match as_domain p with Some k => bool_decide (DOMAIN_BYTES_MAX < length k)%nat | None => false end
    then (a, telBAD_DOMAIN)
    else
      let a := match as_domain p with
               | Some k => set_info a (set_domain (ar_info a) (unset_if (bool_decide (k = [])) k))
               | None => a
               end in
      let a := match as_rate p with
               | Some uRate =>
                   if (uRate =? 0) || (uRate =? QUALITY_ONE) then set_transfer_rate a None
                   else if uRate >? QUALITY_ONE then set_transfer_rate a (Some uRate) else a
               | None => a
               end in
      (a, tesSUCCESS).

Section transactors.
  Context {BN : BigNum}.
  Variable sha512half : list Z → Z.
  Variable accountID : Blob → Account.
  Variable checkSign : STTx → bool.
  Variable e : Env.
  Notation getAccountRootIndex := (Indexes.getAccountRootIndex sha512half).
  Notation getOwnerDirIndex := (Indexes.getOwnerDirIndex sha512half).
  Notation getReserve := (TrustLines.getReserve (sfReserveBase (e_fees e)) (sfReserveIncrement (e_fees e))).
  Notation checkBlackList := (LedgerQueries.checkBlackList sha512half (e_closed e)).

(** The check of a derived class, then [return Transactor::preCheck ()] *)
Definition after_check (ter : Transactor → Z) (t : Transactor) : M (Transactor * Z) :=
  mret (if negb (ter t =? tesSUCCESS) then (t, ter t) else preCheck sha512half checkSign e t).

Definition base (pre : Transactor → M (Transactor * Z)) (doApply : Transactor → M Z) : Virtual :=
  ordinary accountID e pre doApply.

Definition les_dirIsEmpty (root : Z) : M bool := λ st, dirIsEmpty sha512half st.1 st.2 root.

Definition SetAccount_doApply (p : AccountSetTx) (t : Transactor) : M Z :=
  h ← deref (mTxnAccount t);
  a ← get_account h;
  let uTxFlags := getFlags (mTxn t) in
  let uFlagsIn := ar_flags a in
  let uSetFlag := default 0 (as_set_flag p) in
  let uClearFlag := default 0 (as_clear_flag p) in
  empty ← (if asks uTxFlags tfRequireAuth uSetFlag asfRequireAuth && negb (flag uFlagsIn lsfRequireAuth)
           then les_dirIsEmpty (getOwnerDirIndex (mTxnAccountID t)) else mret true);
  if negb (empty : bool) then mret (if flag (t_params t) tapRETRY then terOWNERS else tecOWNERS)
  else
    match SetAccount_flags uTxFlags uSetFlag uClearFlag (mSigMaster t)
            (match sfRegularKey a with Some _ => true | None => false end) uFlagsIn with
    | inl ter => mret ter
    | inr uFlagsOut =>
        let '(a, ter) := SetAccount_fields p a in
        set_account h (if (ter =? tesSUCCESS) && negb (uFlagsIn =? uFlagsOut) then set_account_flags a uFlagsOut else a);;
        mret ter
    end.

Definition SetAccount (p : AccountSetTx) : Virtual :=
  base (after_check (λ t, SetAccount_check (getFlags (mTxn t)) p)) (SetAccount_doApply p).

(** ** SetRegularKey *)

Definition SetRegularKey_calculateBaseFee (t : Transactor) : M Z :=
  match mTxnAccount t with
  | Some h =>
      a ← get_account h;
      if negb (flag (ar_flags a) lsfPasswordSpent) && (accountID (mSigningPubKey t) =? mTxnAccountID t) then mret 0
      else calculateBaseFee e t
  | None => calculateBaseFee e t
  end.

Definition SetRegularKey_doApply (key : option Account) (t : Transactor) : M Z :=
  h ← deref (mTxnAccount t);
  a ← get_account h;
  let a := if is_zero (mFeeDue t) then set_account_flags a (set_flag lsfPasswordSpent (ar_flags a)) else a in
  match key with
  | Some k => set_account h (set_regular_key a (Some k));; mret tesSUCCESS
  | None =>
      if flag (ar_flags a) lsfDisableMaster then set_account h a;; mret tecMASTER_DISABLED
      else set_account h (set_regular_key a None);; mret tesSUCCESS
  end.

Definition SetRegularKey (key : option Account) : Virtual :=
  mkVirtual
    (after_check (λ t, if flag (getFlags (mTxn t)) tfUniversalMask then temINVALID_FLAG else tesSUCCESS))
    (checkSeq e) payFee SetRegularKey_calculateBaseFee (checkSig accountID) true (SetRegularKey_doApply key).

(** ** SetTrust *)

(** The checks [SetTrust] and [SetREL] make of a limit *)
Definition check_limit (uTxFlags txMask : Z) (saLimitAmount : STAmount) : Z :=
  if flag uTxFlags txMask then temINVALID_FLAG
  else if negb (isLegalNet saLimitAmount) then temBAD_AMOUNT
  else if mIsNative saLimitAmount then temBAD_LIMIT
  else if badCurrency =? currency (mIssue saLimitAmount) then temBAD_CURRENCY
  else if signum saLimitAmount <? 0 then temBAD_LIMIT
  else if (account (mIssue saLimitAmount) =? 0) || (account (mIssue saLimitAmount) =? noAccount) then temDST_NEEDED
  else tesSUCCESS.

(** Setting or clearing a quality of the side of the sender; zero clears it. *)
Definition put_quality (put : Side → Z → Side) (bHigh : bool) (q : option Z) (l : SkywellState) : SkywellState :=
  match q with Some q => set_side bHigh l (put (rs_side bHigh l) q) | None => l end.

(** A side that needs a reserve: it has a quality, a no-skywell flag other than the account's
    default, a freeze, a limit or a balance. *)
Definition reserve_set (high : bool) (l : SkywellState) (uFlagsOut accountFlags : Z) (saBalance : STAmount) : bool :=
  let one q := if q =? QUALITY_ONE then 0 else q in
  negb (one (sd_quality_in (rs_side high l)) =? 0) || negb (one (sd_quality_out (rs_side high l)) =? 0)
  || negb (Bool.eqb (Z.land uFlagsOut (if high then lsfHighNoSkywell else lsfLowNoSkywell) =? 0)
                    (Z.land accountFlags lsfDefaultSkywell =? 0))
  || flag uFlagsOut (if high then lsfHighFreeze else lsfLowFreeze)
  || negb (is_zero (sd_limit (rs_side high l))) || (signum saBalance >? 0).

(** Adjust the owner count of one side: the flags, and whether a reserve was added *)
Definition adjust_reserve (high : bool) (sleAccount : handle) (reserveSet : bool) (uFlagsIn uFlagsOut : Z) : M (Z * bool) :=
  let f := if high then lsfHighReserve else lsfLowReserve in
  if reserveSet && negb (flag uFlagsIn f) then incrementOwnerCount sleAccount;; mret (set_flag f uFlagsOut, true)
  else if negb reserveSet && flag uFlagsIn f then decrementOwnerCount sleAccount;; mret (clear_flag f uFlagsOut, false)
  else mret (uFlagsOut, false).

(** The line exists. *)
Definition SetTrust_modify (t : Transactor) (uTxFlags uReserveCreate : Z) (bHigh : bool) (uDstAccountID : Account)
    (sleTxn sleDst sleSkywellState : handle) (saLimitAllow : STAmount) (qin qout : option Z) : M Z :=
  let uLowAccountID := if negb bHigh then mTxnAccountID t else uDstAccountID in
  let uHighAccountID := if bHigh then mTxnAccountID t else uDstAccountID in
  let sleLowAccount := if negb bHigh then sleTxn else sleDst in
  let sleHighAccount := if bHigh then sleTxn else sleDst in
  l ← get_line sleSkywellState;
  let saLowBalance := rs_balance l in
  let saHighBalance := op_neg saLowBalance in
  let l := set_side bHigh l (set_limit (rs_side bHigh l) saLimitAllow) in
  let l := put_quality set_quality_in bHigh qin l in
  let l := put_quality set_quality_out bHigh qout l in
  set_line sleSkywellState l;;
  let uFlagsIn := rs_flags l in
  let bSetNoSkywell := flag uTxFlags tfSetNoSkywell in
  let bClearNoSkywell := flag uTxFlags tfClearNoSkywell in
  let bSetFreeze := flag uTxFlags tfSetFreeze in
  let bClearFreeze := flag uTxFlags tfClearFreeze in
  let fNoSkywell := if bHigh then lsfHighNoSkywell else lsfLowNoSkywell in
  let fFreeze := if bHigh then lsfHighFreeze else lsfLowFreeze in
  let uFlagsOut :=
    if bSetNoSkywell && negb bClearNoSkywell && (signum (if bHigh then saHighBalance else saLowBalance) >=? 0)
    then set_flag fNoSkywell uFlagsIn
    else if bClearNoSkywell && negb bSetNoSkywell then clear_flag fNoSkywell uFlagsIn else uFlagsIn in
  a ← get_account sleTxn;
  let uFlagsOut :=
    if bSetFreeze && negb bClearFreeze && negb (flag (ar_flags a) lsfNoFreeze) then set_flag fFreeze uFlagsOut
    else if bClearFreeze && negb bSetFreeze then clear_flag fFreeze uFlagsOut else uFlagsOut in
  low ← get_account sleLowAccount;
  high ← get_account sleHighAccount;
  let bLowReserveSet := reserve_set false l uFlagsOut (ar_flags low) saLowBalance in
  let bHighReserveSet := reserve_set true l uFlagsOut (ar_flags high) saHighBalance in
  let bDefault := negb bLowReserveSet && negb bHighReserveSet in
  let uFlagsOut := if flag uTxFlags tfSetfAuth then set_flag (if bHigh then lsfHighAuth else lsfLowAuth) uFlagsOut else uFlagsOut in
  '(uFlagsOut, lowIncrease) ← adjust_reserve false sleLowAccount bLowReserveSet uFlagsIn uFlagsOut;
  '(uFlagsOut, highIncrease) ← adjust_reserve true sleHighAccount bHighReserveSet uFlagsIn uFlagsOut;
  let bReserveIncrease := if bHigh then (highIncrease : bool) else (lowIncrease : bool) in
  (if negb (uFlagsIn =? uFlagsOut) then l ← get_line sleSkywellState; set_line sleSkywellState (set_line_flags l uFlagsOut)
   else mret ());;
  if bDefault || (badCurrency =? currency (mIssue saLimitAllow))
  then trustDelete sha512half sleSkywellState uLowAccountID uHighAccountID
  else
    short ← (if bReserveIncrease then lift (lt_u64 (mPriorBalance t) uReserveCreate) else mret false);
    if (short : bool) then mret tecINSUF_RESERVE_LINE else les_modify sleSkywellState;; mret tesSUCCESS.

Definition SetTrust_doApply (saLimitAmount : STAmount) (qin qout : option Z) (t : Transactor) : M Z :=
  let cur := currency (mIssue saLimitAmount) in
  let uDstAccountID := account (mIssue saLimitAmount) in
  let bHigh := mTxnAccountID t >? uDstAccountID in
  h ← deref (mTxnAccount t);
  a ← get_account h;
  let uOwnerCount := sfOwnerCount a in
  let uReserveCreate := if uOwnerCount <? 2 then 0 else getReserve (u32 (uOwnerCount + 1)) in
  let qout := match qout with Some q => Some (if q =? QUALITY_ONE then 0 else q) | None => None end in
  let uTxFlags := getFlags (mTxn t) in
  if flag uTxFlags tfSetfAuth && negb (flag (ar_flags a) lsfRequireAuth) then mret tefNO_AUTH_REQUIRED
  else if mTxnAccountID t =? uDstAccountID then
    o ← les_cache (getSkywellStateIndex sha512half (mTxnAccountID t) uDstAccountID cur);
    match o with
    | Some selDelete => trustDelete sha512half selDelete (mTxnAccountID t) uDstAccountID
    | None => mret temDST_IS_SRC
    end
  else
    o ← les_cache (getAccountRootIndex uDstAccountID);
    match o with
    | None => mret tecNO_DST
    | Some sleDst =>
        let saLimitAllow := setIssuer saLimitAmount (mTxnAccountID t) in
        let index := getSkywellStateIndex sha512half (mTxnAccountID t) uDstAccountID cur in
        o ← les_cache index;
        match o with
        | Some sleSkywellState =>
            SetTrust_modify t uTxFlags uReserveCreate bHigh uDstAccountID h sleDst sleSkywellState saLimitAllow qin qout
        | None =>
            if is_zero saLimitAmount && (default 0 qin =? 0) && (default 0 qout =? 0) then mret tecNO_LINE_REDUNDANT
            else
              short ← lift (lt_u64 (mPriorBalance t) uReserveCreate);
              if (short : bool) then mret tecNO_LINE_INSUF_RESERVE
              else
                saBalance ← lift (mkZero (mkIssue cur noAccount));
                trustCreate sha512half bHigh (mTxnAccountID t) uDstAccountID index h (flag uTxFlags tfSetfAuth)
                  (flag uTxFlags tfSetNoSkywell && negb (flag uTxFlags tfClearNoSkywell))
                  (flag uTxFlags tfSetFreeze && negb (flag uTxFlags tfClearFreeze))
                  saBalance saLimitAllow (default 0 qin) (default 0 qout)
        end
    end.

Definition SetTrust (limit : option STAmount) (qin qout : option Z) : Virtual :=
  let saLimitAmount := default amount_zero limit in
  base (after_check (λ t, check_limit (getFlags (mTxn t)) tfTrustSetMask saLimitAmount))
       (SetTrust_doApply saLimitAmount qin qout).

(** ** SetREL: relations *)

Definition SetREL_doApply (del : bool) (uDstAccountID : Account) (uRelationType : Z) (saLimitAmount : STAmount) (t : Transactor) : M Z :=
  let cur := currency (mIssue saLimitAmount) in
  let uIssuerID := account (mIssue saLimitAmount) in
  let bHigh := mTxnAccountID t >? uDstAccountID in
  sleDst ← les_cache (getAccountRootIndex uDstAccountID);
  match sleDst with
  | None => mret tecNO_DST
  | Some _ =>
      let saLimitAllow := setIssuer saLimitAmount (mTxnAccountID t) in
      let index := getTrustStateIndex sha512half (mTxnAccountID t) uDstAccountID uRelationType uIssuerID cur in
      o ← les_cache index;
      match o, del with
      | Some sleSkywellState, true => trustDelete sha512half sleSkywellState (mTxnAccountID t) uDstAccountID
      | None, true => mret tesSUCCESS
      | None, false =>
          saBalance ← lift (mkZero (mkIssue cur uIssuerID));
          h ← deref (mTxnAccount t);
          terResult ← relationCreate sha512half bHigh (mTxnAccountID t) uDstAccountID index h saBalance saLimitAllow 0 0;
          if terResult =? tesSUCCESS then
            o ← les_cache index;
            sleSkywellState ← deref o;
            '(l, _) ← get_trust sleSkywellState;
            write_sle sleSkywellState (ltTrust_STATE l uRelationType);;
            les_modify sleSkywellState;;
            mret terResult
          else mret terResult
      | Some sleSkywellState, false =>
          '(l, r) ← get_trust sleSkywellState;
          write_sle sleSkywellState (ltTrust_STATE (set_side bHigh l (set_limit (rs_side bHigh l) saLimitAllow)) r);;
          les_modify sleSkywellState;;
          mret tesSUCCESS
      end
  end.

Definition SetREL (del : bool) (target : Account) (type : Z) (limit : option STAmount) : Virtual :=
  let saLimitAmount := default amount_zero limit in
  base (after_check (λ t, check_limit (getFlags (mTxn t)) tfRelationSetMask saLimitAmount))
       (SetREL_doApply del target type saLimitAmount).

End transactors.
