(* ===== verification/MiscTransactors.v ===== *)
(** * More kinds of transactions

    The remaining small classes of [src/src/transaction/transactors/]: [SetSign], [SetNickName],
    [Message], [AccountMerge], [CreateTicket], [CancelTicket], [Change] (amendments and fees, made
    by the network itself) and [ManageTransactor] (the fee account, the issuer account and the
    black list).  [Change] also tells the amendment table of the application; that call changes
    no entry and is left out. *)

From S2P Require Import Prelude OrdMap Issue BigNum STAmount Quality Ter Indexes DeferredCredits EntrySet Directory LedgerObjects TrustLines Fees Tx LedgerQueries Transactor Transactors.

Section misc_transactors.
  Context {BN : BigNum}.
  Variable sha512half : list Z → Z.
  Variable accountID : Blob → Account.
  Variable checkSign : STTx → bool.
  Variable e : Env.
  Notation getAccountRootIndex := (Indexes.getAccountRootIndex sha512half).
  Notation getOwnerDirIndex := (Indexes.getOwnerDirIndex sha512half).
  Notation getReserve := (TrustLines.getReserve (sfReserveBase (e_fees e)) (sfReserveIncrement (e_fees e))).
  Notation checkBlackList := (LedgerQueries.checkBlackList sha512half (e_closed e)).
  Notation base := (Transactors.base accountID e).
  Notation after_check := (Transactors.after_check sha512half checkSign e).

(** ** SetSign: the signers of an account *)

(** Weights and quorums are unsigned, so the tests for negative ones never hold.  [self] is
    [mTxnAccountID], which is not set at this point. *)
Fixpoint SetSign_entries (self : Account) (l : list (Account * Z)) : Z :=
  match l with
  | [] => tesSUCCESS
  | (uDstAccountID, _) :: l =>
      if (uDstAccountID =? 0) || (uDstAccountID =? noAccount) then temDST_NEEDED
      else if self =? uDstAccountID then temREDUNDANTSIGN
      else SetSign_entries self l
  end.

Definition SetSign_check (p : SignSetTx) (t : Transactor) : Z :=
  if flag (getFlags (mTxn t)) tfTrustSetMask then temINVALID_FLAG
  else SetSign_entries (mTxnAccountID t) (default [] (ss_entries p)).

Definition SetSign_doApply (p : SignSetTx) (t : Transactor) : M Z :=
  let acct := getSourceAccount (mTxn t) in
  if acct =? 0 then mret temBAD_SRC_ACCOUNT
  else
    mTxnAccount ← les_cache (getAccountRootIndex acct);
    let saMasterWeight := default 0 (ss_master_weight p) in
    let saQuorum := default 0 (ss_quorum p) in
    let saQuorumHigh := default 0 (ss_quorum_high p) in
    let tSignEntries := default [] (ss_entries p) in
    o ← les_cache (getSignStateIndex sha512half acct);
    match o with
    | None =>
        h ← deref mTxnAccount;
        signCreate sha512half (getSignStateIndex sha512half acct) h acct saMasterWeight saQuorum saQuorumHigh tSignEntries
    | Some sle =>
        g ← get_signers sle;
        write_sle sle (ltSIGNER_LIST (mkSignerList (sl_account g)
          (if negb (saMasterWeight =? 0) then saMasterWeight else sfMasterWeight g)
          (if negb (saQuorum =? 0) then saQuorum else sfQuorum g)
          (if negb (saQuorumHigh =? 0) then saQuorumHigh else sfQuorumHigh g)
          (match tSignEntries with [] => sfSignerEntries g | _ => tSignEntries end)));;
        les_modify sle;;
        mret tesSUCCESS
    end.

Definition SetSign (p : SignSetTx) : Virtual := base (after_check (SetSign_check p)) (SetSign_doApply p).

(** ** SetNickName *)

Definition get_nickname (h : handle) : M NicknameEntry :=
  v ← read_sle h; match v with ltNICKNAME n => mret n | _ => throw "Field not found" end.

Definition SetNickName_doApply (domain nickname : option Blob) (t : Transactor) : M Z :=
  let acct := getSourceAccount (mTxn t) in
  let index := getNickNameIndex sha512half acct in
  o ← les_cache index;
  sleNick ← match o with
            | Some h => mret h
            | None => les_create index (ltNICKNAME (mkNickname acct None None))
            end;
  les_modify sleNick;;
  if match domain with Some k => bool_decide (DOMAIN_BYTES_MAX < length k)%nat | None => false end then mret telBAD_DOMAIN
  else
    (match domain with
     | Some k => n ← get_nickname sleNick;
                 write_sle sleNick (ltNICKNAME (mkNickname (nk_account n) (unset_if (bool_decide (k = [])) k) (nk_name n)))
     | None => mret ()
     end);;
    if match nickname with Some k => bool_decide (NICKNAME_BYTES_MAX < length k)%nat | None => false end then mret telBAD_NICKNAME
    else
      (match nickname with
       | Some k => n ← get_nickname sleNick;
                   write_sle sleNick (ltNICKNAME (mkNickname (nk_account n) (nk_domain n) (unset_if (bool_decide (k = [])) k)))
       | None => mret ()
       end);;
      mret tesSUCCESS.

Definition SetNickName (domain nickname : option Blob) : Virtual :=
  base (after_check (λ _, tesSUCCESS)) (SetNickName_doApply domain nickname).

(** ** Message *)

Definition Message_check (dst : Account) (t : Transactor) : Z :=
  if dst =? 0 then temDST_NEEDED
  else if getSourceAccount (mTxn t) =? dst then temREDUNDANT
  else if checkBlackList dst then telBLKLIST
  else tesSUCCESS.

Definition Message_doApply (dst : Account) (t : Transactor) : M Z :=
  o ← les_cache (getAccountRootIndex dst); mret (match o with None => tecNO_DST | Some _ => tesSUCCESS end).

Definition Message (dst : Account) : Virtual := base (after_check (Message_check dst)) (Message_doApply dst).

(** ** AccountMerge *)

(** The members it compares are set only by the [preCheck] of the base class, at the end. *)
Definition AccountMerge_preCheck (dst : Account) (t : Transactor) : M (Transactor * Z) :=
  if flag (getFlags (mTxn t)) tfAccountMergeMask then mret (t, temINVALID_FLAG)
  else if dst =? 0 then mret (t, temDST_NEEDED)
  else if checkBlackList dst then mret (t, telBLKLIST)
  else if (mTxnAccountID t =? mFeeAccountID t) || (mTxnAccountID t =? SISSUER_ACCOUNTID (e_config e))
          || (mTxnAccountID t =? SMNG_ACCOUNTID (e_config e)) then mret (t, temBAD_SRC_ACCOUNT)
  else if mTxnAccountID t =? dst then mret (t, temDST_IS_SRC)
  else
    h ← deref (mTxnAccount t);
    a ← get_account h;
    if negb (sfOwnerCount a =? 0) then mret (t, terOWNERS) else mret (preCheck sha512half checkSign e t).

Definition AccountMerge_doApply (dst : Account) (t : Transactor) : M Z :=
  o ← les_cache (getAccountRootIndex dst);
  match o with
  | None => mret tecNO_DST
  | Some _ =>
      h ← deref (mTxnAccount t);
      a ← get_account h;
      z ← lift (zeroed (ar_balance a));
      terResult ← (if op_ne (ar_balance a) z then accountSend sha512half (mTxnAccountID t) dst (ar_balance a)
                   else mret tesSUCCESS);
      if negb (terResult =? tesSUCCESS) then mret terResult else les_delete h;; mret terResult
  end.

Definition AccountMerge (dst : Account) : Virtual :=
  mkVirtual (AccountMerge_preCheck dst) (checkSeq e) (λ t, mret (t, tesSUCCESS)) (calculateBaseFee e) (checkSig accountID) true
    (AccountMerge_doApply dst).

(** ** Tickets *)

Definition CreateTicket_check (expiration : option Z) (t : Transactor) : Z :=
  match expiration with Some x => if x =? 0 then temBAD_EXPIRATION else tesSUCCESS | None => tesSUCCESS end.

Definition edit_ticket (h : handle) (f : Ticket → Ticket) : M () :=
  v ← read_sle h; match v with ltTICKET k => write_sle h (ltTICKET (f k)) | _ => throw "Field not found" end.

Definition CreateTicket_doApply (target : option Account) (expiration : option Z) (t : Transactor) : M Z :=
  h ← deref (mTxnAccount t);
  a ← get_account h;
  short ← lift (lt_u64 (mPriorBalance t) (getReserve (u32 (sfOwnerCount a + 1))));
  if (short : bool) then mret tecINSUFFICIENT_RESERVE
  else if match expiration with Some x => e_parent_close e >=? x | None => false end then mret tesSUCCESS
  else
    let seq := getSequence (mTxn t) in
    let expiration := match expiration with Some x => unset_if (x =? 0) x | None => None end in
    sleTicket ← les_create (getTicketIndex sha512half (mTxnAccountID t) seq)
                  (ltTICKET (mkTicket (mTxnAccountID t) seq 0 None expiration));
    found ← match target with
            | Some a =>
                o ← les_cache (getAccountRootIndex a);
                match o with
                | None => mret false
                | Some _ =>
                    (if negb (a =? mTxnAccountID t)
                     then edit_ticket sleTicket (λ k, mkTicket (tk_account k) (tk_sequence k) (tk_owner_node k) (Some a) (tk_expiration k))
                     else mret ());;
                    mret true
                end
            | None => mret true
            end;
    if negb (found : bool) then mret tecNO_TARGET
    else
      '(result, hint) ← owner_dirAdd sha512half (mTxnAccountID t) (h_index sleTicket);
      if negb (result =? tesSUCCESS) then mret result
      else
        edit_ticket sleTicket (λ k, mkTicket (tk_account k) (tk_sequence k) hint (tk_target k) (tk_expiration k));;
        incrementOwnerCount h;;
        mret result.

Definition CreateTicket (target : option Account) (expiration : option Z) : Virtual :=
  base (after_check (CreateTicket_check expiration)) (CreateTicket_doApply target expiration).

(** Its owner, its target and, once it has expired, anyone may remove a ticket. *)
Definition ticket_authorized (self : Account) (now : Z) (k : Ticket) : bool :=
  (self =? tk_account k)
  || match tk_target k with Some a => self =? a | None => false end
  || match tk_expiration k with Some x => now >=? x | None => false end.

Definition CancelTicket_doApply (ticketId : Z) (t : Transactor) : M Z :=
  o ← les_cache ticketId;
  match o with
  | None => mret tecNO_ENTRY
  | Some sleTicket =>
      v ← read_sle sleTicket;
      match v with
      | ltTICKET k =>
          if negb (ticket_authorized (mTxnAccountID t) (e_parent_close e) k) then mret tecNO_PERMISSION
          else
            let hint := tk_owner_node k in
            result ← les_dirDelete sha512half false hint (getOwnerDirIndex (tk_account k)) ticketId false (hint =? 0);
            decrementOwnerCount_of sha512half (tk_account k);;
            les_delete sleTicket;;
            mret result
      | _ => throw "Field not found"
      end
  end.

Definition CancelTicket (ticketId : Z) : Virtual := base (after_check (λ _, tesSUCCESS)) (CancelTicket_doApply ticketId).

(** ** Change: transactions of the network itself *)

Definition Change_preCheck (t : Transactor) : M (Transactor * Z) :=
  let t := set_ids t (getSourceAccount (mTxn t)) (mFeeAccountID t) in
  mret (t, if negb (mTxnAccountID t =? 0) then temBAD_SRC_ACCOUNT
           else if flag (t_params t) tapOPEN_LEDGER then temINVALID else tesSUCCESS).
Definition Change_checkSeq (t : Transactor) : M Z :=
  mret (if negb (getSequence (mTxn t) =? 0) || bool_decide (is_Some (tx_previous (tx_common (mTxn t))))
        then temBAD_SEQUENCE else tesSUCCESS).
Definition Change_payFee (t : Transactor) : M (Transactor * Z) :=
  mret (t, if op_ne (getTransactionFee (mTxn t)) amount_zero then temBAD_FEE else tesSUCCESS).
Definition Change_checkSig (t : Transactor) : M (Transactor * Z) :=
  mret (t, if negb (getSourceAccount (mTxn t) =? 0) then temBAD_SRC_ACCOUNT
           else if bool_decide (getSigningPubKey (mTxn t) ≠ []) || bool_decide (getSignature (mTxn t) ≠ [])
           then temBAD_SIGNATURE else tesSUCCESS).

Definition applyAmendment (amendment : Z) : M Z :=
  let index := getLedgerAmendmentIndex sha512half in
  o ← les_cache index;
  h ← match o with Some h => mret h | None => les_create index (ltAMENDMENTS []) end;
  v ← read_sle h;
  match v with
  | ltAMENDMENTS l =>
      if bool_decide (amendment ∈ l) then mret tefALREADY
      else write_sle h (ltAMENDMENTS (l ++ [amendment]));; les_modify h;; mret tesSUCCESS
  | _ => throw "Field not found"
  end.

Definition applyFee (f : FeeSettings) : M Z :=
  let index := getLedgerFeeIndex sha512half in
  o ← les_cache index;
  h ← match o with Some h => mret h | None => les_create index (ltFEE_SETTINGS (mkFeeSettings 0 0 0 0)) end;
  write_sle h (ltFEE_SETTINGS f);;
  les_modify h;;
  mret tesSUCCESS.

Definition Change (doApply : M Z) : Virtual :=
  mkVirtual Change_preCheck Change_checkSeq Change_payFee (calculateBaseFee e) Change_checkSig false (λ _, doApply).

(** ** ManageTransactor *)

Definition Manage_preCheck (issuer : bool) (t : Transactor) : M (Transactor * Z) :=
  let t := set_ids t (getSourceAccount (mTxn t)) (mFeeAccountID t) in
  let manager := if issuer then SISSUER_ACCOUNTID (e_config e) else SMNG_ACCOUNTID (e_config e) in
  mret (t, if negb (mTxnAccountID t =? manager) then temBAD_SRC_ACCOUNT else tesSUCCESS).
Definition Manage_checkSeq (t : Transactor) : M Z :=
  mret (if hasTransaction e (getTransactionID (mTxn t)) then tefALREADY else tesSUCCESS).

(** [applyManageFee] and [applyManageIssuer]: the entry that names one account *)
Definition applyManageAccount (index : Z) (entry : SLE) : M Z :=
  o ← les_cache index;
  h ← match o with Some h => mret h | None => les_create index entry end;
  write_sle h entry;;
  les_modify h;;
  mret tesSUCCESS.
Definition applyManageFee (a : Account) : M Z := applyManageAccount (getLedgerManageFeeIndex sha512half) (ltMANAGE_FEE a).
Definition applyManageIssuer (a : Account) : M Z := applyManageAccount (getLedgerManageIssuerIndex sha512half) (ltMANAGE_ISSUER a).

Definition applyManageBlackList (isSet : bool) (a : Account) : M Z :=
  let index := getBlackListIndex sha512half a in
  o ← les_cache index;
  match o, isSet with
  | None, true => h ← les_create index (ltBLACKLIST a); les_modify h;; mret tesSUCCESS
  | Some h, false => les_delete h;; mret tesSUCCESS
  | _, _ => mret temINVALID
  end.

Definition Manage (issuer : bool) (doApply : M Z) : Virtual :=
  mkVirtual (Manage_preCheck issuer) Manage_checkSeq (λ t, mret (t, tesSUCCESS)) (calculateBaseFee e)
    (λ t, mret (t, tesSUCCESS)) true (λ _, doApply).

End misc_transactors.
