(* ===== verification/TransactionEngine.v ===== *)
(** * Payments, batches and the transaction engine

    Model of [src/src/transaction/transactors/Payment.cpp] and [Operations.cpp], of
    [Transactor::transact], which chooses the transactor, and of
    [TransactionEngine::applyTransaction] of [src/src/transaction/tx/TransactionEngine.cpp],
    which applies a transaction to a ledger.

    The calculation of a payment along paths ([path::SkywellCalc::skywellCalculate]) is a
    parameter.  A C++ exception is a [Throw]; [Payment] turns one into [tefEXCEPTION], and the
    state it leaves is then that before the calculation: the engine drops the entries of a
    transaction with this result.  Before a commit the entries are threaded (file [Threading]); the
    metadata that is stored beside a transaction of a closed ledger is not kept. *)

From S2P Require Import Prelude OrdMap Issue BigNum STAmount Quality Ter Indexes DeferredCredits EntrySet Directory LedgerObjects Threading TrustLines Fees Tx LedgerQueries Transactor Transactors MiscTransactors.

(** ** Payment *)

Definition MaxPathSize : nat := 6.
Definition MaxPathLength : nat := 8.

(** [path::SkywellCalc::Input] *)
Record CalcInput := mkCalcInput {
  partialPaymentAllowed : bool;
  defaultPathsAllowed : bool;
  limitQuality : bool;
  deleteUnfundedOffers : bool;
  isLedgerOpen : bool
}.

(** [ScopedDeferCredits] around a computation *)
Definition scoped_defer {A} (c : M A) : M A :=
  deferred ← areCreditsDeferred;
  (if (deferred : bool) then mret () else enableDeferredCredits true);;
  r ← c;
  (if (deferred : bool) then mret () else enableDeferredCredits false);;
  mret r.

(** The use of a null or dangling pointer is not an exception and is not caught. *)
Definition is_fault (what : string) : bool := bool_decide (what = "null pointer"%string ∨ what = "dangling pointer"%string).
Definition try_catch {A} (c handler : M A) : M A := λ st,
  match c st with
  | Ok r => Ok r
  | Throw what => if is_fault what then Throw what else handler st
  end.

Section engine.
  Context {BN : BigNum}.
  Variable sha512half : list Z → Z.
  Variable accountID : Blob → Account.
  Variable checkSign : STTx → bool.
  (** The largest amount to spend, the amount, the destination, the source, the paths *)
  Variable skywellCalculate : STAmount → STAmount → Account → Account → STPathSet → CalcInput → M Z.
  Notation getAccountRootIndex := (Indexes.getAccountRootIndex sha512half).

Section payment.
  Variable e : Env.
  Notation getReserve := (TrustLines.getReserve (sfReserveBase (e_fees e)) (sfReserveIncrement (e_fees e))).
  Notation checkBlackList := (LedgerQueries.checkBlackList sha512half (e_closed e)).

(** The largest amount to spend; without [sfSendMax] the amount as issued by the sender *)
Definition maxSourceAmount (src : Account) (p : PaymentTx) : result STAmount :=
  match py_send_max p with
  | Some x => Ok x
  | None =>
      let a := py_amount p in
      if mIsNative a then Ok a
      else mkAmount (mkIssue (currency (mIssue a)) src) (mValue a) (mOffset a) (signum a <? 0)
  end.

(** The checks that need no ledger *)
Definition Payment_check (src : Account) (p : PaymentTx) (maxSource : STAmount) : Z :=
  let bPaths := match py_paths p with Some _ => true | None => false end in
  let bMax := match py_send_max p with Some _ => true | None => false end in
  let uSrcCurrency := currency (mIssue maxSource) in
  let uDstCurrency := currency (mIssue (py_amount p)) in
  if negb (isLegalNet (py_amount p)) || negb (isLegalNet maxSource) then temBAD_AMOUNT
  else if py_destination p =? 0 then temDST_NEEDED
  else if bMax && (signum maxSource <=? 0) then temBAD_AMOUNT
  else if signum (py_amount p) <=? 0 then temBAD_AMOUNT
  else if (badCurrency =? uSrcCurrency) || (badCurrency =? uDstCurrency) then temBAD_CURRENCY
  else if (src =? py_destination p) && (uSrcCurrency =? uDstCurrency) && negb bPaths then temREDUNDANT
  else tesSUCCESS.

(** Options that make no sense for a payment of the native currency *)
Definition Payment_check_direct (uTxFlags : Z) (p : PaymentTx) (maxSource : STAmount) : Z :=
  let bPaths := match py_paths p with Some _ => true | None => false end in
  let bMax := match py_send_max p with Some _ => true | None => false end in
  let bSWTDirect := (currency (mIssue maxSource) =? 0) && (currency (mIssue (py_amount p)) =? 0) in
  if bSWTDirect && bMax then temBAD_SEND_SWT_MAX
  else if bSWTDirect && bPaths then temBAD_SEND_SWT_PATHS
  else if bSWTDirect && flag uTxFlags tfPartialPayment then temBAD_SEND_SWT_PARTIAL
  else if bSWTDirect && flag uTxFlags tfLimitQuality then temBAD_SEND_SWT_LIMIT
  else if bSWTDirect && flag uTxFlags tfNoSkywellDirect then temBAD_SEND_SWT_NO_DIRECT
  else tesSUCCESS.

Definition Payment_preCheck (p : PaymentTx) (t : Transactor) : M (Transactor * Z) :=
  let uTxFlags := getFlags (mTxn t) in
  let t := set_ids t (getSourceAccount (mTxn t)) (mFeeAccountID t) in
  if flag uTxFlags tfPaymentMask then mret (t, temINVALID_FLAG)
  else
    maxSource ← lift (maxSourceAmount (mTxnAccountID t) p);
    let ter := Payment_check (mTxnAccountID t) p maxSource in
    if negb (ter =? tesSUCCESS) then mret (t, ter)
    else if checkBlackList (py_destination p) then mret (t, telBLKLIST)
    else
      let ter := Payment_check_direct uTxFlags p maxSource in
      if negb (ter =? tesSUCCESS) then mret (t, ter)
      else
        ter ← accountFundsCheck sha512half (e_config e) (sfReserveBase (e_fees e)) (sfReserveIncrement (e_fees e))
                (mTxnAccountID t) (default (py_amount p) (py_send_max p));
        mret (if negb (ter =? 0) then (t, telINSUF_FUND) else preCheck sha512half checkSign e t).

(** A line for the destination, when the amount is not native *)
Definition auto_trust (dst : Account) (amount : STAmount) : M () :=
  let i := mIssue amount in
  if negb (isSWT (currency i)) && negb (dst =? account i) then
    issue_amount ← lift (mkZero i); _ ← issue_trust_auto sha512half dst issue_amount i false; mret ()
  else mret ().

(** A payment along paths *)
Definition Payment_paths (p : PaymentTx) (t : Transactor) (maxSource : STAmount) : M Z :=
  let uTxFlags := getFlags (mTxn t) in
  let spsPaths := default [] (py_paths p) in
  let amount := py_amount p in
  let rcInput := mkCalcInput (flag uTxFlags tfPartialPayment) (negb (flag uTxFlags tfNoSkywellDirect))
                   (flag uTxFlags tfLimitQuality) true (flag (t_params t) tapOPEN_LEDGER) in
  let issuerOp := getIssuerOpAccountID sha512half (e_config e) (e_closed e) in
  let pathTooBig := bool_decide (MaxPathSize < length spsPaths)%nat
                    || existsb (λ path : list STPathElement, bool_decide (MaxPathLength < length path)%nat) spsPaths in
  try_catch
    (terResult ←
       (if isLedgerOpen rcInput && pathTooBig then mret telBAD_PATH_COUNT
        else if mTxnAccountID t =? issuerOp then
          auto_trust (py_destination p) amount;;
          scoped_defer (skywellCalculate (setIssuer maxSource (account (mIssue amount))) amount (py_destination p)
                          (account (mIssue amount)) spsPaths rcInput)
        else if mTxnAccountID t =? account (mIssue amount) then mret tecNO_PERMISSION
        else
          auto_trust (py_destination p) amount;;
          scoped_defer (skywellCalculate maxSource amount (py_destination p) (mTxnAccountID t) spsPaths rcInput));
     mret (if isTerRetry terResult then tecPATH_DRY else terResult))
    (mret tefEXCEPTION).

(** A direct payment of the native currency *)
Definition Payment_direct (p : PaymentTx) (t : Transactor) (sleDst : handle) : M Z :=
  h ← deref (mTxnAccount t);
  a ← get_account h;
  let uReserve := getReserve (sfOwnerCount a) in
  fee ← lift (getNValue (getTransactionFee (mTxn t)));
  need ← lift (add_u64 (py_amount p) (Z.max uReserve fee));
  short ← lift (op_lt (mPriorBalance t) need);
  if (short : bool) then mret tecUNFUNDED_PAYMENT
  else
    left ← lift (op_sub (mSourceBalance t) (py_amount p));
    edit_account h (λ a, set_account_balance a left);;
    d ← get_account sleDst;
    sum ← lift (op_add (ar_balance d) (py_amount p));
    set_account sleDst (set_account_balance d sum);;
    edit_account sleDst (λ d, if flag (ar_flags d) lsfPasswordSpent then set_account_flags d (clear_flag lsfPasswordSpent (ar_flags d)) else d);;
    mret tesSUCCESS.

(** The destination account, made when the amount allows it, or the code of an early return *)
Definition Payment_destination (p : PaymentTx) (t : Transactor) : M (handle + Z) :=
  let index := getAccountRootIndex (py_destination p) in
  o ← les_cache index;
  match o with
  | None =>
      if negb (mIsNative (py_amount p)) then mret (inr tecNO_DST)
      else if flag (t_params t) tapOPEN_LEDGER && flag (getFlags (mTxn t)) tfPartialPayment then mret (inr telNO_DST_PARTIAL)
      else
        low ← lift (lt_u64 (py_amount p) (getReserve 0));
        if (low : bool) then mret (inr tecNO_DST_INSUF_SWT)
        else
          sleDst ← les_create index (ltACCOUNT_ROOT new_account);
          edit_account sleDst (λ a, set_account_id a (py_destination p));;
          edit_account sleDst (λ a, set_sequence a 1);;
          mret (inl sleDst)
  | Some sleDst =>
      d ← get_account sleDst;
      if flag (ar_flags d) lsfRequireDestTag && bool_decide (py_tag p = None) then mret (inr tecDST_TAG_NEEDED)
      else les_modify sleDst;; mret (inl sleDst)
  end.

Definition Payment_doApply (p : PaymentTx) (t : Transactor) : M Z :=
  maxSource ← lift (maxSourceAmount (mTxnAccountID t) p);
  r ← Payment_destination p t;
  match r with
  | inr ter => mret ter
  | inl sleDst =>
      if bool_decide (is_Some (py_paths p)) || bool_decide (is_Some (py_send_max p)) || negb (mIsNative (py_amount p))
      then Payment_paths p t maxSource else Payment_direct p t sleDst
  end.

Definition Payment (p : PaymentTx) : Virtual := Transactors.base accountID e (Payment_preCheck p) (Payment_doApply p).

(** ** Operations: a batch *)

(** [for (STObject const& tSignEntry : tSignEntries)] *)
Fixpoint quorum_reached (signers : list Account) (saQuorum : Z) (l : list (Account * Z)) : bool :=
  match l with
  | [] => false
  | (a, weight) :: l =>
      if bool_decide (a ∈ signers) then
        let saQuorum := saQuorum - weight in
        if saQuorum <=? 0 then true else quorum_reached signers saQuorum l
      else quorum_reached signers saQuorum l
  end.

(** The parameters, to which [tapMASTER_SIGN] may be added, and the result *)
Definition precheckSig (signers : list Account) (txn : STTx) (params : Z) : M (Z * Z) :=
  let acct := getSourceAccount txn in
  o ← les_cache (getAccountRootIndex acct);
  h ← deref o;
  a ← get_account h;
  if bool_decide (acct ∈ signers) then
    if flag (ar_flags a) lsfDisableMaster then mret (params, tefMASTER_DISABLED)
    else mret (Z.lor params tapMASTER_SIGN, tesSUCCESS)
  else if bool_decide (sfRegularKey a = Some acct) then mret (params, tesSUCCESS)
  else
    match signers with
    | [] => mret (params, tefBAD_AUTH)
    | _ =>
        o ← les_cache (getSignStateIndex sha512half acct);
        match o with
        | None => mret (params, tefBAD_AUTH)
        | Some sle =>
            g ← get_signers sle;
            let saQuorum := s32 (sfQuorum g) in
            if saQuorum =? 0 then mret (params, tesSUCCESS)
            else if saQuorum <? 0 then mret (params, tefBAD_AUTH)
            else
              let saQuorum := saQuorum - sfMasterWeight g in
              if saQuorum <=? 0 then mret (params, tesSUCCESS)
              else mret (params, if quorum_reached signers saQuorum (sfSignerEntries g) then tesSUCCESS else tefBAD_AUTH)
        end
    end.

(** The loop of [Operations::doApply]; [transact] applies one transaction. *)
Definition run_operations (transact : STTx → Z → M (STTx * Z)) (signers : list Account) : list STTx → Z → M Z :=
  fix run l params :=
    match l with
    | [] => mret tesSUCCESS
    | sttx :: l =>
        '(params, ter) ← precheckSig signers sttx params;
        if negb (ter =? tesSUCCESS) then mret ter
        else
          let params := Z.lor params tapPRE_CHECKED in
          '(_, ter) ← transact sttx params;
          if negb (ter =? tesSUCCESS) then mret ter else run l params
    end.

Definition SKYWELL_ENABLE_TICKETS : bool := false.

(** ** [Transactor::transact] *)
Fixpoint transact (txn : STTx) (params : Z) {struct txn} : M (STTx * Z) :=
  let run (v : Virtual) : M (STTx * Z) := '(t, ter) ← apply sha512half e v (newTransactor txn params); mret (mTxn t, ter) in
  match txn with
  | mkSTTx _ _ body =>
      match body with
      | ttPAYMENT p => run (Payment p)
      | ttACCOUNT_SET p => run (SetAccount sha512half accountID checkSign e p)
      | ttREGULAR_KEY_SET k => run (SetRegularKey sha512half accountID checkSign e k)
      | ttTRUST_SET limit qin qout => run (SetTrust sha512half accountID checkSign e limit qin qout)
      | ttREL_SET target type limit => run (SetREL sha512half accountID checkSign e false target type limit)
      | ttREL_DEL target type limit => run (SetREL sha512half accountID checkSign e true target type limit)
      | ttAMENDMENT a => run (Change e (applyAmendment sha512half a))
      | ttFEE f => run (Change e (applyFee sha512half f))
      | ttTICKET_CREATE target expiration =>
          if SKYWELL_ENABLE_TICKETS then run (CreateTicket sha512half accountID checkSign e target expiration)
          else mret (txn, temDISABLED)
      | ttTICKET_CANCEL k =>
          if SKYWELL_ENABLE_TICKETS then run (CancelTicket sha512half accountID checkSign e k) else mret (txn, temDISABLED)
      | ttNICKNAME_SET d n => run (SetNickName sha512half accountID checkSign e d n)
      | ttACCOUNT_MERGE dst => run (AccountMerge sha512half accountID checkSign e dst)
      | ttMNGFEE a => run (Manage e false (applyManageFee sha512half a))
      | ttMNGISSUER a => run (Manage e true (applyManageIssuer sha512half a))
      | ttBLKLISTSET a => run (Manage e false (applyManageBlackList sha512half true a))
      | ttBLKLISTRMV a => run (Manage e false (applyManageBlackList sha512half false a))
      | ttSIGN_SET p => run (SetSign sha512half accountID checkSign e p)
      | ttMESSAGE dst => run (Message sha512half accountID checkSign e dst)
      | ttOPERATION ops _ =>
          run (Transactors.base accountID e (after_check sha512half checkSign e (λ _, tesSUCCESS)) (λ t,
            match ops with
            | None | Some [] => mret temINVALID
            | Some l => run_operations transact (getSignAccount accountID (mTxn t)) l (t_params t)
            end))
      end
  end.

End payment.

(** ** [TransactionEngine] *)

(** A ledger: its entries and its transactions, with their numbers of order *)
Record Ledger := mkLedger {
  l_state : list (Z * SLE);
  l_transactions : list Z;
  l_seq : Z;
  l_parent_close : Z
}.

Record TransactionEngine := mkEngine { mNodes : LedgerEntrySet SLE; te_ledger : Ledger; mTxnSeq : Z }.

Variable cfg : Config.

(** What the transactors see.  The ledger reads its fee settings once, on first use; as every
    transactor uses them before it changes an entry, they are those the ledger starts with,
    and are passed on. *)
Definition engine_env (closed : list (Z * SLE)) (fees : FeeSettings) (track : LoadFeeTrack.t) (l : Ledger) : Env :=
  mkEnv cfg closed (l_seq l) (l_parent_close l) (l_transactions l) fees track.

(** [isTecClaim]: only claim the fee.  The result, and whether to apply *)
Definition claim_fee (txn : STTx) (params ter : Z) : M (Z * bool) :=
  o ← les_cache (getAccountRootIndex (getSourceAccount txn));
  match o with
  | None => mret (terNO_ACCOUNT, false)
  | Some txnAcct =>
      a ← get_account txnAcct;
      let t_seq := getSequence txn in
      let a_seq := ar_sequence a in
      if a_seq <? t_seq then mret (terPRE_SEQ, false)
      else if a_seq >? t_seq then mret (tefPAST_SEQ, false)
      else
        let fee := getTransactionFee txn in
        let balance := ar_balance a in
        poor ← (if is_zero balance then mret true
                else if flag params tapOPEN_LEDGER then lift (op_lt balance fee) else mret false);
        if (poor : bool) then mret (terINSUF_FEE_B, false)
        else
          more ← lift (op_gt fee balance);
          let fee := if (more : bool) then balance else fee in
          left ← lift (op_sub balance fee);
          edit_account txnAcct (λ a, set_account_balance a left);;
          edit_account txnAcct (λ a, set_sequence a (u32 (t_seq + 1)));;
          les_modify txnAcct;;
          mret (ter, true)
  end.

Definition les_clear_all : M () := λ st, Ok (st.1, les_clear st.2, ()).

(** From [Transactor::transact] to the decision whether to apply *)
Definition decide_apply (env : Env) (txn : STTx) (params : Z) : M (STTx * Z * bool) :=
  '(txn', ter) ← transact env txn params;
  if isTecClaim ter && negb (flag params tapRETRY) then
    les_clear_all;;
    '(ter, didApply) ← claim_fee txn params ter;
    mret (txn', ter, didApply)
  else mret (txn', ter, isTesSuccess ter).

(** The heap, the engine, the transaction with its signature state, the result and [didApply].
    [checkInvariants] is true. *)
Definition applyTransaction (closed : list (Z * SLE)) (fees : FeeSettings) (track : LoadFeeTrack.t)
    (w : World SLE) (eng : TransactionEngine) (txn : STTx) (params : Z)
    : result (World SLE * TransactionEngine * STTx * (Z * bool)) :=
  let txID := getTransactionID txn in
  let l := te_ledger eng in
  if txID =? 0 then Ok (w, eng, txn, (temINVALID_FLAG, false))
  else
    let nodes := init (mNodes eng) (l_state l) params in
    '(w, nodes, (txn', ter, didApply)) ← decide_apply (engine_env closed fees track l) txn params (w, nodes);
    if ter =? temUNKNOWN then Ok (w, mkEngine nodes l (mTxnSeq eng), txn', (temUNKNOWN, false))
    else if (didApply : bool) then
      '(w, nodes, _) ← calcRawMeta sha512half txID (l_seq l) (w, nodes);
      let state := txnWrite w nodes in
      if bool_decide (txID ∈ l_transactions l) then Throw "Duplicate transaction applied"
      else
        let l := mkLedger state (l_transactions l ++ [txID]) (l_seq l) (l_parent_close l) in
        Ok (w, mkEngine (les_clear nodes) l (mTxnSeq eng + 1), txn', (ter, true))
    else Ok (w, mkEngine (les_clear nodes) l (mTxnSeq eng), txn', (ter, false)).

End engine.
