(* ===== verification/AccountLogic.v ===== *)
(** * Following one account through a transaction

    A logic for what a computation of the monad [M] can do to one account of the ledger, the one
    at index [ia].  [K] is a property of account roots that is to hold of it throughout.  The
    state is sound ([sound]) when the set has not lost the account: its entry, once cached, stays
    with the same object, is never deleted, and the object has [K].

    [safe hs c new P]: whenever [c] starts in a sound state with the pointers [hs] and ends
    without an exception, the state is sound again, every pointer is still good, so are the new
    ones [new a], and [P a] holds of the answer.  The rules follow the operations of the monad;
    the functions of files [Directory] and [TrustLines] are shown to be safe for every property
    that does not depend on balances and owner counts. *)

From S2P Require Import Prelude OrdMap Issue BigNum STAmount Quality Ter Indexes DeferredCredits EntrySet Directory LedgerObjects TrustLines.

Section logic.
  Variable ia : Z.
  Variable L : list (Z * SLE).
  Variable K : AccountRoot → Prop.
  (** Whether the entry is marked as modified *)
  Variable md : bool.
  Hypothesis ia_nonzero : ia ≠ 0.

Definition ptr (s : LedgerEntrySet SLE) : option Z := mEntry <$> om_find ia (mEntries s).

(** What is known about the account: it is still in the ledger only, or cached or modified *)
Definition account_state (w : World SLE) (s : LedgerEntrySet SLE) : Prop :=
  match om_find ia (mEntries s) with
  | None => md = false ∧ ∃ a, om_find ia L = Some (ltACCOUNT_ROOT a) ∧ K a
  | Some e =>
      e_seq e = mSeq s ∧ (md = false ∧ mAction e = taaCACHED ∨ mAction e = taaMODIFY)
      ∧ ∃ a, w_obj w !! mEntry e = Some (ltACCOUNT_ROOT a) ∧ K a
  end.

(** A good pointer: its object exists, and is that of the account exactly when its index says so *)
Definition good (w : World SLE) (s : LedgerEntrySet SLE) (h : handle) : Prop :=
  is_Some (w_obj w !! h_ptr h) ∧ (h_index h = ia ↔ ptr s = Some (h_ptr h)).

Record sound (w : World SLE) (s : LedgerEntrySet SLE) : Prop := mkSound {
  so_fresh q : is_Some (w_obj w !! q) → q < w_next w;
  so_sorted : om_sorted (mEntries s);
  so_ledger : mLedger s = L;
  so_entry i e : om_find i (mEntries s) = Some e → good w s (mkHandle i (mEntry e));
  so_account : account_state w s
}.

Definition extends (w : World SLE) (s : LedgerEntrySet SLE) (w' : World SLE) (s' : LedgerEntrySet SLE) : Prop :=
  ∀ h, good w s h → good w' s' h.

Definition safe {A} (hs : list handle) (c : M A) (new : A → list handle) (P : A → Prop) : Prop :=
  ∀ w s w' s' a, sound w s → (∀ h, h ∈ hs → good w s h) → c (w, s) = Ok (w', s', a) →
    sound w' s' ∧ extends w s w' s' ∧ (∀ h, h ∈ new a → good w' s' h) ∧ P a.

(** No new pointers, nothing to say about the answer *)
Notation quiet hs c := (safe hs c (λ _, []) (λ _, True)).

Lemma good_read w s h : sound w s → good w s h → h_index h = ia →
  ∃ a, w_obj w !! h_ptr h = Some (ltACCOUNT_ROOT a) ∧ K a.
Proof.
  intros Hs [_ Hg] Hi. apply Hg in Hi. pose proof (so_account _ _ Hs) as Ha. unfold account_state in Ha. unfold ptr in Hi.
  destruct (om_find ia (mEntries s)) as [e|]; [|done]. injection Hi as <-. apply Ha.
Qed.

(** ** Structure *)

Lemma safe_ret {A} hs (a : A) (new : A → list handle) (P : A → Prop) :
  (∀ h, h ∈ new a → h ∈ hs) → P a → safe hs (mret a) new P.
Proof. intros Hn HP w s w' s' b Hs Hg [= <- <- <-]. split; [done|]. split; [by intros h|]. split; [by auto|done]. Qed.

Lemma safe_bind {A B} hs (c : M A) (k : A → M B) newc Pc new P :
  safe hs c newc Pc → (∀ a, Pc a → safe (newc a ++ hs) (k a) new P) → safe hs (c ≫= k) new P.
Proof.
  intros Hc Hk w s w2 s2 b Hs Hg H. unfold mbind, M_bind in H.
  destruct (c (w, s)) as [[[w1 s1] a]|] eqn:E; [|done]. cbn [mbind result_bind] in H.
  destruct (Hc w s w1 s1 a Hs Hg E) as (Hs1 & He1 & Hn1 & HP1).
  destruct (Hk a HP1 w1 s1 w2 s2 b Hs1) as (Hs2 & He2 & Hn2 & HP2); [|done|].
  - intros h [Hh|Hh]%elem_of_app; [by apply Hn1|by apply He1, Hg].
  - split; [done|]. split; [|done]. intros h Hh. by apply He2, He1.
Qed.

Lemma safe_ret_bind {A B} hs (a : A) (k : A → M B) new P : safe hs (k a) new P → safe hs (mret a ≫= k) new P.
Proof. intros Hk w s w' s' b Hs Hg H. by apply (Hk w s w' s' b Hs Hg). Qed.

Lemma safe_mono {A} hs hs' (c : M A) (new new' : A → list handle) (P P' : A → Prop) :
  safe hs c new P → (∀ h, h ∈ hs → h ∈ hs') → (∀ a, P a → P' a) → (∀ a h, h ∈ new' a → h ∈ new a ∨ h ∈ hs') →
  safe hs' c new' P'.
Proof.
  intros Hc Hsub HP Hn w s w' s' a Hs Hg H. destruct (Hc w s w' s' a Hs) as (Hs' & He & Hn' & HPa); [by auto|done|].
  split; [done|]. split; [done|]. split; [|by apply HP]. intros h [Hh|Hh]%Hn; [by apply Hn'|by apply He, Hg].
Qed.

(** The answer may name pointers that were there. *)
Lemma safe_rename {A} hs (c : M A) (new : A → list handle) (P : A → Prop) :
  safe hs c (λ _, []) P → (∀ a h, P a → h ∈ new a → h ∈ hs) → safe hs c new P.
Proof.
  intros Hc Hn w s w' s' a Hs Hg H. destruct (Hc w s w' s' a Hs Hg H) as (Hs' & He & _ & HPa).
  split; [done|]. split; [done|]. split; [|done]. intros h Hh. by apply He, Hg, (Hn a).
Qed.

Lemma safe_weaken {A} hs hs' (c : M A) new P : safe hs c new P → (∀ h, h ∈ hs → h ∈ hs') → safe hs' c new P.
Proof. intros Hc Hsub. eapply safe_mono; [done|done|done|by left]. Qed.

Lemma safe_quiet {A} hs (c : M A) new P : safe hs c new P → quiet hs c.
Proof. intros Hc. eapply safe_mono; [done|done|done|]. by intros a h ?%elem_of_nil. Qed.

Lemma safe_throw {A} hs what (new : A → list handle) P : safe hs (throw what) new P.
Proof. by intros w s w' s' a _ _ [=]. Qed.

Lemma safe_lift {A} hs (r : result A) : safe hs (lift r) (λ _, []) (λ a, r = Ok a).
Proof.
  intros w s w' s' a Hs Hg H. unfold lift in H. destruct r as [x|]; [|done]. injection H as <- <- <-.
  split; [done|]. split; [by intros h|]. split; [by intros h ?%elem_of_nil|done].
Qed.

Lemma safe_deref hs o : (∀ h, o = Some h → h ∈ hs) → safe hs (deref o) (λ h, [h]) (λ h, o = Some h).
Proof. intros Hin. destruct o as [h|]; [|apply safe_throw]. apply safe_ret; [|done]. intros h' ->%list_elem_of_singleton. by apply Hin. Qed.

(** A computation that leaves the state alone *)
Lemma safe_pure {A} hs (c : M A) (P : A → Prop) :
  (∀ w s w' s' a, c (w, s) = Ok (w', s', a) → w' = w ∧ s' = s ∧ P a) → safe hs c (λ _, []) P.
Proof.
  intros Hc w s w' s' a Hs Hg (-> & -> & HP)%Hc.
  split; [done|]. split; [by intros h|]. split; [by intros h ?%elem_of_nil|done].
Qed.

Lemma safe_get_params hs : quiet hs get_params.
Proof. by apply safe_pure; intros w s w' s' a [= <- <- <-]. Qed.
Lemma safe_get_ledger hs : safe hs get_ledger (λ _, []) (λ _, True).
Proof. by apply safe_pure; intros w s w' s' a [= <- <- <-]. Qed.
Lemma safe_adjustedBalance hs x y b : quiet hs (les_adjustedBalance x y b).
Proof.
  apply safe_pure. intros w s w' s' a H. unfold les_adjustedBalance in H. cbn [fst snd] in H.
  destruct (mDeferredCredits s); [|by injection H as <- <- <-]. res_inv. by simplify_eq.
Qed.
Lemma safe_areDeferred hs : quiet hs areCreditsDeferred.
Proof. by apply safe_pure; intros w s w' s' a [= <- <- <-]. Qed.

(** Only the deferred credits change. *)
Lemma safe_credits hs (c : M ()) :
  (∀ w s w' s' a, c (w, s) = Ok (w', s', a) → w' = w ∧ ∃ d, s' = set_credits s d) → quiet hs c.
Proof.
  intros Hc w s w' s' a [H1 H2 H3 H4 H5] Hg (-> & d & ->)%Hc.
  split; [by split|]. split; [by intros h|]. split; [by intros h ?%elem_of_nil|done].
Qed.
Lemma set_credits_same s : s = set_credits s (mDeferredCredits s).
Proof. by destruct s. Qed.
Lemma safe_cacheCredit hs x y b : quiet hs (cacheCredit x y b).
Proof.
  apply safe_credits. intros w s w' s' a H. unfold cacheCredit in H. cbn [fst snd] in H.
  destruct (mDeferredCredits s) as [d|]; [res_inv; simplify_eq; split; [done|by eexists]|].
  injection H as <- <- _. split; [done|]. exists (mDeferredCredits s). apply set_credits_same.
Qed.
Lemma safe_enable hs b : quiet hs (enableDeferredCredits b).
Proof. apply safe_credits. intros w s w' s' a [= <- <- _]. split; [done|by eexists]. Qed.

(** ** Entries *)

Lemma alloc_old w s v q x : sound w s → w_obj w !! q = Some x → w_obj (alloc w v).2 !! q = Some x.
Proof.
  intros Hs Hq. cbn. rewrite lookup_insert_ne; [done|]. intros <-. pose proof (so_fresh _ _ Hs _ (mk_is_Some _ _ Hq)). lia.
Qed.

Lemma extends_trans w1 s1 w2 s2 w3 s3 : extends w1 s1 w2 s2 → extends w2 s2 w3 s3 → extends w1 s1 w3 s3.
Proof. intros H1 H2 h Hh. by apply H2, H1. Qed.
Lemma extends_refl w s : extends w s w s.
Proof. by intros h. Qed.

Lemma sound_alloc w s v : sound w s → sound (alloc w v).2 s ∧ extends w s (alloc w v).2 s.
Proof.
  intros Hs0. assert (extends w s (alloc w v).2 s) as He.
  { intros h [[x Hx] Hi]. split; [exists x; by eapply alloc_old|done]. }
  split; [|done]. pose proof Hs0 as [Hf Hs HL Hent Ha]. split; [|done|done|by intros i e Hi; by apply He, Hent|].
  - intros q [x Hq]. cbn in *. destruct (decide (q = w_next w)) as [->|Hne]; [lia|].
    rewrite lookup_insert_ne in Hq by done. specialize (Hf _ (mk_is_Some _ _ Hq)). lia.
  - unfold account_state in *. destruct (om_find ia (mEntries s)) as [e|]; [|done].
    destruct Ha as (H1 & H2 & a & Hq & HK). split; [done|]. split; [done|]. exists a. by split; [eapply alloc_old|].
Qed.

(** The record of another entry changes, to one with a good pointer. *)
Lemma sound_entry w s i x :
  sound w s → i ≠ ia → good w s (mkHandle i (mEntry x)) →
  let s' := set_entries s (om_set i x (mEntries s)) in sound w s' ∧ extends w s w s'.
Proof.
  intros [Hf Hs HL Hent Ha] Hi Hx s'.
  assert (om_find ia (om_set i x (mEntries s)) = om_find ia (mEntries s)) as E.
  { rewrite om_find_set by done. by rewrite (proj2 (Z.eqb_neq ia i)) by done. }
  assert (extends w s w s') as He.
  { intros h [Hh1 Hh2]. split; [done|]. unfold ptr in *. cbn [s' set_entries mEntries]. by rewrite E. }
  split; [|done]. split; [done|by apply om_set_sorted|done| |].
  - intros j e Hj. cbn [s' set_entries mEntries] in Hj. rewrite om_find_set in Hj by done. apply He.
    destruct (Z.eqb_spec j i) as [->|Hne]; [by injection Hj as <-|by apply Hent].
  - unfold account_state in *. cbn [s' set_entries mEntries mSeq]. by rewrite E.
Qed.

(** A new object is not that of the account. *)
Lemma good_fresh w s i v : sound w s → i ≠ ia → good (alloc w v).2 s (mkHandle i (alloc w v).1).
Proof.
  intros Hs Hi. split; cbn [h_ptr h_index alloc fst snd w_obj]; [rewrite lookup_insert_eq; by eexists|].
  split; [done|]. intros Hp. unfold ptr in Hp. destruct (om_find ia (mEntries s)) as [e|] eqn:E; [|done].
  injection Hp as Hp. destruct (so_entry _ _ Hs _ _ E) as [[x Hx] _]. pose proof (so_fresh _ _ Hs _ (mk_is_Some _ _ Hx)) as H.
  cbn [h_ptr] in *. lia.
Qed.

Lemma sound_fresh w s i v act :
  sound w s → i ≠ ia →
  let w' := (alloc w v).2 in let s' := set_entries s (om_set i (mkLSE (alloc w v).1 act (mSeq s)) (mEntries s)) in
  sound w' s' ∧ extends w s w' s' ∧ good w' s' (mkHandle i (alloc w v).1).
Proof.
  intros Hs Hi w' s'. destruct (sound_alloc w s v Hs) as [Hs1 He1]. pose proof (good_fresh w s i v Hs Hi) as Hg.
  destruct (sound_entry w' s i (mkLSE (alloc w v).1 act (mSeq s)) Hs1 Hi Hg) as [Hs2 He2].
  split; [done|]. split; [by eapply extends_trans|by apply He2].
Qed.

(** The account is cached for the first time. *)
Lemma sound_first w s a :
  sound w s → md = false → om_find ia (mEntries s) = None → om_find ia L = Some (ltACCOUNT_ROOT a) → K a →
  let v := ltACCOUNT_ROOT a in
  let w' := (alloc w v).2 in let s' := set_entries s (om_set ia (mkLSE (alloc w v).1 taaCACHED (mSeq s)) (mEntries s)) in
  sound w' s' ∧ extends w s w' s' ∧ good w' s' (mkHandle ia (alloc w v).1).
Proof.
  intros Hs0 Hmd E HLa HK v w' s'. destruct (sound_alloc w s v Hs0) as [[Hf Hs HL Hent Ha] _]. fold w' in Hf, Hent, Ha.
  assert (om_find ia (mEntries s') = Some (mkLSE (alloc w v).1 taaCACHED (mSeq s))) as E'.
  { cbn [s' set_entries mEntries]. by rewrite om_find_set, Z.eqb_refl by done. }
  assert (ptr s' = Some (w_next w)) as Hp by (unfold ptr; by rewrite E').
  assert (w_obj w' !! w_next w = Some v) as Hv by apply lookup_insert_eq.
  assert (extends w s w' s') as He.
  { intros h [[x Hx] Hh]. split; [exists x; by eapply alloc_old|]. rewrite Hp. unfold ptr in Hh. rewrite E in Hh. split; [by intros ?%Hh|].
    intros [= Hq]. pose proof (so_fresh _ _ Hs0 _ (mk_is_Some _ _ Hx)). lia. }
  assert (good w' s' (mkHandle ia (w_next w))) as Hg by (split; [by exists v|done]).
  split; [|done]. split; [done|by apply om_set_sorted|done| |].
  - intros j e Hj. destruct (Z.eqb_spec j ia) as [->|Hne]; [rewrite E' in Hj; by injection Hj as <-|].
    cbn [s' set_entries mEntries] in Hj. rewrite om_find_set, (proj2 (Z.eqb_neq j ia)) in Hj by done.
    apply He. by apply (so_entry _ _ Hs0).
  - unfold account_state. rewrite E'. cbn [e_seq mAction mEntry]. split; [done|]. split; [by left|]. by exists a.
Qed.

Lemma cache_sound w s i w' s' o :
  sound w s → entryCache w s i = Ok (w', s', o) →
  sound w' s' ∧ extends w s w' s' ∧ match o with None => i ≠ ia | Some q => good w' s' (mkHandle i q) end.
Proof.
  intros Hs0 H. pose proof Hs0 as [Hf Hs HL Hent Ha]. unfold entryCache in H.
  destruct (Z.eqb_spec i 0) as [->|Hi0]; [injection H as <- <- <-; split; [done|]; split; [apply extends_refl|done]|].
  unfold getEntry in H. destruct (om_find i (mEntries s)) as [e|] eqn:E.
  - destruct (Hent i e E) as [[v Hv] _]. cbn [h_ptr] in Hv. destruct (Z.eqb_spec (e_seq e) (mSeq s)) as [Hq|Hq]; cbn [negb] in H.
    + injection H as <- <- <-. split; [done|]. split; [apply extends_refl|]. destruct (is_delete (mAction e)) eqn:Ed; [|by apply Hent].
      intros ->. unfold account_state in Ha. rewrite E in Ha. destruct Ha as (_ & [[_ Hact]|Hact] & _); by rewrite Hact in Ed.
    + rewrite Hv in H. assert (i ≠ ia) as Hne.
      { intros ->. unfold account_state in Ha. rewrite E in Ha. by destruct Ha as [? _]. }
      destruct (alloc w v) as [p w1] eqn:Eal. injection H as <- <- <-.
      pose proof (sound_fresh w s i v (mAction e) Hs0 Hne) as Hr. rewrite Eal in Hr. cbn [fst snd] in Hr.
      destruct Hr as (H1 & H2 & H3). split; [done|]. split; [done|]. by destruct (is_delete (mAction e)).
  - rewrite HL in H. destruct (om_find i L) as [v|] eqn:El.
    + destruct (alloc w v) as [p w1] eqn:Eal. unfold entryCacheRef in H. rewrite E in H. cbn [mbind result_bind] in H.
      injection H as <- <- <-. destruct (decide (i = ia)) as [->|Hne].
      * unfold account_state in Ha. rewrite E in Ha. destruct Ha as (Hmd & a & Ha & HK). rewrite El in Ha. injection Ha as ->.
        pose proof (sound_first w s a Hs0 Hmd E El HK) as Hr. cbv zeta in Hr. by rewrite Eal in Hr.
      * pose proof (sound_fresh w s i v taaCACHED Hs0 Hne) as Hr. by rewrite Eal in Hr.
    + injection H as <- <- <-. split; [done|]. split; [apply extends_refl|]. intros ->. unfold account_state in Ha. rewrite E in Ha.
      destruct Ha as (_ & a & Ha & _). congruence.
Qed.

Lemma modify_sound w s h s' :
  sound w s → good w s h → entryModify s (h_index h) (h_ptr h) = Ok s' → sound w s' ∧ extends w s w s'.
Proof.
  intros Hs0 Hg H. destruct (decide (h_index h = ia)) as [Hi|Hi].
  - pose proof Hs0 as [Hf Hs HL Hent Ha]. pose proof (proj1 (proj2 Hg) Hi) as Hp. unfold ptr in Hp. unfold entryModify in H. rewrite Hi in H.
    unfold account_state in Ha. destruct (om_find ia (mEntries s)) as [e|] eqn:E; [|done]. injection Hp as Hp. rewrite Hp in Ha.
    destruct Ha as (Hq & Hact & Ha).
    assert (s' = set_entries s (om_set ia (mkLSE (h_ptr h) taaMODIFY (mSeq s)) (mEntries s))) as ->.
    { destruct Hact as [[_ Hact]|Hact]; rewrite Hact in H; by injection H. }
    set (s' := set_entries _ _).
    assert (om_find ia (mEntries s') = Some (mkLSE (h_ptr h) taaMODIFY (mSeq s))) as E'.
    { cbn [s' set_entries mEntries]. by rewrite om_find_set, Z.eqb_refl by done. }
    assert (ptr s' = ptr s) as Hpp by (unfold ptr; rewrite E', E; cbn; by rewrite Hp).
    assert (extends w s w s') as He by (intros g [H1 H2]; split; [done|by rewrite Hpp]).
    split; [|done]. split; [done|by apply om_set_sorted|done| |].
    + intros j f Hj. apply He. destruct (Z.eqb_spec j ia) as [->|Hne].
      * rewrite E' in Hj. injection Hj as <-. cbn [mEntry]. rewrite <- Hi. by destruct h.
      * cbn [s' set_entries mEntries] in Hj. rewrite om_find_set, (proj2 (Z.eqb_neq j ia)) in Hj by done. by apply Hent.
    + unfold account_state. rewrite E'. split; [done|]. split; [by right|done].
  - assert (good w s (mkHandle (h_index h) (h_ptr h))) as Hg' by (by destruct h).
    unfold entryModify in H. repeat case_match; try done; injection H as <-; by apply sound_entry.
Qed.

Lemma delete_sound w s h s' :
  sound w s → good w s h → h_index h ≠ ia → entryDelete s (h_index h) (h_ptr h) = Ok s' → sound w s' ∧ extends w s w s'.
Proof.
  intros Hs0 Hg Hi H. assert (good w s (mkHandle (h_index h) (h_ptr h))) as Hg' by (by destruct h).
  unfold entryDelete in H. repeat case_match; try done; injection H as <-; try by apply sound_entry.
  - split; [done|apply extends_refl].
  - set (s' := set_entries _ _). pose proof Hs0 as [Hf Hs HL Hent Ha].
    assert (om_find ia (om_erase (h_index h) (mEntries s)) = om_find ia (mEntries s)) as E.
    { rewrite om_find_erase by done. by rewrite (proj2 (Z.eqb_neq ia (h_index h))) by done. }
    assert (extends w s w s') as He.
    { intros g [Hh1 Hh2]. split; [done|]. unfold ptr in *. cbn [s' set_entries mEntries]. by rewrite E. }
    split; [|done]. split; [done|by apply om_erase_sorted|done| |].
    + intros j f Hj. cbn [s' set_entries mEntries] in Hj. rewrite om_find_erase in Hj by done. apply He.
      destruct (j =? h_index h); [done|by apply Hent].
    + unfold account_state in *. cbn [s' set_entries mEntries mSeq]. by rewrite E.
Qed.

Lemma create_sound w s i v w' s' q :
  sound w s → i ≠ ia → entryCreate w s i v = Ok (w', s', q) →
  sound w' s' ∧ extends w s w' s' ∧ good w' s' (mkHandle i q).
Proof.
  intros Hs0 Hi H. unfold entryCreate in H. destruct (alloc w v) as [p w1] eqn:Eal. res_inv. simplify_eq.
  unfold entryCreateRef in *.
  repeat case_match; try done; simplify_eq;
    [pose proof (sound_fresh w s i v taaMODIFY Hs0 Hi) as Hr|pose proof (sound_fresh w s i v taaCREATE Hs0 Hi) as Hr]; by rewrite Eal in Hr.
Qed.

(** Writing an account root with [K], or anything to another object *)
Lemma write_sound w s h v :
  sound w s → good w s h → (h_index h = ia → ∃ a, v = ltACCOUNT_ROOT a ∧ K a) →
  sound (write w (h_ptr h) v) s ∧ extends w s (write w (h_ptr h) v) s.
Proof.
  intros Hs0 [Hx Hg] Hv. pose proof Hs0 as [Hf Hs HL Hent Ha].
  assert (∀ q, is_Some (w_obj w !! q) → is_Some (w_obj (write w (h_ptr h) v) !! q)) as Hold.
  { intros q Hq. cbn. destruct (decide (q = h_ptr h)) as [->|Hne]; [rewrite lookup_insert_eq; by eexists|by rewrite lookup_insert_ne]. }
  assert (extends w s (write w (h_ptr h) v) s) as He by (intros g [H1 H2]; split; [by apply Hold|done]).
  split; [|done]. split; [|done|done|by intros i e Hi; by apply He, Hent|].
  - intros q Hq. apply Hf. cbn in Hq. destruct (decide (q = h_ptr h)) as [->|Hne]; [done|by rewrite lookup_insert_ne in Hq].
  - unfold account_state in *. unfold ptr in Hg. destruct (om_find ia (mEntries s)) as [e|]; [|done].
    destruct Ha as (H1 & H2 & a & Hq & HK). split; [done|]. split; [done|]. cbn. destruct (decide (mEntry e = h_ptr h)) as [Heq|Hne].
    + rewrite Heq, lookup_insert_eq. destruct Hv as (a' & -> & HK'); [apply Hg; cbn; by rewrite Heq|]. by exists a'.
    + rewrite lookup_insert_ne by done. by exists a.
Qed.

(** ** The operations of the monad *)

Definition opt_list {A} (o : option A) : list A := match o with Some x => [x] | None => [] end.

Lemma safe_cache hs i :
  safe hs (les_cache i) opt_list (λ o, match o with Some h => h_index h = i | None => i ≠ ia end).
Proof.
  intros w s w' s' o Hs Hg H. unfold les_cache in H. cbn [fst snd] in H.
  destruct (entryCache w s i) as [[[w1 s1] q]|] eqn:E; [|done]. cbn [mbind result_bind] in H. injection H as <- <- <-.
  destruct (cache_sound _ _ _ _ _ _ Hs E) as (H1 & H2 & H3). split; [done|]. split; [done|].
  destruct q as [q|]; cbn; (split; [|done]); [by intros h ->%list_elem_of_singleton|by intros h ?%elem_of_nil].
Qed.

Lemma safe_modify hs h : h ∈ hs → quiet hs (les_modify h).
Proof.
  intros Hh w s w' s' a Hs Hg H. unfold les_modify in H. cbn [fst snd] in H.
  destruct (entryModify s (h_index h) (h_ptr h)) as [s1|] eqn:E; [|done]. injection H as <- <-.
  destruct (modify_sound _ _ _ _ Hs (Hg _ Hh) E). split; [done|]. split; [done|]. split; [by intros g ?%elem_of_nil|done].
Qed.

Lemma safe_delete hs h : h ∈ hs → h_index h ≠ ia → quiet hs (les_delete h).
Proof.
  intros Hh Hi w s w' s' a Hs Hg H. unfold les_delete in H. cbn [fst snd] in H.
  destruct (entryDelete s (h_index h) (h_ptr h)) as [s1|] eqn:E; [|done]. injection H as <- <-.
  destruct (delete_sound _ _ _ _ Hs (Hg _ Hh) Hi E). split; [done|]. split; [done|]. split; [by intros g ?%elem_of_nil|done].
Qed.

Lemma safe_create hs i v : i ≠ ia → safe hs (les_create i v) (λ h, [h]) (λ h, h_index h = i).
Proof.
  intros Hi w s w' s' h Hs Hg H. unfold les_create in H. cbn [fst snd] in H.
  destruct (entryCreate w s i v) as [[[w1 s1] q]|] eqn:E; [|done]. injection H as <- <- <-.
  destruct (create_sound _ _ _ _ _ _ _ Hs Hi E) as (H1 & H2 & H3). split; [done|]. split; [done|].
  split; [by intros g ->%list_elem_of_singleton|done].
Qed.

(** What is read through a pointer to the account is an account root with [K]. *)
Lemma safe_read hs h : h ∈ hs →
  safe hs (read_sle h) (λ _, []) (λ v, h_index h = ia → ∃ a, v = ltACCOUNT_ROOT a ∧ K a).
Proof.
  intros Hh w s w' s' v Hs Hg H. unfold read_sle in H. cbn [fst snd] in H.
  destruct (w_obj w !! h_ptr h) as [x|] eqn:E; [|done]. injection H as <- <- <-.
  split; [done|]. split; [apply extends_refl|]. split; [by intros g ?%elem_of_nil|].
  intros Hi. destruct (good_read w s h Hs (Hg _ Hh) Hi) as (a & Ha & HK). exists a. split; [congruence|done].
Qed.

Lemma safe_write hs h v : h ∈ hs → (h_index h = ia → ∃ a, v = ltACCOUNT_ROOT a ∧ K a) → quiet hs (write_sle h v).
Proof.
  intros Hh Hv w s w' s' a Hs Hg H. unfold write_sle in H. injection H as <- <- <-. cbn [fst snd].
  destruct (write_sound w s h v Hs (Hg _ Hh) Hv). split; [done|]. split; [done|]. split; [by intros g ?%elem_of_nil|done].
Qed.

Lemma safe_get_account hs h : h ∈ hs → safe hs (get_account h) (λ _, []) (λ a, h_index h = ia → K a).
Proof.
  intros Hh. eapply safe_bind; [by apply safe_read|]. intros v Hv. cbn [app]. destruct v; try apply safe_throw.
  apply safe_ret; [by intros g ?%elem_of_nil|]. intros Hi. by destruct (Hv Hi) as (a' & [= ->] & ?).
Qed.
Lemma safe_set_account hs h a : h ∈ hs → (h_index h = ia → K a) → quiet hs (set_account h a).
Proof. intros Hh HK. apply safe_write; [done|]. intros Hi. exists a. auto. Qed.

(** Reading an entry of another type: it is not the account. *)
Lemma safe_get_other {A} hs h (f : SLE → M A) :
  h ∈ hs → (∀ a, f (ltACCOUNT_ROOT a) = throw "Field not found") →
  (∀ v, h_index h ≠ ia → safe hs (f v) (λ _, []) (λ _, h_index h ≠ ia)) →
  safe hs (v ← read_sle h; f v) (λ _, []) (λ _, h_index h ≠ ia).
Proof.
  intros Hh Ha Hf. eapply safe_bind; [by apply safe_read|]. intros v Hv. cbn [app].
  destruct (decide (h_index h = ia)) as [Hi|Hi]; [|by apply Hf]. destruct (Hv Hi) as (a & -> & _). rewrite Ha. apply safe_throw.
Qed.
Lemma safe_other_ret {A} hs (h : handle) (x : A) : h_index h ≠ ia → safe hs (mret x) (λ _, []) (λ _, h_index h ≠ ia).
Proof. intros Hi. apply safe_ret; [by intros g ?%elem_of_nil|done]. Qed.

Ltac other := intros Hh; apply safe_get_other; [done|done|];
  intros v Hi; destruct v; first [apply safe_throw | by apply safe_other_ret].
Lemma safe_get_line hs h : h ∈ hs → safe hs (get_line h) (λ _, []) (λ _, h_index h ≠ ia).
Proof. other. Qed.
Lemma safe_get_state hs h : h ∈ hs → safe hs (get_state h) (λ _, []) (λ _, h_index h ≠ ia).
Proof. other. Qed.
Lemma safe_get_offer hs h : h ∈ hs → safe hs (get_offer h) (λ _, []) (λ _, h_index h ≠ ia).
Proof. other. Qed.
Lemma safe_get_trust hs h : h ∈ hs → safe hs (get_trust h) (λ _, []) (λ _, h_index h ≠ ia).
Proof. other. Qed.
Lemma safe_get_signers hs h : h ∈ hs → safe hs (get_signers h) (λ _, []) (λ _, h_index h ≠ ia).
Proof. other. Qed.
Lemma safe_write_other hs h v : h ∈ hs → h_index h ≠ ia → quiet hs (write_sle h v).
Proof. intros Hh Hi. by apply safe_write. Qed.
Lemma safe_set_line hs h l : h ∈ hs → h_index h ≠ ia → quiet hs (set_line h l).
Proof. apply safe_write_other. Qed.

(** ** Directories

    The pages of directories other than roots have other indexes. *)

  Variable sha512half : list Z → Z.
  Hypothesis page_apart : ∀ root n, n ≠ 0 → getDirNodeIndex sha512half root n ≠ ia.

Lemma read_dir_apart w s i q d : sound w s → good w s (mkHandle i q) → read_dir w q = Ok d → i ≠ ia.
Proof.
  intros Hs Hg H ->. destruct (good_read w s (mkHandle ia q) Hs Hg eq_refl) as (a & Ha & _). cbn [h_ptr] in Ha.
  unfold read_dir in H. by rewrite Ha in H.
Qed.
Lemma write_dir_sound w s i q d :
  sound w s → good w s (mkHandle i q) → i ≠ ia → sound (write_dir w q d) s ∧ extends w s (write_dir w q d) s.
Proof. intros Hs Hg Hi. apply (write_sound w s (mkHandle i q)); [done|done|]. intros Heq. by destruct Hi. Qed.

Lemma not_null_Ok o q : not_null o = Ok q → o = Some q.
Proof. destruct o; [by intros [= ->]|done]. Qed.

(** Follow the operations of a run: after each the state is sound, and the pointers known to be
    good are good in the new state. *)
Ltac up He :=
  lazymatch type of He with extends ?w ?s ?w1 ?s1 =>
    repeat match goal with Hg : good w s _ |- _ => apply He in Hg end;
    match goal with Hx : extends ?w0 ?s0 w s |- _ => let H := fresh "Hx" in pose proof (extends_trans w0 s0 w s w1 s1 Hx He) as H; clear Hx end
  end; clear He.
Ltac follow1 :=
  match goal with
  | H : not_null _ = Ok _ |- _ => apply not_null_Ok in H; subst
  | Hs : sound ?w ?s, H : entryCache ?w ?s ?i = Ok (?w1, ?s1, ?o) |- _ =>
      let Hs1 := fresh "Hs" in let He := fresh "He" in let Hg := fresh "Hg" in
      pose proof (cache_sound w s i w1 s1 o Hs H) as (Hs1 & He & Hg); clear H Hs; up He; try destruct o
  | Hs : sound ?w ?s, Hg : good ?w ?s (mkHandle ?i ?q), H : entryModify ?s ?i ?q = Ok ?s1 |- _ =>
      let Hs1 := fresh "Hs" in let He := fresh "He" in
      pose proof (modify_sound w s (mkHandle i q) s1 Hs Hg H) as (Hs1 & He); clear H Hs; up He
  | Hs : sound ?w ?s, Hg : good ?w ?s (mkHandle ?i ?q), Hi : ?i ≠ ia, H : entryDelete ?s ?i ?q = Ok ?s1 |- _ =>
      let Hs1 := fresh "Hs" in let He := fresh "He" in
      pose proof (delete_sound w s (mkHandle i q) s1 Hs Hg Hi H) as (Hs1 & He); clear H Hs; up He
  | Hs : sound ?w ?s, Hi : ?i ≠ ia, H : entryCreate ?w ?s ?i ?v = Ok (?w1, ?s1, ?q) |- _ =>
      let Hs1 := fresh "Hs" in let He := fresh "He" in let Hg := fresh "Hg" in
      pose proof (create_sound w s i v w1 s1 q Hs Hi H) as (Hs1 & He & Hg); clear H Hs; up He
  | Hs : sound ?w ?s, Hg : good ?w ?s (mkHandle ?i ?q), H : read_dir ?w ?q = Ok _ |- _ =>
      lazymatch goal with Hi : i ≠ ia |- _ => clear H | _ => pose proof (read_dir_apart w s i q _ Hs Hg H); clear H end
  end.
(** A page is written: name the new heap. *)
Ltac written w s i q d Hs Hg Hi :=
  let Hs1 := fresh "Hs" in let He := fresh "He" in let w1 := fresh "w" in
  pose proof (write_dir_sound w s i q d Hs Hg Hi) as (Hs1 & He); clear Hs;
  set (w1 := write_dir w q d) in *; clearbody w1; up He.
Ltac follow_write :=
  match goal with
  | Hs : sound ?w ?s, Hg : good ?w ?s (mkHandle ?i ?q), Hi : ?i ≠ ia, H : context [write_dir ?w ?q ?d] |- _ => written w s i q d Hs Hg Hi
  | Hs : sound ?w ?s, Hg : good ?w ?s (mkHandle ?i ?q), Hi : ?i ≠ ia |- context [write_dir ?w ?q ?d] => written w s i q d Hs Hg Hi
  end.
Ltac follow :=
  repeat (res_inv; repeat match goal with x : (_ * _)%type |- _ => destruct x end; simplify_eq; first [follow1 | follow_write]);
  res_inv; simplify_eq.

Lemma push_entry_sound w0 s0 w s i q l x n w' s' r :
  sound w s → extends w0 s0 w s → good w s (mkHandle i q) → i ≠ ia →
  push_entry w s q l x n = Ok (w', s', r) → sound w' s' ∧ extends w0 s0 w' s'.
Proof. intros Hs Hx Hg Hi H. unfold push_entry in H. follow. done. Qed.

Lemma dirAdd_sound w s root x desc w' s' r :
  sound w s → dirAdd sha512half w s root x desc = Ok (w', s', r) → sound w' s' ∧ extends w s w' s'.
Proof.
  intros Hs H. pose proof (extends_refl w s) as Hx. unfold dirAdd in H. res_inv. destruct x0 as [[w1 s1] o].
  follow1; [rename z into q|].
  - apply result_bind_Ok in H0 as (d & Hd & H). follow1. apply result_bind_Ok in H as ([[w2 s2] p] & Hnode & H).
    assert (∃ i, sound w2 s2 ∧ extends w s w2 s2 ∧ good w2 s2 (mkHandle root q) ∧ good w2 s2 (mkHandle i p)
      ∧ i = getDirNodeIndex sha512half root (sfIndexPrevious d)) as (i & Hs2 & Hx2 & Hg2 & Hgp & ->).
    { clear H. destruct (Z.eqb_spec (sfIndexPrevious d) 0) as [E|E]; cbn [negb] in *; follow.
      - exists root. split; [done|]. split; [done|]. split; [done|]. split; [done|]. by rewrite E.
      - eexists. by split; [|split; [|split; [|split]]]. }
    clear Hnode Hs0 Hx0 Hg. apply result_bind_Ok in H as (dn & Hdn & H). follow1. destruct (negb (length _ =? _)%nat).
    + follow. by eapply push_entry_sound.
    + destruct (Z.eqb_spec (u64 (sfIndexPrevious d + 1)) 0) as [E|E]; [follow; done|].
      pose proof (page_apart root _ E) as Hpa. destruct (negb (u64 (sfIndexPrevious d + 1) =? 1)); follow; by eapply push_entry_sound.
  - follow. by eapply push_entry_sound.
Qed.

Lemma emptied_sound w0 s0 w s keep n root q w' s' r :
  sound w s → extends w0 s0 w s → good w s (mkHandle (getDirNodeIndex sha512half root n) q) →
  emptied sha512half w s keep n root q = Ok (w', s', r) → sound w' s' ∧ extends w0 s0 w' s'.
Proof.
  intros Hs Hx Hg H. unfold emptied in H. apply result_bind_Ok in H as (d & Hd & H). follow1.
  destruct (n =? 0).
  - repeat case_match; follow; try done. repeat case_match; follow; done.
  - repeat case_match; follow; try done; repeat case_match; follow; done.
Qed.

Lemma dirDelete_loop_sound fuel : ∀ w0 s0 w s keep n root x st soft w' s' r,
  sound w s → extends w0 s0 w s → dirDelete_loop sha512half fuel w s keep n root x st soft = Ok (w', s', r) →
  sound w' s' ∧ extends w0 s0 w' s'.
Proof.
  induction fuel as [|fuel IH]; intros w0 s0 w s keep n root x st soft w' s' r Hs Hx H; cbn [dirDelete_loop] in H.
  { follow. done. }
  apply result_bind_Ok in H as ([[w1 s1] o] & Hc & H). follow1; [rename z into q|].
  - apply result_bind_Ok in H as (d & Hd & H). follow1. destruct (remove_entry _ _ _) as [l|].
    + destruct l; follow; [by eapply emptied_sound|done].
    + repeat case_match; follow; try done. by eapply IH.
  - repeat case_match; follow; try done. by eapply IH.
Qed.

Lemma dirDelete_sound w s keep n root x st soft w' s' r :
  sound w s → dirDelete sha512half w s keep n root x st soft = Ok (w', s', r) → sound w' s' ∧ extends w s w' s'.
Proof. intros Hs. unfold dirDelete. apply dirDelete_loop_sound; [done|apply extends_refl]. Qed.

#[local] Opaque dirDelete.

Lemma safe_dirAdd hs owner x : quiet hs (owner_dirAdd sha512half owner x).
Proof.
  intros w s w' s' a Hs Hg H. unfold owner_dirAdd in H. cbn [fst snd] in H. apply dirAdd_sound in H as [H1 H2]; [|done].
  split; [done|]. split; [done|]. split; [by intros h ?%elem_of_nil|done].
Qed.
Lemma safe_dirDelete hs keep n root x st soft : quiet hs (les_dirDelete sha512half keep n root x st soft).
Proof.
  intros w s w' s' a Hs Hg H. unfold les_dirDelete in H. cbn [fst snd] in H. destruct (dirDelete_sound w s keep n root x st soft w' s' a Hs H) as [H1 H2].
  split; [done|]. split; [done|]. split; [by intros h ?%elem_of_nil|done].
Qed.

(** ** Balances and trust lines *)

(** What the functions of file [TrustLines] do to an account root *)
Class AccountLaw : Prop := {
  law_owner a n : K a → K (set_owner_count a n);
  law_balance a b : K a → K (set_account_balance a b)
}.

End logic.

Create HintDb safedb.

Ltac in_hs :=
  cbn [app opt_list];
  first [assumption | apply list_elem_of_here | apply list_elem_of_further; in_hs | apply elem_of_app; first [right; in_hs | left; in_hs]].
Ltac no_new := let h := fresh in let H := fresh in intros h H; cbn in H; by apply elem_of_nil in H.

#[export] Hint Resolve safe_modify safe_delete safe_create safe_write_other safe_set_line safe_set_account safe_cacheCredit safe_enable
  safe_get_params safe_get_ledger safe_adjustedBalance safe_areDeferred safe_lift safe_get_account safe_get_line safe_get_state
  safe_get_offer safe_get_trust safe_get_signers safe_cache safe_dirAdd safe_dirDelete : safedb.
#[export] Hint Extern 1 (_ ∈ _) => in_hs : safedb.
#[export] Hint Extern 2 (_ ≠ _) => congruence : safedb.
#[export] Hint Extern 1 (AccountLaw _) => apply _ : safedb.
(** An account root written back with another owner count or balance *)
Ltac law_solve := first [eapply law_owner; [apply _|by auto] | eapply law_balance; [apply _|by auto] | by auto].
#[export] Hint Extern 3 => (lazymatch goal with |- _ = _ → _ => intros ?; law_solve end) : safedb.

(** A computation on its own: one of the known ones, or a pointer that is there *)
Ltac safe_prim :=
  first
    [ solve [eauto 4 with safedb nocore]
    | lazymatch goal with
      | |- safe _ _ _ _ _ (deref (Some _)) _ _ => apply safe_deref; intros ? [= <-]; in_hs
      | |- safe _ _ _ _ _ (deref None) _ _ => apply safe_throw
      | |- safe _ _ _ _ _ (deref ?o) _ _ => apply safe_deref; first [intros ? ->; in_hs | destruct o; intros ? [= <-]; in_hs]
      end ].
Ltac safe_simpl := repeat match goal with x : (_ * _)%type |- _ => destruct x end; cbn [app opt_list] in *; cbv beta iota in *.
Ltac safe_case := repeat match goal with H : match ?o with Some _ => _ | None => _ end |- _ => (is_var o; fail 1) || (cbv iota in H) end.
(** Step by step; a computation that chooses between others is quiet. *)
Ltac safe_auto :=
  safe_simpl;
  lazymatch goal with
  | |- safe _ _ _ _ _ (mret _) _ _ => apply safe_ret; [first [no_new | idtac]|first [exact I | idtac]]
  | |- safe _ _ _ _ _ (throw _) _ _ => apply safe_throw
  | |- safe _ _ _ _ _ (mret _ ≫= _) _ _ => apply safe_ret_bind; safe_auto
  | |- safe ?i ?L ?K ?md ?hs (?c ≫= _) _ _ =>
      first [eapply safe_bind; [safe_prim|intros ? ?; safe_auto]
            |apply (safe_bind i L K md hs c _ (λ _, []) (λ _, True)); [safe_auto|intros ? _; safe_auto]]
  | |- safe _ _ _ _ _ (if ?b then _ else _) _ _ => destruct b; safe_auto
  | |- safe _ _ _ _ _ (match ?o with _ => _ end) _ _ => destruct o; safe_auto
  | |- _ => first [safe_prim | eapply safe_quiet; safe_prim | idtac]
  end.

Section trust_lines.
  Context {BN : BigNum}.
  Variable ia : Z.
  Variable L : list (Z * SLE).
  Variable K : AccountRoot → Prop.
  Variable md : bool.
  Context {LAW : AccountLaw K}.
  Hypothesis ia_nonzero : ia ≠ 0.
  Variable sha512half : list Z → Z.
  Hypothesis page_apart : ∀ root n, n ≠ 0 → getDirNodeIndex sha512half root n ≠ ia.
  Variables base inc : Z.
  Notation safe := (AccountLogic.safe ia L K md).
  Notation quiet hs c := (safe hs c (λ _, []) (λ _, True)).

Lemma safe_incrementOwnerCount hs h : h ∈ hs → quiet hs (incrementOwnerCount h).
Proof. intros Hh. unfold incrementOwnerCount. safe_auto. Qed.

Lemma safe_decrementOwnerCount hs h : h ∈ hs → quiet hs (decrementOwnerCount h).
Proof. intros Hh. unfold decrementOwnerCount. safe_auto. Qed.
#[local] Hint Resolve safe_incrementOwnerCount safe_decrementOwnerCount : safedb.
Lemma safe_decrementOwnerCount_of hs a : quiet hs (decrementOwnerCount_of sha512half a).
Proof. unfold decrementOwnerCount_of. safe_auto. Qed.
#[local] Hint Resolve safe_decrementOwnerCount_of : safedb.

Lemma safe_isFrozen hs a c i : quiet hs (isFrozen sha512half a c i).
Proof. unfold isFrozen. safe_auto. Qed.
#[local] Hint Resolve safe_isFrozen : safedb.
Lemma safe_skywellHolds hs a c i f : quiet hs (skywellHolds sha512half a c i f).
Proof. unfold skywellHolds. safe_auto. Qed.
#[local] Hint Resolve safe_skywellHolds : safedb.
Lemma safe_accountHolds hs a c i f : quiet hs (accountHolds sha512half base inc a c i f).
Proof. unfold accountHolds. cbv zeta. safe_auto. Qed.
#[local] Hint Resolve safe_accountHolds : safedb.
Lemma safe_accountFunds hs a x f : quiet hs (accountFunds sha512half base inc a x f).
Proof. unfold accountFunds. safe_auto. Qed.

Lemma safe_both_dirAdd hs a b i : quiet hs (both_dirAdd sha512half a b i).
Proof. unfold both_dirAdd. safe_auto. Qed.
#[local] Hint Resolve safe_both_dirAdd : safedb.

Lemma safe_trustCreate hs high src dst i h auth ns fz bal lim qi qo :
  h ∈ hs → i ≠ ia → quiet hs (trustCreate sha512half high src dst i h auth ns fz bal lim qi qo).
Proof. intros Hh Hi. unfold trustCreate. cbv zeta. safe_auto. Qed.
Lemma safe_relationCreate hs high src dst i h bal lim qi qo :
  h ∈ hs → i ≠ ia → quiet hs (relationCreate sha512half high src dst i h bal lim qi qo).
Proof. intros Hh Hi. unfold relationCreate. cbv zeta. safe_auto. Qed.
Lemma safe_signCreate hs i h src mw q qh l : h ∈ hs → i ≠ ia → quiet hs (signCreate sha512half i h src mw q qh l).
Proof. intros Hh Hi. unfold signCreate. cbv zeta. safe_auto. Qed.
Lemma safe_trustDelete hs h a b : h ∈ hs → quiet hs (trustDelete sha512half h a b).
Proof. intros Hh. unfold trustDelete. cbv zeta. safe_auto. Qed.
#[local] Hint Resolve safe_trustCreate safe_trustDelete : safedb.

Lemma safe_skywellCredit hs a b x c : quiet hs (skywellCredit sha512half a b x c).
Proof. unfold skywellCredit. cbv zeta. safe_auto. Qed.
#[local] Hint Resolve safe_skywellCredit : safedb.
Lemma safe_skywellTransferRate hs i c : quiet hs (skywellTransferRate sha512half i c).
Proof. unfold skywellTransferRate. cbv zeta. safe_auto. Qed.
#[local] Hint Resolve safe_skywellTransferRate : safedb.
Lemma safe_skywellTransferFee hs a b i x : quiet hs (skywellTransferFee sha512half a b i x).
Proof. unfold skywellTransferFee. safe_auto. Qed.
#[local] Hint Resolve safe_skywellTransferFee : safedb.
Lemma safe_skywellSend hs a b x : quiet hs (skywellSend sha512half a b x).
Proof. unfold skywellSend. cbv zeta. safe_auto. Qed.
#[local] Hint Resolve safe_skywellSend : safedb.
Lemma safe_cache_if hs (b : bool) i : safe hs (if b then les_cache i else mret None) opt_list (λ _, True).
Proof.
  destruct b; [|apply safe_ret; [by intros h ?%elem_of_nil|done]].
  eapply safe_mono; [apply safe_cache; done|done|done|by left].
Qed.
#[local] Hint Resolve safe_cache_if : safedb.
Lemma safe_accountSend hs a b x : quiet hs (accountSend sha512half a b x).
Proof. unfold accountSend. cbv zeta. safe_auto. Qed.
Lemma safe_issue_trust_auto hs a x i d : quiet hs (issue_trust_auto sha512half a x i d).
Proof. unfold issue_trust_auto. cbv zeta. safe_auto. Qed.

End trust_lines.

#[export] Hint Resolve safe_incrementOwnerCount safe_decrementOwnerCount safe_decrementOwnerCount_of safe_isFrozen safe_skywellHolds
  safe_accountHolds safe_accountFunds safe_trustCreate safe_relationCreate safe_signCreate safe_trustDelete safe_skywellCredit
  safe_accountSend safe_issue_trust_auto safe_cache_if : safedb.
