(* ===== verification/ThreadingProps.v ===== *)
(** * Threading changes nothing but threads

    Two facts about [calcRawMeta] that the theorems about the engine need.  It is safe in the sense
    of file [AccountLogic] for every property of an account root that does not depend on its thread
    ([calcRawMeta_sound]): accounts that it adds to the set are marked as modified and hold what the
    ledger has.  And when only account roots differ from the ledger, it threads exactly these
    ([calcRawMeta_accounts]). *)

From S2P Require Import Prelude OrdMap Issue STAmount Ter Indexes DeferredCredits EntrySet Directory LedgerObjects Threading AccountLogic.

(** ** The set with the entries to be added *)

(** [sp] is the set [s] once each element of [mods], none of which is an entry, was modified. *)
Record joins (s : LedgerEntrySet SLE) (mods : list (Z * Z)) (sp : LedgerEntrySet SLE) : Prop := mkJoins {
  jn_same : sp = set_entries s (mEntries sp);
  jn_sorted : om_sorted (mEntries s);
  jn_mods : om_sorted mods;
  jn_new j p : om_find j mods = Some p → om_find j (mEntries s) = None;
  jn_find j : om_find j (mEntries sp) = match om_find j (mEntries s) with
    | Some e => Some e
    | None => (λ p, mkLSE p taaMODIFY (mSeq s)) <$> om_find j mods
    end
}.

Lemma joins_env s mods sp : joins s mods sp → mSeq sp = mSeq s ∧ mLedger sp = mLedger s.
Proof. intros H. by rewrite (jn_same _ _ _ H). Qed.

Lemma joins_start s : om_sorted (mEntries s) → joins s [] s.
Proof. intros Hs. split; try done; [by destruct s|constructor|]. intros j. by destruct (om_find j (mEntries s)). Qed.

Lemma joins_end s sp : joins s [] sp → om_sorted (mEntries sp) → sp = s.
Proof.
  intros [Heq Hs _ _ Hf] Hsp. rewrite Heq. replace (mEntries sp) with (mEntries s); [by destruct s|].
  apply om_ext; [done..|]. intros j. rewrite Hf. by destruct (om_find j (mEntries s)).
Qed.

(** The record of an entry changes. *)
Lemma joins_set s mods sp i x e :
  joins s mods sp → om_sorted (mEntries sp) → om_find i (mEntries s) = Some e →
  joins (set_entries s (om_set i x (mEntries s))) mods (set_entries sp (om_set i x (mEntries sp))).
Proof.
  intros [Heq Hs Hm Hnew Hf] Hsp Hi. split; cbn [set_entries mEntries mSeq]; [by rewrite Heq|by apply om_set_sorted|done|..].
  - intros j p Hj. rewrite om_find_set by done. destruct (Z.eqb_spec j i) as [->|_]; [|by eapply Hnew].
    apply Hnew in Hj. congruence.
  - intros j. rewrite !om_find_set by done. destruct (j =? i); [done|apply Hf].
Qed.

(** An entry is to be added. *)
Lemma joins_new s mods sp i p :
  joins s mods sp → om_sorted (mEntries sp) → om_find i (mEntries s) = None →
  joins s (om_set i p mods) (set_entries sp (om_set i (mkLSE p taaMODIFY (mSeq sp)) (mEntries sp))).
Proof.
  intros Hj Hsp Hi. pose proof (joins_env _ _ _ Hj) as [Eq _]. destruct Hj as [Heq Hs Hm Hnew Hf].
  split; cbn [set_entries mEntries mSeq]; [by rewrite Heq|done|by apply om_set_sorted|..].
  - intros j q. rewrite om_find_set by done. destruct (Z.eqb_spec j i) as [->|_]; [done|apply Hnew].
  - intros j. rewrite !om_find_set by done. destruct (Z.eqb_spec j i) as [->|_]; [by rewrite Hi, Eq|apply Hf].
Qed.

Lemma joins_modify s i p mods sp w w' s' u :
  joins s ((i, p) :: mods) sp → les_modify (mkHandle i p) (w, s) = Ok (w', s', u) → w' = w ∧ joins s' mods sp.
Proof.
  intros [Heq Hs Hm Hnew Hf] H. apply om_sorted_cons in Hm as [Hm Hlt].
  assert (om_find i (mEntries s) = None) as Hi by (apply (Hnew i p); cbn; by rewrite Z.eqb_refl).
  unfold les_modify, entryModify in H. cbn [fst snd h_index h_ptr] in H. rewrite Hi in H. cbn in H. injection H as <- <- _.
  split; [done|]. split; cbn [set_entries mEntries mSeq]; [by rewrite Heq|by apply om_set_sorted|done|..].
  - intros j q Hj. rewrite om_find_set by done. destruct (Z.eqb_spec j i) as [->|Hne].
    + by rewrite om_find_lt in Hj.
    + apply (Hnew j q). cbn. by rewrite (proj2 (Z.eqb_neq j i)).
  - intros j. rewrite Hf. rewrite om_find_set by done. cbn [om_find]. destruct (Z.eqb_spec j i) as [->|_]; [by rewrite Hi|done].
Qed.

(** ** Account laws *)

Section safe.
  Variable ia : Z.
  Variable L : list (Z * SLE).
  Variable K : AccountRoot → Prop.
  Variable md : bool.
  Hypothesis K_thread : ∀ a t, K a → K (set_account_thread a t).
  Variable sha512half : list Z → Z.
  Variables txID lgrSeq : Z.
  Notation sound := (AccountLogic.sound ia L K md).
  Notation good := (AccountLogic.good ia).

(** With the entries to be added, the state is sound, and the pointers [hs] are good. *)
Definition msound (hs : list handle) (w : World SLE) (s : LedgerEntrySet SLE) (mt : Meta) : Prop :=
  ∃ sp, joins s (newMods mt) sp ∧ sound w sp ∧ ∀ h, h ∈ hs → good w sp h.

Lemma msound_up hs w sp w' s' mt' sp' new :
  (∀ h, h ∈ hs → good w sp h) → joins s' (newMods mt') sp' → sound w' sp' → AccountLogic.extends ia w sp w' sp' →
  (∀ h, h ∈ new → good w' sp' h) → msound (new ++ hs) w' s' mt'.
Proof. intros Hg Hj Hs He Hn. exists sp'. split; [done|]. split; [done|]. intros h [Hh|Hh]%elem_of_app; [by apply Hn|by apply He, Hg]. Qed.

Lemma in_one (P : handle → Prop) h : P h → ∀ g, g ∈ [h] → P g.
Proof. by intros HP g ->%list_elem_of_singleton. Qed.

Lemma msound_sub hs hs' w s mt : (∀ h, h ∈ hs → h ∈ hs') → msound hs' w s mt → msound hs w s mt.
Proof. intros Hsub (sp & H1 & H2 & H3). exists sp. auto. Qed.
Lemma msound_nodes hs w s mt l : msound hs w s mt → msound hs w s (set_nodes mt l).
Proof. done. Qed.

(** An account that is an entry stays one, marked as modified. *)
Lemma mark_sound w sp i e :
  sound w sp → om_find i (mEntries sp) = Some e → is_delete (mAction e) = false → e_seq e = mSeq sp →
  let act := match mAction e with taaCACHED => taaMODIFY | a => a end in
  let sp' := set_entries sp (om_set i (mkLSE (mEntry e) act (e_seq e)) (mEntries sp)) in
  sound w sp' ∧ AccountLogic.extends ia w sp w sp' ∧ good w sp' (mkHandle i (mEntry e)).
Proof.
  intros Hs Hi Hd Hq act sp'. pose proof (so_entry _ _ _ _ _ _ Hs i e Hi) as Hg.
  assert (sound w sp' ∧ AccountLogic.extends ia w sp w sp') as [H1 H2]; [|split; [done|]; split; [done|by apply H2]].
  destruct (decide (i = ia)) as [->|Hne]; [|by apply sound_entry].
  apply (modify_sound _ _ _ _ w sp (mkHandle ia (mEntry e))); [done|done|]. unfold entryModify. cbn [h_index h_ptr]. rewrite Hi.
  pose proof (so_account _ _ _ _ _ _ Hs) as Ha. unfold account_state in Ha. rewrite Hi in Ha.
  subst sp' act. rewrite Hq. destruct Ha as (_ & [[_ ->]| ->] & _); done.
Qed.

(** An account that is not an entry is added as a modified one. *)
Lemma add_sound w sp i v :
  sound w sp → om_find i (mEntries sp) = None → om_find i L = Some v →
  let w' := (alloc w v).2 in
  let sp' := set_entries sp (om_set i (mkLSE (alloc w v).1 taaMODIFY (mSeq sp)) (mEntries sp)) in
  sound w' sp' ∧ AccountLogic.extends ia w sp w' sp' ∧ good w' sp' (mkHandle i (alloc w v).1).
Proof.
  intros Hs Hi Hv w' sp'. destruct (decide (i = ia)) as [->|Hne]; [|by apply sound_fresh].
  pose proof (so_account _ _ _ _ _ _ Hs) as Ha. unfold account_state in Ha. rewrite Hi in Ha. destruct Ha as (Hmd & a & HLa & HK).
  rewrite HLa in Hv. injection Hv as <-. destruct (sound_first _ _ _ _ w sp a Hs Hmd Hi HLa HK) as (Hs1 & He1 & Hg1).
  destruct (modify_sound _ _ _ _ _ _ _ sp' Hs1 Hg1) as [Hs2 He2].
  - pose proof (so_sorted _ _ _ _ _ _ Hs) as Hso. unfold entryModify. cbn [h_index h_ptr set_entries mEntries mSeq].
    rewrite om_find_set, Z.eqb_refl by done. cbn [mAction]. f_equal. subst sp'. unfold set_entries. cbn [mEntries mSeq mLedger mDeferredCredits mParams mImmutable].
    f_equal. apply om_ext; [by do 2 apply om_set_sorted|by apply om_set_sorted|]. intros j.
    rewrite !om_find_set by (try apply om_set_sorted; done). by destruct (j =? ia).
  - split; [done|]. split; [by eapply extends_trans|by apply He2].
Qed.

Lemma getForMod_sound hs w s mt i w' s' mt' o :
  msound hs w s mt → getForMod i mt (w, s) = Ok (w', s', (mt', o)) → msound (opt_list o ++ hs) w' s' mt'.
Proof.
  intros (sp & Hj & Hs & Hg) H. pose proof (so_sorted _ _ _ _ _ _ Hs) as Hsp. pose proof (joins_env _ _ _ Hj) as [Eq El].
  pose proof (jn_find _ _ _ Hj i) as Hf. unfold getForMod in H. destruct (om_find i (mEntries s)) as [e|] eqn:E.
  - destruct (is_delete (mAction e)) eqn:Hd; [injection H as <- <- <- <-; by exists sp|].
    destruct (Z.eqb_spec (e_seq e) (mSeq s)) as [Hq|Hq].
    + injection H as <- <- <- <-. destruct (mark_sound w sp i e Hs Hf Hd ltac:(by rewrite Eq)) as (H1 & H2 & H3).
      eapply msound_up; [exact Hg|by eapply joins_set|exact H1|exact H2|by apply in_one].
    + assert (i ≠ ia) as Hne.
      { intros ->. pose proof (so_account _ _ _ _ _ _ Hs) as Ha. unfold account_state in Ha. rewrite Hf, Eq in Ha. by destruct Ha. }
      destruct (w_obj w !! mEntry e) as [v|]; [|done]. cbn [alloc] in H. injection H as <- <- <- <-.
      destruct (sound_fresh _ _ _ _ w sp i v (match mAction e with taaCACHED => taaMODIFY | a => a end) Hs Hne) as (H1 & H2 & H3).
      rewrite Eq in *. eapply msound_up; [exact Hg|by eapply joins_set|exact H1|exact H2|by apply in_one].
  - destruct (om_find i (newMods mt)) as [p|] eqn:Em.
    + injection H as <- <- <- <-. eapply msound_up; [exact Hg|exact Hj|exact Hs|apply extends_refl|].
      apply in_one. exact (so_entry _ _ _ _ _ _ Hs i _ Hf).
    + rewrite <- El, (so_ledger _ _ _ _ _ _ Hs) in H. destruct (om_find i L) as [v|] eqn:Ev; [|injection H as <- <- <- <-; by exists sp].
      cbn [alloc] in H. injection H as <- <- <- <-. destruct (add_sound w sp i v Hs Hf Ev) as (H1 & H2 & H3).
      eapply msound_up; [exact Hg|by apply joins_new|exact H1|exact H2|by apply in_one].
Qed.

Lemma thread_account v v' prev a :
  thread txID lgrSeq v = Ok (v', prev) → v = ltACCOUNT_ROOT a → K a → ∃ a', v' = ltACCOUNT_ROOT a' ∧ K a'.
Proof.
  intros H -> HK. unfold thread in H. cbn in H. destruct (_ =? _); injection H as <- _; eexists; split; try done. by apply K_thread.
Qed.

Lemma threadTx_sle_sound hs w s mt h w' s' mt' b :
  msound hs w s mt → h ∈ hs → threadTx_sle txID lgrSeq h mt (w, s) = Ok (w', s', (mt', b)) → msound hs w' s' mt'.
Proof.
  intros Hm Hh H. unfold threadTx_sle in H. apply M_bind_Ok in H as (w1 & s1 & v & H1 & H).
  unfold read_sle in H1. cbn [fst snd] in H1. destruct (w_obj w !! h_ptr h) as [v0|] eqn:Ev; [|done]. injection H1 as <- <- ->.
  apply M_bind_Ok in H as (w1 & s1 & [v' prev] & H1 & H). apply lift_Ok in H1 as (-> & -> & Ht).
  destruct prev as [prev|]; [|by injection H as <- <- <- _].
  apply M_bind_Ok in H as (w1 & s1 & u & [= <- <- _] & H). cbn [fst snd] in H.
  assert (w' = write w (h_ptr h) v' ∧ s' = s ∧ newMods mt' = newMods mt) as (-> & -> & Hn).
  { destruct (_ =? 0); [by injection H as <- <- <- _|]. destruct (thread_node _ _ _). by injection H as <- <- <- _. }
  destruct Hm as (sp & Hj & Hs & Hg). destruct (write_sound _ _ _ _ w sp h v' Hs (Hg h Hh)) as [Hs' He].
  { intros Hi. destruct (good_read _ _ _ _ w sp h Hs (Hg h Hh) Hi) as (a & Ha & HK). rewrite Ev in Ha. injection Ha as Ha. by eapply thread_account. }
  exists sp. rewrite Hn. split; [done|]. split; [done|]. intros g Hgh. by apply He, Hg.
Qed.

Lemma threadTx_sound hs w s mt a w' s' mt' b :
  msound hs w s mt → threadTx sha512half txID lgrSeq a mt (w, s) = Ok (w', s', (mt', b)) → msound hs w' s' mt'.
Proof.
  intros Hm H. unfold threadTx in H. apply M_bind_Ok in H as (w1 & s1 & [mt1 o] & H1 & H).
  eapply getForMod_sound in H1; [|exact Hm]. destruct o as [h|].
  - eapply threadTx_sle_sound in H; [|exact H1|apply list_elem_of_here]. eapply msound_sub; [|exact H]. intros g Hg. by right.
  - by injection H as <- <- <- _.
Qed.

Lemma threadOwners_sound hs w s mt v w' s' mt' b :
  msound hs w s mt → threadOwners sha512half txID lgrSeq v mt (w, s) = Ok (w', s', (mt', b)) → msound hs w' s' mt'.
Proof.
  intros Hm H. unfold threadOwners in H. destruct (one_owner v); [by eapply threadTx_sound|].
  destruct (two_owners v) as [[x y]|]; [|by injection H as <- <- <- _].
  apply M_bind_Ok in H as (w1 & s1 & [mt1 d] & H1 & H). eapply threadTx_sound in H1; [|exact Hm].
  destruct d; [by eapply threadTx_sound|by injection H as <- <- <- _].
Qed.

Lemma calc_node_sound w s mt i w' s' mt' :
  msound [] w s mt → calc_node sha512half txID lgrSeq mt i (w, s) = Ok (w', s', mt') → msound [] w' s' mt'.
Proof.
  intros Hm H. unfold calc_node in H. cbn [fst snd] in H. destruct (om_find i (mEntries s)) as [e|] eqn:E; [|by injection H as <- <- <-].
  destruct (node_kind (mAction e)) as [kind|]; [|by injection H as <- <- <-].
  apply M_bind_Ok in H as (w1 & s1 & v & H1 & H). unfold read_sle in H1. cbn [fst snd h_ptr] in H1.
  destruct (w_obj w !! mEntry e) as [v0|]; [|done]. injection H1 as <- <- ->.
  set (h := mkHandle i (mEntry e)) in *. set (mt1 := set_nodes mt _) in *.
  assert (msound [h] w s mt1) as Hm1.
  { destruct Hm as (sp & Hj & Hs & _). exists sp. split; [done|]. split; [done|]. apply in_one. apply (so_entry _ _ _ _ _ _ Hs).
    by rewrite (jn_find _ _ _ Hj), E. }
  assert (∀ w0 s0 mt0 w2 s2 mt2, msound [h] w0 s0 mt0 → ('(m, _) ← threadTx_sle txID lgrSeq h mt0; mret m) (w0, s0) = Ok (w2, s2, mt2) → msound [] w2 s2 mt2) as Hself.
  { intros w0 s0 mt0 w2 s2 mt2 Hm0 H0. apply M_bind_Ok in H0 as (w3 & s3 & [mt3 b] & H3 & [= <- <- <-]).
    eapply threadTx_sle_sound in H3; [|exact Hm0|apply list_elem_of_here]. eapply msound_sub; [|exact H3]. by intros g ?%elem_of_nil. }
  assert (∀ w0 s0 mt0, msound [h] w0 s0 mt0 → msound [] w0 s0 mt0) as Hless by (intros ? ? ?; apply msound_sub; by intros g ?%elem_of_nil).
  destruct kind.
  - apply M_bind_Ok in H as (w2 & s2 & [mt2 b] & H2 & H). eapply threadOwners_sound in H2; [|exact Hm1].
    destruct (isThreadedType v); [by eapply Hself|injection H as <- <- <-; by apply Hless].
  - destruct (om_find i (mLedger s)) as [orig|]; [|done]. destruct (sle_eq v orig); [by injection H as <- <- <-|].
    destruct (isThreadedType v); [by eapply Hself|injection H as <- <- <-; by apply Hless].
  - destruct (om_find i (mLedger s)) as [orig|]; [|done]. apply M_bind_Ok in H as (w2 & s2 & [mt2 b] & H2 & [= <- <- <-]).
    eapply threadOwners_sound in H2; [|exact Hm1]. by apply Hless.
Qed.

Lemma calc_nodes_sound l : ∀ w s mt w' s' mt',
  msound [] w s mt → calc_nodes sha512half txID lgrSeq l mt (w, s) = Ok (w', s', mt') → msound [] w' s' mt'.
Proof.
  induction l as [|i l IH]; intros w s mt w' s' mt' Hm H; [by injection H as <- <- <-|].
  cbn [calc_nodes] in H. apply M_bind_Ok in H as (w1 & s1 & mt1 & H1 & H). eapply IH; [|exact H]. by eapply calc_node_sound.
Qed.

Lemma modify_all_joins l : ∀ w s sp w' s' u, joins s l sp → modify_all l (w, s) = Ok (w', s', u) → w' = w ∧ joins s' [] sp.
Proof.
  induction l as [|[i p] l IH]; intros w s sp w' s' u Hj H; [by injection H as <- <- _|].
  cbn [modify_all] in H. apply M_bind_Ok in H as (w1 & s1 & u1 & H1 & H). eapply joins_modify in H1 as [-> H1]; [|exact Hj]. by eapply IH.
Qed.

Lemma calcRawMeta_sound w s w' s' nodes :
  sound w s → calcRawMeta sha512half txID lgrSeq (w, s) = Ok (w', s', nodes) → sound w' s'.
Proof.
  intros Hs H. unfold calcRawMeta in H. cbn [fst snd] in H. apply M_bind_Ok in H as (w1 & s1 & mt & H1 & H).
  apply M_bind_Ok in H as (w2 & s2 & u & H2 & [= <- <- _]).
  eapply calc_nodes_sound in H1 as (sp & Hj & Hsp & _).
  - eapply modify_all_joins in H2 as [-> H2]; [|exact Hj]. by rewrite <- (joins_end _ _ H2 (so_sorted _ _ _ _ _ _ Hsp)).
  - exists s. split; [apply joins_start, Hs|]. split; [done|]. by intros h ?%elem_of_nil.
Qed.

End safe.

(** ** When only accounts changed *)

Lemma op_eq_refl a : op_eq a a = true.
Proof.
  unfold op_eq, isComparable. rewrite !Z.eqb_refl, eqb_reflx. by destruct (mIsNative a); cbn; rewrite ?bool_decide_eq_true_2, ?Z.eqb_refl.
Qed.
Lemma amounts_eq_refl l : amounts_eq l l = true.
Proof. induction l as [|a l IH]; cbn; [done|]. by rewrite op_eq_refl. Qed.
Lemma account_eq_refl a : account_eq a a = true.
Proof.
  unfold account_eq. rewrite !Z.eqb_refl, op_eq_refl, !bool_decide_eq_true_2 by done.
  destruct (sfCurrencyRates a); [by rewrite amounts_eq_refl|done].
Qed.
Lemma line_eq_refl a : line_eq a a = true.
Proof. unfold line_eq, side_eq. by rewrite !Z.eqb_refl, !op_eq_refl, !bool_decide_eq_true_2. Qed.

(** An entry equals itself. *)
Lemma sle_eq_refl v : sle_eq v v = true.
Proof.
  destruct v; cbn; rewrite ?bool_decide_eq_true_2, ?Z.eqb_refl, ?line_eq_refl, ?account_eq_refl by done; try done.
  unfold offer_eq. by rewrite !Z.eqb_refl, !op_eq_refl, !bool_decide_eq_true_2.
Qed.

(** An account root after [thread] *)
Definition threaded (txID lgrSeq : Z) (a : AccountRoot) : AccountRoot :=
  if sfPreviousTxnID (ar_thread a) =? txID then a else set_account_thread a (mkThread txID lgrSeq).

Section accounts.
  Variable sha512half : list Z → Z.
  Variables txID lgrSeq : Z.

(** The entry differs from the ledger, and both are account roots that the code tells apart. *)
Definition account_change (L : list (Z * SLE)) (m : Z → option SLE) (j : Z) : Prop :=
  ∃ a b, m j = Some (ltACCOUNT_ROOT a) ∧ om_find j L = Some (ltACCOUNT_ROOT b) ∧ account_eq a b = false.

(** The entries that differ from the ledger and are in [l], threaded *)
Definition threads_of (l : list Z) (L : list (Z * SLE)) (m m' : Z → option SLE) : Prop := ∀ j,
  (j ∈ l → ∀ a, account_change L m j → m j = Some (ltACCOUNT_ROOT a) → m' j = Some (ltACCOUNT_ROOT (threaded txID lgrSeq a)))
  ∧ (j ∉ l ∨ m j = om_find j L → m' j = m j).

Lemma threadTx_sle_account h a mt w s :
  w_obj w !! h_ptr h = Some (ltACCOUNT_ROOT a) →
  ∃ w' nodes b, threadTx_sle txID lgrSeq h mt (w, s) = Ok (w', s, (set_nodes mt nodes, b))
    ∧ (w' = w ∧ threaded txID lgrSeq a = a ∨ w' = write w (h_ptr h) (ltACCOUNT_ROOT (threaded txID lgrSeq a))).
Proof.
  intros Hv. unfold threadTx_sle, mbind, M_bind, read_sle. cbn [fst snd]. rewrite Hv. cbn [mbind result_bind].
  unfold lift, thread. cbn [get_thread mbind result_bind]. unfold threaded.
  destruct (sfPreviousTxnID (ar_thread a) =? txID); cbn [mbind result_bind].
  - exists w, (mt_nodes mt), false. split; [by destruct mt|by left].
  - cbn [set_thread write_sle fst snd mbind result_bind]. destruct (_ =? 0).
    + eexists _, (mt_nodes mt), true. split; [by destruct mt|by right].
    + destruct (thread_node _ _ _) as [l b]. eexists _, l, b. split; [done|by right].
Qed.

(** The entry is more than cached. *)
Definition marked (s : LedgerEntrySet SLE) (j : Z) : Prop := ∃ e, om_find j (mEntries s) = Some e ∧ mAction e ≠ taaCACHED.

Lemma calc_node_accounts w s m d mt i :
  shows w s m d → is_Some (om_find i (mEntries s)) → m i = om_find i (mLedger s) ∨ account_change (mLedger s) m i ∧ marked s i →
  ∃ w' m' nodes, calc_node sha512half txID lgrSeq mt i (w, s) = Ok (w', s, set_nodes mt nodes)
    ∧ shows w' s m' d ∧ threads_of [i] (mLedger s) m m'.
Proof.
  intros Hsh [e Ee] Hch. pose proof Hsh as [[Hinv Hm] Hd].
  destruct (inv_entry _ _ Hinv i e Ee) as ([v Hv] & _ & Hact).
  assert (m i = om_find i (mLedger s) → (∃ nodes, calc_node sha512half txID lgrSeq mt i (w, s) = Ok (w, s, set_nodes mt nodes)) →
    ∃ w' m' nodes, calc_node sha512half txID lgrSeq mt i (w, s) = Ok (w', s, set_nodes mt nodes) ∧ shows w' s m' d ∧ threads_of [i] (mLedger s) m m') as Hskip.
  { intros Heq [nodes H]. exists w, m, nodes. split; [done|]. split; [done|]. intros j. split; [|done].
    intros ->%list_elem_of_singleton a (x & y & H1 & H2 & H3). rewrite Heq, H2 in H1. injection H1 as ->. by rewrite account_eq_refl in H3. }
  assert (lookup_set w s i = m i) as Hl by apply Hm. unfold lookup_set in Hl. rewrite Ee in Hl.
  unfold calc_node in *. cbn [fst snd] in *. rewrite Ee in *. destruct (mAction e) eqn:Ea; cbn [node_kind is_delete] in *.
  - done.
  - destruct Hch as [Heq|(_ & e' & He' & Hne)]; [|congruence]. apply (Hskip Heq). exists (mt_nodes mt). by destruct mt.
  - destruct Hact as [orig Ho]. rewrite Ho in *. unfold mbind, M_bind, read_sle in *. cbn [fst snd h_ptr] in *. rewrite Hv in *.
    cbn [mbind result_bind] in *.
    destruct Hch as [Heq|[(a & b & Ha & Hb & Hne) _]].
    + apply Hskip; [congruence|]. rewrite <- Hl in Heq. injection Heq as ->. rewrite sle_eq_refl.
      exists (mt_nodes mt). by destruct mt.
    + clear Hskip. rewrite <- Hl in Ha. injection Ha as ->. rewrite Ho in Hb. injection Hb as ->.
      cbn [sle_eq isThreadedType]. rewrite Hne.
      destruct (threadTx_sle_account (mkHandle i (mEntry e)) a (set_nodes mt (setAffectedNode i sfModifiedNode (mt_nodes mt))) w s Hv)
        as (w' & nodes & bb & Hrun & Hw'). rewrite Hrun. cbn [mbind result_bind].
      assert (stands w' s (upd m i (Some (ltACCOUNT_ROOT (threaded txID lgrSeq a))))) as Hst.
      { destruct Hw' as [[-> Hta]| ->].
        - rewrite Hta. split; [done|]. intros j. unfold upd. destruct (Z.eqb_spec j i) as [->|_]; [|apply Hm]. rewrite Hm. by rewrite <- Hl.
        - destruct (write_entry_spec w s i e (ltACCOUNT_ROOT (threaded txID lgrSeq a)) Hinv Ee ltac:(by rewrite Ea)) as [H1 H2].
          split; [done|]. intros j. rewrite H2. unfold upd. destruct (j =? i); [done|apply Hm]. }
      eexists w', _, nodes. split; [by destruct mt|]. split; [by split|]. intros j. split.
      * intros ->%list_elem_of_singleton a' _ Ha'. rewrite <- Hl in Ha'. injection Ha' as <-. unfold upd. by rewrite Z.eqb_refl.
      * intros Hj. unfold upd. destruct (Z.eqb_spec j i) as [->|_]; [|done]. exfalso. destruct Hj as [Hj|Hj]; [by apply Hj, list_elem_of_here|].
        rewrite <- Hl, Ho in Hj. injection Hj as ->. by rewrite account_eq_refl in Hne.
  - destruct Hact as [orig Ho]. destruct Hch as [Heq|[(a & b & Ha & _) _]]; congruence.
  - destruct Hch as [Heq|[(a & b & _ & Hb & _) _]]; [rewrite Hact in Heq; congruence|congruence].
Qed.

Lemma threads_of_cons i l L m m1 m2 : i ∉ l → threads_of [i] L m m1 → threads_of l L m1 m2 → threads_of (i :: l) L m m2.
Proof.
  intros Hi H1 H2 j. destruct (H1 j) as [A1 B1], (H2 j) as [A2 B2]. split.
  - intros [->|Hj]%elem_of_cons a Hc Ha; [rewrite B2 by (by left); by apply A1; [apply list_elem_of_here|..]|].
    assert (m1 j = m j) as E by (apply B1; left; by intros ->%list_elem_of_singleton).
    apply A2; [done| |by rewrite E]. destruct Hc as (x & y & Hx & Hc). exists x, y. by rewrite E.
  - intros Hj. destruct (decide (j = i)) as [->|Hne].
    + rewrite B2 by (by left). apply B1. destruct Hj as [Hj|]; [|by right]. by destruct Hj; left.
    + assert (m1 j = m j) as E by (apply B1; left; by intros ->%list_elem_of_singleton).
      rewrite B2; [done|]. destruct Hj as [Hj|Hj]; [left; intros Hjl; apply Hj; by right|right; congruence].
Qed.

Lemma calc_nodes_accounts l : ∀ w s m d mt,
  shows w s m d → NoDup l → (∀ j, j ∈ l → is_Some (om_find j (mEntries s))) →
  (∀ j, j ∈ l → m j = om_find j (mLedger s) ∨ account_change (mLedger s) m j ∧ marked s j) →
  ∃ w' m' nodes, calc_nodes sha512half txID lgrSeq l mt (w, s) = Ok (w', s, set_nodes mt nodes)
    ∧ shows w' s m' d ∧ threads_of l (mLedger s) m m'.
Proof.
  induction l as [|i l IH]; intros w s m d mt Hsh Hnd Hin Hch.
  { exists w, m, (mt_nodes mt). split; [by destruct mt|]. split; [done|]. intros j. split; [by intros ?%elem_of_nil|done]. }
  apply NoDup_cons in Hnd as [Hi Hnd].
  destruct (calc_node_accounts w s m d mt i Hsh) as (w1 & m1 & n1 & Hr1 & Hsh1 & Ht1); [apply Hin; by left|apply Hch; by left|].
  destruct (IH w1 s m1 d (set_nodes mt n1) Hsh1 Hnd) as (w2 & m2 & n2 & Hr2 & Hsh2 & Ht2).
  - intros j Hj. apply Hin. by right.
  - intros j Hj. assert (m1 j = m j) as E by (apply Ht1; left; by intros ->%list_elem_of_singleton).
    destruct (Hch j ltac:(by right)) as [Heq|[(x & y & Hx & Hc) Ht]]; [left; congruence|]. right. split; [|done]. exists x, y. by rewrite E.
  - exists w2, m2, n2. split; [|split; [done|by eapply threads_of_cons]].
    cbn [calc_nodes]. unfold mbind, M_bind. rewrite Hr1. cbn [mbind result_bind]. rewrite Hr2. by destruct mt.
Qed.

(** When every entry that differs from the ledger is an account root and marked, these and only
    these are threaded. *)
Lemma calcRawMeta_accounts w s m d :
  shows w s m d → (∀ j, m j = om_find j (mLedger s) ∨ account_change (mLedger s) m j ∧ marked s j) →
  ∃ w' m' nodes, calcRawMeta sha512half txID lgrSeq (w, s) = Ok (w', s, nodes) ∧ shows w' s m' d
    ∧ (∀ j, m j = om_find j (mLedger s) → m' j = m j)
    ∧ ∀ j a, account_change (mLedger s) m j → m j = Some (ltACCOUNT_ROOT a) → m' j = Some (ltACCOUNT_ROOT (threaded txID lgrSeq a)).
Proof.
  intros Hsh Hch. pose proof Hsh as [[Hinv _] _]. pose proof (inv_sorted _ _ Hinv) as Hs.
  assert (∀ j, j ∈ (mEntries s).*1 ↔ is_Some (om_find j (mEntries s))) as Hin.
  { intros j. rewrite list_elem_of_fmap. split.
    - intros ([k x] & -> & Hx). apply om_find_In in Hx; [|done]. by exists x.
    - intros [x Hx]. exists (j, x). split; [done|]. by apply om_find_In. }
  destruct (calc_nodes_accounts (mEntries s).*1 w s m d (mkMeta [] []) Hsh) as (w' & m' & nodes & Hr & Hsh' & Ht);
    [by apply sorted_nodup|by intros j ?%Hin|by intros j _|].
  exists w', m', nodes. split; [|split; [done|]].
  - unfold calcRawMeta, mbind, M_bind. cbn [fst snd]. by rewrite Hr.
  - split; [intros j Hj; apply Ht; by right|]. intros j a Hc Ha. apply Ht; [|done|done]. apply Hin.
    destruct (Hch j) as [Heq|[_ (e & He & _)]]; [|by exists e]. destruct Hc as (x & y & Hx & Hy & Hne). rewrite Heq, Hy in Hx.
    injection Hx as ->. by rewrite account_eq_refl in Hne.
Qed.

End accounts.

(** The owners of a line, when the first one was threaded before (it is the account that sent the
    transaction, say, and comes first in the order of the entries): nothing is done, and the second
    owner is not threaded to the transaction. *)
Lemma second_owner_skipped sha512half txID lgrSeq l mt w s e a :
  let low := account (mIssue (sd_limit (rs_low l))) in
  om_sorted (mEntries s) → om_find (getAccountRootIndex sha512half low) (mEntries s) = Some e → mAction e = taaMODIFY → e_seq e = mSeq s →
  w_obj w !! mEntry e = Some (ltACCOUNT_ROOT a) → sfPreviousTxnID (ar_thread a) = txID →
  threadOwners sha512half txID lgrSeq (ltSKYWELL_STATE l) mt (w, s) = Ok (w, s, (mt, false)).
Proof.
  intros low Hs He Ha Hq Hv Ht. unfold threadOwners, threadTx, getForMod, mbind, M_bind. cbn [one_owner two_owners fst snd]. fold low.
  rewrite He, Ha, Hq, Z.eqb_refl. cbn [is_delete mbind result_bind].
  assert (set_entries s (om_set (getAccountRootIndex sha512half low) (mkLSE (mEntry e) taaMODIFY (mSeq s)) (mEntries s)) = s) as ->.
  { replace (mkLSE (mEntry e) taaMODIFY (mSeq s)) with e by (destruct e; cbn in *; congruence).
    replace (om_set _ e (mEntries s)) with (mEntries s); [by destruct s|].
    apply om_ext; [done|by apply om_set_sorted|]. intros j. rewrite om_find_set by done. by destruct (Z.eqb_spec j (getAccountRootIndex sha512half low)) as [->|_]. }
  unfold threadTx_sle, mbind, M_bind, read_sle, lift, thread. cbn [fst snd h_ptr]. rewrite Hv. cbn [mbind result_bind get_thread].
  by rewrite Ht, Z.eqb_refl.
Qed.
