(* ===== verification/TransactorSafe.v ===== *)
(** * Every transactor respects an account law

    The transactors of files [Transactors], [MiscTransactors] and [TransactionEngine] are safe in
    the sense of file [AccountLogic] for every property of account roots that obeys
    [TransactorLaw]: what the code does to the flags, the keys and the other fields of an account
    keeps it.  So is [transact], for every transaction and every batch that makes no payment along
    paths ([path_free]; the path calculation is a parameter of the engine, of which nothing is
    assumed), once the sequence number and the fee have been dealt with.
    File [EngineClaims] uses this for three laws: the sequence number, the way to sign, and the
    promise not to freeze. *)

From S2P Require Import Prelude OrdMap Issue BigNum STAmount Quality Ter Indexes DeferredCredits EntrySet Directory LedgerObjects Threading TrustLines Fees Tx LedgerQueries Transactor Transactors MiscTransactors TransactionEngine AccountLogic.

Class TransactorLaw (K : AccountRoot → Prop) : Prop := {
  tl_account :: AccountLaw K;
  tl_thread a t : K a → K (set_account_thread a t);
  tl_key a k : K a → K (set_regular_key a (Some k));
  tl_unkey a : flag (ar_flags a) lsfDisableMaster = false → K a → K (set_regular_key a None);
  tl_spent a : K a → K (set_account_flags a (set_flag lsfPasswordSpent (ar_flags a)));
  tl_unspent a : K a → K (set_account_flags a (clear_flag lsfPasswordSpent (ar_flags a)));
  tl_fields p a : K a → K (SetAccount_fields p a).1;
  tl_flags p a uTxFlags uSetFlag uClearFlag sig out :
    SetAccount_flags uTxFlags uSetFlag uClearFlag sig (match sfRegularKey a with Some _ => true | None => false end) (ar_flags a) = inr out →
    K a → K (set_account_flags (SetAccount_fields p a).1 out)
}.

(** The keys of entries other than account roots; page 0 of a directory has the key of its root,
    and the index of a book is not a hash. *)
Definition other_key (k : LedgerKey) : Prop :=
  match k with keyAccount _ | keyBook _ => False | keyDirPage _ n => n ≠ 0 | _ => True end.

(** Induction on transactions, batches included *)
Definition STTx_nested_ind (P : STTx → Prop)
    (step : ∀ c s b, (∀ l signs, b = ttOPERATION (Some l) signs → Forall P l) → P (mkSTTx c s b)) : ∀ t, P t :=
  fix go t :=
    match t with
    | mkSTTx c s b =>
        step c s b
          (match b return ∀ l signs, b = ttOPERATION (Some l) signs → Forall P l with
           | ttOPERATION (Some l0) signs0 => λ l signs eq,
               let all := (fix all l := match l return Forall P l with [] => Forall_nil_2 P | x :: l => Forall_cons_2 P x l (go x) (all l) end) l0 in
               match eq in _ = b' return match b' with ttOPERATION (Some l) _ => Forall P l | _ => True end with eq_refl => all end
           | _ => λ l signs eq, match eq with end
           end)
    end.

(** A payment that moves the native currency directly: [Payment::doApply] does not calculate paths. *)
Definition direct_payment (p : PaymentTx) : bool :=
  negb (bool_decide (is_Some (py_paths p)) || bool_decide (is_Some (py_send_max p)) || negb (mIsNative (py_amount p))).

(** A transaction that does not reach the path calculation, nor does any of its batch. *)
Fixpoint path_free (txn : STTx) : bool :=
  match txn with
  | mkSTTx _ _ body =>
      match body with
      | ttPAYMENT p => direct_payment p
      | ttOPERATION (Some l) _ => forallb path_free l
      | _ => true
      end
  end.

Lemma path_free_batch c s l signs (P : STTx → Prop) :
  path_free (mkSTTx c s (ttOPERATION (Some l) signs)) = true → Forall (λ x, path_free x = true → P x) l → Forall P l.
Proof. cbn [path_free]. intros H. induction 1 as [|x l Hx _ IH]; [done|]. cbn in H. zbool. constructor; auto. Qed.

Section safe.
  Context {BN : BigNum}.
  Variable ia : Z.
  Variable L : list (Z * SLE).
  Variable K : AccountRoot → Prop.
  Variable md : bool.
  Context {LAW : TransactorLaw K}.
  Hypothesis ia_nonzero : ia ≠ 0.
  Variable sha512half : list Z → Z.
  Hypothesis apart : ∀ k, other_key k → key_index sha512half k ≠ ia.
  Variable accountID : Blob → Account.
  Variable checkSign : STTx → bool.
  Variable skywellCalculate : STAmount → STAmount → Account → Account → STPathSet → CalcInput → M Z.
  Variable e : Env.
  Notation safe := (AccountLogic.safe ia L K md).
  Notation quiet hs c := (safe hs c (λ _, []) (λ _, True)).

Lemma page_apart root n : n ≠ 0 → getDirNodeIndex sha512half root n ≠ ia.
Proof. apply (apart (keyDirPage root n)). Qed.
#[local] Hint Resolve page_apart : safedb.

Lemma safe_edit hs h f : h ∈ hs → (∀ a, K a → K (f a)) → quiet hs (edit_account h f).
Proof. intros Hh Hf. unfold edit_account. safe_auto. Qed.

(** An account that was just made is another one. *)
Lemma safe_edit_other hs h f : h ∈ hs → h_index h ≠ ia → quiet hs (edit_account h f).
Proof. intros Hh Hi. unfold edit_account. safe_auto. Qed.
#[local] Hint Resolve safe_edit_other : safedb.

Lemma safe_dirIsEmpty hs root : quiet hs (les_dirIsEmpty sha512half root).
Proof.
  assert (quiet hs (o ← les_cache root; match o with Some h => v ← read_sle h; match v with
    ltDIR_NODE d => mret (match sfIndexes d with [] => sfIndexNext d =? 0 | _ => false end) | _ => throw "Field not found" end
    | None => mret true end)) as H.
  { eapply safe_bind; [by apply safe_cache|]. intros [h|] Ho; cbn [app opt_list]; [|apply safe_ret; [no_new|done]].
    eapply safe_bind; [apply safe_read; in_hs|]. intros v Hv. destruct v; try apply safe_throw. apply safe_ret; [no_new|done]. }
  intros w s w' s' a Hs Hg E. apply (H w s w' s' a Hs Hg). unfold les_dirIsEmpty, dirIsEmpty in E. cbn [fst snd] in E.
  unfold getDirNodeIndex in E. cbn [Z.eqb negb] in E. unfold mbind, M_bind, les_cache. cbn [fst snd].
  destruct (entryCache w s root) as [[[w1 s1] [q|]]|]; [|done..]. cbn in *. unfold read_dir, read_sle in *. cbn [fst snd h_ptr] in *.
  destruct (w_obj w1 !! q) as [v|]; [|done]. destruct v; try done. cbn in *. by destruct (sfIndexes d).
Qed.
#[local] Hint Resolve safe_dirIsEmpty : safedb.

(** ** The transactors *)

Lemma safe_SetAccount hs p t : (∀ h, mTxnAccount t = Some h → h ∈ hs) → quiet hs (SetAccount_doApply sha512half p t).
Proof.
  intros Hh. unfold SetAccount_doApply. cbv zeta. eapply safe_bind; [by apply safe_deref|]. intros h Ht. cbn [app].
  eapply safe_bind; [apply safe_get_account; in_hs|]. intros a Ha. cbn [app].
  apply (safe_bind _ _ _ _ _ _ _ (λ _, []) (λ _, True)); [safe_auto|]. intros b _. cbn [app].
  destruct b; cbn [negb]; [|safe_auto]. destruct (SetAccount_flags _ _ _ _ _ _) as [ter|out] eqn:E; [safe_auto|].
  pose proof (tl_fields p a) as H1. pose proof (tl_flags p a _ _ _ _ _ E) as H2.
  destruct (SetAccount_fields p a) as [a' ter]. cbn [fst] in *.
  eapply safe_bind; [apply safe_set_account; [in_hs|]|intros ? _; safe_auto].
  intros Hi. destruct (_ && _); auto.
Qed.

Lemma safe_SetRegularKey hs k t : (∀ h, mTxnAccount t = Some h → h ∈ hs) → quiet hs (SetRegularKey_doApply k t).
Proof.
  intros Hh. unfold SetRegularKey_doApply. cbv zeta. eapply safe_bind; [by apply safe_deref|]. intros h Ht. cbn [app].
  eapply safe_bind; [apply safe_get_account; in_hs|]. intros a Ha. cbn [app].
  set (a1 := if is_zero _ then _ else a). assert (h_index h = ia → K a1) as Ha1.
  { intros Hi. subst a1. destruct (is_zero _); [apply tl_spent|]; by apply Ha. }
  clearbody a1. destruct k as [k|].
  - eapply safe_bind; [apply safe_set_account; [in_hs|]|intros ? _; safe_auto]. intros Hi. by apply tl_key, Ha1.
  - destruct (flag (ar_flags a1) lsfDisableMaster) eqn:E.
    + eapply safe_bind; [by apply safe_set_account; [in_hs|]|intros ? _; safe_auto].
    + eapply safe_bind; [apply safe_set_account; [in_hs|]|intros ? _; safe_auto]. intros Hi. by apply tl_unkey, Ha1.
Qed.

Lemma safe_adjust_reserve hs high h b fin fout : h ∈ hs → quiet hs (adjust_reserve high h b fin fout).
Proof. intros Hh. unfold adjust_reserve. cbv zeta. safe_auto. Qed.
#[local] Hint Resolve safe_adjust_reserve : safedb.

Lemma safe_SetTrust_modify hs t f r high dst h hd hl x qi qo :
  h ∈ hs → hd ∈ hs → hl ∈ hs → quiet hs (SetTrust_modify sha512half t f r high dst h hd hl x qi qo).
Proof.
  intros H1 H2 H3. unfold SetTrust_modify. cbv zeta.
  assert ((if negb high then h else hd) ∈ hs) by (by destruct high). assert ((if high then h else hd) ∈ hs) by (by destruct high).
  safe_auto.
Qed.
#[local] Hint Resolve safe_SetTrust_modify : safedb.

Lemma safe_SetTrust hs x qi qo t : (∀ h, mTxnAccount t = Some h → h ∈ hs) → quiet hs (SetTrust_doApply sha512half e x qi qo t).
Proof.
  intros Hh. unfold SetTrust_doApply. cbv zeta. eapply safe_bind; [by apply safe_deref|]. intros h Ht. safe_auto.
Qed.

Lemma safe_SetREL hs del dst ty x t : (∀ h, mTxnAccount t = Some h → h ∈ hs) → quiet hs (SetREL_doApply sha512half del dst ty x t).
Proof.
  intros Hh. unfold SetREL_doApply. cbv zeta. eapply safe_bind; [by apply safe_cache|]. intros o Ho. destruct o as [h|]; [|safe_auto].
  eapply safe_bind; [by apply safe_cache|]. intros o Ho'. destruct o as [g|], del; cbn [app opt_list]; [safe_auto..|].
  eapply safe_bind; [safe_prim|]. intros z _. eapply safe_bind; [apply safe_deref; intros q Hq; apply Hh in Hq; in_hs|]. intros q Hq. safe_auto.
Qed.

Lemma safe_SetSign hs p t : quiet hs (SetSign_doApply sha512half p t).
Proof. unfold SetSign_doApply. cbv zeta. safe_auto. Qed.

Lemma safe_get_nickname hs h : h ∈ hs → safe hs (get_nickname h) (λ _, []) (λ _, h_index h ≠ ia).
Proof.
  intros Hh. apply safe_get_other; [done|done|]. intros v Hi. destruct v; first [apply safe_throw | by apply safe_other_ret].
Qed.
#[local] Hint Resolve safe_get_nickname : safedb.

(** The entry at another index, made when it does not exist *)
Lemma safe_find_or_create {A} hs i v (k : handle → M A) new P :
  i ≠ ia → (∀ h, h_index h ≠ ia → safe (h :: hs) (k h) new P) →
  safe hs (o ← les_cache i; h ← match o with Some h => mret h | None => les_create i v end; k h) new P.
Proof.
  intros Hi Hk. eapply safe_bind; [by apply safe_cache|]. intros [h|] Ho; cbn [app opt_list].
  - apply safe_ret_bind, Hk. by rewrite Ho.
  - eapply safe_bind; [by apply safe_create|]. intros h Hh. apply Hk. by rewrite Hh.
Qed.

Lemma safe_SetNickName hs d n t : quiet hs (SetNickName_doApply sha512half d n t).
Proof.
  unfold SetNickName_doApply. cbv zeta. apply safe_find_or_create; [apply (apart (keyNickname _)); exact I|]. intros h Hi. safe_auto.
Qed.
Lemma safe_Message hs dst t : quiet hs (Message_doApply sha512half dst t).
Proof. unfold Message_doApply. safe_auto. Qed.
Lemma safe_applyAmendment hs a : quiet hs (applyAmendment sha512half a).
Proof.
  unfold applyAmendment. cbv zeta. apply safe_find_or_create; [by apply (apart keyAmendments)|]. intros h Hi.
  eapply safe_bind; [apply safe_read; in_hs|]. intros v _. destruct v; safe_auto.
Qed.
Lemma safe_applyFee hs f : quiet hs (applyFee sha512half f).
Proof. unfold applyFee. cbv zeta. apply safe_find_or_create; [by apply (apart keyFees)|]. intros h Hi. safe_auto. Qed.
Lemma safe_applyManageFee hs a : quiet hs (applyManageFee sha512half a).
Proof. apply safe_find_or_create; [by apply (apart keyManageFee)|]. intros h Hi. safe_auto. Qed.
Lemma safe_applyManageIssuer hs a : quiet hs (applyManageIssuer sha512half a).
Proof. apply safe_find_or_create; [by apply (apart keyManageIssuer)|]. intros h Hi. safe_auto. Qed.
Lemma safe_applyManageBlackList hs b a : quiet hs (applyManageBlackList sha512half b a).
Proof.
  unfold applyManageBlackList. cbv zeta. pose proof (apart (keyBlackList a) I) as Hi. cbn [key_index] in Hi.
  eapply safe_bind; [by apply safe_cache|]. intros [h|] Ho; destruct b; safe_auto.
Qed.

(** ** Payments *)

Lemma safe_accountFundsCheck hs base inc a x : quiet hs (accountFundsCheck sha512half (e_config e) base inc a x).
Proof. unfold accountFundsCheck. cbv zeta. safe_auto. Qed.
#[local] Hint Resolve safe_accountFundsCheck : safedb.

Lemma safe_scoped_defer {A} hs (c : M A) : quiet hs c → quiet hs (scoped_defer c).
Proof.
  intros Hc. unfold scoped_defer. eapply safe_bind; [apply safe_areDeferred|]. intros b _. cbn [app].
  apply (safe_bind _ _ _ _ _ _ _ (λ _, []) (λ _, True)); [destruct b; safe_auto|]. intros ? _. cbn [app].
  eapply safe_bind; [apply Hc|]. intros x _. cbn [app].
  apply (safe_bind _ _ _ _ _ _ _ (λ _, []) (λ _, True)); [destruct b; safe_auto|]. intros ? _. safe_auto.
Qed.
#[local] Hint Resolve safe_scoped_defer : safedb.

Lemma safe_try {A} hs (c k : M A) : quiet hs c → quiet hs k → quiet hs (try_catch c k).
Proof.
  intros Hc Hk w s w' s' a Hs Hg H. unfold try_catch in H. destruct (c (w, s)) as [r|what] eqn:E.
  - injection H as ->. by apply (Hc w s w' s' a Hs Hg).
  - destruct (is_fault what); [done|]. by apply (Hk w s w' s' a Hs Hg).
Qed.

Lemma safe_Payment_direct hs p t hd :
  (∀ h, mTxnAccount t = Some h → h ∈ hs) → hd ∈ hs → quiet hs (Payment_direct e p t hd).
Proof.
  intros Hh Hd. unfold Payment_direct. cbv zeta. eapply safe_bind; [by apply safe_deref|]. intros h Ht. cbn [app].
  eapply safe_bind; [apply safe_get_account; in_hs|]. intros a Ha. cbn [app].
  eapply safe_bind; [safe_prim|]. intros fee _. eapply safe_bind; [safe_prim|]. intros need _. eapply safe_bind; [safe_prim|]. intros b _.
  cbn [app]. destruct b; [safe_auto|]. eapply safe_bind; [safe_prim|]. intros left _. cbn [app].
  eapply safe_bind; [apply safe_edit; [in_hs|intros; by apply (law_balance K)]|]. intros ? _. cbn [app].
  eapply safe_bind; [apply safe_get_account; in_hs|]. intros d Hd'. cbn [app]. eapply safe_bind; [safe_prim|]. intros sum _. cbn [app].
  eapply safe_bind; [apply safe_set_account; [in_hs|intros; apply (law_balance K); by auto]|]. intros ? _. cbn [app].
  eapply safe_bind; [apply safe_edit; [in_hs|]|intros ? _; safe_auto]. intros x Hx. destruct (flag _ _); [by apply tl_unspent|done].
Qed.

Lemma safe_Payment_destination hs p t :
  safe hs (Payment_destination sha512half e p t) (λ r, match r with inl h => [h] | inr _ => [] end) (λ _, True).
Proof.
  unfold Payment_destination. cbv zeta. eapply safe_bind; [by apply safe_cache|]. intros [h|] Ho; cbn [app opt_list].
  - eapply safe_bind; [apply safe_get_account; in_hs|]. intros d _. cbn [app]. destruct (_ && _); [safe_auto|].
    eapply safe_bind; [safe_prim|]. intros ? _. apply safe_ret; [|done]. intros x ->%list_elem_of_singleton. in_hs.
  - destruct (negb _); [safe_auto|]. destruct (_ && _); [safe_auto|]. eapply safe_bind; [safe_prim|]. intros b _. cbn [app].
    destruct b; [safe_auto|]. eapply safe_bind; [by apply safe_create|]. intros h Hh. cbn [app].
    eapply safe_bind; [safe_prim|]. intros ? _. eapply safe_bind; [safe_prim|]. intros ? _. apply safe_ret; [|done].
    intros x ->%list_elem_of_singleton. in_hs.
Qed.

Lemma safe_Payment hs p t :
  direct_payment p = true → (∀ h, mTxnAccount t = Some h → h ∈ hs) → quiet hs (Payment_doApply sha512half skywellCalculate e p t).
Proof.
  intros Hp%negb_true_iff Hh. unfold Payment_doApply. eapply safe_bind; [apply safe_lift|]. intros mx _. cbn [app].
  eapply safe_bind; [apply safe_Payment_destination|]. intros [h|ter] _; [|safe_auto]. rewrite Hp.
  apply safe_Payment_direct; [|in_hs]. intros g Hg. apply Hh in Hg. in_hs.
Qed.

(** ** Batches *)

Lemma safe_precheckSig hs signers txn params : quiet hs (precheckSig sha512half signers txn params).
Proof. unfold precheckSig. cbv zeta. safe_auto. Qed.
#[local] Hint Resolve safe_precheckSig : safedb.

Lemma flag_lor_r f g : g ≠ 0 → flag (Z.lor f g) g = true.
Proof.
  intros Hg. unfold flag. apply negb_true_iff, Z.eqb_neq. rewrite Z.land_lor_distr_l, Z.land_diag. intros H. by apply Z.lor_eq_0_iff in H as [_ ?].
Qed.

Lemma safe_run_operations (f : STTx → Z → M (STTx * Z)) signers l :
  Forall (λ x, ∀ hs params, flag params tapPRE_CHECKED = true → quiet hs (f x params)) l →
  ∀ hs params, quiet hs (run_operations sha512half f signers l params).
Proof.
  induction 1 as [|x l Hx Hl IH]; intros hs params; [apply safe_ret; [no_new|done]|].
  change (run_operations sha512half f signers (x :: l) params) with
    ('(params, ter) ← precheckSig sha512half signers x params;
     if negb (ter =? tesSUCCESS) then mret ter
     else '(_, ter) ← f x (Z.lor params tapPRE_CHECKED);
          if negb (ter =? tesSUCCESS) then mret ter else run_operations sha512half f signers l (Z.lor params tapPRE_CHECKED)).
  eapply safe_bind; [safe_prim|]. intros [params' ter] _. cbn [app]. destruct (negb _); [safe_auto|].
  eapply safe_bind; [apply Hx; by apply flag_lor_r|]. intros [x' ter'] _. cbn [app]. destruct (negb _); [safe_auto|apply IH].
Qed.

(** ** [apply], once the sequence number and the fee are dealt with *)

Record v_safe (v : Virtual) : Prop := mkVSafe {
  vs_pre hs t : safe hs (v_preCheck v t) (λ _, []) (λ r, t_params r.1 = t_params t);
  vs_fee hs t : (∀ h, mTxnAccount t = Some h → h ∈ hs) → quiet hs (v_calculateBaseFee v t);
  vs_sig hs t : (∀ h, mTxnAccount t = Some h → h ∈ hs) →
    safe hs (v_checkSig v t) (λ _, []) (λ r, mTxnAccount r.1 = mTxnAccount t ∧ mFeeAccount r.1 = mFeeAccount t);
  vs_do hs t : (∀ h, mTxnAccount t = Some h → h ∈ hs) → quiet hs (v_doApply v t)
}.

Lemma safe_modify_if hs o : (∀ h, o = Some h → h ∈ hs) → quiet hs (modify_if o).
Proof. intros Ho. destruct o as [h|]; [|apply safe_ret; [no_new|done]]. apply safe_modify. by apply Ho. Qed.

(** The signature, the marks and the transactor's own part *)
Definition finish (v : Virtual) (t : Transactor) : M (Transactor * Z) :=
  '(t, ter) ← v_checkSig v t;
  if negb (ter =? tesSUCCESS) then mret (t, ter)
  else modify_if (mTxnAccount t);; modify_if (mFeeAccount t);; ter ← v_doApply v t; mret (t, ter).

Lemma safe_finish v hs t :
  v_safe v → (∀ h, mTxnAccount t = Some h → h ∈ hs) → (∀ h, mFeeAccount t = Some h → h ∈ hs) → quiet hs (finish v t).
Proof.
  intros Hv H1 H2. unfold finish. eapply safe_bind; [by apply (vs_sig v Hv)|]. intros [t' ter] [E1 E2]. cbn [fst app] in *.
  destruct (negb _); [safe_auto|]. eapply safe_bind; [apply safe_modify_if; by rewrite E1|]. intros ? _. cbn [app].
  eapply safe_bind; [apply safe_modify_if; by rewrite E2|]. intros ? _. cbn [app].
  eapply safe_bind; [apply (vs_do v Hv); by rewrite E1|]. intros ? _. safe_auto.
Qed.

Lemma safe_apply_to v hs t :
  v_safe v → flag (t_params t) tapPRE_CHECKED = true →
  (∀ h, mTxnAccount t = Some h → h ∈ hs) → (∀ h, mFeeAccount t = Some h → h ∈ hs) → quiet hs (apply_to sha512half v t).
Proof.
  intros Hv Hp H1 H2. unfold apply_to, charge. rewrite Hp. apply safe_ret_bind. change (negb (tesSUCCESS =? tesSUCCESS)) with false.
  cbv iota. by apply safe_finish.
Qed.

Lemma safe_apply v hs t :
  v_safe v → flag (t_params t) tapPRE_CHECKED = true → quiet hs (apply sha512half e v t).
Proof.
  intros Hv Hp. unfold apply. eapply safe_bind; [by apply (vs_pre v Hv)|]. intros [t' ter] Et. cbn [fst app] in *. destruct (negb _); [safe_auto|].
  eapply safe_bind; [by apply safe_cache|]. intros src _. eapply safe_bind; [by apply safe_cache|]. intros fee _.
  unfold calculateFee. assert (∀ h, src = Some h → h ∈ opt_list fee ++ opt_list src ++ hs) as H1 by (intros h ->; in_hs).
  assert (∀ h, fee = Some h → h ∈ opt_list fee ++ opt_list src ++ hs) as H2 by (intros h ->; in_hs).
  apply (safe_bind _ _ _ _ _ _ _ (λ _, []) (λ x, mTxnAccount x = src ∧ mFeeAccount x = fee ∧ t_params x = t_params t)).
  { eapply safe_bind; [by apply (vs_fee v Hv)|]. intros z _. by apply safe_ret; [no_new|]. }
  intros x (E1 & E2 & E3). rewrite app_nil_l. destruct src as [h|].
  - eapply safe_bind; [apply safe_get_account; by apply H1|]. intros a _. rewrite app_nil_l.
    apply safe_apply_to; cbn [set_balances t_params mTxnAccount mFeeAccount]; [done|congruence|by rewrite E1|by rewrite E2].
  - destruct (v_mustHaveValidAccount v); [safe_auto|]. apply safe_apply_to; [done|congruence|by rewrite E1|by rewrite E2].
Qed.

(** ** Every transactor *)

Lemma preCheck_params t : t_params (preCheck sha512half checkSign e t).1 = t_params t.
Proof. unfold preCheck. cbv zeta. repeat case_match; done. Qed.

Lemma safe_after_check hs ter t :
  safe hs (after_check sha512half checkSign e ter t) (λ _, []) (λ r, t_params r.1 = t_params t).
Proof. unfold after_check. apply safe_ret; [no_new|]. destruct (negb _); [done|apply preCheck_params]. Qed.

Lemma safe_checkSig hs t : (∀ h, mTxnAccount t = Some h → h ∈ hs) →
  safe hs (checkSig accountID t) (λ _, []) (λ r, mTxnAccount r.1 = mTxnAccount t ∧ mFeeAccount r.1 = mFeeAccount t).
Proof.
  intros Hh. unfold checkSig. cbv zeta. destruct (flag _ _); [apply safe_ret; [no_new|by destruct (flag _ _)]|].
  destruct (_ =? _); [|destruct (negb _); [by apply safe_ret; [no_new|]|]].
  all: (eapply safe_bind; [by apply safe_deref|]); intros h Hd; (eapply safe_bind; [apply safe_get_account; in_hs|]); intros a _; cbn [app].
  - destruct (flag _ _); by apply safe_ret; [no_new|].
  - destruct (_ =? _); by apply safe_ret; [no_new|].
Qed.

Lemma v_safe_base pre doApply :
  (∀ hs t, safe hs (pre t) (λ _, []) (λ r, t_params r.1 = t_params t)) →
  (∀ hs t, (∀ h, mTxnAccount t = Some h → h ∈ hs) → quiet hs (doApply t)) →
  v_safe (Transactors.base accountID e pre doApply).
Proof.
  intros Hp Hd. split; [apply Hp| |by apply safe_checkSig|apply Hd].
  intros hs t _. cbn. apply safe_ret; [no_new|done].
Qed.

Lemma v_safe_Change (c : M Z) : (∀ hs, quiet hs c) → v_safe (Change e c).
Proof.
  intros Hc. split.
  - intros hs t. apply safe_ret; [no_new|done].
  - intros hs t _. apply safe_ret; [no_new|done].
  - intros hs t _. apply safe_ret; [no_new|done].
  - intros hs t _. apply Hc.
Qed.

Lemma v_safe_Manage b (c : M Z) : (∀ hs, quiet hs c) → v_safe (Manage e b c).
Proof.
  intros Hc. split.
  - intros hs t. apply safe_ret; [no_new|done].
  - intros hs t _. apply safe_ret; [no_new|done].
  - intros hs t _. apply safe_ret; [no_new|done].
  - intros hs t _. apply Hc.
Qed.

Lemma v_safe_SetRegularKey k : v_safe (SetRegularKey sha512half accountID checkSign e k).
Proof.
  split; [intros hs t; apply safe_after_check| |by apply safe_checkSig|by intros hs t; apply safe_SetRegularKey].
  intros hs t Hh. cbn. unfold SetRegularKey_calculateBaseFee, calculateBaseFee. destruct (mTxnAccount t) as [h|]; [|safe_auto].
  eapply safe_bind; [apply safe_get_account; by apply Hh|]. intros a _. safe_auto.
Qed.

Lemma v_safe_Payment p : direct_payment p = true → v_safe (Payment sha512half accountID checkSign skywellCalculate e p).
Proof.
  intros Hp. apply v_safe_base; [|by intros hs t; apply safe_Payment]. intros hs t.
  unfold Payment_preCheck. cbv zeta. destruct (flag _ _); [by apply safe_ret; [no_new|]|].
  eapply safe_bind; [apply safe_lift|]. intros mx _. cbn [app]. repeat (case_match; [by apply safe_ret; [no_new|]|]).
  eapply safe_bind; [safe_prim|]. intros ter _. apply safe_ret; [no_new|]. destruct (ter =? 0); cbn [negb]; [by rewrite preCheck_params|done].
Qed.

(** An account is never merged: the check compares members that are not set yet. *)
Lemma AccountMerge_refused dst txn params st st' t' ter :
  AccountMerge_preCheck sha512half checkSign e dst (newTransactor txn params) st = Ok (st', (t', ter)) →
  st' = st ∧ t' = newTransactor txn params ∧ ter ∈ [temINVALID_FLAG; temDST_NEEDED; telBLKLIST; temBAD_SRC_ACCOUNT].
Proof.
  unfold AccountMerge_preCheck. cbn [newTransactor mTxn mTxnAccountID mFeeAccountID]. rewrite Z.eqb_refl. cbn [orb].
  repeat match goal with |- (if ?b then _ else _) _ = _ → _ => destruct b end;
    intros [= <- <- <-]; (split; [done|split; [done|]]); repeat constructor.
Qed.

Lemma safe_AccountMerge hs dst txn params :
  quiet hs (apply sha512half e (AccountMerge sha512half accountID checkSign e dst) (newTransactor txn params)).
Proof.
  unfold apply. apply (safe_bind _ _ _ _ _ _ _ (λ _, []) (λ r, r.2 ≠ tesSUCCESS)).
  - apply safe_pure. intros w s w' s' [t' ter] H. cbn in H. apply AccountMerge_refused in H as ([= <- <-] & _ & Hter).
    split; [done|]. split; [done|]. cbn. intros ->. set_solver.
  - intros [t' ter] Hter. cbn in Hter. rewrite (proj2 (Z.eqb_neq ter tesSUCCESS) Hter). cbn [negb]. apply safe_ret; [no_new|done].
Qed.

Lemma safe_run hs v txn params :
  quiet hs (apply sha512half e v (newTransactor txn params)) →
  quiet hs ('(t, ter) ← apply sha512half e v (newTransactor txn params); mret (mTxn t, ter)).
Proof. intros H. eapply safe_bind; [apply H|]. intros [t ter] _. safe_auto. Qed.

Lemma v_safe_after ter doApply :
  (∀ hs t, (∀ h, mTxnAccount t = Some h → h ∈ hs) → quiet hs (doApply t)) →
  v_safe (Transactors.base accountID e (after_check sha512half checkSign e ter) doApply).
Proof. intros Hd. apply v_safe_base; [intros hs t; apply safe_after_check|apply Hd]. Qed.

(** A kind of transaction, with its batch, if it is one, taken care of *)
Lemma safe_transact txn : path_free txn = true → ∀ hs params, flag params tapPRE_CHECKED = true →
  quiet hs (transact sha512half accountID checkSign skywellCalculate e txn params).
Proof.
  induction txn as [c s b IH] using STTx_nested_ind. intros Hfree hs params Hp.
  assert (∀ v, v_safe v → quiet hs ('(t, ter) ← apply sha512half e v (newTransactor (mkSTTx c s b) params); mret (mTxn t, ter))) as run.
  { intros v Hv. by apply safe_run, safe_apply. }
  destruct b; cbn [transact]; try (apply safe_ret; [no_new|done]).
  - by apply run, v_safe_Payment.
  - apply run, v_safe_after. intros; by apply safe_SetAccount.
  - apply run, v_safe_SetRegularKey.
  - apply run, v_safe_after. intros; by apply safe_SetTrust.
  - apply run, v_safe_after. intros; by apply safe_SetREL.
  - apply run, v_safe_after. intros; by apply safe_SetREL.
  - apply run, v_safe_Change. intros; apply safe_applyAmendment.
  - apply run, v_safe_Change. intros; apply safe_applyFee.
  - apply run, v_safe_after. intros; apply safe_SetNickName.
  - apply safe_run, safe_AccountMerge.
  - apply run, v_safe_Manage. intros; apply safe_applyManageFee.
  - apply run, v_safe_Manage. intros; apply safe_applyManageIssuer.
  - apply run, v_safe_Manage. intros; apply safe_applyManageBlackList.
  - apply run, v_safe_Manage. intros; apply safe_applyManageBlackList.
  - apply run, v_safe_after. intros; apply safe_SetSign.
  - apply run, v_safe_after. intros; apply safe_Message.
  - apply run, v_safe_after. intros hs' t _. destruct operations as [l|]; [|safe_auto].
    destruct l as [|x l]; [safe_auto|]. apply safe_run_operations. eapply path_free_batch; [exact Hfree|by eapply IH].
Qed.

End safe.
