(* ===== verification/EngineSafe.v ===== *)
(** * The engine respects an account law

    File [TransactorSafe] shows that a transaction is safe once the sequence number and the fee
    have been dealt with.  This file adds these two, the claim of a fee, and the commit: what
    [applyTransaction] does to one account that is in the ledger.

    For a law that does not speak of sequence numbers, and for every law when the transaction is
    sent by another account, [transact] is safe from the start ([safe_transact_open]).  For the
    sender of an ordinary transaction, [apply] goes from one sequence number to the next
    ([apply_consumes]). *)

From S2P Require Import Prelude OrdMap Issue BigNum STAmount Quality Ter Indexes DeferredCredits EntrySet Directory LedgerObjects Threading TrustLines Fees Tx LedgerQueries Transactor Transactors MiscTransactors TransactionEngine AccountLogic ThreadingProps TransactorSafe.

(** The transactions that go through [checkSeq].  Those of the network (amendments, fee settings) and
    of the managers ([ManageTransactor]) do not: they are sent with an account, but the engine
    neither checks nor steps its sequence number for them. *)
Definition sequenced (txn : STTx) : bool :=
  match tx_body txn with
  | ttAMENDMENT _ | ttFEE _ | ttMNGFEE _ | ttMNGISSUER _ | ttBLKLISTSET _ | ttBLKLISTRMV _ => false
  | _ => true
  end.

(** ** The sequence number and the fee *)

Section open.
  Context {BN : BigNum}.
  Variable ia : Z.
  Variable L : list (Z * SLE).
  Variable K : AccountRoot → Prop.
  Variable md : bool.
  Context {LAW : TransactorLaw K}.
  Hypothesis ia_nonzero : ia ≠ 0.
  Variable sha512half : list Z → Z.
  Hypothesis apart : ∀ k, other_key k → key_index sha512half k ≠ ia.
  Variable accountID : Blob → Account.
  Variable checkSign : STTx → bool.
  Variable skywellCalculate : STAmount → STAmount → Account → Account → STPathSet → CalcInput → M Z.
  Variable e : Env.
  Notation safe := (AccountLogic.safe ia L K md).
  Notation quiet hs c := (safe hs c (λ _, []) (λ _, True)).

(** The entry at [i] may be given another sequence number. *)
Definition seq_free (i : Z) : Prop := i = ia → ∀ a n o, K a → K (set_sequence a n) ∧ K (set_txn_id a o).

Lemma safe_checkSeq hs t :
  (∀ h, mTxnAccount t = Some h → h ∈ hs ∧ seq_free (h_index h)) → quiet hs (checkSeq e t).
Proof.
  intros Hh. unfold checkSeq. eapply safe_bind; [apply safe_deref; by intros h [? _]%Hh|]. intros h Ht. cbn [app].
  destruct (Hh h Ht) as [Hin Hfree]. eapply safe_bind; [apply safe_get_account; in_hs|]. intros a _. cbv zeta. cbn [app].
  destruct (negb _); [repeat match goal with |- context [if ?b then _ else _] => destruct b end; safe_auto|].
  repeat match goal with |- AccountLogic.safe _ _ _ _ _ (if ?b then _ else _) _ _ => destruct b; [safe_auto|] end. unfold edit_account.
  eapply safe_bind; [|intros ? _; cbn [app]; eapply safe_bind; [|intros ? _; safe_auto]].
  all: eapply safe_bind; [apply safe_get_account; in_hs|]; intros b Hb; cbn [app]; apply safe_set_account; [in_hs|]; intros Hi.
  - by apply (Hfree Hi b _ None), Hb.
  - destruct (ar_txn_id b); [|by apply Hb]. by apply (Hfree Hi b 0), Hb.
Qed.

Lemma safe_need_fee_account hs t :
  (∀ h, mFeeAccount t = Some h → h ∈ hs) → (mFeeAccount t = None → getAccountRootIndex sha512half (mFeeAccountID t) ≠ ia) →
  safe hs (need_fee_account sha512half t) (λ t', opt_list (mFeeAccount t')) (λ t', mTxnAccount t' = mTxnAccount t).
Proof.
  intros Hf Hn. unfold need_fee_account. destruct (mFeeAccount t) as [f|] eqn:E.
  - apply safe_ret; [|done]. rewrite E. intros h ->%list_elem_of_singleton. by apply Hf.
  - eapply safe_bind; [apply safe_create; by apply Hn|]. intros f Hi. cbn [app]. rewrite <- Hi in Hn.
    eapply safe_bind; [apply safe_edit_other; [in_hs|by apply Hn]|]. intros ? _. cbn [app].
    eapply safe_bind; [apply safe_edit_other; [in_hs|by apply Hn]|]. intros ? _. cbn [app].
    apply safe_ret; [|done]. cbn. intros h ->%list_elem_of_singleton. in_hs.
Qed.

(** What the fee does to the transactor's pointers: nothing. *)
Definition same_accounts (t t' : Transactor) : Prop := mTxnAccount t' = mTxnAccount t ∧ mFeeAccount t' = mFeeAccount t.

Lemma safe_payFee hs t :
  (∀ h, mTxnAccount t = Some h → h ∈ hs) → (∀ h, mFeeAccount t = Some h → h ∈ hs) →
  safe hs (payFee t) (λ _, []) (λ r, same_accounts t r.1).
Proof.
  intros Hh Hf. unfold payFee. cbv zeta. destruct (negb _); [by apply safe_ret; [no_new|]|].
  apply (safe_bind _ _ _ _ _ _ _ (λ _, []) (λ _, True)); [destruct (flag _ _); safe_auto|]. intros low _. cbn [app].
  destruct low; [by apply safe_ret; [no_new|]|]. destruct (_ || _); [by apply safe_ret; [no_new|]|].
  destruct (is_zero _); [by apply safe_ret; [no_new|]|].
  eapply safe_bind; [safe_prim|]. intros short _. cbn [app]. destruct short.
  - destruct (_ && _); [|by apply safe_ret; [no_new|]]. cbn [set_source_balance set_balances mTxnAccount].
    eapply safe_bind; [by apply safe_deref|]. intros h Ht. cbn [app].
    eapply safe_bind; [apply safe_edit; [in_hs|intros; by apply (law_balance K)]|]. intros ? _. by apply safe_ret; [no_new|].
  - eapply safe_bind; [safe_prim|]. intros left _. cbn [app set_source_balance set_balances mTxnAccount mFeeAccount].
    eapply safe_bind; [by apply safe_deref|]. intros h Ht. cbn [app].
    eapply safe_bind; [apply safe_edit; [in_hs|intros; by apply (law_balance K)]|]. intros ? _. cbn [app].
    eapply safe_bind; [apply safe_deref; intros f Hff; apply Hf in Hff; in_hs|]. intros f Htf. cbn [app].
    eapply safe_bind; [apply safe_get_account; in_hs|]. intros b Hb. cbn [app]. eapply safe_bind; [safe_prim|]. intros sum _. cbn [app].
    eapply safe_bind; [apply safe_set_account; [in_hs|intros; apply (law_balance K); by auto]|]. intros ? _. by apply safe_ret; [no_new|].
Qed.

(** What a successful [preCheck] leaves in the object *)
Definition checked (txn : STTx) (params : Z) (r : Transactor * Z) : Prop :=
  r.2 = tesSUCCESS →
  mTxnAccountID r.1 = getSourceAccount txn ∧ getSequence (mTxn r.1) = getSequence txn ∧ t_params r.1 = params.

(** A transactor whose own part is safe, and whose check of the sequence number and payment of
    the fee are safe too, provided the sender's index is [free] *)
Record v_open (free : Z → Prop) (txn : STTx) (v : Virtual) : Prop := mkVOpen {
  vo_safe : v_safe ia L K md v;
  vo_pre hs params :
    safe hs (v_preCheck v (newTransactor txn params)) (λ _, []) (checked txn params);
  vo_seq hs t : (∀ h, mTxnAccount t = Some h → h ∈ hs ∧ free (h_index h)) → quiet hs (v_checkSeq v t);
  vo_pay hs t : (∀ h, mTxnAccount t = Some h → h ∈ hs) → (∀ h, mFeeAccount t = Some h → h ∈ hs) →
    safe hs (v_payFee v t) (λ _, []) (λ r, same_accounts t r.1)
}.

Lemma safe_charge free txn v hs t :
  v_open free txn v → (∀ h, mTxnAccount t = Some h → h ∈ hs ∧ free (h_index h)) → (∀ h, mFeeAccount t = Some h → h ∈ hs) →
  (mFeeAccount t = None → getAccountRootIndex sha512half (mFeeAccountID t) ≠ ia) →
  safe hs (charge sha512half v t) (λ r, if r.2 =? tesSUCCESS then opt_list (mFeeAccount r.1) else []) (λ r, mTxnAccount r.1 = mTxnAccount t).
Proof.
  intros Hv Ht Hf Hn. unfold charge. destruct (flag _ _).
  { apply safe_ret; [|done]. cbn. intros h Hh. apply Hf. destruct (mFeeAccount t); [|by apply elem_of_nil in Hh].
    by apply list_elem_of_singleton in Hh as ->. }
  eapply safe_bind; [by apply (vo_seq free txn v Hv)|]. intros ter _. cbn [app]. destruct (negb (ter =? tesSUCCESS)) eqn:E.
  { apply safe_ret; [|done]. apply negb_true_iff in E. cbn. rewrite E. by intros h ?%elem_of_nil. }
  eapply safe_bind; [by apply safe_need_fee_account|]. intros t' Et. cbv beta.
  set (new := λ r : Transactor * Z, if r.2 =? tesSUCCESS then opt_list (mFeeAccount r.1) else []).
  assert (safe (opt_list (mFeeAccount t') ++ hs) (v_payFee v t') new (λ r, same_accounts t' r.1)) as H.
  - apply safe_rename; [apply (vo_pay free txn v Hv)|].
    + intros h Hh. rewrite Et in Hh. apply elem_of_app. right. by apply Ht.
    + intros h Hh. rewrite Hh. cbn. apply list_elem_of_here.
    + intros [t'' ter'] h [_ E2] Hh. unfold new in Hh. cbn [fst snd] in *. apply elem_of_app. left. rewrite <- E2.
      destruct (ter' =? tesSUCCESS); [exact Hh|by apply elem_of_nil in Hh].
  - eapply safe_mono; [apply H|done| |by left]. intros r [E1 E2]. by rewrite E1.
Qed.

(** ** [apply] *)

Lemma safe_apply_to_open free txn v hs t :
  v_open free txn v → (∀ h, mTxnAccount t = Some h → h ∈ hs ∧ free (h_index h)) → (∀ h, mFeeAccount t = Some h → h ∈ hs) →
  (mFeeAccount t = None → getAccountRootIndex sha512half (mFeeAccountID t) ≠ ia) → quiet hs (apply_to sha512half v t).
Proof.
  intros Hv Ht Hf Hn. unfold apply_to. eapply safe_bind; [by eapply safe_charge|]. intros [t' ter] Et. cbn [fst snd] in *.
  destruct (ter =? tesSUCCESS); cbn [negb]; [|safe_auto]. apply safe_finish; [by eapply vo_safe|..].
  - intros h Hh. apply elem_of_app. right. rewrite Et in Hh. by apply Ht.
  - intros h ->. apply elem_of_app. left. apply list_elem_of_here.
Qed.

Lemma safe_apply_open (free : Z → Prop) txn v hs params :
  v_open free txn v → free (getAccountRootIndex sha512half (getSourceAccount txn)) →
  quiet hs (apply sha512half e v (newTransactor txn params)).
Proof.
  intros Hv Hfree. unfold apply. eapply safe_bind; [by apply (vo_pre free txn v Hv)|]. intros [t' ter] Et. cbn [fst snd app] in *.
  destruct (Z.eqb_spec ter tesSUCCESS) as [->|]; cbn [negb]; [|safe_auto]. rewrite <- (proj1 (Et eq_refl)) in Hfree.
  eapply safe_bind; [by apply safe_cache|]. intros src Esrc. eapply safe_bind; [by apply safe_cache|]. intros fee Efee.
  unfold calculateFee. assert (∀ h, src = Some h → h ∈ opt_list fee ++ opt_list src ++ hs ∧ free (h_index h)) as H1.
  { intros h ->. split; [in_hs|by rewrite Esrc]. }
  assert (∀ h, fee = Some h → h ∈ opt_list fee ++ opt_list src ++ hs) as H2 by (intros h ->; in_hs).
  apply (safe_bind _ _ _ _ _ _ _ (λ _, []) (λ x, mTxnAccount x = src ∧ mFeeAccount x = fee ∧ mFeeAccountID x = mFeeAccountID t')).
  { eapply safe_bind; [apply (vs_fee _ _ _ _ v (vo_safe free txn v Hv)); by apply H1|]. intros z _. by apply safe_ret; [no_new|]. }
  intros x (E1 & E2 & E3). rewrite app_nil_l. destruct src as [h|].
  - eapply safe_bind; [apply safe_get_account; by apply H1|]. intros a _. rewrite app_nil_l.
    eapply safe_apply_to_open; cbn [set_balances mTxnAccount mFeeAccount mFeeAccountID]; [done|by rewrite E1|by rewrite E2|].
    rewrite E2, E3. intros ->. exact Efee.
  - destruct (v_mustHaveValidAccount v); [safe_auto|].
    eapply safe_apply_to_open; [done|by rewrite E1|by rewrite E2|]. rewrite E2, E3. intros ->. exact Efee.
Qed.

(** ** Every transactor *)

Lemma preCheck_checked t : checked (mTxn t) (t_params t) (preCheck sha512half checkSign e t).
Proof.
  unfold preCheck, checked. cbv zeta. destruct t as [[c g b] ? ? ? ? ? ? ? ? ? ? ?].
  repeat match goal with |- context [if ?b then _ else _] => destruct b end; done.
Qed.

Lemma pre_after hs txn ter params :
  safe hs (after_check sha512half checkSign e ter (newTransactor txn params)) (λ _, [])
    (checked txn params).
Proof.
  unfold after_check. apply safe_ret; [no_new|]. destruct (Z.eqb_spec (ter (newTransactor txn params)) tesSUCCESS); cbn [negb]; [|by intros ?].
  apply (preCheck_checked (newTransactor txn params)).
Qed.

Lemma v_open_ordinary txn v :
  v_safe ia L K md v → v_checkSeq v = checkSeq e → v_payFee v = payFee →
  (∀ hs params, safe hs (v_preCheck v (newTransactor txn params)) (λ _, [])
     (checked txn params)) → v_open seq_free txn v.
Proof. intros Hv E1 E2 Hp. split; [done|done|rewrite E1; apply safe_checkSeq|rewrite E2; apply safe_payFee]. Qed.

Lemma v_open_after txn ter doApply :
  (∀ hs t, (∀ h, mTxnAccount t = Some h → h ∈ hs) → quiet hs (doApply t)) →
  v_open seq_free txn (Transactors.base accountID e (after_check sha512half checkSign e ter) doApply).
Proof. intros Hd. apply v_open_ordinary; [by apply v_safe_after|done|done|]. intros hs params. apply pre_after. Qed.

Lemma pre_Payment hs txn p params :
  safe hs (Payment_preCheck sha512half checkSign e p (newTransactor txn params)) (λ _, [])
    (checked txn params).
Proof.
  unfold Payment_preCheck. cbv zeta. destruct (flag _ _); [by apply safe_ret; [no_new|]|].
  eapply safe_bind; [apply safe_lift|]. intros mx _. cbn [app]. repeat (case_match; [by apply safe_ret; [no_new|]|]).
  eapply safe_bind; [by apply safe_accountFundsCheck|]. intros ter _. apply safe_ret; [no_new|].
  destruct (ter =? 0); cbn [negb]; [|by intros ?]. apply (preCheck_checked (set_ids (newTransactor txn params) _ _)).
Qed.

Lemma v_open_Change free txn (c : M Z) : (∀ hs, quiet hs c) → v_open free txn (Change e c).
Proof.
  intros Hc. split; [by apply v_safe_Change|..].
  - intros hs params. by apply safe_ret; [no_new|].
  - intros hs t _. apply safe_ret; [no_new|done].
  - intros hs t _ _. by apply safe_ret; [no_new|].
Qed.

Lemma v_open_Manage free txn b (c : M Z) : (∀ hs, quiet hs c) → v_open free txn (Manage e b c).
Proof.
  intros Hc. split; [by apply v_safe_Manage|..].
  - intros hs params. by apply safe_ret; [no_new|].
  - intros hs t _. apply safe_ret; [no_new|done].
  - intros hs t _ _. by apply safe_ret; [no_new|].
Qed.

(** A batch, whatever its sub-transactions, paths apart *)
Lemma safe_batch hs ops t :
  (∀ l, ops = Some l → forallb path_free l = true) →
  quiet hs (match ops with
            | None | Some [] => mret temINVALID
            | Some l => run_operations sha512half (transact sha512half accountID checkSign skywellCalculate e)
                          (getSignAccount accountID (mTxn t)) l (t_params t)
            end).
Proof.
  intros Hfree. destruct ops as [[|x l]|]; [safe_auto| |safe_auto]. specialize (Hfree _ eq_refl). rewrite forallb_forall in Hfree.
  apply safe_run_operations; try done. apply Forall_forall. intros y Hy%list_elem_of_In hs' params Hp. by apply safe_transact; auto.
Qed.

(** Every transaction without a sequence number, and every one whose sender's may change *)
Lemma safe_transact_open txn hs params :
  path_free txn = true →
  sequenced txn = false ∨ seq_free (getAccountRootIndex sha512half (getSourceAccount txn)) →
  quiet hs (transact sha512half accountID checkSign skywellCalculate e txn params).
Proof.
  intros Hfree Hor. assert (∀ v, sequenced txn = true → v_open seq_free txn v → quiet hs ('(t, ter) ← apply sha512half e v (newTransactor txn params); mret (mTxn t, ter))) as run.
  { intros v Hq Hv. destruct Hor as [Hor|Hor]; [congruence|]. apply safe_run. by eapply safe_apply_open. }
  assert (∀ v, v_open (λ _, True) txn v → quiet hs ('(t, ter) ← apply sha512half e v (newTransactor txn params); mret (mTxn t, ter))) as run_free.
  { intros v Hv. apply safe_run. by eapply safe_apply_open. }
  destruct txn as [c s b]. destruct b; cbn [transact]; try (apply safe_ret; [no_new|done]).
  - apply run; [done|]; apply v_open_ordinary; [by apply v_safe_Payment|done|done|]. intros; apply pre_Payment.
  - apply run; [done|]; apply v_open_after. intros; by apply safe_SetAccount.
  - apply run; [done|]; apply v_open_ordinary; [by apply v_safe_SetRegularKey|done|done|]. intros; apply pre_after.
  - apply run; [done|]; apply v_open_after. intros; by apply safe_SetTrust.
  - apply run; [done|]; apply v_open_after. intros; by apply safe_SetREL.
  - apply run; [done|]; apply v_open_after. intros; by apply safe_SetREL.
  - apply run_free, v_open_Change. intros; by apply safe_applyAmendment.
  - apply run_free, v_open_Change. intros; by apply safe_applyFee.
  - apply run; [done|]; apply v_open_after. intros; by apply safe_SetNickName.
  - by eapply safe_run, safe_AccountMerge.
  - apply run_free, v_open_Manage. intros; by apply safe_applyManageFee.
  - apply run_free, v_open_Manage. intros; by apply safe_applyManageIssuer.
  - apply run_free, v_open_Manage. intros; by apply safe_applyManageBlackList.
  - apply run_free, v_open_Manage. intros; by apply safe_applyManageBlackList.
  - apply run; [done|]; apply v_open_after. intros; by apply safe_SetSign.
  - apply run; [done|]; apply v_open_after. intros; by apply safe_Message.
  - apply run; [done|]; apply v_open_after. intros; apply safe_batch. by intros l ->.
Qed.

End open.

(** ** The sequence number of the sender *)

Lemma get_account_Ok h w s w' s' a :
  get_account h (w, s) = Ok (w', s', a) → w' = w ∧ s' = s ∧ w_obj w !! h_ptr h = Some (ltACCOUNT_ROOT a).
Proof.
  intros H. unfold get_account in H. apply M_bind_Ok in H as (w1 & s1 & v & Hv & H). unfold read_sle in Hv. cbn [fst snd] in Hv.
  destruct (w_obj w !! h_ptr h) as [x|]; [|done]. injection Hv as <- <- <-. destruct x; try done. by injection H as <- <- <-.
Qed.

Definition seq_is (n : Z) (a : AccountRoot) : Prop := ar_sequence a = n.

#[export] Instance seq_law n : TransactorLaw (seq_is n).
Proof.
  split; [split; done|done..| |]; intros p a; [|intros ? ? ? ? ? _].
  all: unfold SetAccount_fields; cbv zeta; intros H.
  all: repeat case_match; simplify_eq; cbn; exact H.
Qed.

Section consume.
  Context {BN : BigNum}.
  Variable ia : Z.
  Variable L : list (Z * SLE).

(** The account root is rewritten: the state is sound for a property of the new one. *)
Lemma write_switch (K K' : AccountRoot → Prop) md w s h a :
  sound ia L K md w s → good ia w s h → h_index h = ia → K' a →
  let w' := write w (h_ptr h) (ltACCOUNT_ROOT a) in sound ia L K' md w' s ∧ extends ia w s w' s.
Proof.
  intros [Hf Hs HL Hent Ha] Hg Hi HK' w'.
  assert (sound ia L (λ _, True) md w s) as Hs1.
  { split; try done. unfold account_state in *. destruct (om_find ia (mEntries s)); naive_solver. }
  destruct (write_sound ia L (λ _, True) md w s h (ltACCOUNT_ROOT a) Hs1 Hg) as [[Hf' Hs' HL' Hent' Ha'] He]; [intros _; by eexists|].
  split; [|done]. split; try done. unfold account_state in *. pose proof (proj1 (proj2 Hg) Hi) as Hp. unfold ptr in Hp.
  destruct (om_find ia (mEntries s)) as [x|]; [|done]. injection Hp as Hp. destruct Ha' as (H1 & H2 & _). split; [done|]. split; [done|].
  exists a. split; [|done]. rewrite Hp. apply lookup_insert_eq.
Qed.

(** Marking the account as modified *)
Lemma modify_switch K w s h w' s' u :
  sound ia L K false w s → good ia w s h → h_index h = ia → les_modify h (w, s) = Ok (w', s', u) →
  sound ia L K true w' s' ∧ extends ia w s w' s'.
Proof.
  intros Hs Hg Hi H. unfold les_modify in H. cbn [fst snd] in H.
  destruct (entryModify s (h_index h) (h_ptr h)) as [s1|] eqn:E; [|done]. injection H as <- <- _.
  destruct (modify_sound ia L K false w s h s1 Hs Hg E) as [[Hf Hso HL Hent Ha] He]. split; [|done]. split; try done.
  pose proof (proj1 (proj2 Hg) Hi) as Hp. unfold ptr in Hp. pose proof (so_account _ _ _ _ _ _ Hs) as Ha0. unfold account_state in *.
  unfold entryModify in E. rewrite Hi in E. destruct (om_find ia (mEntries s)) as [x|] eqn:Ex; [|done]. injection Hp as Hp.
  destruct Ha0 as (_ & Hact & a & Hq & HK). rewrite Hp in Hq.
  assert (s1 = set_entries s (om_set ia (mkLSE (h_ptr h) taaMODIFY (mSeq s)) (mEntries s))) as ->.
  { destruct Hact as [[_ Hact]|Hact]; rewrite Hact in E; by injection E. }
  cbn [set_entries mEntries mSeq] in *. rewrite om_find_set, Z.eqb_refl in * by apply Hs.
  split; [done|]. split; [by right|]. by exists a.
Qed.

Lemma edit_switch (K K' : AccountRoot → Prop) md w s h f w' s' u :
  sound ia L K md w s → good ia w s h → h_index h = ia → (∀ a, K a → K' (f a)) →
  edit_account h f (w, s) = Ok (w', s', u) → sound ia L K' md w' s' ∧ extends ia w s w' s'.
Proof.
  intros Hs Hg Hi Hf H. unfold edit_account in H. apply M_bind_Ok in H as (w1 & s1 & a & Ha & H).
  apply get_account_Ok in Ha as (-> & -> & Ha). destruct (good_read ia L K md w s h Hs Hg Hi) as (a' & Ha' & HK).
  rewrite Ha in Ha'. injection Ha' as <-. injection H as <- <- _. by apply (write_switch K K'), Hf.
Qed.

Lemma checkSeq_consumes e n w s t h w' s' :
  sound ia L (seq_is n) false w s → good ia w s h → h_index h = ia → mTxnAccount t = Some h →
  checkSeq e t (w, s) = Ok (w', s', tesSUCCESS) →
  n = getSequence (mTxn t) ∧ sound ia L (seq_is (u32 (n + 1))) false w' s' ∧ extends ia w s w' s'.
Proof.
  intros Hs Hg Hi Ht H. unfold checkSeq in H. rewrite Ht in H. apply M_bind_Ok in H as (w1 & s1 & h1 & [= <- <- <-] & H).
  apply M_bind_Ok in H as (w1 & s1 & a & Ha & H). apply get_account_Ok in Ha as (-> & -> & Ha).
  destruct (good_read ia L _ false w s h Hs Hg Hi) as (a' & Ha' & HK). rewrite Ha in Ha'. injection Ha' as <-. unfold seq_is in HK.
  cbv zeta in H. destruct (Z.eqb_spec (getSequence (mTxn t)) (ar_sequence a)) as [E|E]; cbn [negb] in H.
  2: { repeat match goal with H : (if ?b then _ else _) _ = _ |- _ => destruct b end; by injection H. }
  destruct (match tx_account_txn_id _ with Some _ => _ | None => _ end); [by injection H|].
  destruct (match tx_last_ledger _ with Some _ => _ | None => _ end); [by injection H|].
  apply M_bind_Ok in H as (w1 & s1 & u1 & H1 & H). apply M_bind_Ok in H as (w2 & s2 & u2 & H2 & H). injection H as <- <-.
  split; [congruence|].
  apply (edit_switch (seq_is n) (seq_is (u32 (n + 1))) false w s h) in H1 as [Hs1 He1]; [|done..|].
  2: { intros b _. unfold seq_is. cbn [set_sequence ar_sequence]. by rewrite E, HK. }
  apply (edit_switch (seq_is (u32 (n + 1))) (seq_is (u32 (n + 1))) false w1 s1 h) in H2 as [Hs2 He2]; [|done|by apply He1|done|].
  2: { intros b Hb. by destruct (ar_txn_id b). }
  split; [done|]. by eapply extends_trans.
Qed.

  Hypothesis ia_nonzero : ia ≠ 0.
  Variable sha512half : list Z → Z.
  Variable e : Env.

(** A computation that is safe, applied to a state *)
Lemma safe_here {A} K md (c : M A) new P (hs : list handle) w s w' s' a :
  safe ia L K md hs c new P → sound ia L K md w s → Forall (good ia w s) hs → c (w, s) = Ok (w', s', a) →
  sound ia L K md w' s' ∧ extends ia w s w' s' ∧ Forall (good ia w' s') (new a ++ hs) ∧ P a.
Proof.
  intros Hc Hs Hg H. destruct (Hc w s w' s' a Hs) as (H1 & H2 & H3 & H4); [by apply Forall_forall|done|].
  split; [done|]. split; [done|]. split; [|done]. apply Forall_app. split; [by apply Forall_forall|].
  eapply Forall_impl; [done|]. intros h. apply H2.
Qed.

Lemma charge_consumes v n t h w s w' s' t' :
  v_checkSeq v = checkSeq e → v_payFee v = payFee → flag (t_params t) tapPRE_CHECKED = false →
  mTxnAccount t = Some h → h_index h = ia →
  (mFeeAccount t = None → getAccountRootIndex sha512half (mFeeAccountID t) ≠ ia) →
  sound ia L (seq_is n) false w s → Forall (good ia w s) (h :: opt_list (mFeeAccount t)) →
  charge sha512half v t (w, s) = Ok (w', s', (t', tesSUCCESS)) →
  n = getSequence (mTxn t) ∧ sound ia L (seq_is (u32 (n + 1))) false w' s' ∧ mTxnAccount t' = Some h
    ∧ Forall (good ia w' s') (h :: opt_list (mFeeAccount t')).
Proof.
  intros Ev1 Ev2 Hp Ht Hi Hn Hs Hg H. unfold charge in H. rewrite Hp, Ev1, Ev2 in H.
  apply M_bind_Ok in H as (w1 & s1 & ter & H1 & H). destruct (Z.eqb_spec ter tesSUCCESS) as [->|E]; cbn [negb] in H; [|by injection H].
  pose proof Hg as [Hgh Hgf]%Forall_cons. destruct (checkSeq_consumes e n w s t h w1 s1 Hs Hgh Hi Ht H1) as (Hseq & Hs1 & He1).
  split; [done|]. apply M_bind_Ok in H as (w2 & s2 & t2 & H2 & H).
  assert (Forall (good ia w1 s1) (h :: opt_list (mFeeAccount t))) as Hg1 by (eapply Forall_impl; [done|]; intros g; apply He1).
  destruct (safe_here _ _ _ _ _ _ _ _ _ _ _ (safe_need_fee_account ia L (seq_is (u32 (n + 1))) false sha512half
    (h :: opt_list (mFeeAccount t)) t ltac:(intros f ->; in_hs) Hn) Hs1 Hg1 H2) as (Hs2 & He2 & Hg2 & Et2). rewrite Ht in Et2.
  destruct (safe_here _ _ _ _ _ _ _ _ _ _ _ (safe_payFee ia L (seq_is (u32 (n + 1))) false
    (opt_list (mFeeAccount t2) ++ h :: opt_list (mFeeAccount t)) t2 ltac:(rewrite Et2; intros f [= <-]; in_hs) ltac:(intros f ->; in_hs))
    Hs2 Hg2 H) as (Hs3 & He3 & Hg3 & Et3 & Ef3). cbn [fst app] in *.
  split; [done|]. split; [congruence|]. rewrite Ef3. apply Forall_app in Hg3 as [Hg3 [Hh3 _]%Forall_cons]. by apply Forall_cons.
Qed.

(** The signature is checked, the account is marked as modified, and the transaction does its part. *)
Lemma finish_modifies K {LAW : TransactorLaw K} v t h w s w' s' t' :
  (∀ md, v_safe ia L K md v) → mTxnAccount t = Some h → h_index h = ia →
  sound ia L K false w s → Forall (good ia w s) (h :: opt_list (mFeeAccount t)) →
  finish v t (w, s) = Ok (w', s', (t', tesSUCCESS)) → sound ia L K true w' s'.
Proof.
  intros Hv Ht Hi Hs Hg H. unfold finish in H. apply M_bind_Ok in H as (w1 & s1 & [t1 ter] & H1 & H).
  destruct (safe_here _ _ _ _ _ _ _ _ _ _ _ (vs_sig ia L K false v (Hv false) (h :: opt_list (mFeeAccount t)) t
    ltac:(rewrite Ht; intros f [= <-]; in_hs)) Hs Hg H1) as (Hs1 & _ & Hg1 & Et & Ef). cbn [fst app] in *.
  destruct (Z.eqb_spec ter tesSUCCESS) as [->|E]; cbn [negb] in H; [|by injection H].
  apply M_bind_Ok in H as (w2 & s2 & u2 & H2 & H). rewrite Et, Ht in H2.
  apply Forall_cons in Hg1 as [Hgh Hgf]. destruct (modify_switch K w1 s1 h w2 s2 u2 Hs1 Hgh Hi H2) as [Hs2 He2].
  assert (Forall (good ia w2 s2) (h :: opt_list (mFeeAccount t))) as Hg2.
  { apply Forall_cons. split; [by apply He2|]. eapply Forall_impl; [done|]. intros g. apply He2. }
  assert (safe ia L K true (h :: opt_list (mFeeAccount t)) (modify_if (mFeeAccount t1);; ter ← v_doApply v t1; mret (t1, ter)) (λ _, []) (λ _, True)) as Hsafe.
  - eapply safe_bind; [apply safe_modify_if; rewrite Ef; intros f ->; in_hs|]. intros ? _. cbn [app].
    eapply safe_bind; [apply (vs_do ia L K true v (Hv true)); rewrite Et, Ht; intros f [= <-]; in_hs|]. intros ? _. safe_auto.
  - by destruct (safe_here _ _ _ _ _ _ _ _ _ _ _ Hsafe Hs2 Hg2 H).
Qed.

Lemma apply_consumes v n txn params w s w' s' t' :
  (∀ n md, v_safe ia L (seq_is n) md v) → v_checkSeq v = checkSeq e → v_payFee v = payFee → v_mustHaveValidAccount v = true →
  safe ia L (seq_is n) false [] (v_preCheck v (newTransactor txn params)) (λ _, []) (checked txn params) →
  getAccountRootIndex sha512half (getSourceAccount txn) = ia → flag params tapPRE_CHECKED = false →
  sound ia L (seq_is n) false w s → apply sha512half e v (newTransactor txn params) (w, s) = Ok (w', s', (t', tesSUCCESS)) →
  n = getSequence txn ∧ sound ia L (seq_is (u32 (n + 1))) true w' s'.
Proof.
  intros Hv Ev1 Ev2 Ev3 Hpre Hi Hp Hs H. unfold apply in H. apply M_bind_Ok in H as (w1 & s1 & [t1 ter] & H1 & H).
  destruct (safe_here _ _ _ _ _ _ _ _ _ _ _ Hpre Hs (Forall_nil_2 _) H1) as (Hs1 & _ & _ & Hc).
  destruct (Z.eqb_spec ter tesSUCCESS) as [->|E]; cbn [negb] in H; [|by injection H]. destruct (Hc eq_refl) as (Eid & Eseq & Epar). cbn [fst] in *.
  apply M_bind_Ok in H as (w2 & s2 & src & H2 & H).
  destruct (safe_here _ _ _ _ _ _ _ _ _ _ _ (safe_cache ia L (seq_is n) false ia_nonzero [] _) Hs1 (Forall_nil_2 _) H2) as (Hs2 & _ & Hg2 & Esrc).
  apply M_bind_Ok in H as (w3 & s3 & fee & H3 & H).
  destruct (safe_here _ _ _ _ _ _ _ _ _ _ _ (safe_cache ia L (seq_is n) false ia_nonzero _ _) Hs2 Hg2 H3) as (Hs3 & _ & Hg3 & Efee).
  rewrite app_nil_r in *. rewrite Eid, Hi in Esrc. destruct src as [h|]; [|done]. cbn [opt_list] in *.
  apply M_bind_Ok in H as (w4 & s4 & t4 & H4 & H). unfold calculateFee in H4. apply M_bind_Ok in H4 as (w5 & s5 & z & H5 & H4). injection H4 as -> -> <-.
  destruct (safe_here _ _ _ _ _ _ _ _ _ _ _ (vs_fee ia L _ false v (Hv n false) (opt_list fee ++ [h]) (set_accounts t1 (Some h) fee)
    ltac:(intros f [= <-]; apply elem_of_app; right; in_hs)) Hs3 Hg3 H5) as (Hs4 & _ & Hg4 & _).
  apply M_bind_Ok in H as (w6 & s6 & a & H6 & H). apply get_account_Ok in H6 as (-> & -> & _).
  unfold apply_to in H. apply M_bind_Ok in H as (w7 & s7 & [t7 ter7] & H7 & H).
  destruct (Z.eqb_spec ter7 tesSUCCESS) as [->|E]; cbn [negb] in H; [|by injection H].
  assert (Forall (good ia w4 s4) (h :: opt_list fee)) as Hg.
  { rewrite app_nil_l in Hg4. apply Forall_app in Hg4 as [Hgf [Hgh _]%Forall_cons]. by apply Forall_cons. }
  eapply (charge_consumes v n _ h) in H7 as (En & Hs7 & Et7 & Hg7); [..|exact Hs4|exact Hg]; [|done|done|cbn; by rewrite Epar|done|done|].
  2: { cbn. by intros ->. }
  split; [by rewrite En|]. by eapply (finish_modifies (seq_is (u32 (n + 1)))).
Qed.

End consume.

(** ** The engine *)

(** No other kind of entry has the index of the account. *)
Definition account_apart (sha512half : list Z → Z) (ia : Z) : Prop :=
  ia ≠ 0 ∧ ∀ k, other_key k → key_index sha512half k ≠ ia.

(** Every object of the heap was allocated. *)
Definition heap_ok (w : World SLE) : Prop := ∀ q, is_Some (w_obj w !! q) → q < w_next w.

Section engine_lemmas.
  Context {BN : BigNum}.
  Variable ia : Z.
  Variable L : list (Z * SLE).
  Variable sha512half : list Z → Z.
  Hypothesis apart : account_apart sha512half ia.
  Variable accountID : Blob → Account.
  Variable checkSign : STTx → bool.
  Variable skywellCalculate : STAmount → STAmount → Account → Account → STPathSet → CalcInput → M Z.
  Variable e : Env.
  Notation transact := (TransactionEngine.transact sha512half accountID checkSign skywellCalculate e).

#[local] Hint Resolve seq_law : core.

Lemma transact_consumes n txn params w s w' s' txn' :
  path_free txn = true → sequenced txn = true → getAccountRootIndex sha512half (getSourceAccount txn) = ia → flag params tapPRE_CHECKED = false →
  sound ia L (seq_is n) false w s → transact txn params (w, s) = Ok (w', s', (txn', tesSUCCESS)) →
  n = getSequence txn ∧ sound ia L (seq_is (u32 (n + 1))) true w' s'.
Proof.
  intros Hfree Hseq Hi Hp Hs. destruct apart as [Hz Hk].
  assert (∀ v, (∀ n md, v_safe ia L (seq_is n) md v) → v_checkSeq v = checkSeq e → v_payFee v = payFee → v_mustHaveValidAccount v = true →
     safe ia L (seq_is n) false [] (v_preCheck v (newTransactor txn params)) (λ _, []) (checked txn params) →
     ('(t, ter) ← apply sha512half e v (newTransactor txn params); mret (mTxn t, ter)) (w, s) = Ok (w', s', (txn', tesSUCCESS)) →
     n = getSequence txn ∧ sound ia L (seq_is (u32 (n + 1))) true w' s') as run.
  { intros v H1 H2 H3 H4 H5 H. apply M_bind_Ok in H as (w1 & s1 & [t1 ter] & H & [= <- <- _ ->]). by eapply apply_consumes. }
  assert (∀ ter doApply,
    (∀ n md hs t, (∀ h, mTxnAccount t = Some h → h ∈ hs) → safe ia L (seq_is n) md hs (doApply t) (λ _, []) (λ _, True)) →
    let v := Transactors.base accountID e (after_check sha512half checkSign e ter) doApply in
    ('(t, ter) ← apply sha512half e v (newTransactor txn params); mret (mTxn t, ter)) (w, s) = Ok (w', s', (txn', tesSUCCESS)) →
    n = getSequence txn ∧ sound ia L (seq_is (u32 (n + 1))) true w' s') as run_after.
  { intros ter doApply Hd v. apply run; [|done|done|done|apply pre_after]. intros m md. apply v_safe_after. intros hs t. apply Hd. }
  destruct txn as [c g b]. destruct b; cbn [TransactionEngine.transact]; try done.
  - apply run; [|done|done|done|eapply pre_Payment; eauto]. intros m md. eapply v_safe_Payment; eauto.
  - apply run_after. intros; by apply safe_SetAccount.
  - apply run; [|done|done|done|by apply pre_after]. intros m md. by apply v_safe_SetRegularKey.
  - apply run_after. intros; by apply safe_SetTrust.
  - apply run_after. intros; by apply safe_SetREL.
  - apply run_after. intros; by apply safe_SetREL.
  - apply run_after. intros; by apply safe_SetNickName.
  - intros H. apply M_bind_Ok in H as (w1 & s1 & [t1 ter] & H & [= _ _ _ ->]). unfold apply in H.
    apply M_bind_Ok in H as (w2 & s2 & [t2 ter] & H2 & H). apply AccountMerge_refused in H2 as (_ & _ & Hter).
    assert (ter ≠ tesSUCCESS) as Hne by (intros ->; set_solver). apply Z.eqb_neq in Hne. rewrite Hne in H. by injection H as _ _ _ ->.
  - apply run_after. intros; by apply safe_SetSign.
  - apply run_after. intros; by apply safe_Message.
  - apply run_after. intros. eapply safe_batch; eauto. by intros l ->.
Qed.

Lemma sound_mono (K K' : AccountRoot → Prop) md w s : (∀ a, K a → K' a) → sound ia L K md w s → sound ia L K' md w s.
Proof.
  intros HK [Hf Hs HL Hent Ha]. split; try done. unfold account_state in *. destruct (om_find ia (mEntries s)); naive_solver.
Qed.

#[export] Instance any_law : TransactorLaw (λ _, True).
Proof. by repeat split. Qed.

(** ** Claiming a fee *)

Lemma safe_claim_fee K md {LAW : TransactorLaw K} hs txn params ter :
  seq_free ia K (getAccountRootIndex sha512half (getSourceAccount txn)) →
  safe ia L K md hs (claim_fee sha512half txn params ter) (λ _, []) (λ _, True).
Proof.
  intros Hfree. unfold claim_fee. eapply safe_bind; [apply safe_cache, apart|]. intros [h|] Ho; cbn [app opt_list]; [|safe_auto].
  eapply safe_bind; [apply safe_get_account; in_hs|]. intros a Ha. cbv zeta. cbn [app].
  destruct (_ <? _); [safe_auto|]. destruct (_ >? _); [safe_auto|].
  apply (safe_bind _ _ _ _ _ _ _ (λ _, []) (λ _, True)); [safe_auto|]. intros poor _. cbn [app]. destruct poor; [safe_auto|].
  eapply safe_bind; [safe_prim|]. intros more _. eapply safe_bind; [safe_prim|]. intros left _. cbn [app].
  eapply safe_bind; [apply safe_edit; [in_hs|intros; by apply (law_balance K)]|]. intros ? _. cbn [app].
  eapply safe_bind; [|intros ? _; safe_auto]. unfold edit_account.
  eapply safe_bind; [apply safe_get_account; in_hs|]. intros b Hb. cbn [app]. apply safe_set_account; [in_hs|].
  intros Hi. rewrite Ho in *. by apply (Hfree Hi b _ None), Hb.
Qed.

Lemma claim_fee_consumes n txn params ter w s w' s' ter' :
  getAccountRootIndex sha512half (getSourceAccount txn) = ia →
  sound ia L (seq_is n) false w s → claim_fee sha512half txn params ter (w, s) = Ok (w', s', (ter', true)) →
  n = getSequence txn ∧ sound ia L (seq_is (u32 (n + 1))) true w' s'.
Proof.
  intros Hi Hs H. unfold claim_fee in H. apply M_bind_Ok in H as (w1 & s1 & o & H1 & H).
  destruct (safe_here _ _ _ _ _ _ _ _ _ _ _ _ _ (safe_cache ia L (seq_is n) false (proj1 apart) [] _) Hs (Forall_nil_2 _) H1) as (Hs1 & _ & Hg1 & Eo).
  destruct o as [h|]; [|done]. cbn [opt_list app] in *. apply Forall_cons in Hg1 as [Hg1 _]. rewrite Hi in Eo.
  apply M_bind_Ok in H as (w2 & s2 & a & H2 & H). apply get_account_Ok in H2 as (-> & -> & Ha).
  destruct (good_read ia L _ false w1 s1 h Hs1 Hg1 Eo) as (a' & Ha' & HK). rewrite Ha in Ha'. injection Ha' as <-. unfold seq_is in HK.
  cbv zeta in H. destruct (Z.ltb_spec (ar_sequence a) (getSequence txn)) as [_|Hge]; [by injection H|].
  destruct (Z.gtb_spec (ar_sequence a) (getSequence txn)) as [_|Hle]; [by injection H|].
  assert (n = getSequence txn) as En by lia. split; [done|].
  apply M_bind_Ok in H as (w2 & s2 & poor & H2 & H).
  assert (w2 = w1 ∧ s2 = s1) as [-> ->].
  { destruct (is_zero _); [by injection H2|]. destruct (flag _ _); [by apply lift_Ok in H2 as (-> & -> & _)|by injection H2]. }
  destruct poor; [by injection H|]. apply M_bind_Ok in H as (w2 & s2 & more & H3 & H).
  apply lift_Ok in H3 as (-> & -> & _).
  apply M_bind_Ok in H as (w2 & s2 & left & H4 & H).
  apply lift_Ok in H4 as (-> & -> & _).
  apply M_bind_Ok in H as (w2 & s2 & u2 & H5 & H).
  apply (edit_switch ia L (seq_is n) (seq_is n) false w1 s1 h) in H5 as [Hs2 He2]; [|done..].
  apply M_bind_Ok in H as (w3 & s3 & u3 & H6 & H).
  apply (edit_switch ia L (seq_is n) (seq_is (u32 (n + 1))) false w2 s2 h) in H6 as [Hs3 He3]; [|done|by apply He2|done|].
  2: { intros b _. unfold seq_is. cbn [set_sequence ar_sequence]. by rewrite En. }
  apply M_bind_Ok in H as (w4 & s4 & u4 & H7 & H). injection H as <- <- _.
  by destruct (modify_switch ia L _ w3 s3 h _ _ _ Hs3 (He3 _ (He2 _ Hg1)) Eo H7).
Qed.

(** ** Results

    A transaction without a sequence number never claims a fee. *)

Definition answers {A} (c : M A) (P : A → Prop) : Prop := ∀ w s w' s' a, c (w, s) = Ok (w', s', a) → P a.

Lemma answers_ret {A} (a : A) (P : A → Prop) : P a → answers (mret a) P.
Proof. by intros HP w s w' s' b [= _ _ <-]. Qed.
Lemma answers_bind {A B} (c : M A) (k : A → M B) P Q : answers c P → (∀ a, P a → answers (k a) Q) → answers (c ≫= k) Q.
Proof. intros Hc Hk w s w' s' b H. apply M_bind_Ok in H as (w1 & s1 & a & H1 & H). eapply Hk; [by eapply Hc|done]. Qed.
Lemma answers_any {A} (c : M A) : answers c (λ _, True).
Proof. done. Qed.

Definition not_tec {A} (r : A * Z) : Prop := isTecClaim r.2 = false.

Ltac answer := first
  [ apply answers_ret; done
  | eapply answers_bind; [apply answers_any|intros ? _; answer]
  | match goal with
    | |- answers (if ?b then _ else _) _ => destruct b; answer
    | |- answers (match ?o with _ => _ end) _ => destruct o; answer
    | |- answers (throw _) _ => by intros ? ? ? ? ? [=]
    end ].

Lemma answers_apply v txn params :
  (∀ t, answers (v_preCheck v t) not_tec) → (∀ t, answers (v_checkSeq v t) (λ ter, isTecClaim ter = false)) →
  (∀ t, answers (v_payFee v t) not_tec) → (∀ t, answers (v_checkSig v t) not_tec) →
  (∀ t, answers (v_doApply v t) (λ ter, isTecClaim ter = false)) →
  answers ('(t, ter) ← apply sha512half e v (newTransactor txn params); mret (mTxn t, ter)) not_tec.
Proof.
  intros H1 H2 H3 H4 H5. eapply (answers_bind _ _ not_tec); [|intros [t ter] Ht; by apply answers_ret].
  assert (∀ t, answers (apply_to sha512half v t) not_tec) as Hto.
  { intros t. unfold apply_to. eapply (answers_bind _ _ not_tec).
    - unfold charge. destruct (flag _ _); [by apply answers_ret|]. eapply answers_bind; [apply H2|]. intros ter Hter. cbv beta in Hter.
      destruct (negb _); [by apply answers_ret|]. eapply answers_bind; [apply answers_any|]. intros t' _. apply H3.
    - intros [t1 ter] Ht. destruct (negb _); [by apply answers_ret|]. eapply answers_bind; [apply H4|]. intros [t2 ter2] Ht2.
      destruct (negb _); [by apply answers_ret|]. eapply answers_bind; [apply answers_any|]. intros ? _.
      eapply answers_bind; [apply answers_any|]. intros ? _. eapply answers_bind; [apply H5|]. intros ter3 Ht3. by apply answers_ret. }
  unfold apply. eapply answers_bind; [apply H1|]. intros [t ter] Ht. destruct (negb _); [by apply answers_ret|].
  eapply answers_bind; [apply answers_any|]. intros src _. eapply answers_bind; [apply answers_any|]. intros fee _.
  eapply answers_bind; [apply answers_any|]. intros t' _. destruct src; [|destruct (v_mustHaveValidAccount v); [by apply answers_ret|apply Hto]].
  eapply answers_bind; [apply answers_any|]. intros a _. apply Hto.
Qed.

Lemma unsequenced_not_tec txn params : sequenced txn = false → answers (transact txn params) not_tec.
Proof.
  assert (∀ c : M Z, answers c (λ ter, isTecClaim ter = false) →
    answers ('(t, ter) ← apply sha512half e (Change e c) (newTransactor txn params); mret (mTxn t, ter)) not_tec) as run_change.
  { intros c Hc. apply answers_apply; cbn; [..|done]; intros t; apply answers_ret; unfold not_tec; cbn;
      repeat match goal with |- context [if ?b then _ else _] => destruct b end; done. }
  assert (∀ b (c : M Z), answers c (λ ter, isTecClaim ter = false) →
    answers ('(t, ter) ← apply sha512half e (Manage e b c) (newTransactor txn params); mret (mTxn t, ter)) not_tec) as run_manage.
  { intros b c Hc. apply answers_apply; cbn; [..|done]; intros t; apply answers_ret; unfold not_tec; cbn;
      repeat match goal with |- context [if ?b then _ else _] => destruct b end; done. }
  destruct txn as [c g b]. destruct b; cbn [TransactionEngine.transact]; intros Hq; try done.
  - apply run_change. unfold applyAmendment. cbv zeta. answer.
  - apply run_change. unfold applyFee. cbv zeta. answer.
  - apply run_manage. unfold applyManageFee, applyManageAccount. answer.
  - apply run_manage. unfold applyManageIssuer, applyManageAccount. answer.
  - apply run_manage. unfold applyManageBlackList. cbv zeta. answer.
  - apply run_manage. unfold applyManageBlackList. cbv zeta. answer.
Qed.

(** ** Deciding whether to apply *)

Lemma cleared_sound K a w s :
  heap_ok w → mLedger s = L → om_find ia L = Some (ltACCOUNT_ROOT a) → K a → sound ia L K false w (les_clear s).
Proof. intros Hw HL HLa HK. split; [done|constructor|done|done|]. unfold account_state. cbn. split; [done|]. by exists a. Qed.

Lemma clear_sound K md K' a w s :
  sound ia L K md w s → om_find ia L = Some (ltACCOUNT_ROOT a) → K' a → sound ia L K' false w (les_clear s).
Proof. intros [Hf Hs HL Hent Ha] HLa HK'. by apply (cleared_sound K' a). Qed.

Lemma decide_safe K {LAW : TransactorLaw K} a txn params w s w' s' r :
  path_free txn = true →
  sequenced txn = false ∨ seq_free ia K (getAccountRootIndex sha512half (getSourceAccount txn)) → om_find ia L = Some (ltACCOUNT_ROOT a) → K a →
  sound ia L K false w s →
  decide_apply sha512half accountID checkSign skywellCalculate e txn params (w, s) = Ok (w', s', r) → sound ia L K false w' s'.
Proof.
  intros Hpf Hfree HLa HK Hs H. unfold decide_apply in H. apply M_bind_Ok in H as (w1 & s1 & [txn' ter] & H1 & H).
  assert (sound ia L K false w1 s1) as Hs1.
  { apply (safe_transact_open ia L K false (proj1 apart) sha512half (proj2 apart) accountID checkSign skywellCalculate e
      txn [] params Hpf Hfree w s w1 s1 _ Hs) in H1; [apply H1|by intros h ?%elem_of_nil]. }
  destruct (isTecClaim ter) eqn:Etec; [|by injection H as <- <- _]. destruct Hfree as [Hq|Hfree].
  { apply (unsequenced_not_tec txn params Hq) in H1. unfold not_tec in H1. cbn in H1. congruence. }
  cbn [andb] in H. destruct (negb _); [|by injection H as <- <- _].
  apply M_bind_Ok in H as (w2 & s2 & u & [= <- <- _] & H). cbn [fst snd] in H. apply M_bind_Ok in H as (w3 & s3 & [ter' b] & H3 & H). injection H as <- <- _.
  apply (safe_claim_fee K false [] txn params ter Hfree w1 (les_clear s1)) in H3; [apply H3|by eapply clear_sound|by intros h ?%elem_of_nil].
Qed.

Lemma decide_consumes n a txn params w s w' s' txn' ter :
  path_free txn = true → sequenced txn = true → getAccountRootIndex sha512half (getSourceAccount txn) = ia → flag params tapPRE_CHECKED = false →
  om_find ia L = Some (ltACCOUNT_ROOT a) → ar_sequence a = n → sound ia L (seq_is n) false w s →
  decide_apply sha512half accountID checkSign skywellCalculate e txn params (w, s) = Ok (w', s', (txn', ter, true)) →
  n = getSequence txn ∧ sound ia L (seq_is (u32 (n + 1))) true w' s'.
Proof.
  intros Hpf Hseq Hi Hp HLa HK Hs H. unfold decide_apply in H. apply M_bind_Ok in H as (w1 & s1 & [txn1 ter1] & H1 & H).
  destruct (_ && _).
  - apply M_bind_Ok in H as (w2 & s2 & u & [= <- <- _] & H). cbn [fst snd] in H.
    apply M_bind_Ok in H as (w3 & s3 & [ter' b] & H3 & H). injection H as <- <- _ _ ->.
    apply (safe_transact_open ia L (λ _, True) false (proj1 apart) sha512half (proj2 apart) accountID checkSign skywellCalculate e
      txn [] params Hpf ltac:(by right) w s) in H1 as [Hs1 _]; [|by eapply sound_mono|by intros h ?%elem_of_nil].
    eapply claim_fee_consumes; [done| |exact H3]. by eapply clear_sound.
  - injection H as <- <- <- <- Hter. eapply transact_consumes; [done..|]. rewrite H1. unfold isTesSuccess in Hter. zbool. by subst.
Qed.

(** ** Starting and committing *)

Lemma init_sound (K : AccountRoot → Prop) a w s params :
  heap_ok w → om_find ia L = Some (ltACCOUNT_ROOT a) → K a → sound ia L K false w (init s L params).
Proof.
  intros Hw HLa HK. split; [done|constructor|done|done|]. unfold account_state. cbn. split; [done|]. by exists a.
Qed.

Lemma sound_heap K md w s : sound ia L K md w s → heap_ok w.
Proof. by intros [Hf _ _ _ _]. Qed.

Lemma write_entry_other (w : World SLE) (l : list (Z * SLE)) i x j :
  om_sorted l → om_sorted (write_entry w l (i, x)) ∧ (j ≠ i → om_find j (write_entry w l (i, x)) = om_find j l).
Proof.
  intros HM. unfold write_entry, writeBack. destruct (mAction x), (w_obj w !! mEntry x); try done.
  all: try (split; [by apply om_erase_sorted|]; intros Hj; rewrite om_find_erase by done; by rewrite (proj2 (Z.eqb_neq j i))).
  all: destruct (om_find i l); try done.
  all: split; [by apply om_set_sorted|]; intros Hj; rewrite om_find_set by done; by rewrite (proj2 (Z.eqb_neq j i)).
Qed.

Lemma write_entry_same (w : World SLE) (l l' : list (Z * SLE)) j x :
  om_sorted l → om_sorted l' → om_find j l = om_find j l' → om_find j (write_entry w l (j, x)) = om_find j (write_entry w l' (j, x)).
Proof.
  intros HM HM' E. unfold write_entry, writeBack. rewrite E. destruct (mAction x), (w_obj w !! mEntry x); try done.
  all: try (by rewrite !om_find_erase, Z.eqb_refl by done).
  all: destruct (om_find j l') eqn:E'; first [by rewrite !om_find_set, Z.eqb_refl by done | by rewrite E, E'].
Qed.

(** Only the entry of an index is written at the index. *)
Lemma write_entries_at (w : World SLE) j m : ∀ l : list (Z * SLE), om_sorted m → om_sorted l →
  om_sorted (foldl (write_entry w) l m)
  ∧ om_find j (foldl (write_entry w) l m) = match om_find j m with Some x => om_find j (write_entry w l (j, x)) | None => om_find j l end.
Proof.
  induction m as [|[i x] m IH]; intros l Hm HM; [done|]. apply om_sorted_cons in Hm as [Hm Hall]. cbn [foldl om_find].
  destruct (write_entry_other w l i x j HM) as [HM1 Hother]. destruct (IH _ Hm HM1) as [H1 H2]. split; [done|]. rewrite H2.
  destruct (Z.eqb_spec j i) as [->|Hne]; [by rewrite (om_find_lt i m Hall)|].
  destruct (om_find j m) as [y|]; [|by apply Hother]. apply write_entry_same; [done|done|by apply Hother].
Qed.

Lemma commit_account K md a w s :
  om_sorted L → om_find ia L = Some (ltACCOUNT_ROOT a) → sound ia L K md w s →
  om_sorted (txnWrite w s) ∧ ∃ a', om_find ia (txnWrite w s) = Some (ltACCOUNT_ROOT a') ∧ (md = false ∧ a' = a ∨ K a').
Proof.
  intros HL HLa [Hf Hs HL' Hent Ha]. unfold txnWrite. rewrite HL'. destruct (write_entries_at w ia (mEntries s) L Hs HL) as [H1 H2].
  split; [done|]. rewrite H2. unfold account_state in Ha. destruct (om_find ia (mEntries s)) as [x|].
  - destruct Ha as (_ & [[Hmd Hact]|Hact] & b & Hb & HK); unfold write_entry, writeBack; rewrite Hact.
    + exists a. auto.
    + rewrite Hb, HLa. exists b. rewrite om_find_set, Z.eqb_refl by done. auto.
  - exists a. split; [done|]. left. by split; [apply Ha|].
Qed.

End engine_lemmas.

(** ** A transaction applied to a ledger *)

Section applied.
  Context {BN : BigNum}.
  Variable sha512half : list Z → Z.
  Variable accountID : Blob → Account.
  Variable checkSign : STTx → bool.
  Variable skywellCalculate : STAmount → STAmount → Account → Account → STPathSet → CalcInput → M Z.
  Variable cfg : Config.
  Notation applyTransaction := (TransactionEngine.applyTransaction sha512half accountID checkSign skywellCalculate cfg).

(** The account at [i] of a ledger has [K]. *)
Definition account_has (i : Z) (K : AccountRoot → Prop) (l : Ledger) : Prop :=
  ∃ a, om_find i (l_state l) = Some (ltACCOUNT_ROOT a) ∧ K a.

(** What is kept between transactions *)
Definition engine_ok (w : World SLE) (eng : TransactionEngine) : Prop := heap_ok w ∧ om_sorted (l_state (te_ledger eng)).

Lemma engine_keeps ia K {LAW : TransactorLaw K} closed fees track w eng txn params w' eng' txn' r :
  account_apart sha512half ia → path_free txn = true →
  sequenced txn = false ∨ seq_free ia K (getAccountRootIndex sha512half (getSourceAccount txn)) →
  engine_ok w eng → account_has ia K (te_ledger eng) →
  applyTransaction closed fees track w eng txn params = Ok (w', eng', txn', r) →
  engine_ok w' eng' ∧ account_has ia K (te_ledger eng').
Proof.
  intros Hap Hpf Hfree [Hw HL] (a & HLa & HK) H. unfold TransactionEngine.applyTransaction in H. cbv zeta in H.
  destruct (getTransactionID txn =? 0); [injection H as <- <- _ _; split; [done|by exists a]|].
  apply result_bind_Ok in H as ([[w1 s1] [[txn1 ter] did]] & H1 & H).
  eapply (decide_safe ia (l_state (te_ledger eng)) sha512half Hap accountID checkSign skywellCalculate _ K a) in H1;
    [|done|done|done|done|by eapply init_sound].
  destruct (ter =? temUNKNOWN); [injection H as <- <- _ _; split; [split; [by eapply sound_heap|done]|by exists a]|].
  destruct did; [|injection H as <- <- _ _; split; [split; [by eapply sound_heap|done]|by exists a]].
  apply result_bind_Ok in H as ([[w2 s2] nodes] & Hmeta & H).
  apply (calcRawMeta_sound ia (l_state (te_ledger eng)) K false tl_thread) in Hmeta; [|done].
  destruct (bool_decide _); [done|]. injection H as <- <- _ _.
  destruct (commit_account ia (l_state (te_ledger eng)) K false a w2 s2 HL HLa Hmeta) as (H2 & b & Hb & Hc).
  split; [split; [by eapply sound_heap|done]|]. exists b. split; [done|]. destruct Hc as [[_ ->]|]; done.
Qed.

(** A transaction that is not applied leaves the ledger alone. *)
Lemma engine_refused closed fees track w eng txn params w' eng' txn' ter :
  applyTransaction closed fees track w eng txn params = Ok (w', eng', txn', (ter, false)) → te_ledger eng' = te_ledger eng.
Proof.
  intros H. unfold TransactionEngine.applyTransaction in H. cbv zeta in H. destruct (getTransactionID txn =? 0); [by injection H as _ <- _ _|].
  apply result_bind_Ok in H as ([[w1 s1] [[txn1 ter1] did]] & H1 & H).
  destruct (ter1 =? temUNKNOWN); [by injection H as _ <- _ _|]. destruct did; [|by injection H as _ <- _ _].
  apply result_bind_Ok in H as ([[w2 s2] nodes] & _ & H). by destruct (bool_decide _).
Qed.

Lemma engine_consumes ia a closed fees track w eng txn params w' eng' txn' ter :
  account_apart sha512half ia → path_free txn = true → sequenced txn = true → getAccountRootIndex sha512half (getSourceAccount txn) = ia →
  flag params tapPRE_CHECKED = false → engine_ok w eng → om_find ia (l_state (te_ledger eng)) = Some (ltACCOUNT_ROOT a) →
  applyTransaction closed fees track w eng txn params = Ok (w', eng', txn', (ter, true)) →
  ar_sequence a = getSequence txn ∧ engine_ok w' eng' ∧ account_has ia (seq_is (u32 (ar_sequence a + 1))) (te_ledger eng').
Proof.
  intros Hap Hpf Hseq Hi Hp [Hw HL] HLa H. unfold TransactionEngine.applyTransaction in H. cbv zeta in H.
  destruct (getTransactionID txn =? 0); [done|].
  apply result_bind_Ok in H as ([[w1 s1] [[txn1 ter1] did]] & H1 & H).
  destruct (ter1 =? temUNKNOWN); [done|]. destruct did; [|done].
  apply result_bind_Ok in H as ([[w2 s2] nodes] & Hmeta & H). destruct (bool_decide _); [done|]. injection H as <- <- _ _.
  eapply (decide_consumes ia (l_state (te_ledger eng)) sha512half Hap accountID checkSign skywellCalculate _ (ar_sequence a) a) in H1
    as [En Hs]; [|done|done|done|done|done|done|by eapply init_sound].
  apply (calcRawMeta_sound ia (l_state (te_ledger eng)) (seq_is (u32 (ar_sequence a + 1))) true tl_thread) in Hmeta; [|exact Hs].
  destruct (commit_account ia (l_state (te_ledger eng)) _ true a w2 s2 HL HLa Hmeta) as (H2 & b & Hb & Hc).
  split; [done|]. split; [split; [by eapply sound_heap|done]|]. exists b. split; [done|]. by destruct Hc as [[? _]|].
Qed.

End applied.
