(* ===== verification/EngineClaims.v ===== *)
(** * The transaction engine: the properties

    What holds of an account over any run of the engine: a sequence of transactions, applied or
    refused, over one ledger after another.  The account is followed by the logic of file
    [AccountLogic]; files [TransactorSafe] and [EngineSafe] show that every kind of transaction
    respects it.  The runs are of transactions that are not, and do not contain, payments along
    paths ([path_free]): the path calculation is a parameter of the engine, of which nothing is
    assumed.  The accounts are those whose index is not that of another kind of entry
    ([account_apart]). *)

From S2P Require Import Prelude OrdMap Bytes Issue BigNum STAmount STAmountProps STAmountArith STAmountText Quality Ter Indexes DeferredCredits EntrySet Directory LedgerObjects Threading TrustLines TrustLineProps TrustLineClaims Fees Tx LedgerQueries Transactor Transactors MiscTransactors TransactionEngine AccountLogic TransactorSafe EngineSafe.

(** ** The laws *)

Lemma SetAccount_fields_keeps p a :
  sfRegularKey (SetAccount_fields p a).1 = sfRegularKey a ∧ ar_flags (SetAccount_fields p a).1 = ar_flags a.
Proof. unfold SetAccount_fields. cbv zeta. repeat case_match; simplify_eq; done. Qed.

(** A flag is a bit. *)
Lemma flag_bit x k : 0 <= k → flag x (2 ^ k) = Z.testbit x k.
Proof.
  intros Hk. unfold flag. destruct (Z.testbit x k) eqn:E.
  - apply negb_true_iff, Z.eqb_neq. intros H. assert (Z.testbit (Z.land x (2 ^ k)) k = true) as Ht.
    { by rewrite Z.land_spec, E, Z.pow2_bits_true. }
    by rewrite H, Z.testbit_0_l in Ht.
  - apply negb_false_iff, Z.eqb_eq. apply Z.bits_inj'. intros m Hm. rewrite Z.land_spec, Z.testbit_0_l, Z.pow2_bits_eqb by done.
    destruct (Z.eqb_spec k m) as [->|]; [by rewrite E|apply andb_false_r].
Qed.

Lemma set_flag_bit f x k : Z.testbit (set_flag f x) k = Z.testbit x k || Z.testbit f k.
Proof. apply Z.lor_spec. Qed.
Lemma clear_flag_bit f x k : Z.testbit (clear_flag f x) k = Z.testbit x k && negb (Z.testbit f k).
Proof. apply Z.ldiff_spec. Qed.

Lemma toggle_other bSet bClear f i o k : Z.testbit f k = false → Z.testbit (toggle bSet bClear f i o) k = Z.testbit o k.
Proof.
  intros Hf. unfold toggle. destruct (_ && _), (_ && _); rewrite ?clear_flag_bit, ?set_flag_bit, ?Hf; cbn [negb];
    by rewrite ?orb_false_r, ?andb_true_r.
Qed.
Lemma toggle_bit bSet bClear f i o k :
  Z.testbit f k = true → Z.testbit (toggle bSet bClear f i o) k = true → Z.testbit o k = true ∨ bSet && negb (flag i f) = true.
Proof.
  intros Hf. unfold toggle. destruct (bSet && _); [by right|]. left. destruct (_ && _); [|done].
  rewrite clear_flag_bit, Hf in *. by rewrite andb_false_r in *.
Qed.

(** A bit that a step with another flag leaves alone *)
Lemma if_other (b : bool) x y k : Z.testbit x k = Z.testbit y k → Z.testbit (if b then x else y) k = Z.testbit y k.
Proof. by destruct b. Qed.
Lemma set_flag_other f x k : Z.testbit f k = false → Z.testbit (set_flag f x) k = Z.testbit x k.
Proof. intros Hf. by rewrite set_flag_bit, Hf, orb_false_r. Qed.
Lemma clear_flag_other f x k : Z.testbit f k = false → Z.testbit (clear_flag f x) k = Z.testbit x k.
Proof. intros Hf. by rewrite clear_flag_bit, Hf, andb_true_r. Qed.

(** What the flags of an account become *)
Lemma SetAccount_flags_disable uTxFlags uSet uClear sig key i out :
  SetAccount_flags uTxFlags uSet uClear sig key i = inr out →
  flag out lsfDisableMaster = true → flag i lsfDisableMaster = true ∨ key = true.
Proof.
  intros H Ho. destruct key; [by right|]. left. change lsfDisableMaster with (2 ^ 20) in Ho. rewrite (flag_bit out 20) in Ho by lia.
  unfold SetAccount_flags in H. cbv zeta in H.
  set (disable := (uSet =? asfDisableMaster) && negb (flag i lsfDisableMaster)) in H.
  destruct (disable && negb sig); [done|]. destruct disable eqn:Ed; [done|]. cbn [andb] in H.
  destruct (_ && negb (flag i lsfDisableMaster)) in H; [done|]. injection H as <-.
  rewrite if_other in Ho by (by apply clear_flag_other). do 2 rewrite if_other in Ho by (by apply set_flag_other).
  set (o := toggle _ _ lsfDisableMaster _ _) in Ho.
  assert (Z.testbit o 20 = true) as Ho'.
  { clearbody o. revert Ho. destruct (uSet =? asfDefaultSkywell); [by rewrite set_flag_other|]. by rewrite if_other by (by apply clear_flag_other). }
  unfold o in Ho'. apply toggle_bit in Ho' as [H|H]; [|exfalso; subst disable; congruence|done].
  rewrite !toggle_other in H by done. change lsfDisableMaster with (2 ^ 20). by rewrite flag_bit by lia.
Qed.

Lemma SetAccount_flags_nofreeze uTxFlags uSet uClear sig key i out :
  SetAccount_flags uTxFlags uSet uClear sig key i = inr out → flag i lsfNoFreeze = true →
  flag out lsfNoFreeze = true ∧ (flag i lsfGlobalFreeze = true → flag out lsfGlobalFreeze = true).
Proof.
  intros H Hi. change lsfNoFreeze with (2 ^ 21) in Hi |- *. change lsfGlobalFreeze with (2 ^ 22).
  rewrite (flag_bit i 21) in Hi by lia. rewrite (flag_bit out 21), (flag_bit i 22), (flag_bit out 22) by lia.
  unfold SetAccount_flags in H. cbv zeta in H.
  destruct (_ && negb sig); [done|]. destruct (_ && negb key); [done|]. destruct (_ && negb (flag i _)) in H; [done|]. injection H as <-.
  set (o1 := if uSet =? asfDefaultSkywell then _ else _). set (o2 := if uSet =? asfNoFreeze then _ else o1).
  assert (∀ k, (k = 21 ∨ k = 22) → Z.testbit o1 k = Z.testbit i k) as Ho1.
  { intros k Hk. unfold o1. destruct Hk as [-> | ->]; (destruct (uSet =? asfDefaultSkywell); [rewrite set_flag_other by done|rewrite if_other by (by apply clear_flag_other)]);
      by rewrite !toggle_other. }
  clearbody o1. assert (Z.testbit o2 21 = true ∧ (Z.testbit i 22 = true → Z.testbit o2 22 = true)) as [H21 H22].
  { unfold o2. rewrite if_other by (rewrite set_flag_bit, Ho1, Hi by auto; done). rewrite if_other by (by apply set_flag_other).
    by rewrite !Ho1 by auto. }
  clearbody o2. set (o3 := if uSet =? asfGlobalFreeze then _ else o2).
  assert (Z.testbit o3 21 = true) as H3 by (unfold o3; by rewrite if_other by (by apply set_flag_other)).
  assert (flag o3 lsfNoFreeze = true) as -> by (change lsfNoFreeze with (2 ^ 21); by rewrite flag_bit by lia).
  rewrite andb_false_r. split; [done|]. intros Hg. unfold o3. destruct (uSet =? asfGlobalFreeze); [by rewrite set_flag_bit, orb_true_r|by apply H22].
Qed.

(** The account can sign: with its own key, or with its regular key *)
Definition can_sign (a : AccountRoot) : Prop := flag (ar_flags a) lsfDisableMaster = true → is_Some (sfRegularKey a).
(** The account has given up freezing, [g]: while frozen globally *)
Definition never_freezes (g : bool) (a : AccountRoot) : Prop :=
  flag (ar_flags a) lsfNoFreeze = true ∧ (g = true → flag (ar_flags a) lsfGlobalFreeze = true).

(** The flag of a spent password is another one. *)
Lemma spent_other x f k : 0 <= k → f = 2 ^ k → k ≠ 16 →
  flag (set_flag lsfPasswordSpent x) f = flag x f ∧ flag (clear_flag lsfPasswordSpent x) f = flag x f.
Proof.
  intros Hk -> Hne. rewrite !flag_bit by done.
  assert (Z.testbit lsfPasswordSpent k = false) as H.
  { change lsfPasswordSpent with (2 ^ 16). rewrite Z.pow2_bits_eqb by done. by apply Z.eqb_neq. }
  by rewrite set_flag_other, clear_flag_other.
Qed.

#[export] Instance sign_law : TransactorLaw can_sign.
Proof.
  assert (∀ x, flag (set_flag lsfPasswordSpent x) lsfDisableMaster = flag x lsfDisableMaster
    ∧ flag (clear_flag lsfPasswordSpent x) lsfDisableMaster = flag x lsfDisableMaster) as Hp by (intros x; by apply (spent_other x _ 20)).
  unfold can_sign. split; [split; done|done|by eexists|..].
  - intros a H _. cbn. by rewrite H.
  - intros a H. cbn. by rewrite (proj1 (Hp _)).
  - intros a H. cbn. by rewrite (proj2 (Hp _)).
  - intros p a. destruct (SetAccount_fields_keeps p a) as [-> ->]. done.
  - intros p a x1 x2 x3 sig out H HK Ho. cbn in Ho |- *. rewrite (proj1 (SetAccount_fields_keeps p a)).
    destruct (SetAccount_flags_disable _ _ _ _ _ _ _ H Ho) as [Hi|Hk]; [by apply HK|]. destruct (sfRegularKey a); [by eexists|done].
Qed.

#[export] Instance freeze_law g : TransactorLaw (never_freezes g).
Proof.
  assert (∀ x, flag (set_flag lsfPasswordSpent x) lsfNoFreeze = flag x lsfNoFreeze
    ∧ flag (clear_flag lsfPasswordSpent x) lsfNoFreeze = flag x lsfNoFreeze) as Hp by (intros x; by apply (spent_other x _ 21)).
  assert (∀ x, flag (set_flag lsfPasswordSpent x) lsfGlobalFreeze = flag x lsfGlobalFreeze
    ∧ flag (clear_flag lsfPasswordSpent x) lsfGlobalFreeze = flag x lsfGlobalFreeze) as Hq by (intros x; by apply (spent_other x _ 22)).
  unfold never_freezes. split; [split; done|done|done|done|..].
  - intros a H. cbn. by rewrite (proj1 (Hp _)), (proj1 (Hq _)).
  - intros a H. cbn. by rewrite (proj2 (Hp _)), (proj2 (Hq _)).
  - intros p a. by rewrite (proj2 (SetAccount_fields_keeps p a)).
  - intros p a x1 x2 x3 sig out H [H1 H2]. cbn. destruct (SetAccount_flags_nofreeze _ _ _ _ _ _ _ H H1) as [H3 H4]. split; [done|]. auto.
Qed.

(** ** Runs of the engine *)

Section runs.
  Context {BN : BigNum}.
  Variable sha512half : list Z → Z.
  Variable accountID : Blob → Account.
  Variable checkSign : STTx → bool.
  Variable skywellCalculate : STAmount → STAmount → Account → Account → STPathSet → CalcInput → M Z.
  Variable cfg : Config.
  Notation applyTransaction := (TransactionEngine.applyTransaction sha512half accountID checkSign skywellCalculate cfg).

(** Transactions other than payments along paths are applied or refused, with any parameters of
    the callers, fee settings and load, and the entries of a ledger become those of the next.
    The transactions that were applied are listed. *)
Inductive engine_run : World SLE → TransactionEngine → list STTx → World SLE → TransactionEngine → Prop :=
  | run_done w eng : engine_run w eng [] w eng
  | run_transaction closed fees track w eng txn params w1 eng1 txn1 ter did applied w2 eng2 :
      flag params tapPRE_CHECKED = false → path_free txn = true →
      applyTransaction closed fees track w eng txn params = Ok (w1, eng1, txn1, (ter, did)) →
      engine_run w1 eng1 applied w2 eng2 →
      engine_run w eng (if did then txn :: applied else applied) w2 eng2
  | run_ledger w eng eng1 applied w2 eng2 :
      l_state (te_ledger eng1) = l_state (te_ledger eng) →
      engine_run w eng1 applied w2 eng2 → engine_run w eng applied w2 eng2.

(** The transactions that the account at [ia] sent to the engine and that use its sequence number:
    all but those of the network and of the managers.  (The transactions inside a batch are not
    sent by themselves: the batch is, and uses one sequence number.) *)
Definition sent_by (ia : Z) (txn : STTx) : bool :=
  sequenced txn && (getAccountRootIndex sha512half (getSourceAccount txn) =? ia).
Definition sent (ia : Z) (l : list STTx) : list STTx := List.filter (sent_by ia) l.

  Variable ia : Z.
  Hypothesis apart : account_apart sha512half ia.

Lemma account_has_state K eng eng1 :
  l_state (te_ledger eng1) = l_state (te_ledger eng) → account_has ia K (te_ledger eng) → account_has ia K (te_ledger eng1).
Proof. intros E (a & Ha & HK). exists a. by rewrite E. Qed.

(** A law that does not speak of sequence numbers *)
Lemma engine_run_keeps K {LAW : TransactorLaw K} w eng applied w' eng' :
  (∀ a n o, K a → K (set_sequence a n) ∧ K (set_txn_id a o)) →
  engine_run w eng applied w' eng' → engine_ok w eng → account_has ia K (te_ledger eng) → account_has ia K (te_ledger eng').
Proof.
  intros Hfree. induction 1 as [|closed fees track w eng txn params w1 eng1 txn1 ter did applied w2 eng2 Hp Hpf H Hrun IH|w eng eng1 applied w2 eng2 E Hrun IH];
    intros Hok Ha; [done|..].
  - eapply (engine_keeps sha512half accountID checkSign skywellCalculate cfg ia K) in H as [Hok1 Ha1]; [by apply IH|done|done|by right; intros _|done|done].
  - apply IH; [|by eapply account_has_state]. split; [apply Hok|rewrite E; apply Hok].
Qed.

Lemma u32_next n k : u32 (u32 (n + 1) + k) = u32 (n + (k + 1)).
Proof. unfold u32. rewrite Zplus_mod_idemp_l. f_equal. lia. Qed.

Lemma run_sequence w eng applied w' eng' :
  engine_run w eng applied w' eng' → ∀ n, u32 n = n → engine_ok w eng → account_has ia (seq_is n) (te_ledger eng) →
  getSequence <$> sent ia applied = (λ k, u32 (n + Z.of_nat k)) <$> List.seq 0 (length (sent ia applied))
  ∧ account_has ia (seq_is (u32 (n + Z.of_nat (length (sent ia applied))))) (te_ledger eng').
Proof.
  induction 1 as [|closed fees track w eng txn params w1 eng1 txn1 ter did applied w2 eng2 Hp Hpf H Hrun IH|w eng eng1 applied w2 eng2 E Hrun IH];
    intros n Hn Hok Ha.
  - cbn. split; [done|]. by rewrite Z.add_0_r, Hn.
  - destruct (did && sent_by ia txn) eqn:Ed.
    + apply andb_true_iff in Ed as [-> Es]. pose proof Es as [Hq Hi]%andb_true_iff. apply Z.eqb_eq in Hi. destruct Ha as (a & HLa & Han). unfold seq_is in Han.
      eapply (engine_consumes sha512half accountID checkSign skywellCalculate cfg ia a) in H as (Hs & Hok1 & Ha1); [|done..].
      unfold sent. cbn [List.filter]. rewrite Es. fold (sent ia applied). rewrite Han in *.
      destruct (IH (u32 (n + 1))) as [IH1 IH2]; [by unfold u32; rewrite Zmod_mod|done|done|]. cbn [length fmap list_fmap List.seq].
      rewrite Nat2Z.inj_succ, <- Z.add_1_r, <- u32_next. split; [|done]. f_equal; [by rewrite Z.add_0_r, Hn|].
      rewrite IH1, <- seq_shift. change (map S) with (fmap (M := list) S). rewrite <- list_fmap_compose. apply list_fmap_ext. intros _ k _. cbn [compose].
      rewrite Nat2Z.inj_succ, <- Z.add_1_r. by rewrite u32_next.
    + assert (sent ia (if did then txn :: applied else applied) = sent ia applied) as ->.
      { destruct did; [|done]. unfold sent. cbn [List.filter]. cbn [andb] in Ed. by rewrite Ed. }
      destruct did.
      * eapply (engine_keeps sha512half accountID checkSign skywellCalculate cfg ia (seq_is n)) in H as [Hok1 Ha1]; [by apply IH|done|done| |done|done].
        cbn [andb] in Ed. unfold sent_by in Ed. destruct (sequenced txn); [right|by left]. intros Hi. by apply Z.eqb_neq in Ed.
      * pose proof (engine_refused _ _ _ _ _ _ _ _ _ _ _ _ _ _ _ _ H) as El.
        eapply (engine_keeps sha512half accountID checkSign skywellCalculate cfg ia (λ _, True)) in H as [Hok1 _];
          [|done|done|by right|done|by destruct Ha as (a & Ha & _); exists a].
        apply IH; [done|done|]. eapply account_has_state; [|done]. by rewrite El.
  - apply IH; [done| |by eapply account_has_state]. split; [apply Hok|rewrite E; apply Hok].
Qed.

Lemma u32_distinct n (l : nat) : Z.of_nat l <= 4294967296 → NoDup ((λ k, u32 (n + Z.of_nat k)) <$> List.seq 0 l).
Proof.
  intros Hl. apply NoDup_fmap_2_strong; [|apply NoDup_ListNoDup, seq_NoDup]. intros x y Hx Hy H.
  apply list_elem_of_In, in_seq in Hx, Hy. unfold u32 in H.
  assert (((n + Z.of_nat x) - (n + Z.of_nat y)) mod 4294967296 = 0) as Hz by (rewrite Zminus_mod, H, Z.sub_diag; done).
  apply Z.mod_divide in Hz as [k Hk]; [|lia]. nia.
Qed.




(** Execution of a list of transactions *)
Fixpoint run_list (closed : list (Z * SLE)) (fees : FeeSettings) (track : LoadFeeTrack.t) (params : Z)
    (w : World SLE) (eng : TransactionEngine) (l : list STTx) : result (World SLE * TransactionEngine * list STTx) :=
  match l with
  | [] => Ok (w, eng, [])
  | txn :: l =>
      '(w, eng, _, (_, did)) ← applyTransaction closed fees track w eng txn params;
      '(w, eng, applied) ← run_list closed fees track params w eng l;
      Ok (w, eng, if (did : bool) then txn :: applied else applied)
  end.

Lemma run_list_run closed fees track params l : flag params tapPRE_CHECKED = false → forallb path_free l = true → ∀ w eng w' eng' applied,
  run_list closed fees track params w eng l = Ok (w', eng', applied) → engine_run w eng applied w' eng'.
Proof.
  intros Hp Hpf. induction l as [|txn l IH]; intros w eng w' eng' applied H; cbn [run_list] in H.
  { injection H as <- <- <-. constructor. }
  apply result_bind_Ok in H as ([[[w1 eng1] txn1] [ter did]] & H1 & H). apply result_bind_Ok in H as ([[w2 eng2] applied2] & H2 & H).
  injection H as <- <- <-. cbn in Hpf. zbool. eapply run_transaction; [done|done|done|]. by apply IH.
Qed.

End runs.

(** ** A small run *)

#[local] Opaque hash1.

Lemma hash1_space c l a : byte_list l → add16 c ≠ add16 spaceAccount → hash1 (add16 c ++ l) ≠ getAccountRootIndex hash1 a.
Proof.
  intros Hl Hc H. apply hash1_inj in H; [|apply Forall_app; split; [apply be_bytes_byte_list|done]|apply (preimage_bytes (keyAccount a))].
  apply app_inj_1 in H as [H _]; [done|]. unfold add16. by rewrite !be_bytes_length.
Qed.

Lemma hash1_apart a : is_u160 a → account_apart hash1 (getAccountRootIndex hash1 a).
Proof.
  intros Ha. split; [pose proof (hash1_pos (keyAccount a) Ha I) as H; cbn [key_index] in H; lia|].
  assert (∀ l l', byte_list l → byte_list l' → byte_list (l ++ l')) as Happ by (intros; by apply Forall_app_2).
  assert (∀ n x, byte_list (be_bytes n x)) as Hbe by (intros; apply be_bytes_byte_list).
  assert (∀ c, add16 c ≠ add16 spaceAccount → hash1 (add16 c) ≠ getAccountRootIndex hash1 a) as Hnil.
  { intros c Hc. rewrite <- (app_nil_r (add16 c)). by apply hash1_space; [constructor|]. }
  intros k Hk. destruct k; try done; cbn [key_index other_key] in *; try (by apply Hnil).
  all: unfold getLedgerHashIndex_of, getGeneratorIndex, getOfferIndex, getOwnerDirIndex, getDirNodeIndex, getTicketIndex, getSkywellStateIndex,
    getTrustStateIndex, getSignStateIndex, getNickNameIndex, getBlackListIndex.
  all: rewrite ?(proj2 (Z.eqb_neq _ _) Hk); cbn [negb]; apply hash1_space; [|done].
  all: try destruct (_ <? _); repeat first [apply Hbe | apply Happ].
Qed.

Definition demo_config : Config := mkConfig 10 10 200 50 3 4 5.
Definition demo_fees : FeeSettings := mkFeeSettings 10 10 200 50.
Definition demo_key (k : Blob) : Account := match k with [x] => x | _ => 0 end.
Definition demo_calculate (mx x : STAmount) (dst src : Account) (ps : STPathSet) (i : CalcInput) : M Z := accountSend hash1 src dst x.

Definition demo_engine : TransactionEngine := mkEngine demo_s (mkLedger demo_ledger [] 5 0) 0.
Definition demo_common (sender seq id : Z) : TxCommon := mkTxCommon 0 sender seq None None None (Some (swt 10)) [sender] [1] id.
Definition demo_set (sender seq id asf : Z) : STTx :=
  mkSTTx (demo_common sender seq id) None (ttACCOUNT_SET (mkAccountSetTx (Some asf) None None None None None None)).
Definition demo_pay (seq id dst amount : Z) : STTx :=
  mkSTTx (demo_common 7 seq id) None (ttPAYMENT (mkPaymentTx dst (swt amount) None None None)).
Notation demo_run w eng applied w' eng' :=
  (engine_run hash1 demo_key (λ _, true) demo_calculate demo_config w eng applied w' eng') (only parsing).
Notation demo_index a := (getAccountRootIndex hash1 a) (only parsing).

(** Account 7 gives up freezing and pays account 9; a repeated transaction, an older one
    and one that asks for too much are refused; account 9 freezes; a payment that is too small to
    make account 11 only costs its fee. *)
Definition demo_transactions : list STTx :=
  [demo_set 7 1 101 asfNoFreeze; demo_pay 2 102 9 100; demo_pay 2 103 9 100; demo_pay 1 104 9 100; demo_pay 3 105 9 700;
   demo_set 9 1 106 asfGlobalFreeze; demo_pay 3 107 11 100].
Definition demo_result : result (World SLE * TransactionEngine * list STTx) :=
  run_list hash1 demo_key (λ _, true) demo_calculate demo_config [] demo_fees LoadFeeTrack.new 0 demo_w demo_engine demo_transactions.

Definition demo_applied : list STTx :=
  [demo_set 7 1 101 asfNoFreeze; demo_pay 2 102 9 100; demo_set 9 1 106 asfGlobalFreeze; demo_pay 3 107 11 100].

Lemma result_applied {A B C} (r : result (A * B * C)) l :
  match r with Ok (_, _, l') => l' = l | Throw _ => False end → ∃ w eng, r = Ok (w, eng, l).
Proof. destruct r as [[[w eng] l']|]; [|done]. intros ->. by exists w, eng. Qed.

Lemma demo_runs : ∃ w eng, demo_run demo_w demo_engine demo_applied w eng.
Proof.
  destruct (result_applied demo_result demo_applied) as (w & eng & E); [vm_compute; reflexivity|]. exists w, eng.
  exact (run_list_run _ _ _ _ _ [] demo_fees LoadFeeTrack.new 0 demo_transactions eq_refl eq_refl _ _ _ _ _ E).
Qed.

Lemma demo_ok : engine_ok demo_w demo_engine.
Proof.
  split; [by intros q [x Hx]; cbn in Hx; rewrite lookup_empty in Hx|].
  repeat (constructor; [|repeat constructor; vm_compute; reflexivity]); constructor.
Qed.



(** Account 7 has given up freezing while frozen, and tries to clear the freeze. *)
Definition demo_frozen : AccountRoot := set_account_flags (demo_account 7 1000 1) (Z.lor lsfNoFreeze lsfGlobalFreeze).
Definition demo_engine2 : TransactionEngine :=
  mkEngine demo_s (mkLedger (om_set (demo_index 7) (ltACCOUNT_ROOT demo_frozen) demo_ledger) [] 5 0) 0.
Definition demo_clear : STTx :=
  mkSTTx (demo_common 7 1 101) None (ttACCOUNT_SET (mkAccountSetTx None (Some asfGlobalFreeze) None None None None None)).

Lemma demo_runs2 : ∃ w eng, demo_run demo_w demo_engine2 [demo_clear] w eng.
Proof.
  destruct (result_applied (run_list hash1 demo_key (λ _, true) demo_calculate demo_config [] demo_fees LoadFeeTrack.new 0 demo_w demo_engine2 [demo_clear])
    [demo_clear]) as (w & eng & E); [vm_compute; reflexivity|]. exists w, eng.
  exact (run_list_run _ _ _ _ _ [] demo_fees LoadFeeTrack.new 0 [demo_clear] eq_refl eq_refl _ _ _ _ _ E).
Qed.

