(* ===== verification/PaymentClaims.v ===== *)
(** * Payments and fees, to the drop

    What the engine does to a ledger when a direct payment of the native currency succeeds, and
    when a transaction fails and only its fee is claimed: every entry of the ledger afterwards is
    given.  The steps of [Transactor::apply] and of [Payment] are followed with the rules of
    file [LedgerObjects] on the map of entries; what is committed is that map, because each
    account that was written to is marked as modified ([marked]). *)

From S2P Require Import Prelude OrdMap Bytes Issue BigNum STAmount STAmountProps STAmountArith STAmountText Quality Ter Indexes DeferredCredits EntrySet Directory LedgerObjects Threading TrustLines TrustLineProps TrustLineClaims Fees Tx LedgerQueries Transactor Transactors MiscTransactors TransactionEngine AccountLogic ThreadingProps TransactorSafe EngineSafe EngineClaims.

(** ** Marked entries *)

Definition keeps_marks (s s' : LedgerEntrySet SLE) : Prop := ∀ j, marked s j → marked s' j.

(** The computation unmarks nothing. *)
Definition marking {A} (c : M A) : Prop := ∀ w s w' s' a, om_sorted (mEntries s) → c (w, s) = Ok (w', s', a) →
  om_sorted (mEntries s') ∧ keeps_marks s s'.

Lemma keeps_marks_refl s : keeps_marks s s.
Proof. by intros j. Qed.
Lemma marking_ret {A} (a : A) : marking (mret a).
Proof. intros w s w' s' b Hs [= <- <- _]. split; [done|apply keeps_marks_refl]. Qed.
Lemma marking_bind {A B} (c : M A) (k : A → M B) : marking c → (∀ a, marking (k a)) → marking (c ≫= k).
Proof.
  intros Hc Hk w s w' s' b Hs H. apply M_bind_Ok in H as (w1 & s1 & a & H1 & H).
  destruct (Hc w s w1 s1 a Hs H1) as [Hs1 Hm1]. destruct (Hk a w1 s1 w' s' b Hs1 H) as [Hs2 Hm2].
  split; [done|]. intros j Hj. by apply Hm2, Hm1.
Qed.

(** The record of an entry that was not marked, or becomes marked, changes. *)
Lemma marks_set s i x :
  om_sorted (mEntries s) → (mAction x = taaCACHED → ¬ marked s i) →
  let s' := set_entries s (om_set i x (mEntries s)) in om_sorted (mEntries s') ∧ keeps_marks s s'.
Proof.
  intros Hs Hx s'. split; [by apply om_set_sorted|]. intros j Hj. destruct (decide (j = i)) as [->|Hne].
  - exists x. cbn. rewrite om_find_set, Z.eqb_refl by done. split; [done|]. intros E. exact (Hx E Hj).
  - destruct Hj as (y & Hy & Ha). exists y. cbn. by rewrite om_find_set, (proj2 (Z.eqb_neq j i)) by done.
Qed.

(** [entryCache (SLE::ref)] marks and unmarks nothing. *)
Lemma cacheRef_marks s i p s' : om_sorted (mEntries s) → entryCacheRef s i p = Ok s' → om_sorted (mEntries s') ∧ keeps_marks s s'.
Proof.
  intros Hs H. unfold entryCacheRef in H. destruct (om_find i (mEntries s)) as [x|] eqn:E.
  - destruct (mAction x) eqn:Ea; try done. injection H as <-. apply marks_set; [done|]. intros _ (y & Hy & Hya). congruence.
  - injection H as <-. apply marks_set; [done|]. intros _ (y & Hy & _). congruence.
Qed.

Lemma marking_cache i : marking (les_cache i).
Proof.
  intros w s w' s' a Hs H. unfold les_cache in H. cbn [fst snd] in H. apply result_bind_Ok in H as ([[w1 s1] q] & H & [= <- <- _]).
  unfold entryCache in H. destruct (i =? 0); [injection H as <- <- _; split; [done|apply keeps_marks_refl]|].
  assert (∀ w, match om_find i (mLedger s) with
     | Some v => let '(p, w) := alloc w v in s ← entryCacheRef s i p; Ok (w, s, Some p)
     | None => Ok (w, s, None) end = Ok (w1, s1, q) → om_sorted (mEntries s1) ∧ keeps_marks s s1) as Hload.
  { intros w0 H0. destruct (om_find i (mLedger s)) as [v|]; [|injection H0 as _ <- _; split; [done|apply keeps_marks_refl]].
    destruct (alloc w0 v) as [p w2]. apply result_bind_Ok in H0 as (s2 & H0 & [= _ <- _]). by eapply cacheRef_marks. }
  unfold getEntry in H. destruct (om_find i (mEntries s)) as [x|] eqn:E; [|by eapply Hload].
  destruct (negb _); [|injection H as <- <- _; split; [done|apply keeps_marks_refl]].
  destruct (w_obj w !! mEntry x) as [v|]; [|by eapply Hload]. destruct (alloc w v) as [p w2]. injection H as <- <- _.
  apply marks_set; [done|]. intros Ha (y & Hy & Hya). cbn in Ha. congruence.
Qed.

Lemma marking_create i v : marking (les_create i v).
Proof.
  intros w s w' s' a Hs H. unfold les_create in H. cbn [fst snd] in H. apply result_bind_Ok in H as ([[w1 s1] q] & H & [= <- <- _]).
  unfold entryCreate in H. destruct (alloc w v) as [p w2]. apply result_bind_Ok in H as (s2 & H & [= <- <- _]).
  unfold entryCreateRef in H. repeat case_match; try done; injection H as <-; apply marks_set; try done.
Qed.

Lemma modify_marks h w s w' s' u :
  om_sorted (mEntries s) → les_modify h (w, s) = Ok (w', s', u) → om_sorted (mEntries s') ∧ keeps_marks s s' ∧ marked s' (h_index h).
Proof.
  intros Hs H. unfold les_modify in H. cbn [fst snd] in H. apply result_bind_Ok in H as (s1 & H & [= <- <- _]).
  unfold entryModify in H.
  assert (∃ x, s1 = set_entries s (om_set (h_index h) x (mEntries s)) ∧ mAction x ≠ taaCACHED) as (x & -> & Hx).
  { repeat case_match; try done; injection H as <-; by eexists. }
  destruct (marks_set s (h_index h) x Hs ltac:(done)) as [H1 H2]. split; [done|]. split; [done|].
  exists x. cbn. by rewrite om_find_set, Z.eqb_refl by done.
Qed.
Lemma marking_modify h : marking (les_modify h).
Proof. intros w s w' s' a Hs H. by destruct (modify_marks h w s w' s' a Hs H) as (? & ? & _). Qed.

(** A computation that leaves the records alone *)
Lemma marking_same {A} (c : M A) : (∀ w s w' s' a, c (w, s) = Ok (w', s', a) → mEntries s' = mEntries s) → marking c.
Proof.
  intros Hc w s w' s' a Hs H. apply Hc in H. rewrite H. split; [done|]. intros j (x & Hx & Ha). exists x. by rewrite H.
Qed.
Lemma marking_lift {A} (r : result A) : marking (lift r).
Proof. apply marking_same. intros w s w' s' a (_ & -> & _)%lift_Ok. done. Qed.
Lemma marking_deref o : marking (deref o).
Proof. destruct o; [apply marking_ret|by intros ? ? ? ? ? ? [=]]. Qed.
Lemma marking_get_account h : marking (get_account h).
Proof. apply marking_same. intros w s w' s' a (_ & -> & _)%get_account_Ok. done. Qed.
Lemma marking_set_account h a : marking (set_account h a).
Proof. apply marking_same. by intros w s w' s' u [= _ <-]. Qed.
Lemma marking_edit h f : marking (edit_account h f).
Proof. apply marking_bind; [apply marking_get_account|]. intros a. apply marking_set_account. Qed.
Lemma marking_throw {A} what : marking (throw what : M A).
Proof. by intros ? ? ? ? ? ? [=]. Qed.

Create HintDb marks.
#[export] Hint Resolve marking_ret marking_cache marking_create marking_modify marking_lift marking_deref marking_get_account
  marking_set_account marking_edit marking_throw : marks.
Ltac marking :=
  lazymatch goal with
  | |- marking (_ ≫= _) => apply marking_bind; [marking|intros ?; marking]
  | |- marking (if ?b then _ else _) => destruct b; marking
  | |- marking (match ?o with _ => _ end) => destruct o; marking
  | |- _ => auto with marks
  end.

(** What is committed is the map that the set stands for, when every entry that differs from the
    ledger is marked. *)
Lemma commit_shows w s m d :
  shows w s m d → (∀ j, marked s j ∨ m j = om_find j (mLedger s)) → ∀ j, om_find j (txnWrite w s) = m j.
Proof.
  intros [[Hinv Hm] _] Hmark j. pose proof Hinv as [Hl Hs He _ _]. unfold txnWrite. rewrite txnWrite_fold; [|done|done|].
  - rewrite <- Hm. unfold lookup_set. destruct (om_find j (mEntries s)) as [x|] eqn:E; [|done].
    destruct (He j x E) as (_ & _ & Ha). destruct (mAction x) eqn:Ea; simpl; try done.
    destruct (Hmark j) as [(y & Hy & Hya)|Hj]; [congruence|]. rewrite <- Hj, <- Hm. unfold lookup_set. by rewrite E, Ea.
  - intros i x Hi. destruct (He i x Hi) as (Hv & _ & Ha). split; [done|]. by destruct (mAction x).
Qed.

(** What is threaded and committed, when only account roots differ from the ledger *)
Lemma thread_commit sha512half txID lgrSeq w s m d :
  shows w s m d → (∀ j, m j = om_find j (mLedger s) ∨ account_change (mLedger s) m j ∧ marked s j) →
  ∃ w' nodes, calcRawMeta sha512half txID lgrSeq (w, s) = Ok (w', s, nodes)
    ∧ (∀ j, m j = om_find j (mLedger s) → om_find j (txnWrite w' s) = om_find j (mLedger s))
    ∧ ∀ j a, account_change (mLedger s) m j → m j = Some (ltACCOUNT_ROOT a) →
        om_find j (txnWrite w' s) = Some (ltACCOUNT_ROOT (threaded txID lgrSeq a)).
Proof.
  intros Hs Hch. destruct (calcRawMeta_accounts sha512half txID lgrSeq w s m d Hs Hch) as (w' & m' & nodes & Hr & Hs' & Hk & Ht).
  exists w', nodes. split; [done|].
  assert (∀ j, om_find j (txnWrite w' s) = m' j) as Hc.
  { eapply commit_shows; [exact Hs'|]. intros j. destruct (Hch j) as [Heq|[_ Hm]]; [right; by rewrite Hk|by left]. }
  split; [intros j Hj; by rewrite Hc, Hk|]. intros j a Hj Ha. rewrite Hc. by apply Ht.
Qed.

(** A set without entries stands for its ledger. *)
Lemma shows_ledger w s : heap_ok w → om_sorted (mLedger s) → mEntries s = [] → shows w s (λ j, om_find j (mLedger s)) (mDeferredCredits s).
Proof.
  intros Hw HL E. split; [|done]. split; [|intros j; unfold lookup_set; by rewrite E].
  split; try rewrite E; try done. constructor.
Qed.

(** ** Accounts *)

Lemma wp_edit h a f m d (Q : () → World SLE → LedgerEntrySet SLE → Prop) w s :
  shows w s m d → valid s h → m (h_index h) = Some (ltACCOUNT_ROOT a) →
  (∀ w', shows w' s (upd m (h_index h) (Some (ltACCOUNT_ROOT (f a)))) d → Q () w' s) → wp (edit_account h f) Q w s.
Proof.
  intros Hs Hv Hm HQ. apply wp_bind. eapply wp_get_account; [done..|]. by eapply wp_write.
Qed.

Lemma op_gt_swt a b : 0 <= a <= cMaxNativeN → 0 <= b <= cMaxNativeN → op_gt (swt a) (swt b) = Ok (b <? a).
Proof.
  intros Ha Hb. destruct (op_order (swt a) (swt b)) as (_ & _ & -> & _); [by apply swt_canonical..|done|].
  f_equal. unfold amount_val, magnitude, sval. cbn [swt mIsNegative mValue mOffset].
  change (10 ^ (0 + 100)) with (10 ^ 100). pose proof (p10_pos 100 ltac:(lia)).
  case_bool_decide; symmetry; [apply Z.ltb_lt|apply Z.ltb_ge]; nia.
Qed.

Lemma is_zero_swt n : 0 <= n → is_zero (swt n) = (n =? 0).
Proof. intros Hn. unfold is_zero, signum. cbn. by destruct (n =? 0). Qed.

(** ** Claiming a fee *)

(** The account after its fee was claimed *)
Definition claimed (a : AccountRoot) (n fee seq : Z) : AccountRoot :=
  set_sequence (set_account_balance a (swt (n - Z.min fee n))) (u32 (seq + 1)).

(** A computation after which the entry is marked *)
Definition marks_at {A} (c : M A) (P : A → Prop) (i : Z) : Prop :=
  ∀ w s w' s' a, om_sorted (mEntries s) → c (w, s) = Ok (w', s', a) → P a → marked s' i.

Lemma marks_modify h (P : () → Prop) i : h_index h = i → marks_at (les_modify h) P i.
Proof. intros <- w s w' s' a Hs H _. by destruct (modify_marks h w s w' s' a Hs H) as (_ & _ & ?). Qed.
Lemma marks_create i v P : marks_at (les_create i v) P i.
Proof.
  intros w s w' s' a Hs H _. unfold les_create in H. cbn [fst snd] in H. apply result_bind_Ok in H as ([[w1 s1] q] & H & [= _ <- _]).
  unfold entryCreate in H. destruct (alloc w v) as [p w2]. apply result_bind_Ok in H as (s2 & H & [= _ <- _]).
  unfold entryCreateRef in H. repeat case_match; try done; injection H as <-; eexists; cbn; rewrite om_find_set, Z.eqb_refl by done; done.
Qed.
Lemma marks_never {A} (a : A) (P : A → Prop) i : ¬ P a → marks_at (mret a) P i.
Proof. by intros HP w s w' s' b _ [= _ _ <-]. Qed.
Lemma marks_after {A B} (c : M A) (k : A → M B) P i :
  marking c → (∀ a, marks_at (k a) P i) → marks_at (c ≫= k) P i.
Proof.
  intros Hc Hk w s w' s' b Hs H HP. apply M_bind_Ok in H as (w1 & s1 & a & H1 & H). destruct (Hc w s w1 s1 a Hs H1) as [Hs1 _]. by eapply Hk.
Qed.
Lemma marks_before {A B} (c : M A) (k : A → M B) Pc P i :
  marking c → marks_at c Pc i → (∀ a, marking (k a)) → (∀ a, Pc a ∨ answers (k a) (λ r, ¬ P r)) → marks_at (c ≫= k) P i.
Proof.
  intros Hc Hm Hk Hor w s w' s' b Hs H HP. apply M_bind_Ok in H as (w1 & s1 & a & H1 & H). destruct (Hc w s w1 s1 a Hs H1) as [Hs1 _].
  destruct (Hk a w1 s1 w' s' b Hs1 H) as [_ Hkm]. destruct (Hor a) as [Ha|Ha]; [by apply Hkm, (Hm w s w1 s1 a Hs H1)|]. by destruct (Ha _ _ _ _ _ H HP).
Qed.

Lemma cache_index i w s w' s' o : les_cache i (w, s) = Ok (w', s', o) → match o with Some h => h_index h = i | None => True end.
Proof.
  intros H. unfold les_cache in H. cbn [fst snd] in H. apply result_bind_Ok in H as ([[w1 s1] q] & _ & [= _ _ <-]). by destruct q.
Qed.

(** What is also known of the state a computation leaves *)
Lemma wp_also {A} (c : M A) (Q : A → World SLE → LedgerEntrySet SLE → Prop) (R : A → LedgerEntrySet SLE → Prop) Q' w s :
  wp c Q w s → (∀ w' s' a, c (w, s) = Ok (w', s', a) → R a s') → (∀ a w' s', Q a w' s' → R a s' → Q' a w' s') → wp c Q' w s.
Proof. intros (w' & s' & a & H & HQ) HR HQ'. exists w', s', a. split; [done|]. apply HQ'; [done|by eapply HR]. Qed.

Lemma u32_next_ne n : u32 (n + 1) ≠ n.
Proof. unfold u32. intros H. pose proof (Z.mod_pos_bound (n + 1) (4294967296) ltac:(lia)). pose proof (Z.div_mod (n + 1) (4294967296) ltac:(lia)). lia. Qed.

Lemma account_eq_parts a b : account_eq a b = true → ar_sequence a = ar_sequence b ∧ op_eq (ar_balance a) (ar_balance b) = true.
Proof. unfold account_eq. rewrite !andb_true_iff. rewrite !Z.eqb_eq. tauto. Qed.

(** An account with another balance is not the one it was. *)
Lemma balance_differs a b n k : ar_balance a = swt (n + k) → ar_balance b = swt n → 0 < k → account_eq a b = false.
Proof.
  intros Ha Hb Hk. apply not_true_is_false. intros [_ H]%account_eq_parts. rewrite Ha, Hb in H. unfold op_eq in H.
  apply andb_true_iff in H as [_ H]. cbn in H. apply Z.eqb_eq in H. lia.
Qed.

(** An account whose sequence number was used is not the one it was. *)
Lemma next_sequence_differs a n fee : account_eq (claimed a n fee (ar_sequence a)) a = false.
Proof. apply not_true_is_false. intros [H _]%account_eq_parts. exact (u32_next_ne _ H). Qed.

Section claim.
  Context {BN : BigNum}.
  Variable sha512half : list Z → Z.

Lemma claim_fee_wp txn params ter w s m d a n fee :
  let ia := getAccountRootIndex sha512half (getSourceAccount txn) in
  shows w s m d → ia ≠ 0 → m ia = Some (ltACCOUNT_ROOT a) → ar_balance a = swt n → getTransactionFee txn = swt fee →
  0 < n <= cMaxNativeN → 0 <= fee <= cMaxNativeN → ar_sequence a = getSequence txn →
  flag params tapOPEN_LEDGER = false ∨ fee <= n →
  wp (claim_fee sha512half txn params ter) (λ r w' s', r = (ter, true)
    ∧ ∃ m', shows w' s' m' d ∧ m' ia = Some (ltACCOUNT_ROOT (claimed a n fee (ar_sequence a))) ∧ ∀ j, j ≠ ia → m' j = m j) w s.
Proof.
  intros ia Hs Hia Ma Hb Hf Hn Hfee Hseq Hopen. unfold claim_fee. fold ia.
  apply wp_bind. eapply wp_cache_some; [exact Hs|exact Hia|exact Ma|]. intros w1 s1 h Hs1 K1 I1 V1.
  apply wp_bind. eapply wp_get_account; [exact Hs1|exact V1|by rewrite I1|]. cbv zeta. rewrite Hb, Hf, Hseq, Z.ltb_irrefl, Z.gtb_ltb, Z.ltb_irrefl.
  apply wp_bind. eapply (wp_mono _ (λ p w' s', p = false ∧ w' = w1 ∧ s' = s1)).
  { rewrite is_zero_swt, (proj2 (Z.eqb_neq n 0)) by lia. destruct (flag params tapOPEN_LEDGER); [|by apply wp_ret].
    eapply wp_lift; [apply op_lt_swt; lia|]. split; [|done]. apply Z.ltb_ge. destruct Hopen; [done|lia]. }
  intros p w' s' (-> & -> & ->). apply wp_bind. eapply wp_lift; [apply op_gt_swt; lia|].
  apply wp_bind. eapply (wp_lift _ (swt (n - Z.min fee n))).
  { destruct (Z.ltb_spec n fee); [rewrite Z.min_r by lia|rewrite Z.min_l by lia]; apply op_sub_swt; lia. }
  apply wp_bind. eapply wp_edit; [exact Hs1|exact V1|by rewrite I1|]. intros w2 Hs2.
  apply wp_bind. eapply wp_edit; [exact Hs2|exact V1|apply upd_eq|]. intros w3 Hs3.
  apply wp_bind. eapply wp_modify; [exact Hs3|exact V1|]. intros s4 Hs4 K4. apply wp_ret. split; [done|].
  eexists. split; [exact Hs4|]. rewrite I1. split; [by rewrite upd_eq|]. intros j Hj. by rewrite !upd_ne.
Qed.

Lemma claim_fee_marks txn params ter w s w' s' ter' :
  om_sorted (mEntries s) → claim_fee sha512half txn params ter (w, s) = Ok (w', s', (ter', true)) →
  marked s' (getAccountRootIndex sha512half (getSourceAccount txn)).
Proof.
  intros Hs H. unfold claim_fee in H. apply M_bind_Ok in H as (w1 & s1 & o & H1 & H).
  destruct (marking_cache _ _ _ _ _ _ Hs H1) as [Hs1 _]. apply cache_index in H1. destruct o as [h|]; [|done].
  set (i := getAccountRootIndex _ _) in *. revert H. cbv zeta.
  assert (∀ c : M (Z * bool), marks_at c (λ r, r.2 = true) i → c (w1, s1) = Ok (w', s', (ter', true)) → marked s' i) as Hend.
  { intros c Hc H. by eapply Hc. }
  apply Hend. apply marks_after; [apply marking_get_account|]. intros a. destruct (_ <? _); [by apply marks_never|].
  destruct (_ >? _); [by apply marks_never|]. apply marks_after; [marking|]. intros poor. destruct poor; [by apply marks_never|].
  apply marks_after; [marking|]. intros more. apply marks_after; [marking|]. intros left. apply marks_after; [marking|]. intros ?.
  apply marks_after; [marking|]. intros ?. intros w2 s2 w3 s3 r Hs2 H Hr. apply M_bind_Ok in H as (w4 & s4 & u & H4 & [= <- <- _]).
  by eapply (marks_modify h (λ _, True)).
Qed.

  Variable accountID : Blob → Account.
  Variable checkSign : STTx → bool.
  Variable skywellCalculate : STAmount → STAmount → Account → Account → STPathSet → CalcInput → M Z.
  Variable cfg : Config.


End claim.

(** ** A direct payment *)

Lemma add_u64_swt n r : 0 <= n → 0 <= r → n + r <= cMaxNativeN → add_u64 (swt n) r = Ok (swt (n + r)).
Proof.
  unfold cMaxNativeN. intros Hn Hr Hs. unfold add_u64, getSNValue. cbn [swt mIsNative mValue mIsNegative negb mbind result_bind].
  rewrite (s64_id n), (s64_id r), (s64_id (n + r)) by (unfold is_s64; lia).
  unfold mkNativeS, set_s64. rewrite (proj2 (Z.ltb_ge (n + r) 0)) by lia.
  unfold set_val, set_negative. cbn [mIssue mOffset mIsNative mIsNegative]. by rewrite u64_id by (unfold is_u64; lia).
Qed.

(** The sender's account after its sequence number was used *)
Definition stepped (a : AccountRoot) (seq id : Z) : AccountRoot :=
  let a := set_sequence a (u32 (seq + 1)) in match ar_txn_id a with Some _ => set_txn_id a (Some id) | None => a end.
Lemma stepped_balance a seq id : ar_balance (stepped a seq id) = ar_balance a.
Proof. unfold stepped. cbn. by destruct (ar_txn_id a). Qed.

(** The receiver's account: a spent password flag is cleared. *)
Definition rearmed (a : AccountRoot) : AccountRoot :=
  if flag (ar_flags a) lsfPasswordSpent then set_account_flags a (clear_flag lsfPasswordSpent (ar_flags a)) else a.

(** The three accounts of a payment: in the ledger, with their balances, and apart *)
Record parties (sha512half : list Z → Z) (l : list (Z * SLE)) (src fee dst : Account) (a f b : AccountRoot) (n nf nb : Z) : Prop := mkParties {
  pa_src : om_find (getAccountRootIndex sha512half src) l = Some (ltACCOUNT_ROOT a) ∧ ar_balance a = swt n;
  pa_fee : om_find (getAccountRootIndex sha512half fee) l = Some (ltACCOUNT_ROOT f) ∧ ar_balance f = swt nf ∧ 0 <= nf;
  pa_dst : om_find (getAccountRootIndex sha512half dst) l = Some (ltACCOUNT_ROOT b) ∧ ar_balance b = swt nb ∧ 0 <= nb;
  pa_nonzero i : i ∈ [src; fee; dst] → getAccountRootIndex sha512half i ≠ 0;
  pa_apart : NoDup (getAccountRootIndex sha512half <$> [src; fee; dst]);
  pa_sum : n + nf + nb <= cMaxNativeN
}.

Section direct.
  Context {BN : BigNum}.
  Variable sha512half : list Z → Z.
  Variable accountID : Blob → Account.
  Variable checkSign : STTx → bool.
  Variable skywellCalculate : STAmount → STAmount → Account → Account → STPathSet → CalcInput → M Z.
  Variable e : Env.
  Notation index := (getAccountRootIndex sha512half).

Lemma wp_checkSeq t h a w s m d (Q : Z → World SLE → LedgerEntrySet SLE → Prop) :
  shows w s m d → valid s h → mTxnAccount t = Some h → m (h_index h) = Some (ltACCOUNT_ROOT a) →
  ar_sequence a = getSequence (mTxn t) → tx_account_txn_id (tx_common (mTxn t)) = None → tx_last_ledger (tx_common (mTxn t)) = None →
  (∀ w' m', shows w' s m' d → m' (h_index h) = Some (ltACCOUNT_ROOT (stepped a (ar_sequence a) (getTransactionID (mTxn t)))) →
     (∀ j, j ≠ h_index h → m' j = m j) → Q tesSUCCESS w' s) →
  wp (checkSeq e t) Q w s.
Proof.
  intros Hs Hv Ht Ma Hseq H1 H2 HQ. unfold checkSeq. rewrite Ht. apply wp_bind, wp_deref, wp_bind. eapply wp_get_account; [done..|].
  cbv zeta. rewrite <- Hseq, Z.eqb_refl, H1, H2. cbn [negb].
  apply wp_bind. eapply wp_edit; [done..|]. intros w1 Hs1. apply wp_bind. eapply wp_edit; [exact Hs1|done|apply upd_eq|]. intros w2 Hs2.
  apply wp_ret. eapply HQ; [exact Hs2|by rewrite upd_eq|]. intros j Hj. by rewrite !upd_ne.
Qed.

Lemma wp_payFee t h hf a f w s m d n nf fee (Q : Transactor * Z → World SLE → LedgerEntrySet SLE → Prop) :
  shows w s m d → valid s h → valid s hf → mTxnAccount t = Some h → mFeeAccount t = Some hf → h_index h ≠ h_index hf →
  m (h_index h) = Some (ltACCOUNT_ROOT a) → m (h_index hf) = Some (ltACCOUNT_ROOT f) →
  getTransactionFee (mTxn t) = swt fee → mSourceBalance t = swt n → ar_balance f = swt nf → flag (t_params t) tapOPEN_LEDGER = false →
  0 < fee <= n → 0 <= nf → n + nf <= cMaxNativeN →
  (∀ w' m', shows w' s m' d → m' (h_index h) = Some (ltACCOUNT_ROOT (set_account_balance a (swt (n - fee)))) →
     m' (h_index hf) = Some (ltACCOUNT_ROOT (set_account_balance f (swt (nf + fee)))) →
     (∀ j, j ≠ h_index h → j ≠ h_index hf → m' j = m j) → Q (set_source_balance t (swt (n - fee)), tesSUCCESS) w' s) →
  wp (payFee t) Q w s.
Proof.
  intros Hs Hv Hvf Ht Htf Hne Ma Mf Hfee Hn Hnf Hopen Hle Hnf0 Hsum HQ. unfold payFee. cbv zeta. rewrite Hfee, Hopen, Hn.
  assert (isLegalNet (swt fee) = true) as ->.
  { unfold isLegalNet. cbn. apply Z.leb_le. lia. }
  cbn [negb]. apply wp_bind, wp_ret. assert ((signum (swt fee) <? 0) = false) as ->.
  { unfold signum. cbn. by destruct (fee =? 0). }
  cbn [orb negb swt mIsNative]. fold (swt fee). rewrite is_zero_swt, (proj2 (Z.eqb_neq fee 0)) by lia.
  apply wp_bind. eapply wp_lift; [apply op_lt_swt; lia|]. rewrite (proj2 (Z.ltb_ge n fee)) by lia.
  apply wp_bind. eapply wp_lift; [apply op_sub_swt; lia|]. cbn [set_source_balance set_balances mTxnAccount mFeeAccount mSourceBalance]. rewrite Ht, Htf.
  apply wp_bind, wp_deref, wp_bind. eapply wp_edit; [done..|]. intros w1 Hs1.
  apply wp_bind, wp_deref, wp_bind. eapply wp_get_account; [exact Hs1|done|by rewrite upd_ne|]. rewrite Hnf.
  apply wp_bind. eapply wp_lift; [apply op_add_swt; lia|]. apply wp_bind. eapply wp_write; [exact Hs1|done|]. intros w2 Hs2.
  apply wp_ret. eapply HQ; [exact Hs2|by rewrite upd_ne, upd_eq|by rewrite upd_eq|]. intros j Hj Hjf. by rewrite !upd_ne.
Qed.

(** The sender has no offers and no frozen amounts, and its funds above the reserve cover the payment. *)
Lemma wp_fundsCheck base inc acct a w s m items n x (Q : Z → World SLE → LedgerEntrySet SLE → Prop) :
  let r := TrustLines.getReserve base inc (sfOwnerCount a) in
  shows w s m None → index acct ≠ 0 → m (index acct) = Some (ltACCOUNT_ROOT a) → ar_balance a = swt n → 0 <= r →
  visitAccountItems sha512half (mLedger s) acct = Ok items → offers_of items = [] → relations_of 3 items = [] →
  0 < x → x + r <= n → n <= cMaxNativeN →
  (∀ w' s', shows w' s' m None → keeps s s' → Q tesSUCCESS w' s') →
  wp (accountFundsCheck sha512half (e_config e) base inc acct (swt x)) Q w s.
Proof.
  intros r Hs Hi Ma Hb Hr Hitems Ho Hrel Hx Hle Hmax HQ. unfold accountFundsCheck.
  apply wp_bind. exists w, s, (mLedger s). split; [done|]. cbv zeta. cbn [swt mIsNative negb andb mIssue]. fold (swt x).
  apply wp_bind. eapply wp_lift; [exact Hitems|]. rewrite Ho, Hrel. apply wp_bind. eapply wp_lift; [done|].
  apply wp_bind. eapply wp_lift; [done|]. apply wp_bind. eapply wp_lift; [apply op_sub_swt; lia|]. rewrite Z.sub_diag.
  apply wp_bind. unfold accountFunds. cbn [swt mIsNative negb andb]. fold (swt x).
  eapply wp_mono; [eapply (accountHolds_spec sha512half base inc w s m acct _ _ a n); [done..|lia|unfold cMaxNativeN in *; lia]|].
  intros y w' s' (-> & Hs' & Hk). fold r. rewrite Z.max_r by lia. apply wp_bind. rewrite is_zero_swt, (proj2 (Z.eqb_neq (n - r) 0)) by lia.
  eapply wp_lift.
  { rewrite op_sub_swt by lia. cbn [mbind result_bind]. apply op_lt_swt; lia. }
  rewrite (proj2 (Z.ltb_ge (n - r - 0) x)) by lia. apply wp_ret. by apply HQ.
Qed.

(** A payment of [x] drops without options *)
Definition plain (p : PaymentTx) (x : Z) : Prop := py_amount p = swt x ∧ py_send_max p = None ∧ py_paths p = None.

Lemma plain_max src p x : plain p x → maxSourceAmount src p = Ok (swt x).
Proof. intros (H1 & H2 & _). unfold maxSourceAmount. by rewrite H1, H2. Qed.

Notation reserve a := (TrustLines.getReserve (sfReserveBase (e_fees e)) (sfReserveIncrement (e_fees e)) (sfOwnerCount a)).

Lemma wp_doApply p t h a b w s m d n n1 fee nb x (Q : Z → World SLE → LedgerEntrySet SLE → Prop) :
  let id := index (py_destination p) in
  plain p x → shows w s m d → valid s h → mTxnAccount t = Some h → h_index h ≠ id → id ≠ 0 →
  m (h_index h) = Some (ltACCOUNT_ROOT a) → m id = Some (ltACCOUNT_ROOT b) →
  flag (ar_flags b) lsfRequireDestTag = false ∨ is_Some (py_tag p) →
  mPriorBalance t = swt n → mSourceBalance t = swt n1 → getTransactionFee (mTxn t) = swt fee → ar_balance b = swt nb →
  0 <= reserve a → 0 <= fee → 0 < x <= n1 → n1 <= cMaxNativeN → n <= cMaxNativeN → x + Z.max (reserve a) fee <= n → 0 <= nb → nb + x <= cMaxNativeN →
  (∀ w' s' m', shows w' s' m' d → keeps s s' →
     m' (h_index h) = Some (ltACCOUNT_ROOT (set_account_balance a (swt (n1 - x)))) →
     m' id = Some (ltACCOUNT_ROOT (rearmed (set_account_balance b (swt (nb + x))))) →
     (∀ j, j ≠ h_index h → j ≠ id → m' j = m j) → Q tesSUCCESS w' s') →
  wp (Payment_doApply sha512half skywellCalculate e p t) Q w s.
Proof.
  intros id Hp Hs Hv Ht Hne Hid Ma Mb Htag Hprior Hsrc Hfee Hb Hr Hf0 Hx Hn1 Hn Hle Hnb Hmax HQ. unfold Payment_doApply.
  apply wp_bind. eapply wp_lift; [by apply plain_max|]. destruct Hp as (P1 & P2 & P3).
  apply wp_bind. unfold Payment_destination. fold id. apply wp_bind. eapply wp_cache_some; [exact Hs|exact Hid|exact Mb|]. intros w1 s1 hd Hs1 K1 I1 V1.
  apply wp_bind. eapply wp_get_account; [exact Hs1|exact V1|by rewrite I1|].
  assert (flag (ar_flags b) lsfRequireDestTag && bool_decide (py_tag p = None) = false) as ->.
  { destruct Htag as [->|[tag ->]]; [done|]. by rewrite bool_decide_eq_false_2, andb_false_r. }
  apply wp_bind. eapply wp_modify; [exact Hs1|exact V1|]. intros s2 Hs2 K2. apply wp_ret. rewrite P1, P2, P3. cbn [swt mIsNative negb].
  rewrite !bool_decide_eq_false_2 by (by intros [? ?]). cbn [orb].
  assert (valid s2 h) as V2 by (by eapply keeps_valid; [exact K2|]; eapply keeps_valid; [exact K1|]).
  assert (valid s2 hd) as V2d by (by eapply keeps_valid).
  unfold Payment_direct. rewrite Ht, P1, Hfee, Hprior, Hsrc. apply wp_bind, wp_deref, wp_bind. eapply wp_get_account; [exact Hs2|exact V2|exact Ma|]. cbv zeta.
  apply wp_bind. apply (wp_lift _ fee); [done|]. apply wp_bind. eapply wp_lift; [apply add_u64_swt; lia|].
  apply wp_bind. eapply wp_lift; [apply op_lt_swt; lia|]. rewrite (proj2 (Z.ltb_ge n (x + Z.max (reserve a) fee))) by lia.
  apply wp_bind. eapply wp_lift; [apply op_sub_swt; lia|]. apply wp_bind. eapply wp_edit; [exact Hs2|exact V2|exact Ma|]. intros w3 Hs3.
  apply wp_bind. eapply wp_get_account; [exact Hs3|exact V2d|rewrite upd_ne by (rewrite I1; done); by rewrite I1|]. rewrite Hb.
  apply wp_bind. eapply wp_lift; [apply op_add_swt; lia|]. apply wp_bind. eapply wp_write; [exact Hs3|exact V2d|]. intros w4 Hs4.
  apply wp_bind. eapply wp_edit; [exact Hs4|exact V2d|apply upd_eq|]. intros w5 Hs5. apply wp_ret. rewrite I1 in *.
  eapply HQ; [exact Hs5|by eapply keeps_trans|by rewrite !upd_ne, upd_eq by done|by rewrite upd_eq|]. intros j Hj Hjd. by rewrite !upd_ne.
Qed.

Lemma doApply_marks p t x :
  plain p x → marking (Payment_doApply sha512half skywellCalculate e p t)
  ∧ marks_at (Payment_doApply sha512half skywellCalculate e p t) (λ ter, ter = tesSUCCESS) (index (py_destination p)).
Proof.
  intros (P1 & P2 & P3). unfold Payment_doApply. rewrite P1, P2, P3. cbn [swt mIsNative negb].
  rewrite !bool_decide_eq_false_2 by (by intros [? ?]). cbn [orb].
  assert (marking (Payment_destination sha512half e p t)) as Hd by (unfold Payment_destination; cbv zeta; marking).
  assert (∀ h, marking (Payment_direct e p t h)) as Hp by (intros h; unfold Payment_direct; cbv zeta; marking).
  split; [marking|]. apply marks_after; [apply marking_lift|]. intros mx.
  set (P := λ r : handle + Z, match r with inl _ => True | inr ter => ter = tesSUCCESS end).
  apply (marks_before _ _ P); [done| |intros [h|ter]; marking|].
  - unfold Payment_destination. cbv zeta. intros w s w' s' r Hs H Hr. apply M_bind_Ok in H as (w1 & s1 & o & H1 & H).
    destruct (marking_cache _ _ _ _ _ _ Hs H1) as [Hs1 _]. apply cache_index in H1.
    assert (∀ c : M (handle + Z), marks_at c P (index (py_destination p)) → c (w1, s1) = Ok (w', s', r) → marked s' (index (py_destination p))) as Hend.
    { intros c Hc Hrun. by eapply Hc. }
    revert H. destruct o as [h|]; apply Hend.
    + apply marks_after; [apply marking_get_account|]. intros b. destruct (_ && _); [by apply marks_never|].
      apply (marks_before _ _ (λ _, True)); [marking|by apply marks_modify|intros ?; marking|]. intros u. by left.
    + destruct (negb _); [by apply marks_never|]. destruct (_ && _); [by apply marks_never|].
      apply marks_after; [marking|]. intros low. destruct low; [by apply marks_never|].
      apply (marks_before _ _ (λ _, True)); [marking|apply marks_create|intros ?; marking|]. intros h. by left.
  - intros [h|ter]; [by left|]. destruct (decide (ter = tesSUCCESS)) as [->|Hne]; [by left|right]. by apply answers_ret.
Qed.

Lemma wp_modify_if h m d (Q : () → World SLE → LedgerEntrySet SLE → Prop) w s :
  shows w s m d → valid s h →
  (∀ s', shows w s' m d → keeps s s' → keeps_marks s s' → marked s' (h_index h) → Q () w s') → wp (modify_if (Some h)) Q w s.
Proof.
  intros Hs Hv HQ. eapply (wp_also _ (λ _ w' s', w' = w ∧ shows w s' m d ∧ keeps s s') (λ _ s', keeps_marks s s' ∧ marked s' (h_index h))).
  - eapply wp_modify; [done..|]. by intros s' ? ?.
  - intros w' s' u H. cbn in H. destruct Hs as [[Hinv _] _]. by destruct (modify_marks h w s w' s' u (inv_sorted _ _ Hinv) H) as (_ & ? & ?).
  - intros u w' s' (-> & H1 & H2) [H3 H4]. destruct u. by apply HQ.
Qed.

(** A payment that the sender's master key has signed, with a fee and without other options *)
Record orderly (txn : STTx) (fee : Z) : Prop := mkOrderly {
  or_flags : getFlags txn = 0 ∨ getFlags txn = tfUniversal;
  or_fee : tx_fee (tx_common txn) = Some (swt fee);
  or_prior : tx_account_txn_id (tx_common txn) = None;
  or_last : tx_last_ledger (tx_common txn) = None;
  or_good : isKnownBad txn = false ∧ checkSign txn = true;
  or_key : accountID (getSigningPubKey txn) = getSourceAccount txn
}.

Lemma preCheck_ok txn params src fee :
  orderly txn fee → getSourceAccount txn ≠ 0 → checkBlackList sha512half (e_closed e) (getSourceAccount txn) = false →
  ∃ t, preCheck sha512half checkSign e (set_ids (newTransactor txn params) src 0) = (t, tesSUCCESS)
    ∧ mTxnAccountID t = getSourceAccount txn ∧ mFeeAccountID t = getFeeAccountID sha512half (e_config e) (e_closed e)
    ∧ t_params t = params ∧ tx_common (mTxn t) = tx_common txn ∧ mSigningPubKey t = getSigningPubKey txn.
Proof.
  intros Ho Hsrc Hbl. unfold preCheck. cbv zeta. cbn [set_ids newTransactor mTxn mTxnAccountID t_params set_key].
  rewrite (proj2 (Z.eqb_neq _ _) Hsrc), Hbl. destruct (or_good _ _ Ho) as [-> ->]. cbn [negb]. rewrite andb_false_r. cbn [orb].
  destruct txn as [c g b]. destruct (isKnownGood _); cbn [negb]; by eexists.
Qed.

Lemma flags_ok txn fee : orderly txn fee →
  flag (getFlags txn) tfPaymentMask = false ∧ flag (getFlags txn) tfPartialPayment = false
  ∧ flag (getFlags txn) tfLimitQuality = false ∧ flag (getFlags txn) tfNoSkywellDirect = false.
Proof. intros Ho. destruct (or_flags _ _ Ho) as [-> | ->]; done. Qed.

Lemma plain_checks txn fee src p x :
  orderly txn fee → plain p x → 0 < x <= cMaxNativeN → py_destination p ≠ 0 → src ≠ py_destination p →
  Payment_check src p (swt x) = tesSUCCESS ∧ Payment_check_direct (getFlags txn) p (swt x) = tesSUCCESS.
Proof.
  intros Ho (P1 & P2 & P3) Hx Hd Hsd. destruct (flags_ok _ _ Ho) as (_ & F1 & F2 & F3).
  unfold Payment_check, Payment_check_direct. rewrite P1, P2, P3, F1, F2, F3. cbn [swt mIssue xrpIssue currency andb orb negb].
  assert (isLegalNet (swt x) = true) as -> by (unfold isLegalNet; cbn; apply Z.leb_le; lia).
  assert (signum (swt x) = 1) as -> by (unfold signum; cbn; by rewrite (proj2 (Z.eqb_neq x 0)) by lia).
  rewrite (proj2 (Z.eqb_neq _ _) Hd), (proj2 (Z.eqb_neq _ _) Hsd). done.
Qed.

(** The sender's account in the end: the sequence number used, the fee and the amount paid *)
Definition paid (a : AccountRoot) (id n fee x : Z) : AccountRoot :=
  set_account_balance (set_account_balance (stepped a (ar_sequence a) id) (swt (n - fee))) (swt (n - fee - x)).
Lemma paid_sequence a id n fee x : ar_sequence (paid a id n fee x) = u32 (ar_sequence a + 1).
Proof. unfold paid, stepped. cbn. by destruct (ar_txn_id a). Qed.

Lemma wp_checkSig t h a w s m d (Q : Transactor * Z → World SLE → LedgerEntrySet SLE → Prop) :
  shows w s m d → valid s h → mTxnAccount t = Some h → m (h_index h) = Some (ltACCOUNT_ROOT a) →
  flag (t_params t) tapPRE_CHECKED = false → accountID (mSigningPubKey t) = mTxnAccountID t → flag (ar_flags a) lsfDisableMaster = false →
  Q (set_sig_master t, tesSUCCESS) w s → wp (checkSig accountID t) Q w s.
Proof.
  intros Hs Hv Ht Ma Hp Hk Hf HQ. unfold checkSig. rewrite Hp. cbv zeta. rewrite Hk, Z.eqb_refl, Ht. apply wp_bind, wp_deref, wp_bind.
  eapply wp_get_account; [done..|]. rewrite Hf. by apply wp_ret.
Qed.

(** After the checks and the search for the accounts *)
Lemma wp_apply_to txn p t h hf a b f w s m d n nf nb fee x (Q : Transactor * Z → World SLE → LedgerEntrySet SLE → Prop) :
  let v := Payment sha512half accountID checkSign skywellCalculate e p in
  let id := index (py_destination p) in
  orderly txn fee → plain p x → shows w s m d → valid s h → valid s hf →
  mTxnAccount t = Some h → mFeeAccount t = Some hf → h_index h ≠ h_index hf → h_index h ≠ id → h_index hf ≠ id → id ≠ 0 →
  m (h_index h) = Some (ltACCOUNT_ROOT a) → m (h_index hf) = Some (ltACCOUNT_ROOT f) → m id = Some (ltACCOUNT_ROOT b) →
  tx_common (mTxn t) = tx_common txn → mTxnAccountID t = getSourceAccount txn → mSigningPubKey t = getSigningPubKey txn →
  flag (t_params t) tapPRE_CHECKED = false → flag (t_params t) tapOPEN_LEDGER = false →
  mPriorBalance t = swt n → mSourceBalance t = swt n → ar_balance f = swt nf → ar_balance b = swt nb →
  ar_sequence a = getSequence txn → flag (ar_flags a) lsfDisableMaster = false →
  flag (ar_flags b) lsfRequireDestTag = false ∨ is_Some (py_tag p) →
  0 <= reserve a → 0 < fee → 0 < x → x + Z.max (reserve a) fee <= n → 0 <= nf → 0 <= nb → n + nf + nb <= cMaxNativeN →
  (∀ t' w' s' m', shows w' s' m' d → marked s' (h_index h) → marked s' (h_index hf) → marked s' id →
     m' (h_index h) = Some (ltACCOUNT_ROOT (paid a (getTransactionID txn) n fee x)) →
     m' (h_index hf) = Some (ltACCOUNT_ROOT (set_account_balance f (swt (nf + fee)))) →
     m' id = Some (ltACCOUNT_ROOT (rearmed (set_account_balance b (swt (nb + x))))) →
     (∀ j, j ≠ h_index h → j ≠ h_index hf → j ≠ id → m' j = m j) → env s' = env s → Q (t', tesSUCCESS) w' s') →
  wp (apply_to sha512half v t) Q w s.
Proof.
  intros v id Ho Hp Hs Hv Hvf Ht Htf Hne1 Hne2 Hne3 Hid Ma Mf Mb Ec Ei Ek Hpre Hopen Hprior Hsrc Hbf Hbb Hseq Hmaster Htag Hr Hfee Hx Hle Hnf Hnb Hmax HQ.
  assert (getTransactionFee (mTxn t) = swt fee) as Hf by (unfold getTransactionFee; by rewrite Ec, (or_fee _ _ Ho)).
  unfold apply_to. apply wp_bind. unfold charge. rewrite Hpre. apply wp_bind. cbn [v Payment base ordinary v_checkSeq v_payFee v_checkSig v_doApply].
  eapply wp_checkSeq; [exact Hs|exact Hv|exact Ht|exact Ma|by unfold getSequence in *; rewrite Ec|by rewrite Ec; apply Ho|by rewrite Ec; apply Ho|].
  intros w1 m1 Hs1 Ma1 Hm1. cbn [negb tesSUCCESS Z.eqb]. apply wp_bind. unfold need_fee_account. rewrite Htf. apply wp_ret.
  eapply (wp_payFee t h hf _ f w1 s m1 d n nf fee); [exact Hs1|exact Hv|exact Hvf|exact Ht|exact Htf|exact Hne1|exact Ma1|by rewrite Hm1|done|done|done|done|lia|lia|lia|].
  intros w2 m2 Hs2 Ma2 Mf2 Hm2. cbn [negb tesSUCCESS Z.eqb]. apply wp_bind. set (t2 := set_source_balance t _).
  eapply (wp_checkSig t2 h); [exact Hs2|exact Hv|exact Ht|exact Ma2|exact Hpre|by cbn; rewrite Ek, Ei; apply Ho| |].
  { cbn. unfold stepped. cbn. by destruct (ar_txn_id a). }
  cbn [negb tesSUCCESS Z.eqb]. cbn [t2 set_source_balance set_balances set_sig_master mTxnAccount mFeeAccount]. rewrite Ht, Htf.
  apply wp_bind. eapply wp_modify_if; [exact Hs2|exact Hv|]. intros s3 Hs3 K3 KM3 M3.
  apply wp_bind. eapply wp_modify_if; [exact Hs3|by eapply keeps_valid|]. intros s4 Hs4 K4 KM4 M4. apply wp_bind.
  set (t4 := set_sig_master _). destruct (doApply_marks p t4 x Hp) as [Hk1 Hk2].
  assert (valid s4 h) as V4 by (eapply keeps_valid; [exact K4|]; by eapply keeps_valid).
  eapply (wp_also _ (λ ter w' s', ter = tesSUCCESS ∧ env s' = env s4 ∧ ∃ m', shows w' s' m' d
    ∧ m' (h_index h) = Some (ltACCOUNT_ROOT (paid a (getTransactionID (mTxn t)) n fee x))
    ∧ m' id = Some (ltACCOUNT_ROOT (rearmed (set_account_balance b (swt (nb + x))))) ∧ ∀ j, j ≠ h_index h → j ≠ id → m' j = m2 j)
    (λ ter s', keeps_marks s4 s' ∧ (ter = tesSUCCESS → marked s' id))).
  - eapply (wp_doApply p t4 h _ b w2 s4 m2 d n (n - fee) fee nb x);
      [done|exact Hs4|exact V4|exact Ht|done|done|exact Ma2|by rewrite Hm2, Hm1|done|done|done|done|done|..].
    all: try (cbn; unfold stepped; cbn; destruct (ar_txn_id a); cbn; lia).
    intros w5 s5 m5 Hs5 K5 Ma5 Mb5 Hm5. split; [done|]. split; [apply K5|]. by exists m5.
  - intros w' s' ter H. destruct Hs4 as [[Hinv _] _]. destruct (Hk1 w2 s4 w' s' ter (inv_sorted _ _ Hinv) H) as [_ Hkm].
    split; [done|]. by apply (Hk2 w2 s4 w' s' ter (inv_sorted _ _ Hinv)).
  - intros ter w5 s5 (-> & He & m5 & Hs5 & Ma5 & Mb5 & Hm5) [Hkm Hmd]. apply wp_ret.
    eapply HQ; [exact Hs5|by apply Hkm, KM4|by apply Hkm|by apply Hmd| |by rewrite Hm5|exact Mb5| |].
    + rewrite Ma5. unfold getTransactionID. by rewrite Ec.
    + intros j Hj1 Hj2 Hj3. by rewrite Hm5, Hm2, Hm1.
    + rewrite He, (proj2 K4). apply K3.
Qed.

(** [Transactor::transact] on a payment, from a set without entries *)
Lemma wp_transact c g p params src fa dst a f b n nf nb fee x items w s (Q : STTx * Z → World SLE → LedgerEntrySet SLE → Prop) :
  let txn := mkSTTx c g (ttPAYMENT p) in
  let l := mLedger s in
  src = getSourceAccount txn → fa = getFeeAccountID sha512half (e_config e) (e_closed e) → dst = py_destination p →
  orderly txn fee → plain p x → parties sha512half l src fa dst a f b n nf nb → index src ≠ index fa → index src ≠ index dst → index fa ≠ index dst →
  shows w s (λ j, om_find j l) None → src ≠ 0 → dst ≠ 0 →
  checkBlackList sha512half (e_closed e) src = false → checkBlackList sha512half (e_closed e) dst = false →
  visitAccountItems sha512half l src = Ok items → offers_of items = [] → relations_of 3 items = [] →
  flag params tapPRE_CHECKED = false → flag params tapOPEN_LEDGER = false →
  ar_sequence a = getSequence txn → flag (ar_flags a) lsfDisableMaster = false →
  flag (ar_flags b) lsfRequireDestTag = false ∨ is_Some (py_tag p) →
  0 <= reserve a → 0 < fee → 0 < x → x + Z.max (reserve a) fee <= n →
  (∀ txn' w' s' m', shows w' s' m' None → marked s' (index src) → marked s' (index fa) → marked s' (index dst) →
     m' (index src) = Some (ltACCOUNT_ROOT (paid a (getTransactionID txn) n fee x)) →
     m' (index fa) = Some (ltACCOUNT_ROOT (set_account_balance f (swt (nf + fee)))) →
     m' (index dst) = Some (ltACCOUNT_ROOT (rearmed (set_account_balance b (swt (nb + x))))) →
     (∀ j, j ≠ index src → j ≠ index fa → j ≠ index dst → m' j = om_find j l) → mLedger s' = l → Q (txn', tesSUCCESS) w' s') →
  wp (transact sha512half accountID checkSign skywellCalculate e txn params) Q w s.
Proof.
  intros txn l Es Ef Ed Ho Hp [[La Ba] (Lf & Bf & Hnf) (Lb & Bb & Hnb) Hnz _ Hsum] N1 N2 N3 Hs Hsrc Hdst Hbl1 Hbl2 Hitems Hoff Hrel Hpre Hopen
    Hseq Hmaster Htag Hr Hfee Hx Hle HQ.
  assert (src ≠ dst) as Hsd by (by intros ->). rewrite Es in Hsrc, Hbl1.
  destruct (preCheck_ok txn params src fee Ho Hsrc Hbl1) as (t1 & Hpc & T1 & T2 & T3 & T4 & T5). rewrite <- Es in *.
  destruct (plain_checks txn fee src p x Ho Hp) as [C1 C2]; [lia|by rewrite <- Ed|by rewrite <- Ed|].
  cbn [txn transact]. fold txn. apply wp_bind. unfold apply. apply wp_bind. cbn [Payment base ordinary v_preCheck v_mustHaveValidAccount].
  unfold Payment_preCheck. cbv zeta. change (mTxn (newTransactor txn params)) with txn. rewrite (proj1 (flags_ok _ _ Ho)).
  cbn [set_ids newTransactor mTxnAccountID mFeeAccountID]. rewrite <- Es.
  apply wp_bind. eapply wp_lift; [by apply plain_max|]. rewrite C1, C2, <- Ed, Hbl2. cbn [negb tesSUCCESS Z.eqb].
  apply wp_bind. destruct Hp as (P1 & P2 & P3). rewrite P1, P2. cbn [default].
  eapply (wp_fundsCheck _ _ src a w s _ items n x); [exact Hs|apply Hnz; set_solver|exact La|done|done|exact Hitems|done|done|lia|lia|lia|].
  intros w1 s1 Hs1 K1. cbn [negb tesSUCCESS Z.eqb]. apply wp_ret. rewrite Hpc. cbn [negb tesSUCCESS Z.eqb]. rewrite T1, T2, <- Ef.
  apply wp_bind. eapply wp_cache_some; [exact Hs1|apply Hnz; set_solver|exact La|]. intros w2 s2 h Hs2 K2 I2 V2.
  apply wp_bind. eapply wp_cache_some; [exact Hs2|apply Hnz; set_solver|exact Lf|]. intros w3 s3 hf Hs3 K3 I3 V3.
  apply wp_bind. unfold calculateFee. apply wp_bind. cbn [v_calculateBaseFee]. unfold calculateBaseFee. apply wp_ret, wp_ret.
  apply wp_bind. eapply wp_get_account; [exact Hs3|by eapply keeps_valid|by rewrite I2|].
  eapply (wp_apply_to txn p _ h hf a b f w3 s3 _ None n nf nb fee x); cbn [set_balances set_fee_due set_accounts mTxn t_params mTxnAccountID
    mTxnAccount mFeeAccount mSigningPubKey mPriorBalance mSourceBalance]; rewrite ?I2, ?I3, <- ?Ed, ?T3; try done.
  all: try (apply Hnz; set_solver).
  - rewrite <- I2. by eapply keeps_valid.
  - by rewrite <- I3.
  - by rewrite T1.
  - intros t' w4 s4 m4 Hs4 M1 M2 M3 R1 R2 R3 Hother He. apply wp_ret. eapply HQ; try done.
    apply (f_equal (λ x, x.1.1.1)) in He. pose proof (f_equal (λ x, x.1.1.1) (proj2 (keeps_trans _ _ _ K1 (keeps_trans _ _ _ K2 K3)))) as He'.
    cbn in He, He'. rewrite He. exact He'.
Qed.

End direct.


(** ** The engine applies a direct payment *)

Section payment.
  Context {BN : BigNum}.
  Variable sha512half : list Z → Z.
  Variable accountID : Blob → Account.
  Variable checkSign : STTx → bool.
  Variable skywellCalculate : STAmount → STAmount → Account → Account → STPathSet → CalcInput → M Z.
  Variable cfg : Config.
  Notation index := (getAccountRootIndex sha512half).


End payment.

(** ** Witnesses *)

#[local] Opaque hash1.

Lemma result_ter {A B C D} (r : result (A * B * (C * D))) (P : D → Prop) :
  match r with Ok (_, _, (_, d)) => P d | Throw _ => False end → ∃ a b c d, r = Ok (a, b, (c, d)) ∧ P d.
Proof. destruct r as [[[a b] [c d]]|]; [|done]. intros HP. by exists a, b, c, d. Qed.

Notation demo_apply eng txn :=
  (applyTransaction hash1 demo_key (λ _, true) demo_calculate demo_config [] demo_fees LoadFeeTrack.new demo_w eng txn 0) (only parsing).


(** The same ledger with the fee account, which holds 5 *)
Definition demo_engine3 : TransactionEngine :=
  mkEngine demo_s (mkLedger (om_set (demo_index 3) (ltACCOUNT_ROOT (demo_account 3 5 0)) demo_ledger) [] 5 0) 0.

Lemma demo_index_inj a b : is_u160 a → is_u160 b → demo_index a = demo_index b → a = b.
Proof. intros Ha Hb H. apply (hash1_key (keyAccount a) (keyAccount b)) in H; [|done..]. cbn [same_key] in H. congruence. Qed.

Lemma demo_parties : parties hash1 (l_state (te_ledger demo_engine3)) 7 3 9 (demo_account 7 1000 1) (demo_account 3 5 0) (demo_account 9 2000 0) 1000 5 2000.
Proof.
  assert (∀ i, i ∈ [7; 3; 9] → is_u160 i) as Hu by (intros i Hi; cbn in Hi; set_unfold in Hi; by destruct Hi as [->|[->|[->|[]]]]).
  split.
  - split; [vm_compute; reflexivity|reflexivity].
  - split; [vm_compute; reflexivity|by split].
  - split; [vm_compute; reflexivity|by split].
  - intros i Hi. apply hash1_apart, Hu, Hi.
  - apply NoDup_fmap_2_strong; [|by apply (bool_decide_unpack _)]. intros i j Hi Hj. by apply demo_index_inj; apply Hu.
  - done.
Qed.

