(* ===== verification/TxSet.v ===== *)
(** * Ordering and applying a set of transactions

    Model of [src/src/common/misc/CanonicalTXSet.h] and [.cpp] (the order in which a node applies
    the transactions of a consensus set) and of [applyTransaction] and [applyTransactions] of
    [src/src/consensus/LedgerConsensus.cpp] (the passes over the set).  The transaction engine
    and the check ledger are an interface: the class [TxEngine].  An exception of the engine is
    an answer [None]; it leaves an engine state like any other call.

    The theorems show that the order does not depend on the order of arrival, puts the
    transactions of an account in sequence, and that the passes end with every transaction that
    is left having been refused in a final pass. *)

From S2P Require Import Prelude Bytes Issue BaseUint Ter.

(** ** Keys *)

Record Key := mkKey { k_account : Z; k_seq : Z; k_id : Z }.

#[export] Instance Key_eq_dec : EqDecision Key.
Proof. solve_decision. Defined.

Definition key_lt (a b : Key) : bool :=
  if k_account a <? k_account b then true
  else if k_account a >? k_account b then false
  else if k_seq a <? k_seq b then true
  else if k_seq a >? k_seq b then false
  else k_id a <? k_id b.
Definition key_gt (a b : Key) : bool :=
  if k_account a >? k_account b then true
  else if k_account a <? k_account b then false
  else if k_seq a >? k_seq b then true
  else if k_seq a <? k_seq b then false
  else k_id a >? k_id b.
Definition key_le (a b : Key) : bool :=
  if k_account a <? k_account b then true
  else if k_account a >? k_account b then false
  else if k_seq a <? k_seq b then true
  else if k_seq a >? k_seq b then false
  else k_id a <=? k_id b.
Definition key_ge (a b : Key) : bool :=
  if k_account a >? k_account b then true
  else if k_account a <? k_account b then false
  else if k_seq a >? k_seq b then true
  else if k_seq a <? k_seq b then false
  else k_id a >=? k_id b.
(** [==] and [!=] compare the identifiers only. *)
Definition key_eq (a b : Key) : bool := k_id a =? k_id b.
Definition key_ne (a b : Key) : bool := negb (k_id a =? k_id b).

(** ** The set *)

(** What the code reads of a transaction; the rest is its body. *)
Record STTx := mkSTTx {
  tx_account : Account;
  tx_seq : Z;
  tx_id : Z;
  tx_timestamp : Z;
  tx_body : list Z
}.

#[export] Instance STTx_eq_dec : EqDecision STTx.
Proof. solve_decision. Defined.

(** [to256]: the 20 bytes become the first 20 of 32. *)
Definition to256 (a : Account) : Z := a * 2 ^ 96.

(** [std::map <Key, STTx::pointer>]: the entries in order of their keys.  An insertion with a key
    that is there does nothing. *)
Record CanonicalTXSet := mkTXSet { mSetHash : Z; mMap : list (Key * STTx) }.

Definition newTXSet (lastClosedLedgerHash : Z) : CanonicalTXSet := mkTXSet lastClosedLedgerHash [].
Definition reset (s : CanonicalTXSet) (newLastClosedLedgerHash : Z) : CanonicalTXSet := mkTXSet newLastClosedLedgerHash [].

Fixpoint map_insert (k : Key) (t : STTx) (m : list (Key * STTx)) : list (Key * STTx) :=
  match m with
  | [] => [(k, t)]
  | (k', t') :: m' =>
      if key_lt k k' then (k, t) :: m
      else if key_lt k' k then (k', t') :: map_insert k t m'
      else m
  end.

Definition tx_key (hash : Z) (t : STTx) : Key := mkKey (Z.lxor hash (to256 (tx_account t))) (tx_seq t) (tx_id t).

Definition push_back (s : CanonicalTXSet) (t : STTx) : CanonicalTXSet :=
  mkTXSet (mSetHash s) (map_insert (tx_key (mSetHash s) t) t (mMap s)).

(** ** Applying *)

Inductive ApplyResult := resultSuccess | resultFail | resultRetry.

Definition SF_SIGGOOD : Z := 0x04.

(** The engine on a ledger: applying a transaction gives a code and whether it was applied, or
    throws ([None]); the close time of the ledger; the flags the hash router has for an
    identifier; whether the check ledger, which may be the ledger worked on, has a transaction. *)
Class TxEngine := {
  engine : Type;
  engine_apply : engine → STTx → Z → engine * option (Z * bool);
  closeTime : engine → Z;
  routerFlags : engine → Z → Z;
  hasTransaction : engine → Z → bool
}.

Section apply.
  Context {TE : TxEngine}.

Definition applyTransaction (e : engine) (txn : STTx) (openLedger retryAssured : bool) : engine * ApplyResult :=
  let parms := if openLedger then tapOPEN_LEDGER else tapNONE in
  let parms := if retryAssured then Z.lor parms tapRETRY else parms in
  let parms := if Z.land (routerFlags e (tx_id txn)) SF_SIGGOOD =? SF_SIGGOOD then Z.lor parms tapNO_CHECK_SIGN else parms in
  if negb openLedger && (tx_timestamp txn >=? u32 (closeTime e - 1)) then (e, resultRetry)
  else
    let '(e, r) := engine_apply e txn parms in
    match r with
    | None => (e, resultFail)
    | Some (ter, applied) =>
        if (applied : bool) then (e, resultSuccess)
        else if isTefFailure ter || isTemMalformed ter || isTelLocal ter then (e, resultFail)
        else (e, resultRetry)
    end.

(** The candidate set in the order of its tags, each item with the transaction it parses to; an
    item that does not parse throws and is skipped. *)
Fixpoint apply_candidates (e : engine) (set : list (Z * option STTx))
    (openLgr : bool) (s : CanonicalTXSet) : engine * CanonicalTXSet :=
  match set with
  | [] => (e, s)
  | (tag, item) :: set =>
      if hasTransaction e tag then apply_candidates e set openLgr s
      else
        match item with
        | None => apply_candidates e set openLgr s
        | Some txn =>
            let '(e, r) := applyTransaction e txn openLgr true in
            let s := match r with resultRetry => push_back s txn | _ => s end in
            apply_candidates e set openLgr s
        end
  end.

(** One pass: [it] walks over the entries, which are erased on success and failure. *)
Fixpoint run_pass (e : engine) (m : list (Key * STTx)) (openLgr certainRetry : bool) : engine * list (Key * STTx) * Z :=
  match m with
  | [] => (e, [], 0)
  | (k, txn) :: m =>
      let '(e, r) := applyTransaction e txn openLgr certainRetry in
      let '(e, m', changes) := run_pass e m openLgr certainRetry in
      match r with
      | resultSuccess => (e, m', changes + 1)
      | resultFail => (e, m', changes)
      | resultRetry => (e, (k, txn) :: m', changes)
      end
  end.

Definition LEDGER_TOTAL_PASSES : nat := 3.
Definition LEDGER_RETRY_PASSES : nat := 1.

(** [for (int pass = 0; pass < LEDGER_TOTAL_PASSES; ++pass)]; [togo] passes remain *)
Fixpoint passes (togo : nat) (e : engine) (m : list (Key * STTx)) (openLgr certainRetry : bool) : engine * list (Key * STTx) * bool :=
  match togo with
  | O => (e, m, certainRetry)
  | S togo =>
      let pass := (LEDGER_TOTAL_PASSES - S togo)%nat in
      let '(e, m, changes) := run_pass e m openLgr certainRetry in
      if (changes =? 0) && negb certainRetry then (e, m, certainRetry)
      else
        let certainRetry := if (changes =? 0) || (LEDGER_RETRY_PASSES <=? pass)%nat then false else certainRetry in
        passes togo e m openLgr certainRetry
  end.

(** The engine and the transactions left, and [certainRetry] at the end, which the code asserts
    to be false when any are left *)
Definition applyTransactions (e : engine) (set : list (Z * option STTx))
    (s : CanonicalTXSet) (openLgr : bool) : engine * CanonicalTXSet * bool :=
  let '(e, s) := apply_candidates e set openLgr s in
  let '(e, m, certainRetry) := passes LEDGER_TOTAL_PASSES e (mMap s) openLgr true in
  (e, mkTXSet (mSetHash s) m, certainRetry).

End apply.

(** ** The order of the keys *)

(** The lexicographic order of account, sequence number and identifier *)
Definition klt (a b : Key) : Prop :=
  k_account a < k_account b
  ∨ k_account a = k_account b ∧ (k_seq a < k_seq b ∨ k_seq a = k_seq b ∧ k_id a < k_id b).

(** All four operators test this order. *)
Ltac key_cases :=
  unfold key_lt, key_gt, key_le, key_ge, klt;
  repeat (case_if; zbool); repeat split; intros; zbool; simpl in *; (done || lia || (try (apply Z.ltb_lt || apply Z.leb_le); lia) || idtac).

Lemma key_lt_spec a b : key_lt a b = true ↔ klt a b.
Proof. key_cases. Qed.

Lemma key_gt_lt a b : key_gt a b = key_lt b a.
Proof. unfold key_gt, key_lt. rewrite !Z.gtb_ltb. done. Qed.

Lemma key_le_spec a b : key_le a b = negb (key_lt b a).
Proof.
  unfold key_le, key_lt. rewrite !Z.gtb_ltb, Z.leb_antisym.
  destruct (Z.ltb_spec (k_account a) (k_account b)), (Z.ltb_spec (k_account b) (k_account a)); try (done || lia).
  destruct (Z.ltb_spec (k_seq a) (k_seq b)), (Z.ltb_spec (k_seq b) (k_seq a)); done || lia.
Qed.

Lemma key_ge_le a b : key_ge a b = key_le b a.
Proof. unfold key_ge, key_le. rewrite !Z.gtb_ltb, Z.geb_leb. done. Qed.

Lemma klt_irrefl a : ¬ klt a a.
Proof. unfold klt. lia. Qed.

Lemma klt_trans a b c : klt a b → klt b c → klt a c.
Proof. unfold klt. lia. Qed.

Lemma klt_trichotomy a b : klt a b ∨ a = b ∨ klt b a.
Proof.
  destruct a as [a1 a2 a3], b as [b1 b2 b3]. unfold klt. simpl.
  destruct (decide (a1 = b1 ∧ a2 = b2 ∧ a3 = b3)) as [(-> & -> & ->)|]; [by right; left|]. lia.
Qed.

(** ** The set is sorted, whatever is pushed *)

Definition entry_lt (x y : Key * STTx) : Prop := klt x.1 y.1.

(** Sorted by key, and every entry under the key of its transaction *)
Definition set_inv (s : CanonicalTXSet) : Prop :=
  StronglySorted entry_lt (mMap s) ∧ Forall (λ x, x.1 = tx_key (mSetHash s) x.2) (mMap s).

Lemma map_insert_in k t m x : x ∈ map_insert k t m → x = (k, t) ∨ x ∈ m.
Proof.
  induction m as [|[k' t'] m IH]; cbn [map_insert]; [rewrite list_elem_of_singleton; by left|].
  repeat case_if; rewrite ?elem_of_cons; naive_solver.
Qed.

Lemma map_insert_keep k t m x : x ∈ m → x ∈ map_insert k t m.
Proof.
  induction m as [|[k' t'] m IH]; cbn [map_insert]; [by intros ?%not_elem_of_nil|].
  repeat case_if; rewrite ?elem_of_cons; naive_solver.
Qed.

(** The key is in the map after an insertion. *)
Lemma map_insert_new k t m : ∃ t', (k, t') ∈ map_insert k t m.
Proof.
  induction m as [|[k' t'] m [u Hu]]; cbn [map_insert]; [exists t; by apply list_elem_of_singleton|].
  destruct (key_lt k k') eqn:H1; [exists t; by apply elem_of_cons; left|].
  destruct (key_lt k' k) eqn:H2; [exists u; apply elem_of_cons; by right|].
  destruct (klt_trichotomy k k') as [H%key_lt_spec|[<-|H%key_lt_spec]]; [congruence| |congruence].
  exists t'. by apply elem_of_cons; left.
Qed.

Lemma map_insert_sorted k t m : StronglySorted entry_lt m → StronglySorted entry_lt (map_insert k t m).
Proof.
  induction 1 as [|[k' t'] m Hm IH Hall]; cbn [map_insert]; [by repeat constructor|].
  destruct (key_lt k k') eqn:H1; [apply key_lt_spec in H1|].
  - constructor; [by constructor|]. constructor; [done|]. eapply Forall_impl; [exact Hall|].
    intros [k2 t2] H2. by eapply klt_trans; [exact H1|].
  - destruct (key_lt k' k) eqn:H2; [|by constructor]. apply key_lt_spec in H2.
    constructor; [done|]. apply Forall_forall. intros x [->|Hx]%map_insert_in; [done|].
    by eapply Forall_forall in Hall.
Qed.

Lemma push_back_inv s t : set_inv s → set_inv (push_back s t).
Proof.
  intros [Hs Hk]. split; [by apply map_insert_sorted|]. apply Forall_forall. intros x [->|Hx]%map_insert_in; [done|].
  by eapply Forall_forall in Hk.
Qed.

Lemma push_all_inv s l : set_inv s → set_inv (foldl push_back s l).
Proof. revert s. induction l as [|t l IH]; intros s Hs; [done|]. by apply IH, push_back_inv. Qed.

Lemma push_all_from s l t : t ∈ (mMap (foldl push_back s l)).*2 → t ∈ l ∨ t ∈ (mMap s).*2.
Proof.
  revert s. induction l as [|u l IH]; intros s; [by right|]. cbn [foldl]. intros [Hl|Hs]%IH; [left; by right|].
  apply list_elem_of_fmap in Hs as (x & -> & [->|Hx]%map_insert_in); [left; by left|right; by apply list_elem_of_fmap_2].
Qed.

Lemma push_all_hash s l : mSetHash (foldl push_back s l) = mSetHash s.
Proof. revert s. induction l as [|t l IH]; intros s; [done|]. simpl. by rewrite IH. Qed.

Lemma newTXSet_inv h : set_inv (newTXSet h).
Proof. split; constructor. Qed.

(** A sorted list is determined by its elements. *)
Lemma entry_lt_NoDup m : StronglySorted entry_lt m → NoDup m.
Proof.
  induction 1 as [|x m Hm IH Hall]; constructor; [|done]. intros Hx.
  eapply Forall_forall in Hall; [|exact Hx]. by apply klt_irrefl in Hall.
Qed.

Lemma entry_sorted_ext m1 m2 :
  StronglySorted entry_lt m1 → StronglySorted entry_lt m2 → (∀ x, x ∈ m1 ↔ x ∈ m2) → m1 = m2.
Proof.
  intros H1 H2 Hx. apply (StronglySorted_unique_strong entry_lt); [|done|done|].
  - intros x y _ _ Hxy Hyx. destruct (klt_irrefl x.1). by eapply klt_trans.
  - apply NoDup_Permutation; [by apply entry_lt_NoDup..|done].
Qed.

(** Transactions with the same key are the same, which holds of transactions whose identifiers
    are distinct. *)
Definition key_determines (h : Z) (l : list STTx) : Prop :=
  ∀ t1 t2, t1 ∈ l → t2 ∈ l → tx_key h t1 = tx_key h t2 → t1 = t2.

Lemma push_all_elements h l x :
  key_determines h l → (x ∈ mMap (foldl push_back (newTXSet h) l) ↔ ∃ t, t ∈ l ∧ x = (tx_key h t, t)).
Proof.
  revert x. induction l as [|t l IH] using rev_ind; intros x Hd.
  { simpl. rewrite elem_of_nil. split; [done|]. intros (t & Ht & _). by apply not_elem_of_nil in Ht. }
  assert (key_determines h l) as Hd'.
  { intros t1 t2 H1 H2. apply Hd; apply elem_of_app; by left. }
  rewrite foldl_app. simpl. rewrite push_all_hash. simpl. split.
  - intros [->|Hx]%map_insert_in.
    + exists t. rewrite elem_of_app, list_elem_of_singleton. auto.
    + apply IH in Hx as (u & Hu & ->); [|done]. exists u. rewrite elem_of_app. auto.
  - intros (u & [Hu| ->%list_elem_of_singleton]%elem_of_app & ->).
    + apply map_insert_keep, IH; [done|]. by exists u.
    + destruct (map_insert_new (tx_key h t) t (mMap (foldl push_back (newTXSet h) l))) as [u Hu].
      pose proof Hu as [Heq%(f_equal snd)|Hin]%map_insert_in; [simpl in Heq; by subst u|].
      apply IH in Hin as (v & Hv & Heq); [|done].
      pose proof (f_equal fst Heq) as Hk. pose proof (f_equal snd Heq) as Hu'. cbn [fst snd] in Hk, Hu'. subst u.
      assert (t = v) as Hvt; [|by rewrite <- Hvt in Hu].
      apply Hd; [| |done]; apply elem_of_app; [right; by apply list_elem_of_singleton|by left].
Qed.

Lemma push_order_irrelevant h l1 l2 :
  l1 ≡ₚ l2 → key_determines h l1 → foldl push_back (newTXSet h) l1 = foldl push_back (newTXSet h) l2.
Proof.
  intros Hp Hd. assert (key_determines h l2) as Hd2.
  { intros t1 t2 H1 H2. apply Hd; by rewrite Hp. }
  assert (∀ l, foldl push_back (newTXSet h) l = mkTXSet h (mMap (foldl push_back (newTXSet h) l))) as Hform.
  { intros l. rewrite <- (push_all_hash (newTXSet h) l) at 2. by destruct (foldl _ _ l). }
  rewrite (Hform l1), (Hform l2). f_equal.
  apply entry_sorted_ext; [apply push_all_inv, newTXSet_inv..|].
  intros x. rewrite !push_all_elements by done. by setoid_rewrite Hp.
Qed.

(** ** Accounts stay together, in sequence *)

Lemma tx_key_account h t1 t2 : k_account (tx_key h t1) = k_account (tx_key h t2) ↔ tx_account t1 = tx_account t2.
Proof.
  simpl. split; [|by intros ->]. intros H. unfold to256 in H.
  assert (tx_account t1 * 2 ^ 96 = tx_account t2 * 2 ^ 96) as Hm; [|nia].
  apply (f_equal (Z.lxor h)) in H. by rewrite <- !Z.lxor_assoc, Z.lxor_nilpotent, !Z.lxor_0_l in H.
Qed.

Lemma sorted_lookup m i j x y :
  StronglySorted entry_lt m → (i < j)%nat → m !! i = Some x → m !! j = Some y → entry_lt x y.
Proof.
  intros Hm. revert i j. induction Hm as [|z m Hm IH Hall]; intros i j Hij Hi Hj; [done|].
  destruct j as [|j]; [lia|]. destruct i as [|i]; [|eapply IH; [|done|done]; lia].
  injection Hi as ->. by eapply Forall_lookup_1.
Qed.

Lemma set_runs s i j k ti tj tk :
  set_inv s → (i <= j <= k)%nat →
  (mMap s).*2 !! i = Some ti → (mMap s).*2 !! j = Some tj → (mMap s).*2 !! k = Some tk →
  tx_account ti = tx_account tk →
  tx_account tj = tx_account ti ∧ tx_seq ti <= tx_seq tj <= tx_seq tk.
Proof.
  intros [Hs Hk] Hijk Hi Hj Hk3 Hacc.
  assert (∀ a b ta tb, (a <= b)%nat → (mMap s).*2 !! a = Some ta → (mMap s).*2 !! b = Some tb →
    ta = tb ∨ klt (tx_key (mSetHash s) ta) (tx_key (mSetHash s) tb)) as Hord.
  { intros a b ta tb Hab Ha Hb. apply list_lookup_fmap_Some in Ha as (xa & -> & Ha), Hb as (xb & -> & Hb).
    destruct (decide (a = b)) as [->|]; [left; congruence|]. right.
    pose proof (Forall_lookup_1 _ _ _ _ Hk Ha) as Hka. pose proof (Forall_lookup_1 _ _ _ _ Hk Hb) as Hkb.
    simpl in Hka, Hkb. rewrite <- Hka, <- Hkb. eapply sorted_lookup; [exact Hs| |done|done]. lia. }
  pose proof (Hord i j ti tj ltac:(lia) Hi Hj) as H1. pose proof (Hord j k tj tk ltac:(lia) Hj Hk3) as H2.
  unfold klt in H1, H2. pose proof (tx_key_account (mSetHash s) ti tj). pose proof (tx_key_account (mSetHash s) tj tk).
  pose proof (tx_key_account (mSetHash s) ti tk). simpl in *.
  destruct H1 as [->|H1], H2 as [->|H2]; split; try lia; try congruence; intuition lia.
Qed.

(** ** The log of a run

    An attempt is a transaction, whether it may be retried, and how it went.  [attempts] says that
    a list of attempts, made one after the other, takes the engine from one state to another. *)

#[export] Instance ApplyResult_eq_dec : EqDecision ApplyResult.
Proof. solve_decision. Defined.

Notation attempt := (STTx * bool * ApplyResult)%type.

(** The transactions of a log that were applied or failed, and those refused *)
Definition settled (log : list attempt) : list STTx := (filter (λ a, a.2 ≠ resultRetry) log).*1.*1.
Definition refused (log : list attempt) : list STTx := (filter (λ a, a.2 = resultRetry) log).*1.*1.

Section log.
  Context {TE : TxEngine} (openLgr : bool).

Inductive attempts : engine → list attempt → engine → Prop :=
| attempts_nil e : attempts e [] e
| attempts_cons e t retry e1 r log e2 :
    applyTransaction e t openLgr retry = (e1, r) → attempts e1 log e2 →
    attempts e ((t, retry, r) :: log) e2.

Lemma attempts_app e1 l1 e2 l2 e3 : attempts e1 l1 e2 → attempts e2 l2 e3 → attempts e1 (l1 ++ l2) e3.
Proof. induction 1; intros; [done|]. simpl. econstructor; eauto. Qed.

Lemma settled_cons t retry r log :
  settled ((t, retry, r) :: log) = match r with resultRetry => settled log | _ => t :: settled log end.
Proof. unfold settled. rewrite filter_cons. destruct r; simpl; repeat case_decide; done. Qed.

Lemma settled_app l1 l2 : settled (l1 ++ l2) = settled l1 ++ settled l2.
Proof. unfold settled. by rewrite filter_app, !fmap_app. Qed.

Lemma apply_candidates_log set : ∀ e s e1 s1,
  apply_candidates e set openLgr s = (e1, s1) →
  ∃ log, attempts e log e1 ∧ Forall (λ a, a.1.2 = true) log ∧ s1 = foldl push_back s (refused log)
    ∧ ∀ a, a ∈ log → Some a.1.1 ∈ set.*2.
Proof.
  induction set as [|[tag [t|]] set IH]; intros e s e1 s1 H; cbn [apply_candidates] in H.
  - injection H as <- <-. exists []. split_and!; [constructor..|by intros ? ?%not_elem_of_nil].
  - assert (∀ log : list attempt, (∀ a, a ∈ log → Some a.1.1 ∈ set.*2) → ∀ a, a ∈ log → Some a.1.1 ∈ ((tag, Some t) :: set).*2) as Hmore.
    { intros log Hin a Ha. right. by apply Hin. }
    case_if_in H; [apply IH in H as (log & ? & ? & ? & Hin); exists log; split_and!; [done..|by apply Hmore]|].
    destruct (applyTransaction e t openLgr true) as [e' r] eqn:Hr.
    apply IH in H as (log & Hlog & Hall & -> & Hin). exists ((t, true, r) :: log).
    split; [by econstructor|]. split; [by constructor|]. split.
    + unfold refused. rewrite filter_cons. destruct r; simpl; repeat case_decide; done.
    + intros a [->|Ha]%elem_of_cons; [by left|by eapply Hmore].
  - assert (∀ e, apply_candidates e set openLgr s = (e1, s1) → ∃ log, attempts e log e1 ∧ Forall (λ a, a.1.2 = true) log
      ∧ s1 = foldl push_back s (refused log) ∧ ∀ a, a ∈ log → Some a.1.1 ∈ ((tag, None) :: set).*2) as Hgo.
    { intros e0 (log & ? & ? & ? & Hin)%IH. exists log. split_and!; try done. intros a Ha. right. by apply Hin. }
    case_if_in H; by apply Hgo.
Qed.

(** A pass tries every entry once; what it keeps it refused. *)
Lemma run_pass_log certain m : ∀ e e1 m1 changes,
  run_pass e m openLgr certain = (e1, m1, changes) →
  ∃ log, attempts e log e1 ∧ log.*1 = (λ x, (x.2, certain)) <$> m ∧ m1 `sublist_of` m
    ∧ m.*2 ≡ₚ m1.*2 ++ settled log ∧ Forall (λ x, (x.2, certain, resultRetry) ∈ log) m1.
Proof.
  induction m as [|[k t] m IH]; intros e e1 m1 changes H; cbn [run_pass] in H.
  { injection H as <- <- <-. exists []. repeat split; constructor. }
  destruct (applyTransaction e t openLgr certain) as [e' r] eqn:Hr.
  destruct (run_pass e' m openLgr certain) as [[e2 m2] c2] eqn:Hp.
  apply IH in Hp as (log & Hlog & Hfst & Hsub & Hperm & Hall).
  assert (attempts e ((t, certain, r) :: log) e2) as Hatt by by econstructor.
  assert (Forall (λ x : Key * STTx, (x.2, certain, resultRetry) ∈ (t, certain, r) :: log) m2) as Hall'.
  { eapply Forall_impl; [exact Hall|]. intros x Hx. by apply elem_of_cons; right. }
  exists ((t, certain, r) :: log). rewrite settled_cons.
  destruct r; injection H as <- <- _; split_and!; try done; simpl; try (by f_equal); try (by constructor).
  - rewrite Hperm. by rewrite Permutation_middle.
  - rewrite Hperm. by rewrite Permutation_middle.
  - constructor; [by apply elem_of_cons; left|done].
Qed.

(** The passes that remain: they end with [certainRetry] false, the last one having been final,
    provided enough remain for a final one. *)
Lemma passes_log togo : ∀ e m certain e1 m1 c1,
  passes togo e m openLgr certain = (e1, m1, c1) →
  (certain = true → (2 <= togo <= LEDGER_TOTAL_PASSES)%nat) → (certain = false → (1 <= togo)%nat) →
  ∃ log, attempts e log e1 ∧ c1 = false ∧ m1 `sublist_of` m ∧ m.*2 ≡ₚ m1.*2 ++ settled log
    ∧ Forall (λ x, (x.2, false, resultRetry) ∈ log) m1 ∧ (length log <= togo * length m)%nat
    ∧ ∀ a, a ∈ log → a.1.1 ∈ m.*2.
Proof.
  induction togo as [|togo IH]; intros e m certain e1 m1 c1 H Ht Hf; [destruct certain; lia|].
  cbn [passes] in H. destruct (run_pass e m openLgr certain) as [[e2 m2] ch] eqn:Hp.
  apply run_pass_log in Hp as (log & Hlog & Hfst & Hsub & Hperm & Hall).
  assert (length log = length m) as Hlen.
  { pose proof (f_equal length Hfst) as Hlen. by rewrite !length_fmap in Hlen. }
  pose proof (sublist_length _ _ Hsub) as Hlen2.
  assert (∀ a, a ∈ log → a.1.1 ∈ m.*2) as Hfrom.
  { intros a Ha%(list_elem_of_fmap_2 fst). rewrite Hfst in Ha. apply list_elem_of_fmap in Ha as (x & -> & Hx).
    by apply (list_elem_of_fmap_2 snd). }
  destruct ((ch =? 0) && negb certain) eqn:Hret.
  { injection H as <- <- <-. apply andb_true_iff in Hret as [_ Hc%negb_true_iff]. subst certain.
    exists log. split_and!; try done. lia. }
  set (c := if (ch =? 0) || _ then false else certain) in H.
  destruct (decide (togo = 0%nat)) as [->|Hn].
  { assert (certain = false) as -> by (destruct certain; [lia|done]).
    cbn [passes] in H. injection H as <- <- <-. exists log. split_and!; try done; [|lia].
    unfold c. by destruct (_ || _). }
  apply IH in H as (log2 & Hlog2 & -> & Hsub2 & Hperm2 & Hall2 & Hlen3 & Hfrom2).
  - exists (log ++ log2). split; [by eapply attempts_app|]. split; [done|]. split; [by etrans|].
    rewrite settled_app. split; [by rewrite Hperm, Hperm2, <- app_assoc, (Permutation_app_comm (settled log2))|].
    split; [eapply Forall_impl; [exact Hall2|]; intros x Hx; apply elem_of_app; by right|]. split; [rewrite length_app; nia|].
    intros a [Ha|Ha]%elem_of_app; [by apply Hfrom|]. apply Hfrom2 in Ha. apply list_elem_of_fmap in Ha as (x & -> & Hx).
    apply list_elem_of_fmap_2. by eapply elem_of_sublist.
  - unfold c. intros Hc. destruct certain; [|by destruct (_ || _)].
    destruct (ch =? 0); [done|]. cbn [orb] in Hc.
    destruct (Nat.leb_spec LEDGER_RETRY_PASSES (LEDGER_TOTAL_PASSES - S togo)) as [|Hlt]; [done|].
    unfold LEDGER_TOTAL_PASSES, LEDGER_RETRY_PASSES in *. lia.
  - lia.
Qed.
End log.

(** ** Properties *)

(** The order a node applies transactions in depends on the set of transactions and on the hash
    of the last ledger, not on the order in which they were deferred. *)
(** C37: Pushing the same transactions in any other order onto an empty set gives the same set,
    when transactions with the same account, sequence number and identifier are the same; the
    result is sorted by the key, without duplicates. *)
Theorem canonical_order h l1 l2 :
  l1 ≡ₚ l2 → key_determines h l1 →
  foldl push_back (newTXSet h) l1 = foldl push_back (newTXSet h) l2
  ∧ StronglySorted (λ x y, key_lt x.1 y.1 = true) (mMap (foldl push_back (newTXSet h) l1))
  ∧ ∀ k t, (k, t) ∈ mMap (foldl push_back (newTXSet h) l1) ↔ t ∈ l1 ∧ k = tx_key h t.
Proof.
  intros Hp Hd. split; [by apply push_order_irrelevant|]. split.
  - assert (∀ m, StronglySorted entry_lt m → StronglySorted (λ x y : Key * STTx, key_lt x.1 y.1 = true) m) as Hss.
    { induction 1 as [|x m _ IH Hall]; constructor; [done|]. eapply Forall_impl; [exact Hall|]. intros y. apply key_lt_spec. }
    apply Hss, push_all_inv, newTXSet_inv.
  - intros k t. rewrite push_all_elements by done. split; [intros (u & Hu & Heq)|intros [Ht ->]; by exists t].
    pose proof (f_equal fst Heq) as H1. pose proof (f_equal snd Heq) as H2. cbn [fst snd] in H1, H2. by subst.
Qed.

(** However a set was filled, the transactions of an account follow each other without one
    of another account in between, with their sequence numbers in order. *)
Theorem account_sequence_order h l i j k ti tj tk :
  let order := (mMap (foldl push_back (newTXSet h) l)).*2 in
  (i <= j <= k)%nat → order !! i = Some ti → order !! j = Some tj → order !! k = Some tk →
  tx_account ti = tx_account tk →
  tx_account tj = tx_account ti ∧ tx_seq ti <= tx_seq tj <= tx_seq tk.
Proof. intros order Hijk Hi Hj Hk. by eapply set_runs; [apply push_all_inv, newTXSet_inv|..]. Qed.

(** C36: Applying a set of transactions ends with a final pass: [certainRetry] is false.  The run
    is a sequence of attempts: first the candidates, each of which may be retried and is deferred
    when refused; then at most three passes over the deferred ones.  Each deferred transaction is
    applied or fails once and is then gone, or is left; and each that is left was refused in an
    attempt in which it could not be retried. *)
Theorem applyTransactions_settles {TE : TxEngine} e set s openLgr e1 s1 certainRetry :
  applyTransactions e set s openLgr = (e1, s1, certainRetry) →
  certainRetry = false
  ∧ ∃ first log,
      attempts openLgr e (first ++ log) e1
      ∧ Forall (λ a, a.1.2 = true) first
      ∧ let deferred := mMap (foldl push_back s (refused first)) in
        mMap s1 `sublist_of` deferred
        ∧ deferred.*2 ≡ₚ (mMap s1).*2 ++ settled log
        ∧ Forall (λ x, (x.2, false, resultRetry) ∈ log) (mMap s1)
        ∧ (length log <= 3 * length deferred)%nat.
Proof.
  unfold applyTransactions. intros H.
  destruct (apply_candidates e set openLgr s) as [e0 s0] eqn:Hc.
  destruct (passes _ e0 _ openLgr true) as [[e2 m2] c2] eqn:Hp. injection H as <- <- <-.
  apply apply_candidates_log in Hc as (first & Hfirst & Hall & -> & _).
  apply passes_log in Hp as (log & Hlog & -> & Hsub & Hperm & Hleft & Hlen & _);
    [|unfold LEDGER_TOTAL_PASSES; lia|done].
  split; [done|]. exists first, log. split; [by eapply attempts_app|]. done.
Qed.

(** *** Witnesses *)

(** An engine for the witnesses: its state is the account's next sequence number; a transaction
    with a later number is refused ([terPRE_SEQ]), one with an earlier number fails
    ([tefPAST_SEQ]). *)
Definition demo_engine : TxEngine := {|
  engine := Z;
  engine_apply e t _ :=
    if tx_seq t =? e then (e + 1, Some (tesSUCCESS, true))
    else if tx_seq t >? e then (e, Some (-92, false)) else (e, Some (-190, false));
  closeTime _ := 1000;
  routerFlags _ _ := 0;
  hasTransaction _ _ := false
|}.

Definition demo_tx (acc seq id : Z) : STTx := mkSTTx acc seq id 7 [].

Lemma canonical_order_witness :
  foldl push_back (newTXSet 12345) [demo_tx 9 2 70; demo_tx 4 1 60; demo_tx 9 1 80]
  = foldl push_back (newTXSet 12345) [demo_tx 9 1 80; demo_tx 9 2 70; demo_tx 4 1 60].
Proof.
  apply (canonical_order 12345).
  - apply perm_trans with [demo_tx 9 2 70; demo_tx 9 1 80; demo_tx 4 1 60]; [repeat constructor|constructor].
  - intros t1 t2 H1 H2. repeat setoid_rewrite elem_of_cons in H1; repeat setoid_rewrite elem_of_cons in H2.
    rewrite elem_of_nil in H1, H2. by intuition subst.
Defined.

Lemma account_sequence_order_witness :
  tx_account (demo_tx 9 2 70) = tx_account (demo_tx 9 1 80)
  ∧ tx_seq (demo_tx 9 1 80) <= tx_seq (demo_tx 9 2 70) <= tx_seq (demo_tx 9 3 10).
Proof.
  apply (account_sequence_order 12345 [demo_tx 9 2 70; demo_tx 4 1 60; demo_tx 9 1 80; demo_tx 9 3 10] 1 2 3);
    [lia|vm_compute; reflexivity..].
Defined.

(** Three transactions deferred out of order: all are applied by two passes but the fourth, which
    leaves a gap in the sequence. *)
Lemma applyTransactions_settles_witness :
  let '(e1, s1, c1) := applyTransactions (TE := demo_engine) 1
    [(1, Some (demo_tx 9 3 10)); (2, Some (demo_tx 9 1 80)); (3, None); (4, Some (demo_tx 9 2 70)); (5, Some (demo_tx 9 5 90))]
    (newTXSet 12345) false in
  e1 = 4 ∧ (mMap s1).*2 = [demo_tx 9 5 90] ∧ c1 = false.
Proof.
  destruct (applyTransactions _ _ _ _) as [[e1 s1] c1] eqn:H.
  pose proof (applyTransactions_settles (TE := demo_engine) _ _ _ _ _ _ _ H) as [Hc _].
  split_and!; [| |exact Hc]; vm_compute in H; injection H as <- <- _; reflexivity.
Defined.
