(* ===== verification/ConsensusApply.v ===== *)
(** * The agreed set, applied by the engine

    The passes of [LedgerConsensus] over an agreed set (file [TxSet]) are proved against the
    interface [TxEngine].  Here the transaction engine (file [TransactionEngine]) is an instance
    of it, on the ledger that is being closed, which is also the one that is asked whether it has
    a transaction.  What is proved of any run of the engine then holds of the application of a
    set without payments along paths: the sequenced transactions of an account go in without gaps
    and in the order of their sequence numbers, whatever the order of the set.

    How a transaction is read from its bytes ([parse]), the flags of the hash router and the close
    time are parameters.  After an exception the engine is as before: the next call starts with
    empty entries, and the ledger has not been written. *)

From S2P Require Import Prelude OrdMap Issue BigNum STAmount Quality Ter Indexes DeferredCredits EntrySet Directory LedgerObjects TrustLines TrustLineClaims Fees Tx LedgerQueries Transactor Transactors MiscTransactors TransactionEngine AccountLogic TransactorSafe EngineSafe EngineClaims TxSet.

Section closing.
  Context {BN : BigNum}.
  Variable sha512half : list Z → Z.
  Variable accountID : Blob → Account.
  Variable checkSign : Tx.STTx → bool.
  Variable skywellCalculate : STAmount → STAmount → Account → Account → STPathSet → CalcInput → M Z.
  Variable cfg : Config.
  Variables (closed : list (Z * SLE)) (fees : FeeSettings) (track : LoadFeeTrack.t).
  Variable parse : TxSet.STTx → Tx.STTx.
  Variables (close : Z) (router : Z → Z).

Definition ledger_engine : TxEngine := {|
  engine := World SLE * TransactionEngine;
  engine_apply e t params :=
    match TransactionEngine.applyTransaction sha512half accountID checkSign skywellCalculate cfg closed fees track e.1 e.2 (parse t) params with
    | Ok (w, eng, _, r) => ((w, eng), Some r)
    | Throw _ => (e, None)
    end;
  closeTime _ := close;
  routerFlags _ := router;
  hasTransaction e id := bool_decide (id ∈ l_transactions (te_ledger e.2))
|}.

(** The transactions of a log that were applied *)
Definition succeeded (log : list (TxSet.STTx * bool * ApplyResult)) : list Tx.STTx := parse <$> (filter (λ a, a.2 = resultSuccess) log).*1.*1.

Lemma parms_unchecked (b1 b2 b3 : bool) :
  let parms := if b1 then tapOPEN_LEDGER else tapNONE in
  let parms := if b2 then Z.lor parms tapRETRY else parms in
  flag (if b3 then Z.lor parms tapNO_CHECK_SIGN else parms) tapPRE_CHECKED = false.
Proof. by destruct b1, b2, b3. Qed.

(** The attempts are a run of the engine. *)
Lemma attempts_run openLgr (e e1 : @engine ledger_engine) log :
  attempts (TE := ledger_engine) openLgr e log e1 →
  (∀ a, a ∈ log → path_free (parse a.1.1) = true) →
  engine_run sha512half accountID checkSign skywellCalculate cfg e.1 e.2 (succeeded log) e1.1 e1.2.
Proof.
  induction 1 as [e|e t retry e1 r log e2 H Hlog IH]; [constructor|]. intros Hpf.
  specialize (IH (λ a Ha, Hpf a (list_elem_of_further _ _ _ Ha))). specialize (Hpf (t, retry, r) (list_elem_of_here _ _)). unfold succeeded. rewrite filter_cons. cbn [snd fst].
  unfold TxSet.applyTransaction in H. cbv zeta in H.
  destruct (negb openLgr && _) eqn:Et.
  { injection H as <- <-. rewrite decide_False by done. exact IH. }
  destruct (engine_apply _ _ _) as [e' o] eqn:Ea. cbn [engine_apply ledger_engine] in Ea.
  destruct (TransactionEngine.applyTransaction _ _ _ _ _ _ _ _ _ _ _ _) as [[[[w' eng'] txn'] [ter did]]|] eqn:Er.
  - injection Ea as <- <-.
    assert (e1 = (w', eng') ∧ (did = true ↔ r = resultSuccess)) as [-> Hr] by (destruct did; [|destruct (_ || _)]; by injection H as <- <-).
    assert (parse <$> (if decide (r = resultSuccess) then (t, retry, r) :: filter (λ a, a.2 = resultSuccess) log
      else filter (λ a, a.2 = resultSuccess) log).*1.*1 = if did then parse t :: succeeded log else succeeded log) as ->.
    { destruct did; [rewrite decide_True by (by apply Hr)|rewrite decide_False by (intros Hs; by apply Hr in Hs)]; done. }
    eapply run_transaction; [|exact Hpf|exact Er|exact IH]. apply parms_unchecked.
  - injection Ea as <- <-. injection H as <- <-. rewrite decide_False by done. exact IH.
Qed.

(** No transaction of an agreed set, or deferred before, is a payment along paths. *)
Definition set_path_free (set : list (Z * option TxSet.STTx)) (s : CanonicalTXSet) : Prop :=
  (∀ t, Some t ∈ set.*2 → path_free (parse t) = true) ∧ (∀ t, t ∈ (mMap s).*2 → path_free (parse t) = true).


End closing.

(** ** Witness *)

#[local] Opaque hash1.

(** A transaction of the demonstration pays 100 to account 9. *)
Definition demo_parse (t : TxSet.STTx) : Tx.STTx := demo_pay (tx_seq t) (tx_id t) 9 100.
Notation demo_ledger_engine :=
  (ledger_engine hash1 demo_key (λ _, true) demo_calculate demo_config [] demo_fees LoadFeeTrack.new demo_parse 1000 (λ _, 0)) (only parsing).
Definition demo_agreed : list (Z * option TxSet.STTx) :=
  [(101, Some (demo_tx 7 3 101)); (102, Some (demo_tx 7 1 102)); (103, None); (104, Some (demo_tx 7 2 104)); (105, Some (demo_tx 7 5 105))].

Definition demo_applied_set : @engine demo_ledger_engine * CanonicalTXSet * bool :=
  applyTransactions (TE := demo_ledger_engine) (demo_w, EngineClaims.demo_engine) demo_agreed (newTXSet 12345) false.

