(* ===== verification/SHAMapNodeID.v ===== *)
(** * Positions in the hash tree

    Model of [src/src/common/shamap/impl/SHAMapNodeID.cpp] and [SHAMapNodeID.h].  A node of the
    tree is identified by its depth and the digits, of 4 bits each, on the way to it; a 256-bit
    integer is the number its 32 bytes write.  The theorems show that the digits of a hash lead
    down to its own identifiers, that parent and child are inverse, that the order is total and
    that the wire format reads back.

    [getChildNodeID] at depth 64 would write behind the 32 bytes, although its assertion lets it
    through; the theorems are about depths below 64, which all callers keep to. *)

From S2P Require Import Prelude Bytes Serializer.

(** ** Bytes of a 256-bit integer *)

(** [h.begin ()[i]], and writing to it *)
Definition byte_of (h i : Z) : Z := Z.land (Z.shiftr h (8 * (31 - i))) 0xff.
Definition set_byte (h i v : Z) : Z := Z.lor (Z.ldiff h (Z.shiftl 0xff (8 * (31 - i)))) (Z.shiftl v (8 * (31 - i))).
Definition or_byte (h i v : Z) : Z := Z.lor h (Z.shiftl v (8 * (31 - i))).

(** ** [SHAMapNodeID] *)

Record SHAMapNodeID := mkNodeID { mNodeID : Z; mDepth : Z }.

#[export] Instance SHAMapNodeID_eq_dec : EqDecision SHAMapNodeID.
Proof. solve_decision. Defined.

(** The constructor of [masks_t]: the loop from [i], with [n] rounds to go *)
Fixpoint mask_entries (n : nat) (i : Z) (selector : Z) : list Z :=
  match n with
  | O => [selector]
  | S n =>
      let selector1 := set_byte selector (i / 2) 0xF0 in
      selector :: selector1 :: mask_entries n (i + 2) (set_byte selector1 (i / 2) 0xFF)
  end.

Definition mask_table : list Z := Eval vm_compute in mask_entries 32 0 0.
Definition Masks (depth : Z) : Z := nth (Z.to_nat depth) mask_table 0.

Definition rootID : SHAMapNodeID := mkNodeID 0 0.
Definition nodeID_of (depth hash : Z) : SHAMapNodeID := mkNodeID (Z.land hash (Masks depth)) depth.

(** From the wire: at least 33 bytes, or the identifier is invalid *)
Definition nodeID_parse (ptr : list Z) : SHAMapNodeID :=
  if Z.of_nat (length ptr) <? 33 then mkNodeID 0 (-1)
  else mkNodeID (be_val (take 32 ptr)) (byte_at ptr 32).

Definition isValid (id : SHAMapNodeID) : bool := (mDepth id >=? 0) && (mDepth id <=? 64).
Definition isRoot (id : SHAMapNodeID) : bool := mDepth id =? 0.

Definition addIDRaw (id : SHAMapNodeID) (s : list Z) : list Z :=
  (add8 (u8 (mDepth id)) (addBitString (be_bytes 32 (mNodeID id)) s).2).2.
Definition getRawString (id : SHAMapNodeID) : list Z := addIDRaw id [].

Definition getChildNodeID (id : SHAMapNodeID) (m : Z) : SHAMapNodeID :=
  let child := or_byte (mNodeID id) (mDepth id / 2) (if Z.land (mDepth id) 1 =? 0 then Z.shiftl m 4 else m) in
  nodeID_of (mDepth id + 1) child.

Definition getParentNodeID (id : SHAMapNodeID) : SHAMapNodeID := nodeID_of (mDepth id - 1) (mNodeID id).

Definition selectBranch (id : SHAMapNodeID) (hash : Z) : Z :=
  let branch := byte_of hash (mDepth id / 2) in
  if Z.land (mDepth id) 1 =? 0 then Z.shiftr branch 4 else Z.land branch 0xf.

(** [std::tie(mDepth, mNodeID) < std::tie(n.mDepth, n.mNodeID)] *)
Definition id_lt (a b : SHAMapNodeID) : bool :=
  (mDepth a <? mDepth b) || (negb (mDepth b <? mDepth a) && (mNodeID a <? mNodeID b)).
Definition id_gt (a b : SHAMapNodeID) : bool := id_lt b a.
Definition id_le (a b : SHAMapNodeID) : bool := negb (id_lt b a).
Definition id_ge (a b : SHAMapNodeID) : bool := negb (id_lt a b).
Definition id_eq (a b : SHAMapNodeID) : bool := (mDepth a =? mDepth b) && (mNodeID a =? mNodeID b).
Definition id_ne (a b : SHAMapNodeID) : bool := negb (id_eq a b).

(** ** Digits

    [digit d h] is the [d]-th digit of [h] from the top, [lead d h] the first [d] digits. *)

Definition is_u256 (h : Z) : Prop := 0 <= h < 2 ^ 256.
Definition digit (d h : Z) : Z := (h / 16 ^ (63 - d)) mod 16.
Definition lead (d h : Z) : Z := h / 16 ^ (64 - d).

(** The identifiers the tree uses: the digits behind the depth are zero. *)
Definition id_ok (id : SHAMapNodeID) : Prop :=
  0 <= mDepth id <= 64 ∧ is_u256 (mNodeID id) ∧ mNodeID id mod 16 ^ (64 - mDepth id) = 0.

Lemma pow16 k : 0 <= k → 16 ^ k = 2 ^ (4 * k).
Proof. intros. by rewrite Z.pow_mul_r by lia. Qed.

Lemma pow16_pos k : 0 < 16 ^ k ∨ k < 0.
Proof. destruct (decide (0 <= k)); [left; by apply Z.pow_pos_nonneg|lia]. Qed.

Lemma digit_range d h : 0 <= digit d h < 16.
Proof. apply Z.mod_pos_bound. lia. Qed.

Lemma lead_step d h : 0 <= d < 64 → lead (d + 1) h = 16 * lead d h + digit d h.
Proof.
  intros Hd. unfold lead, digit. replace (64 - (d + 1)) with (63 - d) by lia.
  replace (64 - d) with (63 - d + 1) by lia.
  assert (0 < 16 ^ (63 - d)) by (apply Z.pow_pos_nonneg; lia).
  rewrite Z.pow_add_r, <- Z.div_div by lia. change (16 ^ 1) with 16. zlia.
Qed.

Lemma lead_0 h : is_u256 h → lead 0 h = 0.
Proof. intros H. unfold lead. apply Z.div_small. exact H. Qed.

Lemma lead_64 h : lead 64 h = h.
Proof. unfold lead. apply Z.div_1_r. Qed.

(** Two hashes with the same first digits *)
Lemma lead_mono d h h' : 0 <= d < 64 → lead (d + 1) h = lead (d + 1) h' → lead d h = lead d h' ∧ digit d h = digit d h'.
Proof.
  intros Hd. rewrite !lead_step by done. pose proof (digit_range d h). pose proof (digit_range d h'). lia.
Qed.

(** The order of hashes is decided at the first digit that differs. *)
Lemma lead_lt d h h' : 0 <= d <= 64 → lead d h < lead d h' → h < h'.
Proof.
  intros Hd Hlt. unfold lead in Hlt. assert (0 < 16 ^ (64 - d)) by (apply Z.pow_pos_nonneg; lia). 
  destruct (decide (h < h')) as [|Hn]; [done|]. pose proof (Z.div_le_mono h' h (16 ^ (64 - d))). lia.
Qed.

(** ** The code's bit operations are the digits *)

Lemma odd_land d : 0 <= d → (Z.land d 1 =? 0) = (d mod 2 =? 0).
Proof. intros. change 1 with (Z.ones 1) at 1. by rewrite Z.land_ones by lia. Qed.

Lemma selectBranch_digit id h : 0 <= mDepth id < 64 → selectBranch id h = digit (mDepth id) h.
Proof.
  destruct id as [x d]. cbn [mDepth]. intros Hd. unfold selectBranch, byte_of, digit. cbn [mDepth].
  change 0xff with (Z.ones 8). change 0xf with (Z.ones 4). rewrite odd_land by lia.
  rewrite !Z.land_ones, !Z.shiftr_div_pow2 by zlia. rewrite pow16 by lia.
  set (k := 8 * (31 - d / 2)). assert (0 <= k) by (unfold k; zlia).
  destruct (Z.eqb_spec (d mod 2) 0) as [H0|H1].
  - replace (4 * (63 - d)) with (k + 4) by (unfold k; zlia). rewrite Z.pow_add_r, <- Z.div_div by lia.
    change (2 ^ 8) with 256. change (2 ^ 4) with 16. zlia.
  - replace (4 * (63 - d)) with k by (unfold k; zlia). change (2 ^ 8) with 256. change (2 ^ 4) with 16. zlia.
Qed.

Lemma Masks_spec d : 0 <= d <= 64 → Masks d = 2 ^ 256 - 2 ^ (256 - 4 * d).
Proof.
  intros Hd. assert (forallb (λ n : nat, Masks (Z.of_nat n) =? 2 ^ 256 - 2 ^ (256 - 4 * Z.of_nat n)) (seq 0 65) = true) as H by (vm_compute; reflexivity).
  rewrite forallb_forall in H. specialize (H (Z.to_nat d)). rewrite in_seq, Z2Nat.id in H by lia.
  apply Z.eqb_eq, H. lia.
Qed.

(** Masking keeps the first digits. *)
Lemma land_Masks d h : 0 <= d <= 64 → is_u256 h → Z.land h (Masks d) = lead d h * 16 ^ (64 - d).
Proof.
  intros Hd Hh. rewrite Masks_spec by done. unfold lead. rewrite pow16 by lia.
  set (k := 4 * (64 - d)). replace (256 - 4 * d) with k by (unfold k; lia). assert (0 <= k <= 256) by (unfold k; lia).
  replace (2 ^ 256 - 2 ^ k) with (Z.shiftl (Z.ones (256 - k)) k).
  2:{ rewrite Z.shiftl_mul_pow2, Z.ones_equiv by lia. replace 256 with (256 - k + k) at 2 by lia. rewrite Z.pow_add_r by lia. lia. }
  rewrite <- Z.shiftr_div_pow2, <- Z.shiftl_mul_pow2 by lia.
  apply Z.bits_inj'. intros n Hn. rewrite Z.land_spec, !Z.shiftl_spec by lia.
  destruct (decide (n < k)).
  - rewrite !(Z.testbit_neg_r _ (n - k)) by lia. apply andb_false_r.
  - rewrite Z.shiftr_spec by lia. replace (n - k + k) with n by lia. rewrite Z.testbit_ones_nonneg by lia.
    destruct (Z.ltb_spec (n - k) (256 - k)); [apply andb_true_r|]. rewrite andb_false_r.
    destruct (decide (h = 0)) as [->|]; [by rewrite Z.bits_0|]. unfold is_u256 in Hh.
    rewrite Z.bits_above_log2; [done|lia|]. assert (Z.log2 h < 256) by (apply Z.log2_lt_pow2; lia). lia.
Qed.

Lemma lead_bound d h : 0 <= d <= 64 → is_u256 h → 0 <= lead d h * 16 ^ (64 - d) <= h.
Proof.
  intros Hd [Hh _]. unfold lead. assert (0 < 16 ^ (64 - d)) by (apply Z.pow_pos_nonneg; lia).
  pose proof (Z.div_pos h (16 ^ (64 - d))). pose proof (Z.mul_div_le h (16 ^ (64 - d))). nia.
Qed.

Lemma nodeID_of_eq d h : 0 <= d <= 64 → is_u256 h → nodeID_of d h = mkNodeID (lead d h * 16 ^ (64 - d)) d.
Proof. intros. unfold nodeID_of. by rewrite land_Masks. Qed.

Lemma nodeID_of_ok d h : 0 <= d <= 64 → is_u256 h → id_ok (nodeID_of d h).
Proof.
  intros Hd Hh. rewrite nodeID_of_eq by done. pose proof (lead_bound d h Hd Hh). unfold id_ok. cbn [mDepth mNodeID].
  split_and!; [lia|unfold is_u256 in *; lia..|]. apply Z_mod_mult.
Qed.

(** An identifier of the tree is the one of its own digits. *)
Lemma id_ok_of id : id_ok id → id = nodeID_of (mDepth id) (mNodeID id).
Proof.
  intros (Hd & Hh & Hz). rewrite nodeID_of_eq by done. destruct id as [x d]. cbn [mDepth mNodeID] in *. f_equal.
  unfold lead. assert (0 < 16 ^ (64 - d)) by (apply Z.pow_pos_nonneg; lia).
  pose proof (Z.div_mod x (16 ^ (64 - d))). lia.
Qed.

(** The code's way to the child adds one digit. *)
Definition with_digit (id : SHAMapNodeID) (m : Z) : Z := mNodeID id + m * 16 ^ (63 - mDepth id).

Lemma with_digit_u256 id m : id_ok id → mDepth id < 64 → 0 <= m < 16 → is_u256 (with_digit id m).
Proof.
  intros (Hd & Hh & Hz) Hd' Hm. destruct id as [x d]. unfold with_digit. cbn [mDepth mNodeID] in *.
  assert (0 < 16 ^ (63 - d)) by (apply Z.pow_pos_nonneg; lia).
  assert (16 ^ (64 - d) = 16 * 16 ^ (63 - d)) as H16.
  { replace (64 - d) with (63 - d + 1) by lia. rewrite Z.pow_add_r by lia. lia. }
  apply Z.div_exact in Hz; [|lia]. set (y := x / 16 ^ (64 - d)) in *.
  unfold is_u256 in *. split; [nia|]. assert (x <= 2 ^ 256 - 16 ^ (64 - d)); [|nia].
  assert (2 ^ 256 = 16 ^ d * 16 ^ (64 - d)) as Hp.
  { rewrite <- Z.pow_add_r by lia. replace (d + (64 - d)) with 64 by lia. reflexivity. }
  rewrite Hp, Hz in *. assert (y < 16 ^ d) by nia. nia.
Qed.

Lemma or_digit id m :
  id_ok id → mDepth id < 64 → 0 <= m < 16 →
  or_byte (mNodeID id) (mDepth id / 2) (if Z.land (mDepth id) 1 =? 0 then Z.shiftl m 4 else m) = with_digit id m.
Proof.
  intros (Hd & Hh & Hz) Hd' Hm. destruct id as [x d]. unfold with_digit, or_byte. cbn [mDepth mNodeID] in *.
  rewrite odd_land by lia.
  assert (0 < 16 ^ (63 - d)) by (apply Z.pow_pos_nonneg; lia).
  assert (16 ^ (64 - d) = 16 * 16 ^ (63 - d)) as H16.
  { replace (64 - d) with (63 - d + 1) by lia. rewrite Z.pow_add_r by lia. lia. }
  replace (Z.shiftl (if d mod 2 =? 0 then Z.shiftl m 4 else m) (8 * (31 - d / 2))) with (m * 16 ^ (63 - d)).
  2:{ rewrite pow16 by lia. destruct (Z.eqb_spec (d mod 2) 0).
      - rewrite Z.shiftl_shiftl by lia. rewrite Z.shiftl_mul_pow2 by zlia. do 2 f_equal. zlia.
      - rewrite Z.shiftl_mul_pow2 by zlia. do 2 f_equal. zlia. }
  apply Z.div_exact in Hz; [|lia]. set (y := x / 16 ^ (64 - d)) in *.
  rewrite Hz, Z.lor_comm. rewrite (Z.mul_comm (16 ^ (64 - d)) y), (pow16 (64 - d)) by lia.
  rewrite <- Z.shiftl_mul_pow2, lor_disjoint, Z.shiftl_mul_pow2 by (try lia; rewrite <- pow16 by lia; nia). lia.
Qed.

Lemma getChildNodeID_eq id m :
  id_ok id → mDepth id < 64 → 0 <= m < 16 → getChildNodeID id m = mkNodeID (with_digit id m) (mDepth id + 1).
Proof.
  intros Hok Hd' Hm. unfold getChildNodeID. rewrite or_digit by done. pose proof (with_digit_u256 id m Hok Hd' Hm) as Hu.
  destruct Hok as (Hd & Hh & Hz). rewrite nodeID_of_eq by (done || lia). f_equal.
  destruct id as [x d]. unfold with_digit in *. cbn [mDepth mNodeID] in *.
  assert (0 < 16 ^ (63 - d)) by (apply Z.pow_pos_nonneg; lia).
  replace (64 - (d + 1)) with (63 - d) by lia. unfold lead. replace (64 - (d + 1)) with (63 - d) by lia.
  apply Z.div_exact in Hz; [|apply Z.pow_nonzero; lia]. replace (64 - d) with (63 - d + 1) in Hz by lia.
  rewrite Z.pow_add_r in Hz by lia. set (y := x / _) in Hz.
  replace (x + m * 16 ^ (63 - d)) with ((16 * y + m) * 16 ^ (63 - d)) by lia. rewrite Z.div_mul by lia. lia.
Qed.

Lemma getChildNodeID_ok id m : id_ok id → mDepth id < 64 → 0 <= m < 16 → id_ok (getChildNodeID id m).
Proof.
  intros Hok Hd Hm. unfold getChildNodeID. rewrite or_digit by done.
  apply nodeID_of_ok; [destruct Hok; lia|by apply with_digit_u256].
Qed.

Lemma getParentNodeID_child id m : id_ok id → mDepth id < 64 → 0 <= m < 16 → getParentNodeID (getChildNodeID id m) = id.
Proof.
  intros Hok Hd Hm. rewrite getChildNodeID_eq by done. pose proof (with_digit_u256 id m Hok Hd Hm) as Hu.
  pose proof Hok as (Hd0 & Hh & Hz). unfold getParentNodeID. cbn [mDepth mNodeID].
  replace (mDepth id + 1 - 1) with (mDepth id) by lia. rewrite nodeID_of_eq by (done || lia).
  destruct id as [x d]. unfold with_digit, lead in *. cbn [mDepth mNodeID] in *. f_equal.
  assert (0 < 16 ^ (63 - d)) by (apply Z.pow_pos_nonneg; lia).
  assert (16 ^ (64 - d) = 16 * 16 ^ (63 - d)) as H16.
  { replace (64 - d) with (63 - d + 1) by lia. rewrite Z.pow_add_r by lia. lia. }
  apply Z.div_exact in Hz; [|lia]. set (y := x / 16 ^ (64 - d)) in *. rewrite Hz at 1.
  rewrite (Z.mul_comm _ y), Z.div_add_l, Z.div_small by nia. rewrite Z.add_0_r, Z.mul_comm. symmetry. exact Hz.
Qed.

(** Following the digits of a hash gives the hash's own identifiers. *)
Lemma child_of_hash d h :
  0 <= d < 64 → is_u256 h → getChildNodeID (nodeID_of d h) (selectBranch (nodeID_of d h) h) = nodeID_of (d + 1) h.
Proof.
  intros Hd Hh. rewrite selectBranch_digit by (cbn; lia). cbn [nodeID_of mDepth].
  rewrite getChildNodeID_eq by (try apply digit_range; try (cbn; lia); apply nodeID_of_ok; (done || lia)).
  rewrite !nodeID_of_eq by (done || lia). unfold with_digit. cbn [mDepth mNodeID]. f_equal.
  rewrite lead_step by done. replace (64 - d) with (63 - d + 1) by lia. replace (64 - (d + 1)) with (63 - d) by lia.
  rewrite Z.pow_add_r by lia. lia.
Qed.

(** ** Order and wire format *)

Lemma id_lt_spec a b : id_lt a b = true ↔ mDepth a < mDepth b ∨ mDepth a = mDepth b ∧ mNodeID a < mNodeID b.
Proof. unfold id_lt. rewrite orb_true_iff, andb_true_iff, negb_true_iff, Z.ltb_ge, !Z.ltb_lt. lia. Qed.

Lemma getRawString_eq id : is_u256 (mNodeID id) → getRawString id = be_bytes 32 (mNodeID id) ++ [u8 (mDepth id)].
Proof. done. Qed.

Lemma nodeID_parse_raw id rest :
  is_u256 (mNodeID id) → 0 <= mDepth id < 256 → nodeID_parse (getRawString id ++ rest) = id.
Proof.
  intros Hh Hd. rewrite getRawString_eq by done. unfold nodeID_parse. rewrite !length_app, be_bytes_length.
  destruct (Z.ltb_spec (Z.of_nat (32 + length [u8 (mDepth id)] + length rest)) 33) as [Hlt|_]; [simpl in Hlt; lia|].
  rewrite <- app_assoc. rewrite take_app_length' by (by rewrite be_bytes_length).
  rewrite be_val_bytes_id by exact Hh. rewrite byte_at_app_r by (rewrite be_bytes_length; lia).
  rewrite be_bytes_length. change (byte_at ([u8 (mDepth id)] ++ rest) (32 - Z.of_nat 32)) with (u8 (mDepth id)).
  rewrite u8_id by (unfold is_u8; lia). by destruct id.
Qed.

(** ** The way down *)

(** One step towards a hash *)
Definition step_towards (h : Z) (id : SHAMapNodeID) : SHAMapNodeID := getChildNodeID id (selectBranch id h).

Lemma walk_down h n : is_u256 h → (n <= 64)%nat → Nat.iter n (step_towards h) rootID = nodeID_of (Z.of_nat n) h.
Proof.
  intros Hh. induction n as [|n IH]; intros Hn.
  - cbn [Nat.iter]. rewrite nodeID_of_eq by (done || lia). by rewrite lead_0 by done.
  - rewrite Nat.iter_succ, IH by lia. unfold step_towards. rewrite child_of_hash by (done || lia).
    f_equal. lia.
Qed.

(** Following a hash from the root, [n] steps lead to the identifier of depth [n] that the
    hash itself has, and after 64 steps to the hash; every identifier on the way is the parent of
    the next, and two hashes come to the same identifier exactly as long as their digits agree. *)
Theorem nodeID_walk h h' n :
  is_u256 h → is_u256 h' → (n <= 64)%nat →
  let id := Nat.iter n (step_towards h) rootID in
  id = nodeID_of (Z.of_nat n) h
  ∧ (n = 64%nat → mNodeID id = h)
  ∧ ((n < 64)%nat → getParentNodeID (step_towards h id) = id)
  ∧ (Nat.iter n (step_towards h') rootID = id ↔ lead (Z.of_nat n) h = lead (Z.of_nat n) h').
Proof.
  intros Hh Hh' Hn id. subst id. rewrite !walk_down by done. split; [done|]. rewrite !nodeID_of_eq by (done || lia).
  cbn [mNodeID]. split_and!.
  - intros ->. change (Z.of_nat 64) with 64. rewrite lead_64. change (16 ^ (64 - 64)) with 1. lia.
  - intros Hlt. rewrite <- nodeID_of_eq by (done || lia). apply getParentNodeID_child; [apply nodeID_of_ok; (done || lia)|cbn; lia|].
    rewrite selectBranch_digit by (cbn; lia). apply digit_range.
  - assert (0 < 16 ^ (64 - Z.of_nat n)) by (apply Z.pow_pos_nonneg; lia).
    split; [intros H1; injection H1 as H1; nia|by intros ->].
Qed.

Lemma nodeID_walk_witness : mNodeID (Nat.iter 64 (step_towards 12345) rootID) = 12345.
Proof.
  apply (nodeID_walk 12345 54321 64); [unfold is_u256; lia..|reflexivity].
Defined.

(** An identifier of the tree reads back from the wire, whatever follows it, and the order of
    identifiers is strict and total. *)
Theorem nodeID_wire id rest : id_ok id → nodeID_parse (getRawString id ++ rest) = id ∧ isValid id = true.
Proof.
  intros (Hd & Hh & _). split; [by apply nodeID_parse_raw; [|lia]|]. unfold isValid. rewrite Z.geb_leb.
  apply andb_true_iff. rewrite !Z.leb_le. lia.
Qed.

Theorem nodeID_order a b c :
  id_lt a a = false ∧ (id_lt a b = true → id_lt b c = true → id_lt a c = true)
  ∧ (id_lt a b = true ∨ id_eq a b = true ∨ id_lt b a = true) ∧ (id_eq a b = true ↔ a = b).
Proof.
  split; [apply not_true_iff_false; rewrite id_lt_spec; lia|]. rewrite !id_lt_spec. unfold id_eq. rewrite !andb_true_iff, !Z.eqb_eq.
  split; [lia|]. split; [lia|]. destruct a, b; cbn [mDepth mNodeID]. split; [by intros [-> ->]|by intros [= -> ->]].
Qed.
