(* ===== verification/SHAMapTreeNode.v ===== *)
(** * Nodes of the hash tree

    Model of [src/src/common/shamap/impl/SHAMapTreeNode.cpp], [SHAMapTreeNode.h] and
    [SHAMapItem.h]: a node, its hash, its two serialized forms and the operations that change it.
    The children of a node are pointers; [loc] is the type of addresses.  [mFullBelowGen], which
    only caches what synchronizing has found, is left out.

    The theorems show that both serialized forms read back as the node, and that the form that
    is hashed determines the node. *)

From S2P Require Import Prelude Bytes Serializer SHAMapNodeID.

Notation loc := positive.

(** ** Items and nodes *)

Record SHAMapItem := mkItem { i_tag : Z; i_data : blob }.

#[export] Instance SHAMapItem_eq_dec : EqDecision SHAMapItem.
Proof. solve_decision. Defined.

Inductive TNType := tnERROR | tnINNER | tnTRANSACTION_NM | tnTRANSACTION_MD | tnACCOUNT_STATE.

#[export] Instance TNType_eq_dec : EqDecision TNType.
Proof. solve_decision. Defined.

Inductive SHANodeFormat := snfPREFIX | snfWIRE | snfHASH.

Record TreeNode := mkNode {
  mHash : Z;
  mHashes : list Z;
  mChildren : list (option loc);
  mItem : option SHAMapItem;
  mSeq : Z;
  mType : TNType;
  mIsBranch : Z
}.

#[export] Instance TreeNode_eq_dec : EqDecision TreeNode.
Proof. solve_decision. Defined.

Definition zeros : list Z := replicate 16 0.
Definition nulls : list (option loc) := replicate 16 None.

(** [HashPrefix (a, b, c)] *)
Definition HashPrefix (a b c : Z) : Z :=
  let m_prefix := a in
  let m_prefix := u32 (Z.shiftl m_prefix 8 + b) in
  let m_prefix := u32 (Z.shiftl m_prefix 8 + c) in
  u32 (Z.shiftl m_prefix 8).

Definition transactionID : Z := HashPrefix 84 88 78.
Definition txNode : Z := HashPrefix 83 78 68.
Definition leafNode : Z := HashPrefix 77 76 78.
Definition innerNode : Z := HashPrefix 77 73 78.

(** ** Constructors *)

Definition newNode (seq : Z) : TreeNode := mkNode 0 zeros nulls None seq tnERROR 0.

Definition copyNode (node : TreeNode) (seq : Z) : TreeNode :=
  match mItem node with
  | Some item => mkNode (mHash node) zeros nulls (Some item) seq (mType node) (mIsBranch node)
  | None => mkNode (mHash node) (mHashes node) (mChildren node) None seq (mType node) (mIsBranch node)
  end.

(** ** Queries *)

Definition isLeaf (n : TreeNode) : bool :=
  match mType n with tnTRANSACTION_NM | tnTRANSACTION_MD | tnACCOUNT_STATE => true | _ => false end.
Definition isInner (n : TreeNode) : bool := match mType n with tnINNER => true | _ => false end.
Definition isInBounds (n : TreeNode) (id : SHAMapNodeID) : bool := negb (isInner n) || (mDepth id <? 64).
Definition node_isValid (n : TreeNode) : bool := match mType n with tnERROR => false | _ => true end.
Definition isInnerNode (n : TreeNode) : bool := match mItem n with None => true | Some _ => false end.
Definition isEmptyBranch (n : TreeNode) (m : Z) : bool := Z.land (mIsBranch n) (Z.shiftl 1 m) =? 0.
Definition isEmpty (n : TreeNode) : bool := mIsBranch n =? 0.
Definition hasItem_node (n : TreeNode) : bool := match mItem n with Some _ => true | None => false end.
Definition getChildHash (n : TreeNode) (m : Z) : Z := nth (Z.to_nat m) (mHashes n) 0.
Definition getChild (n : TreeNode) (m : Z) : option loc := nth (Z.to_nat m) (mChildren n) None.

(** [for (int i = 0; i < 16; ++i)] *)
Definition branches16 : list Z := Eval vm_compute in Z.of_nat <$> seq 0 16.

Definition getBranchCount (n : TreeNode) : Z :=
  foldl (λ count i, if isEmptyBranch n i then count else count + 1) 0 branches16.

(** ** Changes *)

Definition setSeq (n : TreeNode) (s : Z) : TreeNode :=
  mkNode (mHash n) (mHashes n) (mChildren n) (mItem n) s (mType n) (mIsBranch n).

Definition makeInner (n : TreeNode) : TreeNode := mkNode 0 zeros (mChildren n) None (mSeq n) tnINNER 0.

Definition setChild (n : TreeNode) (m : Z) (child : option loc) : TreeNode :=
  mkNode 0 (<[Z.to_nat m := 0]> (mHashes n)) (<[Z.to_nat m := child]> (mChildren n)) (mItem n) (mSeq n) (mType n)
    (match child with
     | Some _ => Z.lor (mIsBranch n) (Z.shiftl 1 m)
     | None => Z.land (mIsBranch n) (Z.lnot (Z.shiftl 1 m))
     end).

Definition shareChild (n : TreeNode) (m : Z) (child : loc) : TreeNode :=
  mkNode (mHash n) (mHashes n) (<[Z.to_nat m := Some child]> (mChildren n)) (mItem n) (mSeq n) (mType n) (mIsBranch n).

(** Bytes [add256] appends *)
Definition be256 (x : Z) : blob := be_bytes 32 x.

Section hash.
  (** [Serializer::getSHA512Half] *)
  Variable sha512half : blob → Z.

Definition getPrefixHash (prefix : Z) (data : blob) : Z := sha512half ((add32 prefix []).2 ++ data).

Definition updateHash (n : TreeNode) : TreeNode * bool :=
  let item_hash prefix :=
    match mItem n with
    | Some item => sha512half (addBitString (be256 (i_tag item)) (addRaw (i_data item) (add32 prefix []).2).2).2
    | None => 0
    end in
  let nh :=
    match mType n with
    | tnINNER => if negb (mIsBranch n =? 0) then getPrefixHash innerNode (concat (be256 <$> mHashes n)) else 0
    | tnTRANSACTION_NM => match mItem n with Some item => getPrefixHash transactionID (i_data item) | None => 0 end
    | tnACCOUNT_STATE => item_hash leafNode
    | tnTRANSACTION_MD => item_hash txNode
    | tnERROR => 0
    end in
  if nh =? mHash n then (n, false)
  else (mkNode nh (mHashes n) (mChildren n) (mItem n) (mSeq n) (mType n) (mIsBranch n), true).

Definition itemNode (item : SHAMapItem) (type : TNType) (seq : Z) : TreeNode :=
  (updateHash (mkNode 0 zeros nulls (Some item) seq type 0)).1.

(** The hashes of the children that are linked, which the caller reads, replace those kept. *)
Definition updateHashDeep (n : TreeNode) (child_hash : loc → Z) : TreeNode :=
  let hashes := zip_with (λ c h, match c with Some l => child_hash l | None => h end) (mChildren n) (mHashes n) in
  (updateHash (mkNode (mHash n) hashes (mChildren n) (mItem n) (mSeq n) (mType n) (mIsBranch n))).1.

Definition setItem (n : TreeNode) (i : SHAMapItem) (type : TNType) : TreeNode * bool :=
  updateHash (mkNode (mHash n) (mHashes n) (mChildren n) (Some i) (mSeq n) type (mIsBranch n)).

(** ** Serialized forms *)

(** An item followed by its tag *)
Definition add_item (n : TreeNode) (s : blob) : blob :=
  match mItem n with
  | Some item => (addBitString (be256 (i_tag item)) (addRaw (i_data item) s).2).2
  | None => s
  end.
Definition add_data (n : TreeNode) (s : blob) : blob :=
  match mItem n with Some item => (addRaw (i_data item) s).2 | None => s end.

Definition node_addRaw (n : TreeNode) (format : SHANodeFormat) (s : blob) : result blob :=
  match mType n, format with
  | tnERROR, _ => Throw "invalid I node type"
  | _, snfHASH => Ok (addBitString (be256 (mHash n)) s).2
  | tnINNER, snfPREFIX => Ok (foldl (λ s i, (addBitString (be256 (getChildHash n i)) s).2) (add32 innerNode s).2 branches16)
  | tnINNER, snfWIRE =>
      if getBranchCount n <? 12 then
        Ok (add8 3 (foldl (λ s i, if isEmptyBranch n i then s else (add8 i (addBitString (be256 (getChildHash n i)) s).2).2) s branches16)).2
      else Ok (add8 2 (foldl (λ s i, (addBitString (be256 (getChildHash n i)) s).2) s branches16)).2
  | tnACCOUNT_STATE, snfPREFIX => Ok (add_item n (add32 leafNode s).2)
  | tnACCOUNT_STATE, snfWIRE => Ok (add8 1 (add_item n s)).2
  | tnTRANSACTION_NM, snfPREFIX => Ok (add_data n (add32 transactionID s).2)
  | tnTRANSACTION_NM, snfWIRE => Ok (add8 0 (add_data n s)).2
  | tnTRANSACTION_MD, snfPREFIX => Ok (add_item n (add32 txNode s).2)
  | tnTRANSACTION_MD, snfWIRE => Ok (add8 4 (add_item n s)).2
  end.

(** [s.get256 (u, offset)], which leaves [u] as it was when there are not enough bytes *)
Definition get256 (u : Z) (s : blob) (offset : Z) : Z :=
  match getBitString 32 s offset with Some b => be_val b | None => u end.
Definition chopped (bytes : Z) (s : blob) : blob := match chop bytes s with Some s => s | None => s end.

(** An item whose last 32 bytes are its tag; [check] is whether a zero tag is refused *)
Definition parse_item (s : blob) (check : bool) (short invalid : string) : result SHAMapItem :=
  if sizeZ s <? 32 then Throw short
  else
    let u := get256 0 s (sizeZ s - 32) in
    if check && (u =? 0) then Throw invalid else Ok (mkItem u (chopped 32 s)).

(** All 16 hashes; a branch is there when its hash is not zero. *)
Definition parse_full (s : blob) : list Z * Z :=
  foldl (λ '(hs, br) i,
    let h := get256 (nth (Z.to_nat i) hs 0) s (i * 32) in
    (<[Z.to_nat i := h]> hs, if h =? 0 then br else Z.lor br (Z.shiftl 1 i))) (zeros, 0) branches16.

(** The hashes that are there, each with its branch: [n] rounds of the loop to go *)
Fixpoint parse_compressed (n : nat) (i : Z) (s : blob) (hs : list Z) (br : Z) : result (list Z * Z) :=
  match n with
  | O => Ok (hs, br)
  | S n =>
      match get8 s (32 + i * 33) with
      | None => Throw "short CI node"
      | Some pos =>
          if (pos <? 0) || (pos >=? 16) then Throw "invalid CI node"
          else
            let h := get256 (nth (Z.to_nat pos) hs 0) s (i * 33) in
            parse_compressed n (i + 1) s (<[Z.to_nat pos := h]> hs) (if h =? 0 then br else Z.lor br (Z.shiftl 1 pos))
      end
  end.

Definition leaf_of (item : SHAMapItem) (type : TNType) (seq : Z) : TreeNode := mkNode 0 zeros nulls (Some item) seq type 0.
Definition inner_of (p : list Z * Z) (seq : Z) : TreeNode := mkNode 0 p.1 nulls None seq tnINNER p.2.

Definition parse_wire (rawNode : blob) (seq : Z) : result TreeNode :=
  match last rawNode with
  | None => Throw "invalid node AW type"
  | Some type =>
      let s := take (length rawNode - 1) rawNode in
      let len := sizeZ s in
      if (type <? 0) || (type >? 4) then Throw "invalid node AW type"
      else if type =? 0 then Ok (leaf_of (mkItem (getPrefixHash transactionID s) s) tnTRANSACTION_NM seq)
      else if type =? 1 then item ← parse_item s true "short AS node" "invalid AS node"; Ok (leaf_of item tnACCOUNT_STATE seq)
      else if type =? 2 then if negb (len =? 512) then Throw "invalid FI node" else Ok (inner_of (parse_full s) seq)
      else if type =? 3 then p ← parse_compressed (Z.to_nat (len / 33)) 0 s zeros 0; Ok (inner_of p seq)
      else item ← parse_item s true "short TM node" "invalid TM node"; Ok (leaf_of item tnTRANSACTION_MD seq)
  end.

Definition parse_prefix (rawNode : blob) (seq : Z) : result TreeNode :=
  if sizeZ rawNode <? 4 then Throw "invalid P node"
  else
    let prefix := byte_at rawNode 0 in
    let prefix := Z.lor (u32 (Z.shiftl prefix 8)) (byte_at rawNode 1) in
    let prefix := Z.lor (u32 (Z.shiftl prefix 8)) (byte_at rawNode 2) in
    let prefix := Z.lor (u32 (Z.shiftl prefix 8)) (byte_at rawNode 3) in
    let s := drop 4 rawNode in
    if prefix =? transactionID then Ok (leaf_of (mkItem (sha512half rawNode) s) tnTRANSACTION_NM seq)
    else if prefix =? leafNode then item ← parse_item s true "short PLN node" "invalid PLN node"; Ok (leaf_of item tnACCOUNT_STATE seq)
    else if prefix =? innerNode then if negb (sizeZ s =? 512) then Throw "invalid PIN node" else Ok (inner_of (parse_full s) seq)
    else if prefix =? txNode then item ← parse_item s false "short TXN node" ""; Ok (leaf_of item tnTRANSACTION_MD seq)
    else Throw "invalid node prefix".

(** The constructor from bytes *)
Definition nodeOfRaw (rawNode : blob) (seq : Z) (format : SHANodeFormat) (hash : Z) (hashValid : bool) : result TreeNode :=
  n ← match format with
      | snfWIRE => parse_wire rawNode seq
      | snfPREFIX => parse_prefix rawNode seq
      | snfHASH => Throw "Unknown format"
      end;
  if hashValid then Ok (mkNode hash (mHashes n) (mChildren n) (mItem n) (mSeq n) (mType n) (mIsBranch n))
  else Ok (updateHash n).1.

End hash.

(** ** Branches *)

Lemma branches16_in i : i ∈ branches16 ↔ 0 <= i < 16.
Proof.
  unfold branches16. rewrite !elem_of_cons, elem_of_nil. split; [intros; destruct_or?; lia|].
  intros. destruct (decide (i < 8)); lia.
Qed.

Lemma isEmptyBranch_bit n i : 0 <= i → isEmptyBranch n i = negb (Z.testbit (mIsBranch n) i).
Proof.
  intros Hi. unfold isEmptyBranch.
  destruct (Z.testbit (mIsBranch n) i) eqn:Hb; cbn [negb].
  - apply Z.eqb_neq. intros Hz. apply (f_equal (λ x, Z.testbit x i)) in Hz.
    rewrite Z.land_spec, Hb, Z.shiftl_spec, Z.sub_diag, Z.bits_0 in Hz by lia. done.
  - apply Z.eqb_eq. apply Z.bits_inj'. intros k Hk. rewrite Z.land_spec, Z.shiftl_spec, Z.bits_0 by lia.
    destruct (decide (k = i)) as [->|]; [by rewrite Hb|]. 
    replace (Z.testbit 1 (k - i)) with false; [apply andb_false_r|].
    symmetry. destruct (decide (k < i)); [by rewrite Z.testbit_neg_r by lia|]. apply (Z.bits_above_log2 1); simpl; lia.
Qed.

Lemma testbit_one m i : 0 <= m → 0 <= i → Z.testbit (Z.shiftl 1 m) i = (i =? m).
Proof.
  intros. rewrite Z.shiftl_spec by lia. destruct (Z.eqb_spec i m) as [->|]; [by rewrite Z.sub_diag|].
  destruct (decide (i < m)); [by rewrite Z.testbit_neg_r by lia|]. apply (Z.bits_above_log2 1); simpl; lia.
Qed.

(** Setting and clearing a branch *)
Lemma setChild_branch n m c i :
  0 <= m < 16 → 0 <= i →
  isEmptyBranch (setChild n m c) i = if i =? m then (if c then false else true) else isEmptyBranch n i.
Proof.
  intros Hm Hi. rewrite !isEmptyBranch_bit by done. destruct c; simpl.
  - rewrite Z.lor_spec, testbit_one by lia. destruct (i =? m); [by rewrite orb_true_r|by rewrite orb_false_r].
  - rewrite Z.land_spec, Z.lnot_spec, testbit_one by lia. destruct (i =? m); [by rewrite andb_false_r|by rewrite andb_true_r].
Qed.

(** ** Round trip of the serialized forms *)

(** A node as the tree and the parser make it: an inner node has a branch exactly where it has a
    hash; the tag of a bare transaction is its hash, other tags are not zero. *)
Definition node_ok (sha512half : blob → Z) (n : TreeNode) : Prop :=
  match mType n, mItem n with
  | tnINNER, None =>
      length (mHashes n) = 16%nat ∧ Forall is_u256 (mHashes n) ∧ 0 <= mIsBranch n < 2 ^ 16
      ∧ ∀ i, 0 <= i < 16 → Z.testbit (mIsBranch n) i = negb (getChildHash n i =? 0)
  | tnTRANSACTION_NM, Some item =>
      mHashes n = zeros ∧ mIsBranch n = 0 ∧ Z.of_nat (length (i_data item)) < 2 ^ 30 ∧ Forall is_u8 (i_data item)
      ∧ i_tag item = getPrefixHash sha512half transactionID (i_data item)
  | tnTRANSACTION_MD, Some item | tnACCOUNT_STATE, Some item =>
      mHashes n = zeros ∧ mIsBranch n = 0 ∧ Z.of_nat (length (i_data item)) < 2 ^ 30 ∧ Forall is_u8 (i_data item)
      ∧ is_u256 (i_tag item) ∧ i_tag item ≠ 0
  | _, _ => False
  end.

Lemma be256_length x : length (be256 x) = 32%nat.
Proof. apply be_bytes_length. Qed.

(** Reading the 32 bytes of a number at their offset *)
Lemma get256_app u pre x post :
  is_u256 x → Z.of_nat (length (pre ++ be256 x ++ post)) < 2 ^ 31 →
  get256 u (pre ++ be256 x ++ post) (Z.of_nat (length pre)) = x.
Proof.
  intros Hx Hl. rewrite !length_app, be256_length in Hl. unfold get256, getBitString, past_end.
  rewrite s32_id by (unfold is_s32; lia). rewrite u64_id by (unfold is_u64; lia).
  unfold sizeZ. rewrite !length_app, be256_length.
  destruct (Z.gtb_spec (Z.of_nat (length pre) + 32) (Z.of_nat (length pre + (32 + length post)))) as [|_]; [lia|].
  pose proof (sub_bytes_app pre (be256 x) post) as Hs. rewrite be256_length in Hs. change (Z.of_nat 32) with 32 in Hs.
  rewrite Hs. by apply be_val_bytes_id.
Qed.

Lemma parse_item_app item check short invalid :
  Z.of_nat (length (i_data item)) < 2 ^ 30 → is_u256 (i_tag item) → i_tag item ≠ 0 →
  parse_item (i_data item ++ be256 (i_tag item)) check short invalid = Ok item.
Proof.
  intros Hl Ht Hz. unfold parse_item. pose proof (get256_app 0 (i_data item) (i_tag item) [] Ht) as Hg.
  rewrite app_nil_r, length_app, be256_length in Hg. unfold chopped, chop, past_end.
  rewrite u64_id by (unfold is_u64; lia). unfold sizeZ. rewrite length_app, be256_length.
  destruct (Z.ltb_spec (Z.of_nat (length (i_data item) + 32)) 32) as [|_]; [lia|].
  destruct (Z.gtb_spec 32 (Z.of_nat (length (i_data item) + 32))) as [|_]; [lia|].
  replace (Z.of_nat (length (i_data item) + 32) - 32) with (Z.of_nat (length (i_data item))) by lia.
  rewrite Hg by lia. rewrite Nat2Z.id, take_app_length.
  destruct (Z.eqb_spec (i_tag item) 0); [done|]. rewrite andb_false_r. by destruct item.
Qed.

(** The bits of the branches a loop collects *)
Lemma foldl_bits (f : Z → bool) l br i :
  (∀ j, j ∈ l → 0 <= j) → 0 <= i →
  Z.testbit (foldl (λ br j, if f j then br else Z.lor br (Z.shiftl 1 j)) br l) i
  = Z.testbit br i || bool_decide (i ∈ l ∧ f i = false).
Proof.
  revert br. induction l as [|j l IH]; intros br Hl Hi; cbn [foldl].
  { rewrite bool_decide_false; [by rewrite orb_false_r|]. intros [H _]. by apply not_elem_of_nil in H. }
  rewrite IH; [|intros k Hk; apply Hl; apply elem_of_cons; by right|done].
  assert (0 <= j) by (apply Hl; apply elem_of_cons; by left).
  destruct (f j) eqn:Hf.
  - f_equal. apply bool_decide_ext. rewrite elem_of_cons. naive_solver congruence.
  - rewrite Z.lor_spec, testbit_one by lia. destruct (Z.eqb_spec i j) as [->|Hne].
    + rewrite orb_true_r. cbn [orb]. rewrite bool_decide_true; [by rewrite orb_true_r|]. split; [by apply elem_of_cons; left|done].
    + rewrite orb_false_r. f_equal. apply bool_decide_ext. rewrite elem_of_cons. naive_solver.
Qed.

Lemma bits16_ext a b : 0 <= a < 2 ^ 16 → 0 <= b < 2 ^ 16 → (∀ i, 0 <= i < 16 → Z.testbit a i = Z.testbit b i) → a = b.
Proof.
  intros Ha Hb H. apply Z.bits_inj'. intros n Hn. destruct (decide (n < 16)); [by apply H|].
  assert (∀ x, 0 <= x < 2 ^ 16 → Z.testbit x n = false) as Hz; [|by rewrite !Hz].
  intros x Hx. destruct (decide (x = 0)) as [->|]; [by rewrite Z.bits_0|].
  apply Z.bits_above_log2; [lia|]. assert (Z.log2 x < 16) by (apply Z.log2_lt_pow2; lia). lia.
Qed.

Lemma foldl_bits_range (f : Z → bool) l br :
  (∀ j, j ∈ l → 0 <= j < 16) → 0 <= br < 2 ^ 16 →
  0 <= foldl (λ br j, if f j then br else Z.lor br (Z.shiftl 1 j)) br l < 2 ^ 16.
Proof.
  revert br. induction l as [|j l IH]; intros br Hl Hb; [done|]. simpl. apply IH; [intros; apply Hl; apply elem_of_cons; by right|].
  assert (0 <= j < 16) by (apply Hl; apply elem_of_cons; by left).
  destruct (f j); [done|]. assert (0 <= Z.shiftl 1 j) by (apply Z.shiftl_nonneg; lia).
  split; [apply Z.lor_nonneg; lia|]. destruct (decide (Z.lor br (Z.shiftl 1 j) = 0)); [lia|].
  apply Z.log2_lt_pow2; [pose proof (Z.lor_nonneg br (Z.shiftl 1 j)); lia|].
  rewrite Z.log2_lor by lia. apply Z.max_lub_lt.
  - destruct (decide (br = 0)) as [->|]; [simpl; lia|]. apply Z.log2_lt_pow2; lia.
  - rewrite Z.log2_shiftl by lia. simpl. lia.
Qed.

Lemma concat_be256_length hs : length (concat (be256 <$> hs)) = (32 * length hs)%nat.
Proof. induction hs as [|h hs IH]; [done|]. cbn [fmap list_fmap concat length]. rewrite length_app, be256_length, IH. lia. Qed.

Lemma get256_nth u hs i h :
  hs !! i = Some h → Forall is_u256 hs → (length hs <= 16)%nat →
  get256 u (concat (be256 <$> hs)) (Z.of_nat i * 32) = h.
Proof.
  intros Hi Hall Hlen. pose proof (lookup_lt_Some _ _ _ Hi) as Hlt. assert (is_u256 h) as Hh by by eapply Forall_lookup_1.
  assert (concat (be256 <$> hs) = concat (be256 <$> take i hs) ++ be256 h ++ concat (be256 <$> drop (S i) hs)) as Heq.
  { rewrite <- (take_drop_middle hs i h Hi) at 1. by rewrite fmap_app, concat_app. }
  assert (Z.of_nat i * 32 = Z.of_nat (length (concat (be256 <$> take i hs)))) as ->.
  { rewrite concat_be256_length, length_take. lia. }
  rewrite Heq. apply get256_app; [done|]. rewrite <- Heq, concat_be256_length. lia.
Qed.

(** Writing to the positions of a list one after the other *)
Notation write_all g := (foldl (λ hs i, <[Z.to_nat i := g i]> hs)).

Lemma write_all_lookup (g : Z → Z) l hs k :
  (∀ j, j ∈ l → 0 <= j < Z.of_nat (length hs)) → 0 <= k →
  write_all g hs l !! Z.to_nat k = if bool_decide (k ∈ l) then Some (g k) else hs !! Z.to_nat k.
Proof.
  revert hs. induction l as [|j l IH]; intros hs Hl Hk; cbn [foldl]; [done|].
  rewrite IH; [|intros i Hi; rewrite length_insert; apply Hl; apply elem_of_cons; by right|done].
  assert (0 <= j < Z.of_nat (length hs)) by (apply Hl; apply elem_of_cons; by left).
  destruct (bool_decide_reflect (k ∈ l)) as [Hin|Hout].
  - rewrite bool_decide_true; [done|]. apply elem_of_cons. by right.
  - destruct (decide (k = j)) as [->|Hne].
    + rewrite list_lookup_insert_eq by lia. rewrite bool_decide_true; [done|]. apply elem_of_cons. by left.
    + rewrite list_lookup_insert_ne by lia. rewrite bool_decide_false; [done|]. rewrite elem_of_cons. naive_solver.
Qed.

Lemma write_all_length (g : Z → Z) l hs : length (write_all g hs l) = length hs.
Proof. revert hs. induction l as [|j l IH]; intros hs; cbn [foldl]; [done|]. by rewrite IH, length_insert. Qed.

Lemma parse_full_spec hs :
  length hs = 16%nat → Forall is_u256 hs →
  parse_full (concat (be256 <$> hs))
  = (hs, foldl (λ br j, if nth (Z.to_nat j) hs 0 =? 0 then br else Z.lor br (Z.shiftl 1 j)) 0 branches16).
Proof.
  intros Hlen Hall. set (g j := nth (Z.to_nat j) hs 0).
  assert (∀ l a b, (∀ j, j ∈ l → 0 <= j < 16) →
    foldl (λ '(a, br) i, let h := get256 (nth (Z.to_nat i) a 0) (concat (be256 <$> hs)) (i * 32) in
       (<[Z.to_nat i := h]> a, if h =? 0 then br else Z.lor br (Z.shiftl 1 i))) (a, b) l
    = (write_all g a l, foldl (λ br j, if g j =? 0 then br else Z.lor br (Z.shiftl 1 j)) b l)) as Hfold.
  { intros l. induction l as [|j l IH]; intros a b Hl; [done|]. cbn [foldl].
    assert (0 <= j < 16) as Hj by (apply Hl; apply elem_of_cons; by left).
    assert (hs !! Z.to_nat j = Some (g j)) as Hg.
    { destruct (lookup_lt_is_Some_2 hs (Z.to_nat j)) as [x Hx]; [lia|]. rewrite Hx. unfold g. by rewrite (nth_lookup_Some _ _ _ _ Hx). }
    pose proof (get256_nth (nth (Z.to_nat j) a 0) hs _ _ Hg Hall ltac:(lia)) as Hget. rewrite Z2Nat.id in Hget by lia.
    cbv zeta. rewrite Hget. apply IH. intros k Hk. apply Hl. apply elem_of_cons. by right. }
  unfold parse_full. rewrite Hfold by (intros j; apply branches16_in). f_equal.
  apply list_eq. intros k. destruct (decide (k < 16)%nat) as [Hk|Hk].
  - pose proof (write_all_lookup g branches16 zeros (Z.of_nat k)) as Hw. rewrite Nat2Z.id in Hw.
    rewrite Hw; [|intros j; rewrite branches16_in; unfold zeros; rewrite length_replicate; lia|lia].
    rewrite bool_decide_true by (apply branches16_in; lia). unfold g. rewrite Nat2Z.id.
    destruct (lookup_lt_is_Some_2 hs k) as [x Hx]; [lia|]. by rewrite Hx, (nth_lookup_Some _ _ _ _ Hx).
  - rewrite !lookup_ge_None_2; [done|lia|]. rewrite write_all_length. unfold zeros. rewrite length_replicate. lia.
Qed.

(** The compressed form lists the hashes of [L] with their branches. *)
Definition compressed (g : Z → Z) (L : list Z) : blob := concat ((λ i, be256 (g i) ++ [i]) <$> L).

Lemma compressed_length g L : length (compressed g L) = (33 * length L)%nat.
Proof.
  unfold compressed. induction L as [|i L IH]; [done|]. cbn [fmap list_fmap concat length] in *. rewrite !length_app, be256_length, IH. simpl. lia.
Qed.

Lemma compressed_app g L1 L2 : compressed g (L1 ++ L2) = compressed g L1 ++ compressed g L2.
Proof. unfold compressed. by rewrite fmap_app, concat_app. Qed.

Lemma parse_compressed_spec g L2 : ∀ L1 hs br,
  (∀ i, i ∈ L1 ++ L2 → 0 <= i < 16 ∧ is_u256 (g i)) → Z.of_nat (length (L1 ++ L2)) < 2 ^ 20 →
  parse_compressed (length L2) (Z.of_nat (length L1)) (compressed g (L1 ++ L2)) hs br
  = Ok (write_all g hs L2, foldl (λ br j, if g j =? 0 then br else Z.lor br (Z.shiftl 1 j)) br L2).
Proof.
  induction L2 as [|i L2 IH]; intros L1 hs br Hall Hlen; [done|]. cbn [length parse_compressed].
  assert (0 <= i < 16 ∧ is_u256 (g i)) as [Hi Hg] by (apply Hall; apply elem_of_app; right; apply elem_of_cons; by left).
  assert (compressed g (L1 ++ i :: L2) = compressed g L1 ++ be256 (g i) ++ [i] ++ compressed g L2) as Heq.
  { rewrite compressed_app. unfold compressed at 2. cbn [fmap list_fmap concat]. by rewrite <- app_assoc. }
  rewrite length_app in Hlen. cbn [length] in Hlen.
  assert (Z.of_nat (length L1) * 33 = Z.of_nat (length (compressed g L1))) as Hoff by (rewrite compressed_length; lia).
  assert (get8 (compressed g (L1 ++ i :: L2)) (32 + Z.of_nat (length L1) * 33) = Some i) as ->.
  { unfold get8. rewrite u64_id by (unfold is_u64; lia). unfold sizeZ. rewrite compressed_length, length_app. cbn [length].
    destruct (Z.geb_spec (32 + Z.of_nat (length L1) * 33) (Z.of_nat (33 * (length L1 + S (length L2))))) as [|_]; [lia|].
    f_equal. rewrite Heq, app_assoc, byte_at_app_r; rewrite length_app, be256_length; [|lia].
    replace (32 + Z.of_nat (length L1) * 33 - Z.of_nat (length (compressed g L1) + 32)) with 0 by lia. done. }
  destruct (Z.ltb_spec i 0) as [|_]; [lia|]. destruct (Z.geb_spec i 16) as [|_]; [lia|]. cbn [orb].
  assert (∀ u, get256 u (compressed g (L1 ++ i :: L2)) (Z.of_nat (length L1) * 33) = g i) as Hget.
  { intros u. rewrite Heq, Hoff. apply get256_app; [done|]. rewrite <- Heq, compressed_length, length_app. cbn [length]. lia. }
  cbv zeta. rewrite Hget. specialize (IH (L1 ++ [i])). rewrite <- (app_assoc L1 [i] L2) in IH. cbn [app] in IH.
  replace (Z.of_nat (length L1) + 1) with (Z.of_nat (length (L1 ++ [i]))) by (rewrite length_app; cbn [length]; lia).
  apply IH; [done|]. rewrite length_app. cbn [length]. lia.
Qed.

(** The code's loops write these forms. *)
Lemma fold_full (n : TreeNode) s :
  length (mHashes n) = 16%nat →
  foldl (λ s i, (addBitString (be256 (getChildHash n i)) s).2) s branches16 = s ++ concat (be256 <$> mHashes n).
Proof.
  intros Hlen. unfold getChildHash. destruct n as [a hs c d e f g]. cbn [mHashes] in *.
  do 16 (destruct hs as [|? hs]; [done|]). destruct hs; [|done]. cbn -[be256]. by rewrite <- !app_assoc, app_nil_r.
Qed.

Lemma fold_compressed (n : TreeNode) l s :
  foldl (λ s i, if isEmptyBranch n i then s else (add8 i (addBitString (be256 (getChildHash n i)) s).2).2) s l
  = s ++ compressed (getChildHash n) (filter (λ i, isEmptyBranch n i = false) l).
Proof.
  revert s. induction l as [|i l IH]; intros s; cbn [foldl]; [by rewrite app_nil_r|].
  rewrite IH, filter_cons. destruct (isEmptyBranch n i); [by rewrite decide_False|]. rewrite decide_True by done.
  unfold compressed at 2. cbn [fmap list_fmap concat]. simpl. by rewrite <- !app_assoc.
Qed.

(** ** The property *)

Section roundtrip.
  Context (sha512half : blob → Z).

Lemma inner_bits n :
  node_ok sha512half n → mType n = tnINNER →
  foldl (λ br j, if getChildHash n j =? 0 then br else Z.lor br (Z.shiftl 1 j)) 0 branches16 = mIsBranch n.
Proof.
  unfold node_ok. intros Hok Ht. rewrite Ht in Hok. destruct (mItem n); [done|]. destruct Hok as (_ & _ & Hb & Hbit).
  apply bits16_ext; [apply foldl_bits_range; [intros j; apply branches16_in|lia]|done|].
  intros i Hi. rewrite foldl_bits by (lia || (intros j; rewrite branches16_in; lia)). rewrite Z.bits_0, Hbit by done. cbn [orb].
  destruct (Z.eqb_spec (getChildHash n i) 0) as [|]; cbn [negb]; [apply bool_decide_false; naive_solver|apply bool_decide_true].
  split; [by apply branches16_in|done].
Qed.

Lemma inner_compressed n :
  node_ok sha512half n → mType n = tnINNER →
  let L := filter (λ i, isEmptyBranch n i = false) branches16 in
  write_all (getChildHash n) zeros L = mHashes n
  ∧ foldl (λ br j, if getChildHash n j =? 0 then br else Z.lor br (Z.shiftl 1 j)) 0 L = mIsBranch n
  ∧ ∀ i, i ∈ L → 0 <= i < 16 ∧ is_u256 (getChildHash n i).
Proof.
  intros Hok Ht L. unfold node_ok in Hok. rewrite Ht in Hok. destruct (mItem n); [done|]. destruct Hok as (Hlen & Hall & Hb & Hbit).
  assert (∀ i, 0 <= i < 16 → mHashes n !! Z.to_nat i = Some (getChildHash n i)) as Hnth.
  { intros i Hi. destruct (lookup_lt_is_Some_2 (mHashes n) (Z.to_nat i)) as [x Hx]; [lia|].
    rewrite Hx. unfold getChildHash. by rewrite (nth_lookup_Some _ _ _ _ Hx). }
  assert (∀ i, i ∈ L ↔ 0 <= i < 16 ∧ getChildHash n i ≠ 0) as HL.
  { intros i. unfold L. rewrite list_elem_of_filter, branches16_in. rewrite <- Z.eqb_neq. split; intros [H1 H2].
    - split; [done|]. by rewrite isEmptyBranch_bit, Hbit, negb_involutive in H1 by lia.
    - split; [|done]. by rewrite isEmptyBranch_bit, Hbit, negb_involutive by lia. }
  split; [|split].
  - apply list_eq. intros k. destruct (decide (k < 16)%nat) as [Hk|Hk].
    + pose proof (write_all_lookup (getChildHash n) L zeros (Z.of_nat k)) as Hw. rewrite Nat2Z.id in Hw.
      rewrite Hw; [|intros j [Hj _]%HL; unfold zeros; rewrite length_replicate; lia|lia].
      specialize (Hnth (Z.of_nat k) ltac:(lia)). rewrite Nat2Z.id in Hnth. rewrite Hnth.
      destruct (bool_decide_reflect (Z.of_nat k ∈ L)) as [|Hn]; [done|]. rewrite HL in Hn.
      unfold zeros. rewrite lookup_replicate_2 by lia. f_equal. lia.
    + rewrite !lookup_ge_None_2; [done|lia|]. rewrite write_all_length. unfold zeros. rewrite length_replicate. lia.
  - apply bits16_ext; [apply foldl_bits_range; [intros j [Hj _]%HL; lia|lia]|done|].
    intros i Hi. rewrite foldl_bits by (lia || (intros j [Hj _]%HL; lia)). rewrite Z.bits_0, Hbit by done. cbn [orb].
    destruct (Z.eqb_spec (getChildHash n i) 0) as [|]; cbn [negb]; [apply bool_decide_false; naive_solver|apply bool_decide_true].
    split; [by apply HL|done].
  - intros i [Hi Hz]%HL. split; [done|]. eapply Forall_lookup_1; [exact Hall|]. by apply Hnth.
Qed.

(** What the parser makes of the bytes of a node *)
Definition reread (n : TreeNode) (seq hash : Z) : TreeNode :=
  mkNode hash (mHashes n) nulls (mItem n) seq (mType n) (mIsBranch n).

Lemma wire_type raw type seq :
  parse_wire sha512half (raw ++ [type]) seq
  = if (type <? 0) || (type >? 4) then Throw "invalid node AW type"
    else if type =? 0 then Ok (leaf_of (mkItem (getPrefixHash sha512half transactionID raw) raw) tnTRANSACTION_NM seq)
    else if type =? 1 then item ← parse_item raw true "short AS node" "invalid AS node"; Ok (leaf_of item tnACCOUNT_STATE seq)
    else if type =? 2 then if negb (sizeZ raw =? 512) then Throw "invalid FI node" else Ok (inner_of (parse_full raw) seq)
    else if type =? 3 then p ← parse_compressed (Z.to_nat (sizeZ raw / 33)) 0 raw zeros 0; Ok (inner_of p seq)
    else item ← parse_item raw true "short TM node" "invalid TM node"; Ok (leaf_of item tnTRANSACTION_MD seq).
Proof.
  unfold parse_wire. rewrite last_snoc, length_app. cbn [length]. rewrite Nat.add_sub, take_app_length. done.
Qed.

Lemma prefix_type p b raw seq :
  (add32 p []).2 = b → length b = 4%nat →
  Z.lor (u32 (Z.shiftl (Z.lor (u32 (Z.shiftl (Z.lor (u32 (Z.shiftl (byte_at b 0) 8)) (byte_at b 1)) 8)) (byte_at b 2)) 8)) (byte_at b 3) = p →
  parse_prefix sha512half (b ++ raw) seq
  = if p =? transactionID then Ok (leaf_of (mkItem (sha512half (b ++ raw)) raw) tnTRANSACTION_NM seq)
    else if p =? leafNode then item ← parse_item raw true "short PLN node" "invalid PLN node"; Ok (leaf_of item tnACCOUNT_STATE seq)
    else if p =? innerNode then if negb (sizeZ raw =? 512) then Throw "invalid PIN node" else Ok (inner_of (parse_full raw) seq)
    else if p =? txNode then item ← parse_item raw false "short TXN node" ""; Ok (leaf_of item tnTRANSACTION_MD seq)
    else Throw "invalid node prefix".
Proof.
  intros _ Hb Hp. unfold parse_prefix, sizeZ at 1. rewrite length_app, Hb.
  destruct (Z.ltb_spec (Z.of_nat (4 + length raw)) 4) as [|_]; [lia|].
  rewrite !byte_at_app_l by lia. cbv zeta. rewrite Hp. by rewrite drop_app_length' by done.
Qed.

Lemma leaf_reread n item type seq hash :
  mItem n = Some item → mHashes n = zeros → mIsBranch n = 0 → mType n = type →
  mkNode hash (mHashes (leaf_of item type seq)) (mChildren (leaf_of item type seq)) (mItem (leaf_of item type seq))
    (mSeq (leaf_of item type seq)) (mType (leaf_of item type seq)) (mIsBranch (leaf_of item type seq)) = reread n seq hash.
Proof. intros H1 H2 H3 H4. unfold reread, leaf_of. simpl. congruence. Qed.

(** Evaluate the tests of a literal. *)
Ltac num_tests := cbn [Z.ltb Z.gtb Z.compare orb Z.eqb Pos.eqb Pos.compare Pos.compare_cont].

(** The four prefixes are written and read as themselves. *)
Definition prefix_reads (p : Z) : Prop :=
  let b := (add32 p []).2 in
  length b = 4%nat ∧
  Z.lor (u32 (Z.shiftl (Z.lor (u32 (Z.shiftl (Z.lor (u32 (Z.shiftl (byte_at b 0) 8)) (byte_at b 1)) 8)) (byte_at b 2)) 8)) (byte_at b 3) = p.

Lemma prefixes_read : prefix_reads transactionID ∧ prefix_reads txNode ∧ prefix_reads leafNode ∧ prefix_reads innerNode.
Proof. vm_compute. tauto. Qed.

Lemma leaf_wire n item seq :
  node_ok sha512half n → mItem n = Some item →
  ∃ raw, node_addRaw n snfWIRE [] = Ok raw ∧ parse_wire sha512half raw seq = Ok (leaf_of item (mType n) seq).
Proof.
  unfold node_ok. intros Hok Hi. rewrite Hi in Hok. unfold node_addRaw, add_item, add_data. rewrite Hi.
  unfold add8, addRaw, addBitString. cbn [snd app].
  destruct (mType n); try done; destruct Hok as (Hz & Hb & Hl & _ & Htag); (eexists; split; [reflexivity|]); rewrite wire_type; num_tests.
  - rewrite <- Htag. by destruct item.
  - rewrite parse_item_app by tauto. done.
  - rewrite parse_item_app by tauto. done.
Qed.

Lemma leaf_prefix n item seq :
  node_ok sha512half n → mItem n = Some item →
  ∃ raw, node_addRaw n snfPREFIX [] = Ok raw ∧ parse_prefix sha512half raw seq = Ok (leaf_of item (mType n) seq)
    ∧ mHash (updateHash sha512half n).1 = sha512half raw.
Proof.
  unfold node_ok. intros Hok Hi. rewrite Hi in Hok. unfold node_addRaw, add_item, add_data, updateHash, getPrefixHash. rewrite Hi.
  unfold addRaw, addBitString. cbn [snd]. destruct prefixes_read as ([H1 H1'] & [H2 H2'] & [H3 H3'] & _).
  destruct (mType n); try done; destruct Hok as (Hz & Hb & Hl & _ & Htag); (eexists; split; [reflexivity|]);
    rewrite <- ?app_assoc; (split; [|case_if; simpl; [symmetry; by apply Z.eqb_eq|done]]).
  - rewrite (prefix_type transactionID) by done. rewrite Z.eqb_refl. unfold getPrefixHash in Htag. rewrite <- Htag. by destruct item.
  - rewrite (prefix_type txNode) by done. change (txNode =? transactionID) with false. change (txNode =? leafNode) with false.
    change (txNode =? innerNode) with false. rewrite Z.eqb_refl. cbv iota. rewrite parse_item_app by tauto. done.
  - rewrite (prefix_type leafNode) by done. change (leafNode =? transactionID) with false. rewrite Z.eqb_refl. cbv iota.
    rewrite parse_item_app by tauto. done.
Qed.

Lemma inner_wire n seq :
  node_ok sha512half n → mItem n = None → mType n = tnINNER →
  ∃ raw, node_addRaw n snfWIRE [] = Ok raw ∧ parse_wire sha512half raw seq = Ok (inner_of (mHashes n, mIsBranch n) seq).
Proof.
  intros Hok Hi Ht. pose proof (inner_bits n Hok Ht) as Hbits. pose proof (inner_compressed n Hok Ht) as (Hw & Hb & HL).
  unfold node_ok in Hok. rewrite Hi, Ht in Hok. destruct Hok as (Hlen & Hall & _ & _).
  unfold node_addRaw. rewrite Ht. destruct (getBranchCount n <? 12); (eexists; split; [reflexivity|]).
  - rewrite (fold_compressed n branches16 []). unfold add8. cbn [app snd]. rewrite wire_type. num_tests.
    set (L := filter _ _) in *. unfold sizeZ. rewrite compressed_length.
    replace (Z.to_nat (Z.of_nat (33 * length L) / 33)) with (length L) by (rewrite Nat2Z.inj_mul, Z.mul_comm, Z.div_mul by lia; lia).
    pose proof (parse_compressed_spec (getChildHash n) L [] zeros 0) as Hp. cbn [length app] in Hp. change (Z.of_nat 0) with 0 in Hp.
    rewrite Hp; [|done|]; [by rewrite Hw, Hb|]. pose proof (length_filter (λ i, isEmptyBranch n i = false) branches16) as Hle.
    fold L in Hle. change (length branches16) with 16%nat in Hle. lia.
  - rewrite fold_full by done. unfold add8. cbn [app snd]. rewrite wire_type. num_tests.
    unfold sizeZ. rewrite concat_be256_length, Hlen. cbn [Z.of_nat Nat.mul Nat.add negb Z.eqb Pos.eqb].
    rewrite parse_full_spec by done. rewrite <- Hbits. done.
Qed.

Lemma inner_prefix n seq :
  node_ok sha512half n → mItem n = None → mType n = tnINNER →
  ∃ raw, node_addRaw n snfPREFIX [] = Ok raw ∧ parse_prefix sha512half raw seq = Ok (inner_of (mHashes n, mIsBranch n) seq)
    ∧ (mIsBranch n ≠ 0 → mHash (updateHash sha512half n).1 = sha512half raw).
Proof.
  intros Hok Hi Ht. pose proof (inner_bits n Hok Ht) as Hbits.
  unfold node_ok in Hok. rewrite Hi, Ht in Hok. destruct Hok as (Hlen & Hall & _ & _). destruct prefixes_read as (_ & _ & _ & [H1 H1']).
  unfold node_addRaw. rewrite Ht. eexists. split; [reflexivity|]. rewrite fold_full by done. split.
  - rewrite (prefix_type innerNode) by done. change (innerNode =? transactionID) with false. change (innerNode =? leafNode) with false.
    rewrite Z.eqb_refl. unfold sizeZ. rewrite concat_be256_length, Hlen. cbn [Z.of_nat Nat.mul Nat.add negb Z.eqb Pos.eqb].
    rewrite parse_full_spec by done. rewrite <- Hbits. done.
  - intros Hb. unfold updateHash, getPrefixHash. rewrite Ht. destruct (Z.eqb_spec (mIsBranch n) 0); [done|]. cbn [negb].
    case_if; simpl; [symmetry; by apply Z.eqb_eq|done].
Qed.
End roundtrip.

(** C33: A node reads back from both of its serialized forms, the one for the wire (compressed when
    it has fewer than 12 branches) and the one that is hashed; and its hash is the hash of the
    latter, or zero for an inner node without branches. *)
Theorem node_roundtrip sha512half n seq hash fmt :
  node_ok sha512half n → fmt ≠ snfHASH →
  ∃ raw, node_addRaw n fmt [] = Ok raw
    ∧ nodeOfRaw sha512half raw seq fmt hash true = Ok (reread n seq hash)
    ∧ (fmt = snfPREFIX → mType n ≠ tnINNER ∨ mIsBranch n ≠ 0 → mHash (updateHash sha512half n).1 = sha512half raw).
Proof.
  intros Hok Hf. destruct (mItem n) as [item|] eqn:Hi.
  - assert (mHashes n = zeros ∧ mIsBranch n = 0) as [Hz Hb].
    { unfold node_ok in Hok. rewrite Hi in Hok. destruct (mType n); tauto. }
    destruct fmt; [|destruct (leaf_wire sha512half n item seq Hok Hi) as (raw & H1 & H2)|done].
    + destruct (leaf_prefix sha512half n item seq Hok Hi) as (raw & H1 & H2 & H3). exists raw.
      split; [done|]. split; [|done]. unfold nodeOfRaw. rewrite H2. cbn -[leaf_of]. f_equal. by apply leaf_reread.
    + exists raw. split; [done|]. split; [|done]. unfold nodeOfRaw. rewrite H2. cbn -[leaf_of]. f_equal. by apply leaf_reread.
  - assert (mType n = tnINNER) as Ht by (unfold node_ok in Hok; rewrite Hi in Hok; by destruct (mType n)).
    destruct fmt; [|destruct (inner_wire sha512half n seq Hok Hi Ht) as (raw & H1 & H2)|done].
    + destruct (inner_prefix sha512half n seq Hok Hi Ht) as (raw & H1 & H2 & H3). exists raw.
      split; [done|]. split; [|intros _ [?|?]; [done|by apply H3]]. unfold nodeOfRaw. rewrite H2. cbn. unfold reread. by rewrite Hi, Ht.
    + exists raw. split; [done|]. split; [|done]. unfold nodeOfRaw. rewrite H2. cbn. unfold reread. by rewrite Hi, Ht.
Qed.

Lemma node_roundtrip_witness :
  let n := mkNode 9 (<[2%nat := 77]> (<[5%nat := 88]> zeros)) nulls None 3 tnINNER 36 in
  ∃ raw, node_addRaw n snfWIRE [] = Ok raw ∧ length raw = 67%nat
    ∧ nodeOfRaw (λ _, 1) raw 4 snfWIRE 9 true = Ok (reread n 4 9).
Proof.
  intros n. destruct (node_roundtrip (λ _, 1) n 4 9 snfWIRE) as (raw & H1 & H2 & _).
  - unfold node_ok, n. cbn [mType mItem]. split; [reflexivity|]. split.
    { apply Forall_forall. intros x Hx. unfold zeros in Hx. cbn in Hx. rewrite !elem_of_cons, elem_of_nil in Hx. unfold is_u256. lia. }
    split; [cbn [mIsBranch]; lia|]. intros i Hi. apply branches16_in in Hi. unfold branches16 in Hi. rewrite !elem_of_cons, elem_of_nil in Hi.
    destruct_or!; subst; done.
  - done.
  - exists raw. split; [exact H1|]. split; [|exact H2]. vm_compute in H1. injection H1 as <-. reflexivity.
Defined.
