(* ===== verification/SHAMap.v ===== *)
(** * The hash tree

    Model of [src/src/common/shamap/impl/SHAMap.cpp]: a map from 256-bit tags to items, kept as a
    tree of 16-way nodes in which every node carries the hash of what is below it.  The nodes are
    objects of a heap that several maps share: a map may change a node only when the node's
    sequence number is its own, and otherwise copies it first ([unshareNode]).  Stacks are lists
    with the top first.

    The model is of maps whose nodes are in memory ([setUnbacked], or a map whose children are
    all linked): a child that is not linked is a missing node, which the code would look up in
    the node store.  A loop that descends takes the number of nodes it may visit; 65, one more
    than the number of digits of a tag, is enough, and the theorems show that no result is
    [out_of_fuel].  Assertions are not executed. *)

From S2P Require Import Prelude Bytes Serializer SHAMapNodeID SHAMapTreeNode.

Notation heap := (gmap loc TreeNode).

Inductive SHAMapState := Modifying | Immutable | Synching | Floating | Invalid.

Record SHAMap := mkMap { m_seq : Z; m_root : loc; m_state : SHAMapState }.

Definition set_root (m : SHAMap) (l : loc) : SHAMap := mkMap (m_seq m) l (m_state m).
Definition setImmutable (m : SHAMap) : SHAMap := mkMap (m_seq m) (m_root m) Immutable.

Definition out_of_fuel : string := "out of fuel".
Definition SHAMapMissingNode : string := "SHAMapMissingNode".
Definition null_pointer : string := "null pointer".

Definition max_depth : nat := 65.

(** ** The heap *)

Definition deref (h : heap) (l : loc) : result TreeNode :=
  match h !! l with Some n => Ok n | None => Throw null_pointer end.

(** [std::make_shared]: a new address *)
Definition next_loc (h : heap) : loc := fresh (dom h : gset loc).
Definition alloc (h : heap) (n : TreeNode) : loc * heap := (next_loc h, <[next_loc h := n]> h).

(** The child of a node, as [descend] and [descendThrow] of a map that is not backed find it *)
Definition descendThrow (n : TreeNode) (branch : Z) : result loc :=
  match getChild n branch with Some c => Ok c | None => Throw SHAMapMissingNode end.

Notation NodeStack := (list (loc * SHAMapNodeID)).

(** The constructor of an empty map *)
Definition newMap (h : heap) (seq : Z) : SHAMap * heap :=
  let '(l, h) := alloc h (makeInner (newNode seq)) in (mkMap seq l Modifying, h).

(** ** Walking *)

Fixpoint getStack_loop (fuel : nat) (h : heap) (id : Z) (include : bool) (node : loc) (nodeID : SHAMapNodeID) (stack : NodeStack) : result NodeStack :=
  match fuel with
  | O => Throw out_of_fuel
  | S fuel =>
      n ← deref h node;
      if negb (isLeaf n) then
        let stack := (node, nodeID) :: stack in
        let branch := selectBranch nodeID id in
        if isEmptyBranch n branch then Ok stack
        else
          child ← descendThrow n branch;
          getStack_loop fuel h id include child (getChildNodeID nodeID branch) stack
      else
        match mItem n with
        | Some item => if include || (i_tag item =? id) then Ok ((node, nodeID) :: stack) else Ok stack
        | None => Throw null_pointer
        end
  end.

Definition getStack (m : SHAMap) (h : heap) (id : Z) (include_nonmatching_leaf : bool) : result NodeStack :=
  getStack_loop max_depth h id include_nonmatching_leaf (m_root m) rootID [].

Fixpoint walkTo_loop (fuel : nat) (h : heap) (id : Z) (inNode : loc) (nodeID : SHAMapNodeID) : result (option TreeNode) :=
  match fuel with
  | O => Throw out_of_fuel
  | S fuel =>
      n ← deref h inNode;
      if isInner n then
        let branch := selectBranch nodeID id in
        if isEmptyBranch n branch then Ok None
        else child ← descendThrow n branch; walkTo_loop fuel h id child (getChildNodeID nodeID branch)
      else
        match mItem n with
        | Some item => Ok (if i_tag item =? id then Some n else None)
        | None => Throw null_pointer
        end
  end.

Definition walkToPointer (m : SHAMap) (h : heap) (id : Z) : result (option TreeNode) :=
  walkTo_loop max_depth h id (m_root m) rootID.

Definition peekItem (m : SHAMap) (h : heap) (id : Z) : result (option SHAMapItem) :=
  leaf ← walkToPointer m h id; Ok (leaf ≫= mItem).

Definition hasItem (m : SHAMap) (h : heap) (id : Z) : result bool :=
  leaf ← walkToPointer m h id; Ok (match leaf with Some _ => true | None => false end).

(** [firstBelow] and [lastBelow]: the branches are tried in the given order. *)
Fixpoint below_loop (order : list Z) (fuel : nat) (h : heap) (node : loc) : result (option TreeNode) :=
  match fuel with
  | O => Throw out_of_fuel
  | S fuel =>
      n ← deref h node;
      if hasItem_node n then Ok (Some n)
      else
        match find (λ i, negb (isEmptyBranch n i)) order with
        | Some i => child ← descendThrow n i; below_loop order fuel h child
        | None => Ok None
        end
  end.

Definition firstBelow (h : heap) (node : loc) : result (option TreeNode) := below_loop branches16 max_depth h node.
Definition lastBelow (h : heap) (node : loc) : result (option TreeNode) := below_loop (reverse branches16) max_depth h node.

Definition peekFirstItem (m : SHAMap) (h : heap) : result (option SHAMapItem) :=
  node ← firstBelow h (m_root m); Ok (node ≫= mItem).
Definition peekLastItem (m : SHAMap) (h : heap) : result (option SHAMapItem) :=
  node ← lastBelow h (m_root m); Ok (node ≫= mItem).

(** The branches behind and before [b] *)
Definition after_branch (b : Z) : list Z := filter (λ i, b < i) branches16.
Definition before_branch (b : Z) : list Z := reverse (filter (λ i, i < b) branches16).

Fixpoint next_loop (h : heap) (id : Z) (stack : NodeStack) : result (option SHAMapItem) :=
  match stack with
  | [] => Ok None
  | (node, nodeID) :: stack =>
      n ← deref h node;
      if isLeaf n then
        match mItem n with
        | Some item => if i_tag item >? id then Ok (Some item) else next_loop h id stack
        | None => Throw null_pointer
        end
      else
        match find (λ i, negb (isEmptyBranch n i)) (after_branch (selectBranch nodeID id)) with
        | Some i =>
            child ← descendThrow n i;
            leaf ← firstBelow h child;
            match leaf with
            | None => Throw "missing/corrupt node"
            | Some leaf => if isInner leaf then Throw "missing/corrupt node" else Ok (mItem leaf)
            end
        | None => next_loop h id stack
        end
  end.

Definition peekNextItem (m : SHAMap) (h : heap) (id : Z) : result (option SHAMapItem) :=
  stack ← getStack m h id true; next_loop h id stack.

Fixpoint prev_loop (h : heap) (id : Z) (stack : NodeStack) : result (option SHAMapItem) :=
  match stack with
  | [] => Ok None
  | (node, nodeID) :: stack =>
      n ← deref h node;
      if isLeaf n then
        match mItem n with
        | Some item => if i_tag item <? id then Ok (Some item) else prev_loop h id stack
        | None => Throw null_pointer
        end
      else
        match find (λ i, negb (isEmptyBranch n i)) (before_branch (selectBranch nodeID id)) with
        | Some i =>
            child ← descendThrow n i;
            leaf ← lastBelow h child;
            match leaf with Some leaf => Ok (mItem leaf) | None => Throw null_pointer end
        | None => prev_loop h id stack
        end
  end.

Definition peekPrevItem (m : SHAMap) (h : heap) (id : Z) : result (option SHAMapItem) :=
  stack ← getStack m h id true; prev_loop h id stack.

(** The only non-empty branch of a node: [Ok None] when there are two *)
Fixpoint only_branch (n : TreeNode) (order : list Z) (nextNode : option loc) : result (option (option loc)) :=
  match order with
  | [] => Ok (Some nextNode)
  | i :: order =>
      if isEmptyBranch n i then only_branch n order nextNode
      else
        match nextNode with
        | Some _ => Ok None
        | None => child ← descendThrow n i; only_branch n order (Some child)
        end
  end.

Fixpoint onlyBelow_loop (fuel : nat) (h : heap) (node : loc) : result (option SHAMapItem) :=
  match fuel with
  | O => Throw out_of_fuel
  | S fuel =>
      n ← deref h node;
      if negb (isLeaf n) then
        next ← only_branch n branches16 None;
        match next with
        | None => Ok None
        | Some None => Ok None
        | Some (Some child) => onlyBelow_loop fuel h child
        end
      else Ok (mItem n)
  end.

Definition onlyBelow (h : heap) (node : loc) : result (option SHAMapItem) := onlyBelow_loop max_depth h node.

(** ** Changing *)

Section change.
  Variable sha512half : blob → Z.

(** Copy on write: the address to work on *)
Definition unshareNode (m : SHAMap) (h : heap) (node : loc) (nodeID : SHAMapNodeID) : result (loc * SHAMap * heap) :=
  n ← deref h node;
  if negb (mSeq n =? m_seq m) then
    let '(l, h) := alloc h (copyNode n (m_seq m)) in
    Ok (l, if isRoot nodeID then set_root m l else m, h)
  else Ok (node, m, h).

(** [node->f (...)] on the object at an address *)
Definition modify (h : heap) (l : loc) (f : TreeNode → TreeNode) : result heap :=
  n ← deref h l; Ok (<[l := f n]> h).

Fixpoint dirtyUp (m : SHAMap) (h : heap) (stack : NodeStack) (target : Z) (child : loc) : result (SHAMap * heap) :=
  match stack with
  | [] => Ok (m, h)
  | (node, nodeID) :: stack =>
      let branch := selectBranch nodeID target in
      '(node, m, h) ← unshareNode m h node nodeID;
      h ← modify h node (λ n, setChild n branch (Some child));
      dirtyUp m h stack target node
  end.

(** [isTransaction] and [hasMeta] name the type of the leaf. *)
Definition leaf_type (isTransaction hasMeta : bool) : TNType :=
  if negb isTransaction then tnACCOUNT_STATE else if hasMeta then tnTRANSACTION_MD else tnTRANSACTION_NM.

(** The loop that makes inner nodes for as long as both tags take the same branch: the node where
    they part, with its two branches, and the stack *)
Fixpoint split_loop (fuel : nat) (m : SHAMap) (h : heap) (tag other : Z) (node : loc) (nodeID : SHAMapNodeID) (stack : NodeStack)
    : result (loc * Z * Z * NodeStack * heap) :=
  match fuel with
  | O => Throw out_of_fuel
  | S fuel =>
      let b1 := selectBranch nodeID tag in
      let b2 := selectBranch nodeID other in
      if b1 =? b2 then
        let '(l, h) := alloc h (makeInner (newNode (m_seq m))) in
        split_loop fuel m h tag other l (getChildNodeID nodeID b1) ((node, nodeID) :: stack)
      else Ok (node, b1, b2, stack, h)
  end.

Definition addGiveItem (m : SHAMap) (h : heap) (item : SHAMapItem) (isTransaction hasMeta : bool) : result (bool * SHAMap * heap) :=
  let tag := i_tag item in
  let type := leaf_type isTransaction hasMeta in
  stack ← getStack m h tag true;
  match stack with
  | [] => Throw "missing node"
  | (node, nodeID) :: stack =>
      n ← deref h node;
      if isLeaf n && (match mItem n with Some i => i_tag i =? tag | None => false end) then Ok (false, m, h)
      else
        '(node, m, h) ← unshareNode m h node nodeID;
        n ← deref h node;
        if isInner n then
          let branch := selectBranch nodeID tag in
          let '(newNode, h) := alloc h (itemNode sha512half item type (m_seq m)) in
          h ← modify h node (λ n, setChild n branch (Some newNode));
          '(m, h) ← dirtyUp m h stack tag node;
          Ok (true, m, h)
        else
          match mItem n with
          | None => Throw null_pointer
          | Some otherItem =>
              h ← modify h node makeInner;
              '(node, b1, b2, stack, h) ← split_loop max_depth m h tag (i_tag otherItem) node nodeID stack;
              let '(newNode, h) := alloc h (itemNode sha512half item type (m_seq m)) in
              h ← modify h node (λ n, setChild n b1 (Some newNode));
              let '(newNode, h) := alloc h (itemNode sha512half otherItem type (m_seq m)) in
              h ← modify h node (λ n, setChild n b2 (Some newNode));
              '(m, h) ← dirtyUp m h stack tag node;
              Ok (true, m, h)
          end
  end.

(** The way back of a deletion: [prevNode] is what gets attached below. *)
Fixpoint del_loop (m : SHAMap) (h : heap) (id : Z) (type : TNType) (stack : NodeStack) (prevNode : option loc) : result (SHAMap * heap) :=
  match stack with
  | [] => Ok (m, h)
  | (node, nodeID) :: stack =>
      '(node, m, h) ← unshareNode m h node nodeID;
      h ← modify h node (λ n, setChild n (selectBranch nodeID id) prevNode);
      if isRoot nodeID then del_loop m h id type stack prevNode
      else
        n ← deref h node;
        let bc := getBranchCount n in
        if bc =? 0 then del_loop m h id type stack None
        else if bc =? 1 then
          item ← onlyBelow h node;
          match item with
          | Some item =>
              h ← modify h node (λ n,
                let n := match find (λ i, negb (isEmptyBranch n i)) branches16 with Some i => setChild n i None | None => n end in
                (setItem sha512half n item type).1);
              del_loop m h id type stack (Some node)
          | None => del_loop m h id type stack (Some node)
          end
        else del_loop m h id type stack (Some node)
  end.

Definition delItem (m : SHAMap) (h : heap) (id : Z) : result (bool * SHAMap * heap) :=
  stack ← getStack m h id true;
  match stack with
  | [] => Throw "missing node"
  | (leaf, _) :: stack =>
      n ← deref h leaf;
      match mItem n with
      | Some item =>
          if i_tag item =? id then
            '(m, h) ← del_loop m h id (mType n) stack None;
            Ok (true, m, h)
          else Ok (false, m, h)
      | None => Ok (false, m, h)
      end
  end.

Definition updateGiveItem (m : SHAMap) (h : heap) (item : SHAMapItem) (isTransaction hasMeta : bool) : result (bool * SHAMap * heap) :=
  let tag := i_tag item in
  stack ← getStack m h tag true;
  match stack with
  | [] => Throw "missing node"
  | (node, nodeID) :: stack =>
      n ← deref h node;
      if negb (isLeaf n) || negb (match mItem n with Some i => i_tag i =? tag | None => false end) then Ok (false, m, h)
      else
        '(node, m, h) ← unshareNode m h node nodeID;
        n ← deref h node;
        let '(n, changed) := setItem sha512half n item (leaf_type isTransaction hasMeta) in
        let h := <[node := n]> h in
        if negb changed then Ok (true, m, h)
        else '(m, h) ← dirtyUp m h stack tag node; Ok (true, m, h)
  end.

(** ** Hashing and sharing *)

(** [preFlushNode]: the address of a node that is the map's own *)
Definition preFlushNode (m : SHAMap) (h : heap) (node : loc) : result (loc * heap) :=
  n ← deref h node;
  if negb (mSeq n =? m_seq m) then Ok (alloc h (copyNode n (m_seq m))) else Ok (node, h).

Definition hash_at (h : heap) (l : loc) : Z := match h !! l with Some n => mHash n | None => 0 end.

(** [walkSubTree] without writing: the loop over the branches of an inner node, which is the map's
    own, and the work on the node.  The code keeps the nodes it is in the middle of on a stack;
    each call here is one of them, and [below] is the work on a child. *)
Fixpoint walk_children (below : heap → loc → result heap) (m : SHAMap) (node : loc) (order : list Z) (h : heap) : result heap :=
  match order with
  | [] => Ok h
  | pos :: order =>
      n ← deref h node;
      h ← (if isEmptyBranch n pos then Ok h
           else
             match getChild n pos with
             | None => Ok h
             | Some child =>
                 c ← deref h child;
                 if mSeq c =? 0 then Ok h
                 else
                   '(child, h) ← preFlushNode m h child;
                   h ← (if isInner c then below h child
                        else modify h child (λ c, (updateHash sha512half c).1));
                   modify h node (λ n, shareChild n pos child)
             end);
      walk_children below m node order h
  end.

Fixpoint walkSubTree_node (fuel : nat) (m : SHAMap) (h : heap) (node : loc) : result heap :=
  match fuel with
  | O => Throw out_of_fuel
  | S fuel =>
      h ← walk_children (walkSubTree_node fuel m) m node branches16 h;
      modify h node (λ n, updateHashDeep sha512half n (hash_at h))
  end.

Definition unshare (m : SHAMap) (h : heap) : result (SHAMap * heap) :=
  root ← deref h (m_root m);
  if (mSeq root =? 0) || isEmpty root then Ok (m, h)
  else
    '(node, h) ← preFlushNode m h (m_root m);
    if isLeaf root then Ok (set_root m node, h)
    else h ← walkSubTree_node max_depth m h node; Ok (set_root m node, h).

Definition getHash (m : SHAMap) (h : heap) : result (Z * SHAMap * heap) :=
  root ← deref h (m_root m);
  if mHash root =? 0 then
    '(m, h) ← unshare m h;
    root ← deref h (m_root m);
    Ok (mHash root, m, h)
  else Ok (mHash root, m, h).

Definition is_immutable (m : SHAMap) : bool := match m_state m with Immutable => true | _ => false end.

Definition snapShot (m : SHAMap) (h : heap) (isMutable : bool) : result (SHAMap * heap) :=
  let newMap := mkMap (u32 (m_seq m + 1)) (m_root m) (if isMutable then Modifying else Immutable) in
  if negb (is_immutable m) || negb isMutable then unshare newMap h else Ok (newMap, h).

End change.
