(* ===== verification/SHAMapRep.v ===== *)
(** * What a tree stands for

    A tree stands for a map from tags to data, its [content].  [rep n h l M] says that the node at
    [l], [n] digits above the end of the tags, stands for [M]; it fixes the shape of the tree (a
    single item is a leaf, two or more are an inner node with one child per digit that occurs) and
    that every hash that is not marked as out of date is the right one.  The hash of a content is
    [mhash], which does not mention nodes: so two trees with the same content have the same hash.

    Nodes may be shared between trees, but not within one: this follows from [rep], because a
    node stands for one content. *)

From S2P Require Import Prelude Bytes Serializer SHAMapNodeID SHAMapTreeNode SHAMap.

Notation content := (gmap Z blob).

(** ** Contents by digit *)

(** Digit [n] from the end *)
Definition dig (n : nat) (k : Z) : Z := (k / 16 ^ Z.of_nat n) mod 16.

(** The part of a content with digit [i] *)
Definition part (n : nat) (i : Z) (M : content) : content := filter (λ kv, dig n kv.1 = i) M.

(** The part of a content that agrees with [tag] but for the last [n] digits *)
Definition sub (n : nat) (tag : Z) (M : content) : content :=
  filter (λ kv, kv.1 / 16 ^ Z.of_nat n = tag / 16 ^ Z.of_nat n) M.

Lemma dig_range n k : 0 <= dig n k < 16.
Proof. apply Z.mod_pos_bound. lia. Qed.

Lemma dig_digit n k : (n < 64)%nat → dig n k = digit (63 - Z.of_nat n) k.
Proof. intros. unfold dig, digit. do 3 f_equal. lia. Qed.

Lemma div_step n k : k / 16 ^ Z.of_nat n = 16 * (k / 16 ^ Z.of_nat (S n)) + dig n k.
Proof.
  unfold dig. rewrite Nat2Z.inj_succ, Z.pow_succ_r by lia. assert (0 < 16 ^ Z.of_nat n) by (apply Z.pow_pos_nonneg; lia).
  rewrite (Z.mul_comm 16 (16 ^ _)), <- Z.div_div by lia. apply Z.div_mod. lia.
Qed.

Lemma lookup_part n i M k : part n i M !! k = if decide (dig n k = i) then M !! k else None.
Proof.
  unfold part. destruct (decide (dig n k = i)) as [Hd|Hd].
  - destruct (M !! k) as [v|] eqn:Hk; [by apply map_lookup_filter_Some_2|]. apply map_lookup_filter_None_2. by left.
  - apply map_lookup_filter_None_2. right. by intros v _.
Qed.

Lemma lookup_sub n t M k : sub n t M !! k = if decide (k / 16 ^ Z.of_nat n = t / 16 ^ Z.of_nat n) then M !! k else None.
Proof.
  unfold sub. destruct (decide (k / 16 ^ Z.of_nat n = t / 16 ^ Z.of_nat n)) as [Hd|Hd].
  - destruct (M !! k) as [v|] eqn:Hk; [by apply map_lookup_filter_Some_2|]. apply map_lookup_filter_None_2. by left.
  - apply map_lookup_filter_None_2. right. by intros v _.
Qed.

Lemma part_subseteq n i M : part n i M ⊆ M.
Proof. apply map_filter_subseteq. Qed.

Lemma parts_ext n n' M M' : (∀ i, 0 <= i < 16 → part n i M = part n' i M') → M ⊆ M' .
Proof.
  intros H. apply map_subseteq_spec. intros k v Hk. specialize (H (dig n k) (dig_range n k)).
  assert (part n (dig n k) M !! k = Some v) as Hp by (rewrite lookup_part, decide_True; done).
  rewrite H, lookup_part in Hp. by destruct (decide _).
Qed.

Lemma parts_eq n n' M M' : (∀ i, 0 <= i < 16 → part n i M = part n' i M') → M = M'.
Proof. intros H. apply (anti_symm (⊆)); eapply parts_ext; [done|]. intros i Hi. symmetry. by apply H. Qed.

Lemma part_disjoint n i j M X : i ≠ j → X ⊆ part n i M → X ⊆ part n j M → X = ∅.
Proof.
  intros Hij Hi Hj. apply map_empty. intros k. destruct (X !! k) as [v|] eqn:Hk; [|done].
  pose proof (lookup_weaken _ _ _ _ Hk Hi) as H1. pose proof (lookup_weaken _ _ _ _ Hk Hj) as H2.
  rewrite lookup_part in H1, H2. destruct (decide (dig n k = i)), (decide (dig n k = j)); congruence.
Qed.

Lemma part_sub n t M : part n (dig n t) (sub (S n) t M) = sub n t M.
Proof.
  apply map_eq. intros k. rewrite lookup_part, !lookup_sub. pose proof (div_step n k). pose proof (div_step n t).
  pose proof (dig_range n k). pose proof (dig_range n t). repeat case_decide; done || lia.
Qed.

Lemma sub_top t M : is_u256 t → map_Forall (λ k _, is_u256 k) M → sub 64 t M = M.
Proof.
  intros Ht HM. apply map_eq. intros k. rewrite lookup_sub. destruct (M !! k) as [v|] eqn:Hk; [|by case_decide].
  rewrite decide_True; [done|]. pose proof (HM _ _ Hk) as Hk'. unfold is_u256 in *. change (16 ^ Z.of_nat 64) with (2 ^ 256).
  by rewrite !Z.div_small.
Qed.

Lemma sub_0 t M : sub 0 t M = match M !! t with Some v => {[t := v]} | None => ∅ end.
Proof.
  apply map_eq. intros k. rewrite lookup_sub. change (16 ^ Z.of_nat 0) with 1. rewrite !Z.div_1_r.
  case_decide as Hk; [subst; destruct (M !! t) eqn:Ht; [by rewrite lookup_singleton_eq|done]|].
  destruct (M !! t); [by rewrite lookup_singleton_ne by done|done].
Qed.

Lemma part_insert n i k v M :
  part n i (<[k := v]> M) = if decide (dig n k = i) then <[k := v]> (part n i M) else part n i M.
Proof.
  apply map_eq. intros k'. rewrite lookup_part. destruct (decide (k' = k)) as [->|Hne].
  - rewrite lookup_insert_eq. case_decide; [by rewrite lookup_insert_eq|]. by rewrite lookup_part, decide_False by done.
  - rewrite lookup_insert_ne by done. destruct (decide (dig n k = i)); [rewrite lookup_insert_ne by done|]; by rewrite lookup_part.
Qed.

Lemma part_delete n i k M :
  part n i (delete k M) = if decide (dig n k = i) then delete k (part n i M) else part n i M.
Proof.
  apply map_eq. intros k'. rewrite lookup_part. destruct (decide (k' = k)) as [->|Hne].
  - rewrite lookup_delete_eq. case_decide; [by rewrite lookup_delete_eq|]. by rewrite lookup_part, decide_False by done.
  - rewrite lookup_delete_ne by done. destruct (decide (dig n k = i)); [rewrite lookup_delete_ne by done|]; by rewrite lookup_part.
Qed.

Lemma part_empty n i : part n i ∅ = ∅.
Proof. apply map_eq. intros k. rewrite lookup_part, lookup_empty. by case_decide. Qed.

Lemma part_singleton n i k v : part n i {[k := v]} = if decide (dig n k = i) then {[k := v]} else ∅.
Proof. rewrite <- insert_empty, part_insert, part_empty. by case_decide. Qed.

Lemma size_2 (M : content) : (2 <= size M)%nat ↔ ∃ k1 k2, k1 ≠ k2 ∧ is_Some (M !! k1) ∧ is_Some (M !! k2).
Proof.
  split.
  - intros H. destruct (decide (M = ∅)) as [->|Hne]; [rewrite map_size_empty in H; lia|].
    apply map_choose in Hne as (k1 & v1 & H1). pose proof (map_size_delete_Some k1 M (mk_is_Some _ _ H1)) as Hs.
    destruct (decide (delete k1 M = ∅)) as [He|Hne]; [rewrite He, map_size_empty in Hs; lia|].
    apply map_choose in Hne as (k2 & v2 & H2). apply lookup_delete_Some in H2 as [Hk H2].
    exists k1, k2. split_and!; [done|by eexists..].
  - intros (k1 & k2 & Hk & [v1 H1] & [v2 H2]).
    assert (is_Some (delete k1 M !! k2)) as H3 by (rewrite lookup_delete_ne by done; by eexists).
    pose proof (map_size_delete_Some k1 M (mk_is_Some _ _ H1)) as Ha. pose proof (map_size_delete_Some k2 _ H3) as Hb.
    assert (∀ (X : content) k, is_Some (X !! k) → size X ≠ 0%nat) as Hnz.
    { intros X k [v HX] ->%map_size_empty_inv. by rewrite lookup_empty in HX. }
    pose proof (Hnz _ _ (mk_is_Some _ _ H1)). pose proof (Hnz _ _ H3). lia.
Qed.

Lemma size_1 (M : content) : M ≠ ∅ → ¬ (2 <= size M)%nat → ∃ k v, M = {[k := v]}.
Proof.
  intros (k & v & Hk)%map_choose Hn. exists k, v. apply map_eq. intros k'. destruct (decide (k' = k)) as [->|Hne].
  - by rewrite lookup_singleton_eq.
  - rewrite lookup_singleton_ne by done. destruct (M !! k') eqn:Hk'; [|done]. destruct Hn. apply size_2.
    exists k, k'. split_and!; [done|by eexists..].
Qed.

(** ** The hash of a content *)

Section rep.
  Context (sha512half : blob → Z) (ty : TNType).

(** The hash of a leaf of type [ty] *)
Definition leaf_hash (k : Z) (v : blob) : Z := mHash (itemNode sha512half (mkItem k v) ty 1).

(** The hash of an inner node, given that of contents below it *)
Definition inner_hash (below : content → Z) (n : nat) (M : content) : Z :=
  if decide (M = ∅) then 0
  else getPrefixHash sha512half innerNode (concat (be256 <$> ((λ i, below (part n i M)) <$> branches16))).

Fixpoint mhash (n : nat) (M : content) : Z :=
  match map_to_list M with
  | [] => 0
  | [(k, v)] => leaf_hash k v
  | _ => match n with O => 0 | S n => inner_hash (mhash n) n M end
  end.

(** The hash of a whole tree, whose root is an inner node *)
Definition root_hash (M : content) : Z := inner_hash (mhash 63) 63 M.

Lemma mhash_empty n : mhash n ∅ = 0.
Proof. destruct n; simpl; by rewrite map_to_list_empty. Qed.

Lemma mhash_leaf n k v : mhash n {[k := v]} = leaf_hash k v.
Proof. destruct n; simpl; by rewrite map_to_list_singleton. Qed.

Lemma mhash_inner n M : (2 <= size M)%nat → mhash (S n) M = inner_hash (mhash n) n M.
Proof.
  intros H. rewrite <- length_map_to_list in H. cbn [mhash]. destruct (map_to_list M) as [|[k v] [|x l]]; simpl in H; [lia..|done].
Qed.

(** ** Trees *)

Record leaf_node (nd : TreeNode) (k : Z) (v : blob) : Prop := {
  ln_item : mItem nd = Some (mkItem k v);
  ln_type : mType nd = ty;
  ln_children : mChildren nd = nulls;
  ln_hash : mHash nd = leaf_hash k v
}.

(** An inner node whose children stand for the parts of a content, by [R] *)
Record inner_node (R : loc → content → Prop) (n : nat) (h : heap) (nd : TreeNode) (M : content) : Prop := {
  in_item : mItem nd = None;
  in_type : mType nd = tnINNER;
  in_hashes : length (mHashes nd) = 16%nat;
  in_children : length (mChildren nd) = 16%nat;
  in_bits : 0 <= mIsBranch nd < 2 ^ 16;
  in_branch : ∀ i, 0 <= i < 16 → isEmptyBranch nd i = bool_decide (getChild nd i = None);
  in_empty : ∀ i, 0 <= i < 16 → getChild nd i = None → part n i M = ∅ ∧ getChildHash nd i = 0;
  in_child : ∀ i c, 0 <= i < 16 → getChild nd i = Some c →
    part n i M ≠ ∅ ∧ R c (part n i M)
    ∧ (mHash nd ≠ 0 → getChildHash nd i = mhash n (part n i M) ∧ hash_at h c = mhash n (part n i M));
  in_hash : mHash nd = 0 ∨ mHash nd = inner_hash (mhash n) n M;
  in_seq : mSeq nd = 0 → M ≠ ∅ → mHash nd ≠ 0
}.

Fixpoint rep (n : nat) (h : heap) (l : loc) (M : content) : Prop :=
  ∃ nd, h !! l = Some nd ∧
    ((∃ k v, M = {[k := v]} ∧ leaf_node nd k v)
     ∨ match n with O => False | S n => (2 <= size M)%nat ∧ inner_node (rep n h) n h nd M end).

(** A whole tree *)
Definition root_rep (h : heap) (l : loc) (M : content) : Prop :=
  map_Forall (λ k _, is_u256 k) M ∧ ∃ nd, h !! l = Some nd ∧ inner_node (rep 63 h) 63 h nd M.

Inductive reach (h : heap) : loc → loc → Prop :=
| reach_refl l : reach h l l
| reach_child l nd i c x : h !! l = Some nd → 0 <= i < 16 → getChild nd i = Some c → reach h c x → reach h l x.

Lemma reach_trans h a b c : reach h a b → reach h b c → reach h a c.
Proof. induction 1; [done|]. intros. eapply reach_child; eauto. Qed.

Lemma leaf_no_child nd k v i : leaf_node nd k v → getChild nd i = None.
Proof.
  intros H. unfold getChild. rewrite (ln_children _ _ _ H). unfold nulls. generalize (Z.to_nat i). intros m.
  do 16 (destruct m as [|m]; [done|]). destruct m; done.
Qed.

Lemma rep_nonempty n h l M : rep n h l M → M ≠ ∅.
Proof.
  destruct n; intros (nd & _ & [(k & v & -> & _)|H]); try (apply map_non_empty_singleton); [done|].
  destruct H as [H _]. intros ->. rewrite map_size_empty in H. lia.
Qed.

(** What is below a node stands for a smaller content, closer to the end. *)
Lemma rep_child n h l nd i c M :
  rep n h l M → h !! l = Some nd → 0 <= i < 16 → getChild nd i = Some c →
  ∃ n', n = S n' ∧ rep n' h c (part n' i M) ∧ inner_node (rep n' h) n' h nd M.
Proof.
  destruct n as [|n]; intros (nd' & Hl & [(k & v & -> & Hleaf)|Hin]) Hl' Hi Hc; simplify_eq; [|done| |].
  - by rewrite (leaf_no_child _ _ _ _ Hleaf) in Hc.
  - by rewrite (leaf_no_child _ _ _ _ Hleaf) in Hc.
  - destruct Hin as [_ Hin]. exists n. split; [done|]. split; [|done]. by eapply in_child in Hc as (_ & ? & _).
Qed.

Lemma reach_rep h l x : reach h l x → ∀ n M, rep n h l M → ∃ m X, (m <= n)%nat ∧ X ⊆ M ∧ rep m h x X.
Proof.
  induction 1 as [l|l nd i c x Hl Hi Hc Hr IH]; intros n M Hrep; [by exists n, M|].
  destruct (rep_child _ _ _ _ _ _ _ Hrep Hl Hi Hc) as (n' & -> & Hrc & _).
  apply IH in Hrc as (m & X & Hm & HX & Hrx). exists m, X. split; [lia|]. split; [|done].
  etrans; [exact HX|]. apply part_subseteq.
Qed.

(** A node does not reach itself through a child. *)
Lemma rep_acyclic n h l nd i c M :
  rep n h l M → h !! l = Some nd → 0 <= i < 16 → getChild nd i = Some c → ¬ reach h c l.
Proof.
  revert M. induction n as [n IH] using lt_wf_ind. intros M Hrep Hl Hi Hc Hr.
  destruct (rep_child _ _ _ _ _ _ _ Hrep Hl Hi Hc) as (n' & -> & Hrc & _).
  destruct (reach_rep _ _ _ Hr _ _ Hrc) as (m & X & Hm & _ & Hrx). eapply (IH m); [lia|exact Hrx|done..].
Qed.

(** A node stands for one content. *)
Lemma rep_unique n h l M : rep n h l M → ∀ n' M', rep n' h l M' → M = M'.
Proof.
  revert l M. induction n as [|n IH]; intros l M Hrep n' M' Hrep'.
  - destruct Hrep as (nd & Hl & [(k & v & -> & Hleaf)|[]]).
    destruct n' as [|n']; destruct Hrep' as (nd' & Hl' & [(k' & v' & -> & Hleaf')|Hin]); simplify_eq; [|done| |].
    + pose proof (ln_item _ _ _ Hleaf) as H1. rewrite (ln_item _ _ _ Hleaf') in H1. by injection H1 as -> ->.
    + pose proof (ln_item _ _ _ Hleaf) as H1. rewrite (ln_item _ _ _ Hleaf') in H1. by injection H1 as -> ->.
    + destruct Hin as [_ Hin]. pose proof (ln_item _ _ _ Hleaf) as H1. by rewrite (in_item _ _ _ _ _ Hin) in H1.
  - destruct Hrep as (nd & Hl & [(k & v & -> & Hleaf)|[_ Hin]]);
      destruct n' as [|n']; destruct Hrep' as (nd' & Hl' & [(k' & v' & -> & Hleaf')|Hin']); simplify_eq; try done.
    + pose proof (ln_item _ _ _ Hleaf) as H1. rewrite (ln_item _ _ _ Hleaf') in H1. by injection H1 as -> ->.
    + pose proof (ln_item _ _ _ Hleaf) as H1. rewrite (ln_item _ _ _ Hleaf') in H1. by injection H1 as -> ->.
    + destruct Hin' as [_ Hin']. pose proof (ln_item _ _ _ Hleaf) as H1. by rewrite (in_item _ _ _ _ _ Hin') in H1.
    + pose proof (ln_item _ _ _ Hleaf') as H1. by rewrite (in_item _ _ _ _ _ Hin) in H1.
    + pose proof (ln_item _ _ _ Hleaf') as H1. by rewrite (in_item _ _ _ _ _ Hin) in H1.
    + destruct Hin' as [_ Hin']. apply (parts_eq n n'). intros i Hi. destruct (getChild nd i) as [c|] eqn:Hc.
      * eapply IH; [eapply in_child; eauto|eapply in_child; eauto].
      * by rewrite (proj1 (in_empty _ _ _ _ _ Hin i Hi Hc)), (proj1 (in_empty _ _ _ _ _ Hin' i Hi Hc)).
Qed.

(** Two children of a node share no node. *)
Lemma siblings_apart n h nd M i j ci cj x :
  inner_node (rep n h) n h nd M → 0 <= i < 16 → 0 <= j < 16 → i ≠ j →
  getChild nd i = Some ci → getChild nd j = Some cj → reach h ci x → ¬ reach h cj x.
Proof.
  intros Hin Hi Hj Hij Hci Hcj Hxi Hxj.
  destruct (in_child _ _ _ _ _ Hin i ci Hi Hci) as (_ & Hri & _). destruct (in_child _ _ _ _ _ Hin j cj Hj Hcj) as (_ & Hrj & _).
  destruct (reach_rep _ _ _ Hxi _ _ Hri) as (m & X & _ & HX & Hx). destruct (reach_rep _ _ _ Hxj _ _ Hrj) as (m' & X' & _ & HX' & Hx').
  pose proof (rep_unique _ _ _ _ Hx _ _ Hx') as <-. apply (rep_nonempty _ _ _ _ Hx).
  by eapply part_disjoint.
Qed.

(** [rep] looks only at the nodes below. *)
Lemma inner_node_mono (R R' : loc → content → Prop) n h h' nd M :
  inner_node R n h nd M →
  (∀ i c, 0 <= i < 16 → getChild nd i = Some c → R c (part n i M) → R' c (part n i M) ∧ (mHash nd ≠ 0 → hash_at h' c = hash_at h c)) →
  inner_node R' n h' nd M.
Proof.
  intros Hin HR. destruct Hin. constructor; try done. intros i c Hi Hc. destruct (in_child0 i c Hi Hc) as (H1 & H2 & H3).
  destruct (HR i c Hi Hc H2) as [H4 H5]. split_and!; [done..|]. intros Hh. rewrite H5 by done. by apply H3.
Qed.

Lemma rep_frame n h h' l M :
  rep n h l M → (∀ x, reach h l x → h' !! x = h !! x) → rep n h' l M.
Proof.
  revert l M. induction n as [|n IH]; intros l M (nd & Hl & Hor) Hf;
    (exists nd; split; [rewrite Hf; [done|constructor]|]); [done|].
  destruct Hor as [?|[Hs Hin]]; [by left|]. right. split; [done|]. eapply inner_node_mono; [exact Hin|].
  intros i c Hi Hc Hr. split.
  - apply IH; [done|]. intros x Hx. apply Hf. by eapply reach_child.
  - intros _. unfold hash_at. rewrite Hf; [done|]. eapply reach_child; [done..|constructor].
Qed.
End rep.
