(* ===== verification/SHAMapRead.v ===== *)
(** * Reading a tree

    What the functions of [SHAMap] that do not change the tree return, in terms of its content:
    an item by its tag, the first and last item, the next and the previous one. *)

From S2P Require Import Prelude Bytes Serializer SHAMapNodeID SHAMapTreeNode SHAMap SHAMapRep.

(** The identifier of the node on the way to [t] that is [n] digits above the end *)
Definition id_at (n : nat) (t : Z) : SHAMapNodeID := nodeID_of (64 - Z.of_nat n) t.

Lemma id_at_branch n t k : (n < 64)%nat → selectBranch (id_at (S n) t) k = dig n k.
Proof.
  intros Hn. rewrite selectBranch_digit by (simpl; lia). rewrite dig_digit by done. f_equal. simpl. lia.
Qed.

Lemma id_at_child n t : (n < 64)%nat → is_u256 t → getChildNodeID (id_at (S n) t) (dig n t) = id_at n t.
Proof.
  intros Hn Ht. rewrite <- (id_at_branch n t t) by done. unfold id_at. rewrite child_of_hash by (done || lia). f_equal. lia.
Qed.

Lemma id_at_root t : is_u256 t → id_at 64 t = rootID.
Proof. intros Ht. unfold id_at. rewrite nodeID_of_eq by (done || lia). change (64 - Z.of_nat 64) with 0. by rewrite lead_0. Qed.

Lemma id_at_isRoot n t : (n <= 64)%nat → isRoot (id_at n t) = bool_decide (n = 64%nat).
Proof. intros Hn. unfold isRoot, id_at. simpl. case_bool_decide; [apply Z.eqb_eq|apply Z.eqb_neq]; lia. Qed.

(** ** Order *)

(** The tags of a content agree but for the last [n] digits. *)
Definition agree (n : nat) (X : content) : Prop :=
  ∀ k k', is_Some (X !! k) → is_Some (X !! k') → k / 16 ^ Z.of_nat n = k' / 16 ^ Z.of_nat n.

Lemma agree_part n i X : agree (S n) X → agree n (part n i X).
Proof.
  intros Ha k k' Hk Hk'. rewrite lookup_part in Hk, Hk'. case_decide as H1; [|by destruct Hk].
  case_decide as H2; [|by destruct Hk']. specialize (Ha k k' Hk Hk'). rewrite (div_step n k), (div_step n k'). lia.
Qed.

Lemma agree_root X : map_Forall (λ k _, is_u256 k) X → agree 64 X.
Proof.
  intros Hu k k' [v Hk] [v' Hk']. pose proof (Hu _ _ Hk). pose proof (Hu _ _ Hk'). unfold is_u256 in *.
  change (16 ^ Z.of_nat 64) with (2 ^ 256). by rewrite !Z.div_small.
Qed.

(** Tags are ordered by their first digit that differs. *)
Lemma digit_order n k k' :
  k / 16 ^ Z.of_nat (S n) = k' / 16 ^ Z.of_nat (S n) → dig n k < dig n k' → k < k'.
Proof.
  intros He Hd. pose proof (div_step n k). pose proof (div_step n k').
  assert (0 < 16 ^ Z.of_nat n) by (apply Z.pow_pos_nonneg; lia).
  destruct (decide (k < k')); [done|]. pose proof (Z.div_le_mono k' k (16 ^ Z.of_nat n)). lia.
Qed.

(** [find] on a sorted list gives the first. *)
Lemma find_sorted (R : Z → Z → Prop) (f : Z → bool) l :
  StronglySorted R l →
  match find f l with
  | Some i => i ∈ l ∧ f i = true ∧ ∀ j, j ∈ l → f j = true → j = i ∨ R i j
  | None => ∀ j, j ∈ l → f j = false
  end.
Proof.
  induction 1 as [|i l Hl IH Hall]; cbn [find]; [by intros j ?%not_elem_of_nil|]. destruct (f i) eqn:Hf.
  - split; [by apply elem_of_cons; left|]. split; [done|]. intros j [->|Hj]%elem_of_cons _; [by left|].
    right. by eapply Forall_forall in Hall.
  - destruct (find f l) as [k|].
    + destruct IH as (H1 & H2 & H3). split; [by apply elem_of_cons; right|]. split; [done|].
      intros j [->|Hj]%elem_of_cons Hfj; [congruence|by apply H3].
    + intros j [->|Hj]%elem_of_cons; [done|by apply IH].
Qed.

Lemma sorted_filter (R : Z → Z → Prop) (P : Z → Prop) `{∀ i, Decision (P i)} l :
  StronglySorted R l → StronglySorted R (filter P l).
Proof.
  induction 1 as [|i l Hl IH Hall]; [constructor|]. rewrite filter_cons. case_decide; [|done]. constructor; [done|].
  apply Forall_forall. intros j [_ Hj]%list_elem_of_filter. by eapply Forall_forall in Hall.
Qed.

Lemma branches16_up : StronglySorted Z.lt branches16.
Proof. unfold branches16. repeat constructor; lia. Qed.

Lemma branches16_down : StronglySorted Z.gt (reverse branches16).
Proof. change (reverse branches16) with [15; 14; 13; 12; 11; 10; 9; 8; 7; 6; 5; 4; 3; 2; 1; 0]. repeat constructor; lia. Qed.

Lemma before_sorted b : StronglySorted Z.gt (before_branch b).
Proof.
  unfold before_branch. rewrite <- filter_reverse. apply sorted_filter, branches16_down.
Qed.

Section read.
  Context (sha512half : blob → Z) (ty : TNType).
  Hypothesis ty_leaf : ty ≠ tnERROR ∧ ty ≠ tnINNER.

Notation leaf_node := (leaf_node sha512half ty).
Notation inner_node := (inner_node sha512half ty).
Notation rep := (rep sha512half ty).
Notation root_rep := (root_rep sha512half ty).

(** A node of a tree, the root or below it *)
Definition node_rep (n : nat) (h : heap) (nd : TreeNode) (M : content) : Prop :=
  (∃ k v, M = {[k := v]} ∧ leaf_node nd k v)
  ∨ match n with O => False | S n => inner_node (rep n h) n h nd M end.
Definition tree_at (n : nat) (h : heap) (l : loc) (M : content) : Prop := ∃ nd, h !! l = Some nd ∧ node_rep n h nd M.

Lemma rep_tree n h l M : rep n h l M → tree_at n h l M.
Proof. destruct n; intros (nd & Hl & Hor); exists nd; (split; [done|]); destruct Hor as [?|Hor]; [by left|done|by left|right; tauto]. Qed.

Lemma root_tree h l M : root_rep h l M → tree_at 64 h l M.
Proof. intros (_ & nd & Hl & Hin). exists nd. split; [done|by right]. Qed.

Lemma leaf_isLeaf nd k v : leaf_node nd k v → isLeaf nd = true ∧ isInner nd = false ∧ hasItem_node nd = true.
Proof.
  intros H. unfold isLeaf, isInner, hasItem_node. rewrite (ln_type _ _ _ _ _ H), (ln_item _ _ _ _ _ H).
  destruct ty_leaf. by destruct ty.
Qed.

Lemma inner_isInner R n h nd M : inner_node R n h nd M → isLeaf nd = false ∧ isInner nd = true ∧ hasItem_node nd = false.
Proof. intros H. unfold isLeaf, isInner, hasItem_node. by rewrite (in_type _ _ _ _ _ _ _ H), (in_item _ _ _ _ _ _ _ H). Qed.

(** A branch of an inner node: nothing, or a child with the part of that digit *)
Lemma inner_branch R n h nd M i :
  inner_node R n h nd M → 0 <= i < 16 →
  (isEmptyBranch nd i = true ∧ part n i M = ∅)
  ∨ ∃ c, isEmptyBranch nd i = false ∧ getChild nd i = Some c ∧ descendThrow nd i = Ok c ∧ part n i M ≠ ∅ ∧ R c (part n i M).
Proof.
  intros H Hi. rewrite (in_branch _ _ _ _ _ _ _ H) by done. destruct (getChild nd i) as [c|] eqn:Hc.
  - right. exists c. destruct (in_child _ _ _ _ _ _ _ H i c Hi Hc) as (H1 & H2 & _). unfold descendThrow. by rewrite Hc.
  - left. by destruct (in_empty _ _ _ _ _ _ _ H i Hi Hc).
Qed.

(** ** An item by its tag *)

Lemma walkTo_spec n : ∀ fuel h l X t,
  tree_at n h l X → (n < fuel)%nat → (n <= 64)%nat → is_u256 t →
  ∃ r, walkTo_loop fuel h t l (id_at n t) = Ok r ∧
    match X !! t with Some v => ∃ nd, r = Some nd ∧ leaf_node nd t v | None => r = None end.
Proof.
  induction n as [|n IH]; intros [|fuel] h l X t (nd & Hl & Hnode) Hf Hn Ht; [lia| |lia|];
    cbn [walkTo_loop]; unfold deref; rewrite Hl; cbn [mbind result_bind].
  all: destruct Hnode as [(k & v & -> & Hleaf)|Hin]; [|try done].
  1,2: destruct (leaf_isLeaf _ _ _ Hleaf) as (_ & -> & _); rewrite (ln_item _ _ _ _ _ Hleaf); eexists; split; [reflexivity|];
    cbn [i_tag]; destruct (Z.eqb_spec k t) as [->|Hne]; [rewrite lookup_singleton_eq; eauto|by rewrite lookup_singleton_ne by done].
  destruct (inner_isInner _ _ _ _ _ Hin) as (_ & -> & _). rewrite id_at_branch by lia.
  assert (X !! t = part n (dig n t) X !! t) as -> by (by rewrite lookup_part, decide_True).
  destruct (inner_branch _ _ _ _ _ _ Hin (dig_range n t)) as [[-> ->]|(c & -> & _ & -> & _ & Hr)].
  - eexists. split; [reflexivity|]. by rewrite lookup_empty.
  - cbn [mbind result_bind]. rewrite id_at_child by (done || lia). apply IH; [by apply rep_tree|lia..|done].
Qed.

Lemma walkToPointer_spec m h M t :
  root_rep h (m_root m) M → is_u256 t →
  ∃ r, walkToPointer m h t = Ok r ∧ match M !! t with Some v => ∃ nd, r = Some nd ∧ leaf_node nd t v | None => r = None end.
Proof.
  intros Hr Ht. unfold walkToPointer. rewrite <- (id_at_root t) by done.
  apply walkTo_spec; [by apply root_tree|unfold max_depth; lia|lia|done].
Qed.

Lemma peekItem_spec m h M t : root_rep h (m_root m) M → is_u256 t → peekItem m h t = Ok (mkItem t <$> M !! t).
Proof.
  intros Hr Ht. unfold peekItem. destruct (walkToPointer_spec m h M t Hr Ht) as (r & -> & Hm). cbn [mbind result_bind]. f_equal.
  destruct (M !! t); [|by subst]. destruct Hm as (nd & -> & Hleaf). simpl. by rewrite (ln_item _ _ _ _ _ Hleaf).
Qed.

Lemma hasItem_spec m h M t : root_rep h (m_root m) M → is_u256 t → hasItem m h t = Ok (bool_decide (is_Some (M !! t))).
Proof.
  intros Hr Ht. unfold hasItem. destruct (walkToPointer_spec m h M t Hr Ht) as (r & -> & Hm). cbn [mbind result_bind]. f_equal.
  destruct (M !! t); [by destruct Hm as (nd & -> & Hleaf)|by subst].
Qed.

(** ** The first and the last item *)

Section below.
  (** One of the two directions: the order of tags, and that in which branches are tried *)
  Context (lt : Z → Z → Prop) (order : list Z).
  Hypothesis order_sorted : StronglySorted lt order.
  Hypothesis order_all : ∀ i, i ∈ order ↔ 0 <= i < 16.
  Hypothesis lt_digit : ∀ n k k', k / 16 ^ Z.of_nat (S n) = k' / 16 ^ Z.of_nat (S n) → lt (dig n k) (dig n k') → lt k k'.

(** The first item of a content in this direction *)
Definition is_first (X : content) (k : Z) (v : blob) : Prop := X !! k = Some v ∧ ∀ k', is_Some (X !! k') → k' = k ∨ lt k k'.

Lemma below_spec n : ∀ fuel h l X,
  tree_at n h l X → X ≠ ∅ → agree n X → (n < fuel)%nat →
  ∃ nd k v, below_loop order fuel h l = Ok (Some nd) ∧ leaf_node nd k v ∧ is_first X k v.
Proof.
  induction n as [|n IH]; intros [|fuel] h l X (nd & Hl & Hnode) Hne Ha Hf; [lia| |lia|];
    cbn [below_loop]; unfold deref; rewrite Hl; cbn [mbind result_bind].
  all: destruct Hnode as [(k & v & -> & Hleaf)|Hin]; [|try done].
  1,2: destruct (leaf_isLeaf _ _ _ Hleaf) as (_ & _ & ->); exists nd, k, v; split; [done|]; split; [done|];
    split; [by rewrite lookup_singleton_eq|]; intros k' [w Hk']; apply lookup_singleton_Some in Hk' as [-> _]; by left.
  destruct (inner_isInner _ _ _ _ _ Hin) as (_ & _ & ->).
  pose proof (find_sorted lt (λ i, negb (isEmptyBranch nd i)) order order_sorted) as Hfind.
  destruct (find _ order) as [i|].
  - destruct Hfind as (Hi%order_all & Hnb & Hfirst). apply negb_true_iff in Hnb.
    destruct (inner_branch _ _ _ _ _ i Hin Hi) as [[H1 _]|(c & _ & Hc & -> & Hne' & Hr)]; [congruence|]. cbn [mbind result_bind].
    destruct (IH fuel h c (part n i X)) as (nd' & k & v & Hb & Hleaf & Hk & Hmin);
      [by apply rep_tree|done|by apply agree_part|lia|].
    exists nd', k, v. split; [done|]. split; [done|]. rewrite lookup_part in Hk. case_decide as Hdk; [|done].
    split; [done|]. intros k' Hk'. destruct (decide (dig n k' = i)) as [Hd|Hd].
    { apply Hmin. by rewrite lookup_part, decide_True. }
    right. apply (lt_digit n); [apply Ha; [by eexists|done]|]. rewrite Hdk.
    destruct (Hfirst (dig n k')) as [?|?]; [apply order_all, dig_range| |done|done].
    destruct (inner_branch _ _ _ _ _ (dig n k') Hin (dig_range _ _)) as [[_ He]|(c' & -> & _)]; [|done].
    apply (f_equal (.!! k')) in He. rewrite lookup_part, decide_True, lookup_empty in He by done. rewrite He in Hk'. by destruct Hk'.
  - destruct Hne. apply map_empty. intros k. specialize (Hfind (dig n k) (proj2 (order_all _) (dig_range n k))).
    apply negb_false_iff in Hfind. destruct (inner_branch _ _ _ _ _ (dig n k) Hin (dig_range _ _)) as [[_ He]|(c' & He & _)]; [|congruence].
    apply (f_equal (.!! k)) in He. by rewrite lookup_part, decide_True, lookup_empty in He.
Qed.
End below.

Lemma lt_up n k k' : k / 16 ^ Z.of_nat (S n) = k' / 16 ^ Z.of_nat (S n) → dig n k < dig n k' → k < k'.
Proof. apply digit_order. Qed.
Lemma lt_down n k k' : k / 16 ^ Z.of_nat (S n) = k' / 16 ^ Z.of_nat (S n) → dig n k > dig n k' → k > k'.
Proof. intros He Hd. apply Z.lt_gt. eapply digit_order; [by symmetry|lia]. Qed.

Lemma reverse_in i : i ∈ reverse branches16 ↔ 0 <= i < 16.
Proof. rewrite elem_of_reverse. apply branches16_in. Qed.

Lemma firstBelow_spec n h l X :
  tree_at n h l X → X ≠ ∅ → agree n X → (n <= 64)%nat →
  ∃ nd k v, firstBelow h l = Ok (Some nd) ∧ leaf_node nd k v ∧ is_first Z.lt X k v.
Proof. intros. apply below_spec with n; [apply branches16_up|apply branches16_in|apply lt_up|done..|unfold max_depth; lia]. Qed.

Lemma lastBelow_spec n h l X :
  tree_at n h l X → X ≠ ∅ → agree n X → (n <= 64)%nat →
  ∃ nd k v, lastBelow h l = Ok (Some nd) ∧ leaf_node nd k v ∧ is_first Z.gt X k v.
Proof. intros. apply below_spec with n; [apply branches16_down|apply reverse_in|apply lt_down|done..|unfold max_depth; lia]. Qed.

(** An empty tree has no branches. *)
Lemma below_empty order h l :
  root_rep h l ∅ → (∀ i, i ∈ order → 0 <= i < 16) → below_loop order max_depth h l = Ok None.
Proof.
  intros (_ & nd & Hl & Hin) Ho. cbn [below_loop max_depth]. unfold deref. rewrite Hl. cbn [mbind result_bind].
  destruct (inner_isInner _ _ _ _ _ Hin) as (_ & _ & ->). destruct (find _ order) as [i|] eqn:Hf; [|done].
  apply find_some in Hf as [Hi Hb]. apply list_elem_of_In, Ho in Hi. apply negb_true_iff in Hb.
  destruct (inner_branch _ _ _ _ _ i Hin Hi) as [[? _]|(c & _ & _ & _ & Hne & _)]; [congruence|]. by rewrite part_empty in Hne.
Qed.

(** ** The next and the previous item *)

(** The item after and before [id] in a content *)
Definition is_next (lt : Z → Z → Prop) (X : content) (id : Z) (r : option SHAMapItem) : Prop :=
  match r with
  | Some i => X !! i_tag i = Some (i_data i) ∧ lt id (i_tag i) ∧ ∀ k, is_Some (X !! k) → lt id k → k = i_tag i ∨ lt (i_tag i) k
  | None => ∀ k, is_Some (X !! k) → ¬ lt id k
  end.

(** The tags of a content agree with [t] but for the last [n] digits. *)
Definition agree_with (n : nat) (t : Z) (X : content) : Prop :=
  ∀ k, is_Some (X !! k) → k / 16 ^ Z.of_nat n = t / 16 ^ Z.of_nat n.

Lemma agree_with_agree n t X : agree_with n t X → agree n X.
Proof. intros H k k' Hk Hk'. by rewrite (H k Hk), (H k' Hk'). Qed.

Lemma agree_with_part n t X : agree_with (S n) t X → agree_with n t (part n (dig n t) X).
Proof.
  intros H k Hk. rewrite lookup_part in Hk. case_decide as Hd; [|by destruct Hk]. rewrite (div_step n k), (div_step n t), (H k Hk). lia.
Qed.

Section turn.
  (** Both directions again: a loop over the stack, and what it does at a leaf and at an inner
      node *)
  Context (lt : Z → Z → Prop) (order : Z → list Z) (loop : heap → Z → NodeStack → result (option SHAMapItem)).
  Hypothesis lt_digit : ∀ n k k', k / 16 ^ Z.of_nat (S n) = k' / 16 ^ Z.of_nat (S n) → lt (dig n k) (dig n k') → lt k k'.
  Hypothesis lt_irrefl : ∀ k, ¬ lt k k.
  Hypothesis lt_trans : ∀ a b c, lt a b → lt b c → lt a c.
  Hypothesis lt_total : ∀ a b, lt a b ∨ a = b ∨ lt b a.
  Hypothesis order_sorted : ∀ b, StronglySorted lt (order b).
  Hypothesis order_all : ∀ b i, i ∈ order b ↔ 0 <= i < 16 ∧ lt b i.
  Hypothesis loop_leaf : ∀ h id l nid st nd k v,
    h !! l = Some nd → leaf_node nd k v →
    (lt id k → loop h id ((l, nid) :: st) = Ok (Some (mkItem k v))) ∧ (¬ lt id k → loop h id ((l, nid) :: st) = loop h id st).
  Hypothesis loop_inner : ∀ h id l nid st n nd X,
    h !! l = Some nd → inner_node (rep n h) n h nd X → agree (S n) X → (n < 64)%nat →
    match find (λ i, negb (isEmptyBranch nd i)) (order (selectBranch nid id)) with
    | Some i => ∃ k v, loop h id ((l, nid) :: st) = Ok (Some (mkItem k v)) ∧ is_first lt (part n i X) k v
    | None => loop h id ((l, nid) :: st) = loop h id st
    end.

(** A tag in this direction whose digit differs has its digit in this direction. *)
Lemma dig_forward n X id :
  agree_with (S n) id X → ∀ k, is_Some (X !! k) → dig n k ≠ dig n id → lt id k → lt (dig n id) (dig n k).
Proof.
  intros Ha k Hk Hd Hlt. destruct (lt_total (dig n id) (dig n k)) as [?|[?|Hgt]]; [done|congruence|].
  destruct (lt_irrefl id). eapply lt_trans; [exact Hlt|]. eapply lt_digit; [by apply Ha|done].
Qed.

(** What the loop finds at an inner node itself: the first item on the branches behind *)
Lemma turn_here h l id st n nd X :
  h !! l = Some nd → inner_node (rep n h) n h nd X → agree_with (S n) id X → (n < 64)%nat →
  ∃ r, (match r with
        | Some i => loop h id ((l, id_at (S n) id) :: st) = Ok (Some i)
        | None => loop h id ((l, id_at (S n) id) :: st) = loop h id st end)
    ∧ match r with
      | Some i => X !! i_tag i = Some (i_data i) ∧ lt id (i_tag i)
          ∧ ∀ k, is_Some (X !! k) → dig n k ≠ dig n id → lt id k → k = i_tag i ∨ lt (i_tag i) k
      | None => ∀ k, is_Some (X !! k) → dig n k ≠ dig n id → ¬ lt id k end.
Proof.
  intros Hl Hin Ha Hn. pose proof (dig_forward n X id Ha) as Hdig.
  pose proof (loop_inner h id l (id_at (S n) id) st n nd X Hl Hin (agree_with_agree _ _ _ Ha) ltac:(lia)) as Hli.
  rewrite id_at_branch in Hli by lia. pose proof (find_sorted lt (λ i, negb (isEmptyBranch nd i)) _ (order_sorted (dig n id))) as Hfind.
  assert (∀ k, is_Some (X !! k) → negb (isEmptyBranch nd (dig n k)) = true) as Hnb.
  { intros k Hk. destruct (inner_branch _ _ _ _ _ (dig n k) Hin (dig_range _ _)) as [[_ He]|(c' & -> & _)]; [|done].
    apply (f_equal (.!! k)) in He. rewrite lookup_part, decide_True, lookup_empty in He by done. rewrite He in Hk. by destruct Hk. }
  destruct (find _ (order (dig n id))) as [i|].
  - destruct Hli as (k & v & Hlp & Hk & Hmin). destruct Hfind as ([Hi Hlti]%order_all & _ & Hfirst).
    rewrite lookup_part in Hk. case_decide as Hdk; [|done]. exists (Some (mkItem k v)). split; [done|]. split; [done|]. cbn [i_tag].
    split; [eapply lt_digit; [symmetry; apply Ha; by eexists|by rewrite Hdk]|].
    intros k' Hk' Hd Hlt. destruct (Hfirst (dig n k')) as [Heq|Hlt']; [apply order_all; split; [apply dig_range|by apply Hdig]|by apply Hnb| |].
    + apply Hmin. by rewrite lookup_part, decide_True.
    + right. eapply lt_digit; [|by rewrite Hdk]. rewrite (Ha k ltac:(by eexists)). symmetry. by apply Ha.
  - exists None. split; [done|]. intros k Hk Hd Hlt. assert (dig n k ∈ order (dig n id)) as Hin'.
    { apply order_all. split; [apply dig_range|by apply Hdig]. }
    specialize (Hfind _ Hin'). cbn beta in Hfind. rewrite Hnb in Hfind by done. done.
Qed.

Lemma turn_spec n : ∀ fuel h l X id st,
  tree_at n h l X → agree_with n id X → (n < fuel)%nat → (n <= 64)%nat → is_u256 id →
  ∃ stk r, getStack_loop fuel h id true l (id_at n id) st = Ok (stk ++ st) ∧ is_next lt X id r
    ∧ loop h id (stk ++ st) = match r with Some i => Ok (Some i) | None => loop h id st end.
Proof.
  induction n as [|n IH]; intros [|fuel] h l X id st (nd & Hl & Hnode) Ha Hf Hn Hid; [lia| |lia|];
    cbn [getStack_loop]; unfold deref; rewrite Hl; cbn [mbind result_bind].
  all: destruct Hnode as [(k & v & -> & Hleaf)|Hin]; [|try done].
  1,2: destruct (leaf_isLeaf _ _ _ Hleaf) as (-> & _); cbn [negb]; rewrite (ln_item _ _ _ _ _ Hleaf); cbn [orb];
    match goal with |- context [Ok ((_, ?nid) :: _)] =>
      destruct (loop_leaf h id l nid st nd k v Hl Hleaf) as [H1 H2]; exists [(l, nid)] end;
    destruct (lt_total id k) as [Hlt|Hle];
    [exists (Some (mkItem k v)); split; [done|]; split; [|by apply H1]; simpl; rewrite lookup_singleton_eq;
      split; [done|]; split; [done|]; intros k' [w Hk'] _; apply lookup_singleton_Some in Hk' as [-> _]; by left
    |assert (¬ lt id k) as Hnlt by (destruct Hle as [->|Hle]; [apply lt_irrefl|intros Hlt; by eapply lt_irrefl, lt_trans]);
      exists None; split; [done|]; split; [|by apply H2]; intros k' [w Hk']; apply lookup_singleton_Some in Hk' as [<- _]; done].
  destruct (inner_isInner _ _ _ _ _ Hin) as (-> & _ & _). cbn [negb]. rewrite id_at_branch by lia.
  pose proof (dig_forward n X id Ha) as Hdig. destruct (turn_here h l id st n nd X Hl Hin Ha ltac:(lia)) as (r & Hr & Hrs).
  destruct (inner_branch _ _ _ _ _ _ Hin (dig_range n id)) as [[-> He]|(c & -> & _ & -> & _ & Hrc)].
  - exists [(l, id_at (S n) id)], r. split; [done|]. split.
    + assert (∀ k, is_Some (X !! k) → dig n k ≠ dig n id) as Hall.
      { intros k Hk Hd. apply (f_equal (.!! k)) in He. rewrite lookup_part, decide_True, lookup_empty in He by done. rewrite He in Hk. by destruct Hk. }
      destruct r as [i|]; [destruct Hrs as (? & ? & Hmin); split; [done|]; split; [done|]|]; intros k Hk; [apply Hmin|apply Hrs]; auto.
    + by destruct r.
  - cbn [mbind result_bind]. rewrite id_at_child by (done || lia).
    destruct (IH fuel h c (part n (dig n id) X) id ((l, id_at (S n) id) :: st)) as (stk & r' & Hg & Hnx & Hlp);
      [by apply rep_tree|by apply agree_with_part|lia..|done|].
    exists (stk ++ [(l, id_at (S n) id)]), (match r' with Some i => Some i | None => r end). rewrite <- app_assoc. split; [done|].
    split; [|cbn [app]; rewrite Hlp; by destruct r', r].
    destruct r' as [i|]; cbn [is_next] in Hnx.
    + destruct Hnx as (H1 & H2 & H3). rewrite lookup_part in H1. case_decide as Hd; [|done]. split; [done|]. split; [done|].
      intros k Hk Hlt. destruct (decide (dig n k = dig n id)) as [Heq|Hd'].
      { apply H3; [|done]. by rewrite lookup_part, decide_True. }
      right. eapply lt_digit; [|rewrite Hd; by apply Hdig]. rewrite (Ha (i_tag i) ltac:(by eexists)). symmetry. by apply Ha.
    + assert (∀ k, is_Some (X !! k) → lt id k → dig n k ≠ dig n id) as Hall.
      { intros k Hk Hlt Hd. apply (Hnx k); [by rewrite lookup_part, decide_True|done]. }
      destruct r as [i|]; [destruct Hrs as (? & ? & Hmin); split; [done|]; split; [done|]|]; intros k Hk Hlt; [apply Hmin|eapply Hrs]; eauto.
Qed.
End turn.

Lemma next_spec n fuel h l X id st :
  tree_at n h l X → agree_with n id X → (n < fuel)%nat → (n <= 64)%nat → is_u256 id →
  ∃ stk r, getStack_loop fuel h id true l (id_at n id) st = Ok (stk ++ st) ∧ is_next Z.lt X id r
    ∧ next_loop h id (stk ++ st) = match r with Some i => Ok (Some i) | None => next_loop h id st end.
Proof.
  apply turn_spec with after_branch; try lia.
  - apply lt_up.
  - intros b. apply sorted_filter, branches16_up.
  - intros b i. unfold after_branch. rewrite list_elem_of_filter, branches16_in. tauto.
  - intros h' id' l' nid st' nd k v Hl Hleaf. cbn [next_loop]. unfold deref. rewrite Hl. cbn [mbind result_bind].
    destruct (leaf_isLeaf _ _ _ Hleaf) as (-> & _). rewrite (ln_item _ _ _ _ _ Hleaf). cbn [i_tag].
    split; intros Hlt; destruct (Z.gtb_spec k id'); done || lia.
  - intros h' id' l' nid st' n' nd X' Hl Hin Ha Hn. cbn [next_loop]. unfold deref. rewrite Hl. cbn [mbind result_bind].
    destruct (inner_isInner _ _ _ _ _ Hin) as (-> & _). destruct (find _ _) as [i|] eqn:Hf; [|done].
    apply find_some in Hf as [Hi Hb]. apply list_elem_of_In, list_elem_of_filter in Hi as [_ Hi%branches16_in]. apply negb_true_iff in Hb.
    destruct (inner_branch _ _ _ _ _ i Hin Hi) as [[? _]|(c & _ & _ & -> & Hne & Hr)]; [congruence|]. cbn [mbind result_bind].
    destruct (firstBelow_spec n' h' c (part n' i X')) as (leaf & k & v & -> & Hleaf & Hfirst); [by apply rep_tree|done|by apply agree_part|lia|].
    cbn [mbind result_bind]. destruct (leaf_isLeaf _ _ _ Hleaf) as (_ & -> & _). rewrite (ln_item _ _ _ _ _ Hleaf). eauto.
Qed.

Lemma prev_spec n fuel h l X id st :
  tree_at n h l X → agree_with n id X → (n < fuel)%nat → (n <= 64)%nat → is_u256 id →
  ∃ stk r, getStack_loop fuel h id true l (id_at n id) st = Ok (stk ++ st) ∧ is_next Z.gt X id r
    ∧ prev_loop h id (stk ++ st) = match r with Some i => Ok (Some i) | None => prev_loop h id st end.
Proof.
  apply turn_spec with before_branch; try lia.
  - apply lt_down.
  - apply before_sorted.
  - intros b i. unfold before_branch. rewrite elem_of_reverse, list_elem_of_filter, branches16_in. lia.
  - intros h' id' l' nid st' nd k v Hl Hleaf. cbn [prev_loop]. unfold deref. rewrite Hl. cbn [mbind result_bind].
    destruct (leaf_isLeaf _ _ _ Hleaf) as (-> & _). rewrite (ln_item _ _ _ _ _ Hleaf). cbn [i_tag].
    split; intros Hlt; destruct (Z.ltb_spec k id'); done || lia.
  - intros h' id' l' nid st' n' nd X' Hl Hin Ha Hn. cbn [prev_loop]. unfold deref. rewrite Hl. cbn [mbind result_bind].
    destruct (inner_isInner _ _ _ _ _ Hin) as (-> & _). destruct (find _ _) as [i|] eqn:Hf; [|done].
    apply find_some in Hf as [Hi Hb]. apply list_elem_of_In, elem_of_reverse, list_elem_of_filter in Hi as [_ Hi%branches16_in]. apply negb_true_iff in Hb.
    destruct (inner_branch _ _ _ _ _ i Hin Hi) as [[? _]|(c & _ & _ & -> & Hne & Hr)]; [congruence|]. cbn [mbind result_bind].
    destruct (lastBelow_spec n' h' c (part n' i X')) as (leaf & k & v & -> & Hleaf & Hfirst); [by apply rep_tree|done|by apply agree_part|lia|].
    cbn [mbind result_bind]. rewrite (ln_item _ _ _ _ _ Hleaf). eauto.
Qed.

Lemma root_agree_with h l M id : root_rep h l M → is_u256 id → agree_with 64 id M.
Proof.
  intros [Hu _] Hid k [v Hk]. pose proof (Hu _ _ Hk). unfold is_u256 in *. change (16 ^ Z.of_nat 64) with (2 ^ 256). by rewrite !Z.div_small.
Qed.

Lemma peekNextItem_spec m h M id :
  root_rep h (m_root m) M → is_u256 id → ∃ r, peekNextItem m h id = Ok r ∧ is_next Z.lt M id r.
Proof.
  intros Hr Hid. destruct (next_spec 64 max_depth h (m_root m) M id []) as (stk & r & Hg & Hn & Hl);
    [by apply root_tree|by eapply root_agree_with|unfold max_depth; lia..|done|].
  exists r. split; [|done]. unfold peekNextItem, getStack. rewrite <- (id_at_root id) by done. rewrite Hg. cbn [mbind result_bind].
  rewrite Hl. by destruct r.
Qed.

Lemma peekPrevItem_spec m h M id :
  root_rep h (m_root m) M → is_u256 id → ∃ r, peekPrevItem m h id = Ok r ∧ is_next Z.gt M id r.
Proof.
  intros Hr Hid. destruct (prev_spec 64 max_depth h (m_root m) M id []) as (stk & r & Hg & Hn & Hl);
    [by apply root_tree|by eapply root_agree_with|unfold max_depth; lia..|done|].
  exists r. split; [|done]. unfold peekPrevItem, getStack. rewrite <- (id_at_root id) by done. rewrite Hg. cbn [mbind result_bind].
  rewrite Hl. by destruct r.
Qed.

(** The first item of a content in a direction, if there is one *)
Definition is_end (lt : Z → Z → Prop) (M : content) (r : option SHAMapItem) : Prop :=
  match r with Some i => is_first lt M (i_tag i) (i_data i) | None => M = ∅ end.

Lemma peekFirstItem_spec m h M : root_rep h (m_root m) M → ∃ r, peekFirstItem m h = Ok r ∧ is_end Z.lt M r.
Proof.
  intros Hr. unfold peekFirstItem. destruct (decide (M = ∅)) as [->|Hne].
  - exists None. unfold firstBelow. by rewrite below_empty by (done || intros i; apply branches16_in).
  - destruct (firstBelow_spec 64 h (m_root m) M) as (nd & k & v & -> & Hleaf & Hf);
      [by apply root_tree|done|apply agree_root, Hr|lia|].
    exists (Some (mkItem k v)). cbn. by rewrite (ln_item _ _ _ _ _ Hleaf).
Qed.

Lemma peekLastItem_spec m h M : root_rep h (m_root m) M → ∃ r, peekLastItem m h = Ok r ∧ is_end Z.gt M r.
Proof.
  intros Hr. unfold peekLastItem. destruct (decide (M = ∅)) as [->|Hne].
  - exists None. unfold lastBelow. by rewrite below_empty by (done || intros i; apply reverse_in).
  - destruct (lastBelow_spec 64 h (m_root m) M) as (nd & k & v & -> & Hleaf & Hf);
      [by apply root_tree|done|apply agree_root, Hr|lia|].
    exists (Some (mkItem k v)). cbn. by rewrite (ln_item _ _ _ _ _ Hleaf).
Qed.
End read.
