(* ===== verification/SHAMapWrite.v ===== *)
(** * Changing a tree

    What adding, updating and deleting an item do to the content of a tree, and to the nodes other
    trees may share: [evolves] says that only nodes of the map's own sequence number below the
    root changed, and that the new tree is made of new nodes and of nodes of the old tree. *)

From S2P Require Import Prelude Bytes Serializer SHAMapNodeID SHAMapTreeNode SHAMap SHAMapRep SHAMapRead.

(** ** Nodes *)

Definition reseq (nd : TreeNode) (s : Z) : TreeNode := setSeq nd s.

Lemma reseq_id nd s : mSeq nd = s → reseq nd s = nd.
Proof. intros <-. by destruct nd. Qed.

Lemma copy_inner nd s : mItem nd = None → copyNode nd s = reseq nd s.
Proof. intros H. unfold copyNode. rewrite H. unfold reseq, setSeq. by rewrite H. Qed.

Lemma list_nth_insert {A} (l : list A) (i j : nat) x d :
  (j < length l)%nat → nth i (<[j := x]> l) d = if decide (i = j) then x else nth i l d.
Proof.
  intros Hj. case_decide as Hij.
  - subst. apply nth_lookup_Some. by apply list_lookup_insert_eq.
  - rewrite !nth_lookup. by rewrite list_lookup_insert_ne by done.
Qed.

Lemma getChild_setChild nd i c j :
  length (mChildren nd) = 16%nat → 0 <= i < 16 → 0 <= j < 16 →
  getChild (setChild nd i c) j = if decide (j = i) then c else getChild nd j.
Proof.
  intros Hl Hi Hj. unfold getChild. cbn [mChildren setChild]. rewrite list_nth_insert by lia. repeat case_decide; done || lia.
Qed.

Lemma getChild_shareChild nd i c j :
  length (mChildren nd) = 16%nat → 0 <= i < 16 → 0 <= j < 16 →
  getChild (shareChild nd i c) j = if decide (j = i) then Some c else getChild nd j.
Proof.
  intros Hl Hi Hj. unfold getChild. cbn [mChildren shareChild]. rewrite list_nth_insert by lia. repeat case_decide; done || lia.
Qed.

Lemma getChildHash_setChild nd i c j :
  length (mHashes nd) = 16%nat → 0 <= i < 16 → 0 <= j < 16 →
  getChildHash (setChild nd i c) j = if decide (j = i) then 0 else getChildHash nd j.
Proof.
  intros Hl Hi Hj. unfold getChildHash. cbn [mHashes setChild]. rewrite list_nth_insert by lia. repeat case_decide; done || lia.
Qed.

Lemma setChild_bits nd i c : 0 <= i < 16 → 0 <= mIsBranch nd < 2 ^ 16 → 0 <= mIsBranch (setChild nd i c) < 2 ^ 16.
Proof.
  intros Hi Hb. assert (∀ x, 0 <= x → (∀ k, 16 <= k → Z.testbit x k = false) → x < 2 ^ 16) as Hlt.
  { intros x Hx Hk. destruct (decide (x = 0)) as [->|]; [lia|]. apply Z.log2_lt_pow2; [lia|].
    destruct (decide (Z.log2 x < 16)); [done|]. pose proof (Hk (Z.log2 x) ltac:(lia)) as Hf. rewrite Z.bit_log2 in Hf; [done|lia]. }
  assert (∀ k, 16 <= k → Z.testbit (mIsBranch nd) k = false) as Hh.
  { intros k Hk. destruct (decide (mIsBranch nd = 0)) as [->|]; [apply Z.bits_0|]. apply Z.bits_above_log2; [lia|].
    assert (Z.log2 (mIsBranch nd) < 16) by (apply Z.log2_lt_pow2; lia). lia. }
  assert (0 <= mIsBranch (setChild nd i c)) as Hnn.
  { destruct c; simpl; [apply Z.lor_nonneg; split; [lia|]; apply Z.shiftl_nonneg; lia|apply Z.land_nonneg; lia]. }
  split; [done|]. apply Hlt; [done|]. intros k Hk. destruct c; simpl.
  - rewrite Z.lor_spec, Hh, testbit_one by lia. apply Z.eqb_neq. lia.
  - by rewrite Z.land_spec, Hh.
Qed.

(** ** Nodes other trees may share *)

(** Reachable from a node, if there is one *)
Definition from (h : heap) (l : option loc) (x : loc) : Prop := match l with Some l => reach h l x | None => False end.

(** From heap [h], where a tree hangs at [old], to [h'], where its new form hangs at [new] *)
Record evolves (s : Z) (h : heap) (old : option loc) (h' : heap) (new : option loc) : Prop := {
  ev_keep : ∀ x nd, h !! x = Some nd → ∃ nd', h' !! x = Some nd' ∧ (nd' = nd ∨ (mSeq nd = s ∧ from h old x));
  ev_new : ∀ x, from h' new x → h !! x = None ∨ from h old x;
  ev_seq : ∀ x nd', from h' new x → h' !! x = Some nd' → h !! x = Some nd' ∨ mSeq nd' = s
}.

Lemma ev_dom s h old h' new x : evolves s h old h' new → h' !! x = None → h !! x = None.
Proof. intros Hev Hx. destruct (h !! x) as [nd|] eqn:Hh; [|done]. destruct (ev_keep _ _ _ _ _ Hev x nd Hh) as (nd' & H' & _). congruence. Qed.

Lemma ev_same s h old h' new x nd :
  evolves s h old h' new → h !! x = Some nd → ¬ from h old x → h' !! x = Some nd.
Proof. intros Hev Hx Hn. destruct (ev_keep _ _ _ _ _ Hev x nd Hx) as (nd' & H' & [->|[_ Hf]]); done. Qed.

Lemma reach_inv h l x :
  reach h l x → x = l ∨ ∃ nd i c, h !! l = Some nd ∧ 0 <= i < 16 ∧ getChild nd i = Some c ∧ reach h c x.
Proof. intros H. inversion H; subst; [by left|right]. eauto 10. Qed.

Lemma next_loc_fresh h : h !! next_loc h = None.
Proof. apply (not_elem_of_dom (D := gset loc)). exact (is_fresh (dom h : gset loc)). Qed.

Section write.
  Context (sha512half : blob → Z) (ty : TNType).
  Hypothesis ty_leaf : ty ≠ tnERROR ∧ ty ≠ tnINNER.

Notation leaf_node := (leaf_node sha512half ty).
Notation inner_node := (inner_node sha512half ty).
Notation rep := (rep sha512half ty).
Notation root_rep := (root_rep sha512half ty).
Notation mhash := (mhash sha512half ty).

Lemma rep_dom n h l M x : rep n h l M → reach h l x → is_Some (h !! x).
Proof.
  intros Hr Hx. destruct (reach_rep _ _ _ _ _ Hx _ _ Hr) as (m & X & _ & _ & Hrx).
  destruct m; destruct Hrx as (nd & Hnd & _); by eexists.
Qed.

(** A child does not reach its parent. *)
Lemma child_not_above n h p nd i c X :
  rep n h c X → h !! p = Some nd → 0 <= i < 16 → getChild nd i = Some c → ¬ reach h c p.
Proof.
  intros Hc Hp Hi Hg Hr. destruct (reach_rep _ _ _ _ _ Hr _ _ Hc) as (m & Y & _ & _ & Hrp). by eapply rep_acyclic.
Qed.

(** Reachability in two heaps that agree on what is reachable *)
Lemma reach_agree h h' l x : (∀ y, reach h l y → h' !! y = h !! y) → reach h' l x → reach h l x.
Proof.
  intros Ha Hr. induction Hr as [l|l nd i c x Hl Hi Hc Hr IH]; [constructor|].
  rewrite Ha in Hl by constructor. eapply reach_child; [done..|]. apply IH. intros y Hy. apply Ha. by eapply reach_child.
Qed.

(** *** One child is replaced

    The node [nd] at [p] in [h] becomes [nd2] at [p'], which differs from [nd] in the child at
    branch [i]; the other children keep their trees. *)

Section replace.
  Context (s : Z) (n : nat) (h hc : heap) (p p' : loc) (nd nd2 : TreeNode) (X : content) (i : Z) (c : option loc).
  Hypothesis Hp : h !! p = Some nd.
  Hypothesis Hin : inner_node (rep n h) n h nd X.
  Hypothesis Hi : 0 <= i < 16.
  Hypothesis Hev : evolves s h (getChild nd i) hc c.
  Hypothesis Hp' : (p' = p ∧ mSeq nd = s) ∨ (h !! p' = None ∧ ¬ from hc c p').
  Hypothesis Hnd2_s : mSeq nd2 = s.
  Hypothesis Hnd2_i : getChild nd2 i = c.
  Hypothesis Hnd2_j : ∀ j, 0 <= j < 16 → j ≠ i → getChild nd2 j = getChild nd j.

Notation h2 := (<[p' := nd2]> hc).

Lemma replace_sibling_keeps j cj x :
  0 <= j < 16 → j ≠ i → getChild nd j = Some cj → reach h cj x → h2 !! x = h !! x.
Proof.
  intros Hj Hij Hcj Hx. destruct (in_child _ _ _ _ _ _ _ Hin j cj Hj Hcj) as (_ & Hrj & _).
  destruct (rep_dom _ _ _ _ _ Hrj Hx) as [ndx Hndx]. rewrite Hndx.
  rewrite lookup_insert_ne.
  - eapply ev_same; [exact Hev|done|]. destruct (getChild nd i) as [ci|] eqn:Hci; [|tauto]. simpl. intros Hxi.
    eapply (siblings_apart _ _ _ _ _ _ j i); [exact Hin|done..].
  - intros Heq. rewrite <- Heq in Hx, Hndx. destruct Hp' as [[Hpp _]|[Hnone _]]; [|congruence]. rewrite Hpp in Hx. eapply child_not_above; [exact Hrj|exact Hp|exact Hj|exact Hcj|exact Hx].
Qed.

Lemma replace_sibling j cj :
  0 <= j < 16 → j ≠ i → getChild nd j = Some cj → rep n h2 cj (part n j X) ∧ hash_at h2 cj = hash_at h cj.
Proof.
  intros Hj Hij Hcj. destruct (in_child _ _ _ _ _ _ _ Hin j cj Hj Hcj) as (_ & Hrj & _). split.
  - eapply rep_frame; [exact Hrj|]. intros x Hx. by eapply replace_sibling_keeps.
  - unfold hash_at. rewrite (replace_sibling_keeps j cj) by (done || constructor). done.
Qed.

(** The address written to is not below the new child. *)
Lemma replace_not_below x : c = Some x → ¬ reach hc x p'.
Proof.
  intros Hc Hr. pose proof Hev as Hev'. rewrite Hc in Hev'. destruct Hp' as [[Hpp Hs]|[_ Hn]]; [|rewrite Hc in Hn; done]. rewrite Hpp in Hr.
  destruct (ev_new _ _ _ _ _ Hev' p) as [?|Hf]; [done|congruence|].
  destruct (getChild nd i) as [ci|] eqn:Hci; [|done]. simpl in Hf.
  destruct (in_child _ _ _ _ _ _ _ Hin i ci Hi Hci) as (_ & Hri & _). by eapply child_not_above.
Qed.

Lemma replace_child x X' : c = Some x → rep n hc x X' → rep n h2 x X' ∧ hash_at h2 x = hash_at hc x.
Proof.
  intros Hc Hx. pose proof (replace_not_below x Hc) as Hn.
  split; [|unfold hash_at; rewrite lookup_insert_ne; [done|]; intros ->; apply Hn; constructor].
  eapply rep_frame; [exact Hx|]. intros y Hy. rewrite lookup_insert_ne; [done|]. intros ->. done.
Qed.

Lemma replace_evolves : evolves s h (Some p) h2 (Some p').
Proof.
  split.
  - intros x ndx Hx. destruct (decide (x = p')) as [->|Hne].
    + rewrite lookup_insert_eq. eexists. split; [done|]. right. destruct (id Hp') as [[-> Hs]|[Hn _]]; [|congruence].
      rewrite Hp in Hx. injection Hx as <-. split; [done|constructor].
    + rewrite lookup_insert_ne by done. destruct (ev_keep _ _ _ _ _ Hev x ndx Hx) as (nd' & Hx' & Hor). exists nd'. split; [done|].
      destruct Hor as [->|[Hs Hf]]; [by left|right]. split; [done|]. destruct (getChild nd i) as [ci|] eqn:Hci; [|done].
      by eapply reach_child.
  - intros x Hx. cbn [from] in Hx |- *. apply reach_inv in Hx as [->|(ndy & j & cj & Hy & Hj & Hg & Hr)].
    + destruct (id Hp') as [[-> _]|[Hn _]]; [right; constructor|by left].
    + rewrite lookup_insert_eq in Hy. injection Hy as <-. destruct (decide (j = i)) as [->|Hne].
      * rewrite Hnd2_i in Hg. pose proof (replace_not_below cj Hg) as Hn.
        assert (reach hc cj x) as Hr'.
        { eapply reach_agree; [|exact Hr]. intros y Hy. rewrite lookup_insert_ne; [done|]. intros ->. done. }
        destruct (ev_new _ _ _ _ _ Hev x) as [?|Hf]; [by rewrite Hg|by left|right]. destruct (getChild nd i) as [ci|] eqn:Hci; [|done]. by eapply reach_child. 
      * rewrite Hnd2_j in Hg by done. right. eapply reach_child; [done..|]. eapply reach_agree; [|exact Hr].
        intros y Hy. by eapply replace_sibling_keeps.
  - intros x ndx Hx Hl. cbn [from] in Hx. apply reach_inv in Hx as [->|(ndy & j & cj & Hy & Hj & Hg & Hr)].
    + rewrite lookup_insert_eq in Hl. injection Hl as <-. by right.
    + rewrite lookup_insert_eq in Hy. injection Hy as <-. destruct (decide (j = i)) as [->|Hne].
      * rewrite Hnd2_i in Hg. pose proof (replace_not_below cj Hg) as Hn.
        assert (∀ y, reach hc cj y → h2 !! y = hc !! y) as Hag.
        { intros y Hy. rewrite lookup_insert_ne; [done|]. intros ->. done. }
        assert (reach hc cj x) as Hr' by by eapply reach_agree. rewrite Hag in Hl by done.
        apply (ev_seq _ _ _ _ _ Hev x ndx); [by rewrite Hg|done].
      * rewrite Hnd2_j in Hg by done. left.
        assert (reach h cj x) as Hr' by (eapply reach_agree; [|exact Hr]; intros y Hy; by eapply replace_sibling_keeps).
        by rewrite (replace_sibling_keeps j cj x) in Hl.
Qed.
End replace.

(** [setChild] on the map's own form of a node: the content changes at one digit. *)
Lemma set_child_node s n h hc p p' nd X X' i c :
  h !! p = Some nd → inner_node (rep n h) n h nd X → 0 <= i < 16 → s ≠ 0 →
  evolves s h (getChild nd i) hc c →
  (p' = p ∧ mSeq nd = s) ∨ (h !! p' = None ∧ ¬ from hc c p') →
  (∀ j, 0 <= j < 16 → j ≠ i → part n j X' = part n j X) →
  match c with Some x => part n i X' ≠ ∅ ∧ rep n hc x (part n i X') | None => part n i X' = ∅ end →
  let nd2 := setChild (reseq nd s) i c in
  let h2 := <[p' := nd2]> hc in
  inner_node (rep n h2) n h2 nd2 X' ∧ evolves s h (Some p) h2 (Some p').
Proof.
  intros Hp Hin Hi Hs Hev Hp' HX Hc nd2 h2.
  assert (∀ j, 0 <= j < 16 → getChild nd2 j = if decide (j = i) then c else getChild nd j) as Hg.
  { intros j Hj. unfold nd2. rewrite getChild_setChild; [done|apply (in_children _ _ _ _ _ _ _ Hin)|done..]. }
  assert (getChild nd2 i = c) as Hgi by (by rewrite Hg, decide_True).
  assert (∀ j, 0 <= j < 16 → j ≠ i → getChild nd2 j = getChild nd j) as Hgj by (intros j Hj Hne; by rewrite Hg, decide_False).
  split; [|by eapply replace_evolves].
  assert (∀ j, 0 <= j < 16 → getChildHash nd2 j = if decide (j = i) then 0 else getChildHash nd j) as Hh.
  { intros j Hj. unfold nd2. rewrite getChildHash_setChild; [done|apply (in_hashes _ _ _ _ _ _ _ Hin)|done..]. }
  constructor.
  - apply (in_item _ _ _ _ _ _ _ Hin).
  - apply (in_type _ _ _ _ _ _ _ Hin).
  - simpl. rewrite length_insert. apply (in_hashes _ _ _ _ _ _ _ Hin).
  - simpl. rewrite length_insert. apply (in_children _ _ _ _ _ _ _ Hin).
  - apply setChild_bits; [done|apply (in_bits _ _ _ _ _ _ _ Hin)].
  - intros j Hj. unfold nd2. rewrite setChild_branch by lia. fold nd2. rewrite Hg by done.
    destruct (Z.eqb_spec j i) as [->|Hne]; [rewrite decide_True by done; by destruct c|rewrite decide_False by done].
    apply (in_branch _ _ _ _ _ _ _ Hin j Hj).
  - intros j Hj. rewrite Hg, Hh by done. case_decide as Hji; [subst j; by intros ->|].
    rewrite HX by done. apply (in_empty _ _ _ _ _ _ _ Hin j Hj).
  - intros j cj Hj. rewrite Hg by done. case_decide as Hji; intros Hcj.
    + subst j. rewrite Hcj in Hc. destruct Hc as [Hne Hr]. split; [done|]. split; [|done].
      eapply replace_child; [exact Hp|exact Hin|exact Hi|exact Hev|exact Hp'|done|done].
    + rewrite HX by done. destruct (in_child _ _ _ _ _ _ _ Hin j cj Hj Hcj) as (Hne & _ & _). split; [done|]. split; [|done].
      by apply (replace_sibling s n h hc p p' nd nd2 X i c).
  - by left.
  - done.
Qed.

(** [shareChild] by a child that stands for the same and has its hash *)
Lemma share_child_node s n h hc p nd X i c x :
  h !! p = Some nd → inner_node (rep n h) n h nd X → 0 <= i < 16 → mSeq nd = s →
  getChild nd i = Some c → evolves s h (Some c) hc (Some x) → rep n hc x (part n i X) → hash_at hc x = mhash n (part n i X) →
  let nd2 := shareChild nd i x in
  let h2 := <[p := nd2]> hc in
  inner_node (rep n h2) n h2 nd2 X ∧ evolves s h (Some p) h2 (Some p)
  ∧ (∀ j cj y, 0 <= j < 16 → j ≠ i → getChild nd j = Some cj → reach h cj y → h2 !! y = h !! y)
  ∧ (∀ y, reach hc x y → h2 !! y = hc !! y).
Proof.
  intros Hp Hin Hi Hs Hgc Hev Hrx Hhx nd2 h2. rewrite <- Hgc in Hev.
  assert ((p = p ∧ mSeq nd = s) ∨ (h !! p = None ∧ ¬ from hc (Some x) p)) as Hp' by (by left).
  assert (∀ j, 0 <= j < 16 → getChild nd2 j = if decide (j = i) then Some x else getChild nd j) as Hg.
  { intros j Hj. unfold nd2. rewrite getChild_shareChild; [done|apply (in_children _ _ _ _ _ _ _ Hin)|done..]. }
  assert (getChild nd2 i = Some x) as Hgi by (by rewrite Hg, decide_True).
  assert (∀ j, 0 <= j < 16 → j ≠ i → getChild nd2 j = getChild nd j) as Hgj by (intros j Hj Hne; by rewrite Hg, decide_False).
  destruct (replace_child s n h hc p p nd nd2 X i (Some x) Hp Hin Hi Hev Hp' x _ eq_refl Hrx) as [Hrx' Hhx'].
  split; [|split; [by eapply replace_evolves|split]].
  2:{ intros j cj y Hj Hne Hcj Hy. exact (replace_sibling_keeps s n h hc p p nd nd2 X i (Some x) Hp Hin Hi Hev Hp' j cj y Hj Hne Hcj Hy). }
  2:{ intros y Hy. unfold h2. rewrite lookup_insert_ne; [done|]. intros <-.
      by apply (replace_not_below s n h hc p p nd X i (Some x) Hp Hin Hi Hev Hp' x eq_refl). }
  constructor; try apply Hin.
  - simpl. rewrite length_insert. apply Hin.
  - intros j Hj. change (isEmptyBranch nd2 j) with (isEmptyBranch nd j). rewrite (in_branch _ _ _ _ _ _ _ Hin) by done. rewrite Hg by done.
    case_decide as Hji; [|done]. subst j. by rewrite Hgc.
  - intros j Hj. rewrite Hg by done. case_decide; [done|]. apply (in_empty _ _ _ _ _ _ _ Hin j Hj).
  - intros j cj Hj. change (mHash nd2) with (mHash nd). change (getChildHash nd2 j) with (getChildHash nd j). rewrite Hg by done.
    case_decide as Hji; intros Hcj.
    + subst j. injection Hcj as <-. destruct (in_child _ _ _ _ _ _ _ Hin i c Hi Hgc) as (H1 & _ & H3). split; [done|]. split; [done|].
      intros Hz. destruct (H3 Hz) as [H4 _]. split; [done|]. fold h2 in Hhx'. by rewrite Hhx'.
    + destruct (in_child _ _ _ _ _ _ _ Hin j cj Hj Hcj) as (H1 & _ & H3). split; [done|].
      destruct (replace_sibling s n h hc p p nd nd2 X i (Some x) Hp Hin Hi Hev Hp' j cj Hj Hji Hcj) as [Hr' Hh']. split; [done|].
      intros Hz. fold h2 in Hh'. rewrite Hh'. by apply H3.
Qed.

(** ** [unshareNode] *)

(** The map's own form of a node: itself, or a copy at a new address *)
Lemma unshare_spec m h l nd id :
  h !! l = Some nd →
  ∃ l' h' nd', unshareNode m h l id = Ok (l', if isRoot id && bool_decide (l' ≠ l) then set_root m l' else m, h')
    ∧ nd' = (if decide (mSeq nd = m_seq m) then nd else copyNode nd (m_seq m)) ∧ h' = <[l' := nd']> h
    ∧ ((l' = l ∧ mSeq nd = m_seq m) ∨ h !! l' = None).
Proof.
  intros Hl. unfold unshareNode, deref. rewrite Hl. cbn [mbind result_bind].
  destruct (Z.eqb_spec (mSeq nd) (m_seq m)) as [Hs|Hs]; cbn [negb].
  - exists l, h, nd. rewrite decide_True by done. rewrite bool_decide_false by (intros H; by apply H).
    rewrite andb_false_r. split; [done|]. split; [done|]. split; [by rewrite insert_id|by left].
  - exists (next_loc h), (<[next_loc h := copyNode nd (m_seq m)]> h), (copyNode nd (m_seq m)). rewrite decide_False by done. cbn [alloc].
    pose proof (next_loc_fresh h) as Hf. split; [|by auto]. rewrite bool_decide_true by congruence. by rewrite andb_true_r.
Qed.

Lemma unshare_inner m h l nd id :
  h !! l = Some nd → mItem nd = None →
  ∃ l' h', unshareNode m h l id = Ok (l', if isRoot id && bool_decide (l' ≠ l) then set_root m l' else m, h')
    ∧ h' = <[l' := reseq nd (m_seq m)]> h ∧ ((l' = l ∧ mSeq nd = m_seq m) ∨ h !! l' = None).
Proof.
  intros Hl Hi. destruct (unshare_spec m h l nd id Hl) as (l' & h' & nd' & Hu & Hnd & Hh & Hor).
  exists l', h'. split; [done|]. split; [|done]. rewrite Hh, Hnd. f_equal. case_decide; [by rewrite reseq_id|by apply copy_inner].
Qed.

(** ** The way to a tag *)

(** The stack above a node on the way to [t], with the content of the node *)
Inductive path (h : heap) (root : loc) (M : content) (t : Z) : nat → NodeStack → loc → content → Prop :=
| path_root : path h root M t 64 [] root M
| path_down n st p nd c X :
    path h root M t (S n) st p X → h !! p = Some nd → inner_node (rep n h) n h nd X →
    ((n < 63)%nat → (2 <= size X)%nat) → getChild nd (dig n t) = Some c →
    path h root M t n ((p, id_at (S n) t) :: st) c (part n (dig n t) X).

Lemma path_height h root M t n st l X : path h root M t n st l X → (n <= 64)%nat.
Proof. induction 1; lia. Qed.

Lemma path_top h root M t st l X : path h root M t 64 st l X → l = root ∧ st = [] ∧ X = M.
Proof. intros H. inversion H as [|n' st' p nd c X' Hp]; [done|]. apply path_height in Hp. lia. Qed.

Lemma path_lookup h root M t n st l X : path h root M t n st l X → X !! t = M !! t.
Proof. induction 1; [done|]. rewrite lookup_part, decide_True by done. done. Qed.

Lemma path_agree h root M t n st l X : map_Forall (λ k _, is_u256 k) M → is_u256 t → path h root M t n st l X → agree_with n t X.
Proof.
  intros Hu Ht. induction 1; [|by apply agree_with_part]. intros k [v Hk]. pose proof (Hu _ _ Hk). unfold is_u256 in *.
  change (16 ^ Z.of_nat 64) with (2 ^ 256). by rewrite !Z.div_small.
Qed.

Lemma path_rep h root M t n st l X : path h root M t n st l X → (n < 64)%nat → rep n h l X.
Proof. intros H Hn. inversion H as [|n' st' p nd c X' Hp Hl Hin Hs Hc]; subst; [lia|]. by eapply in_child, Hc; [|apply dig_range]. Qed.

Definition top_rep (h : heap) (l : loc) (M : content) : Prop := ∃ nd, h !! l = Some nd ∧ inner_node (rep 63 h) 63 h nd M.

(** What [getStack] returns *)
Lemma getStack_path m h M t :
  root_rep h (m_root m) M → is_u256 t →
  ∃ n st l nd X, path h (m_root m) M t n st l X ∧ h !! l = Some nd ∧ getStack m h t true = Ok ((l, id_at n t) :: st) ∧
    ((∃ k v, (n < 64)%nat ∧ X = {[k := v]} ∧ leaf_node nd k v)
     ∨ ∃ n', n = S n' ∧ inner_node (rep n' h) n' h nd X ∧ ((n' < 63)%nat → (2 <= size X)%nat) ∧ getChild nd (dig n' t) = None).
Proof.
  intros [_ (nd & Hl & Hin)] Ht. unfold getStack. rewrite <- (id_at_root t) by done.
  assert (∀ n fuel st l nd X, path h (m_root m) M t n st l X → h !! l = Some nd → (n < fuel)%nat →
    ((∃ k v, (n < 64)%nat ∧ X = {[k := v]} ∧ leaf_node nd k v)
     ∨ match n with O => False | S n => inner_node (rep n h) n h nd X ∧ ((n < 63)%nat → (2 <= size X)%nat) end) →
    ∃ n' st' l' nd' X', path h (m_root m) M t n' st' l' X' ∧ h !! l' = Some nd' ∧
      getStack_loop fuel h t true l (id_at n t) st = Ok ((l', id_at n' t) :: st') ∧
      ((∃ k v, (n' < 64)%nat ∧ X' = {[k := v]} ∧ leaf_node nd' k v)
       ∨ ∃ n2, n' = S n2 ∧ inner_node (rep n2 h) n2 h nd' X' ∧ ((n2 < 63)%nat → (2 <= size X')%nat) ∧ getChild nd' (dig n2 t) = None)) as Hloop.
  { clear nd Hl Hin. induction n as [|n IH]; intros [|fuel] st l nd X Hp Hl Hf Hor; [lia| |lia|];
      pose proof (path_height _ _ _ _ _ _ _ _ Hp); cbn [getStack_loop]; unfold deref; rewrite Hl; cbn [mbind result_bind].
    all: destruct Hor as [(k & v & Hn & -> & Hleaf)|Hin]; [|try done].
    1,2: destruct (leaf_isLeaf _ _ ty_leaf _ _ _ Hleaf) as (-> & _ & _); cbn [negb]; rewrite (ln_item _ _ _ _ _ Hleaf); cbn [orb];
      do 5 eexists; split; [exact Hp|]; split; [exact Hl|]; split; [done|]; left; by exists k, v.
    destruct Hin as [Hin Hs]. destruct (inner_isInner _ _ _ _ _ _ _ Hin) as (-> & _ & _). cbn [negb]. rewrite id_at_branch by lia.
    destruct (inner_branch _ _ _ _ _ _ _ _ Hin (dig_range n t)) as [[He _]|(c & -> & Hc & -> & _ & Hr)].
    - rewrite He. do 5 eexists. split; [exact Hp|]. split; [exact Hl|]. split; [done|]. right. exists n. split; [done|]. split; [done|]. split; [done|].
      rewrite (in_branch _ _ _ _ _ _ _ Hin) in He by apply dig_range. by apply bool_decide_eq_true in He.
    - cbn [mbind result_bind]. rewrite id_at_child by (done || lia).
      assert (∃ ndc, h !! c = Some ndc ∧ ((∃ k v, part n (dig n t) X = {[k := v]} ∧ leaf_node ndc k v)
        ∨ match n with O => False | S n0 => (2 <= size (part n (dig n t) X))%nat ∧ inner_node (rep n0 h) n0 h ndc (part n (dig n t) X) end)) as (ndc & Hlc & Horc).
      { destruct n; exact Hr. }
      eapply IH; [by eapply path_down|exact Hlc|lia|]. destruct Horc as [(k & v & -> & Hleaf)|Horc]; [left; exists k, v; split_and!; [lia|done..]|right].
      destruct n; [done|]. destruct Horc. done. }
  apply (Hloop 64%nat _ [] (m_root m) nd M); [constructor|done|unfold max_depth; lia|]. right. split; [done|lia].
Qed.

(** ** [dirtyUp] *)

Lemma size_insert_2 (X : content) t v : (2 <= size X)%nat → (2 <= size (<[t := v]> X))%nat.
Proof.
  rewrite !size_2. intros (k1 & k2 & Hk & H1 & H2). exists k1, k2. split_and!; [done|..]; by apply lookup_insert_is_Some'; right.
Qed.

(** The new form of a node at height [n]: the root is entered in the map. *)
Definition hangs (root : loc) (n : nat) (m : SHAMap) (h : heap) (c : loc) (X : content) : Prop :=
  if decide (n = 64%nat) then top_rep h c X ∧ m_root m = c else rep n h c X ∧ m_root m = root.

(** What follows from changing a node on the way by its child: shared by all changes *)
Lemma step_up m h root M t n st p nd X hole hc c X' :
  path h root M t (S n) st p X → h !! p = Some nd → inner_node (rep n h) n h nd X → getChild nd (dig n t) = Some hole →
  m_seq m ≠ 0 → evolves (m_seq m) h (Some hole) hc c → m_root m = root →
  (∀ j, 0 <= j < 16 → j ≠ dig n t → part n j X' = part n j X) →
  match c with Some x => part n (dig n t) X' ≠ ∅ ∧ rep n hc x (part n (dig n t) X') | None => part n (dig n t) X' = ∅ end →
  ∃ p' m' nd2 h2, unshareNode m hc p (id_at (S n) t) = Ok (p', m', <[p' := reseq nd (m_seq m)]> hc)
    ∧ modify (<[p' := reseq nd (m_seq m)]> hc) p' (λ n', setChild n' (dig n t) c) = Ok h2
    ∧ h2 !! p' = Some nd2 ∧ inner_node (rep n h2) n h2 nd2 X' ∧ evolves (m_seq m) h (Some p) h2 (Some p')
    ∧ mSeq nd2 = m_seq m ∧ m_seq m' = m_seq m ∧ m_state m' = m_state m ∧ m_root m' = (if decide (S n = 64%nat) then p' else root).
Proof.
  intros Hpath Hp Hin Hhole Hs Hev Hroot HX Hc. pose proof (path_height _ _ _ _ _ _ _ _ Hpath) as Hn.
  destruct (in_child _ _ _ _ _ _ _ Hin _ _ (dig_range n t) Hhole) as (_ & Hrh & _).
  assert (hc !! p = Some nd) as Hcp.
  { eapply ev_same; [exact Hev|done|]. by eapply child_not_above; [..|apply dig_range|]. }
  destruct (unshare_inner m hc p nd (id_at (S n) t) Hcp (in_item _ _ _ _ _ _ _ Hin)) as (p' & h' & Hu & -> & Hor).
  assert ((p' = p ∧ mSeq nd = m_seq m) ∨ (h !! p' = None ∧ ¬ from hc c p')) as Hp'.
  { destruct Hor as [?|Hf]; [by left|right]. split; [by eapply ev_dom|]. destruct c as [x|]; [|tauto]. simpl. intros Hx.
    destruct (rep_dom _ _ _ _ _ (proj2 Hc) Hx). congruence. }
  rewrite <- Hhole in Hev.
  destruct (set_child_node (m_seq m) n h hc p p' nd X X' (dig n t) c Hp Hin (dig_range n t) Hs Hev Hp' HX Hc) as [Hin2 Hev2].
  eexists p', _, _, _. split; [exact Hu|]. split; [unfold modify, deref; rewrite lookup_insert_eq; cbn [mbind result_bind]; by rewrite insert_insert_eq|].
  split; [by rewrite lookup_insert_eq|]. split; [exact Hin2|]. split; [exact Hev2|]. split; [done|].
  rewrite id_at_isRoot by lia. destruct (decide (S n = 64%nat)) as [H64|H64].
  - rewrite bool_decide_true by done. cbn [andb]. rewrite H64 in Hpath. apply path_top in Hpath as (Hpr & _ & _).
    case_bool_decide; [done|]. split_and!; [done..|]. rewrite Hroot, <- Hpr. symmetry. apply dec_stable. tauto.
  - rewrite bool_decide_false by done. cbn [andb]. done.
Qed.

Lemma dirtyUp_spec h root M t v n st hole X :
  path h root M t n st hole X → ∀ m hc c,
  m_seq m ≠ 0 → evolves (m_seq m) h (Some hole) hc (Some c) → hangs root n m hc c (<[t := v]> X) →
  ∃ m' h', dirtyUp m hc st t c = Ok (m', h') ∧ top_rep h' (m_root m') (<[t := v]> M)
    ∧ evolves (m_seq m) h (Some root) h' (Some (m_root m')) ∧ m_seq m' = m_seq m ∧ m_state m' = m_state m.
Proof.
  induction 1 as [|n st p nd hole X Hpath IH Hp Hin Hsize Hhole]; intros m hc c Hs Hev Hh.
  - destruct Hh as [Hh Hr]. exists m, hc. cbn [dirtyUp]. by subst c.
  - pose proof (path_height _ _ _ _ _ _ _ _ Hpath). unfold hangs in Hh. rewrite decide_False in Hh by lia. destruct Hh as [Hrc Hroot].
    destruct (step_up m h root M t n st p nd X hole hc (Some c) (<[t := v]> X) Hpath Hp Hin Hhole Hs Hev Hroot)
      as (p' & m' & nd2 & h2 & Hu & Hm & Hp2 & Hin2 & Hev2 & _ & Hseq & Hst & Hr).
    { intros j Hj Hne. by rewrite part_insert, decide_False. }
    { rewrite part_insert, decide_True by done. split; [apply insert_non_empty|done]. }
    cbn [dirtyUp]. rewrite Hu. cbn [mbind result_bind]. rewrite id_at_branch by lia. rewrite Hm. cbn [mbind result_bind].
    rewrite <- Hseq in Hev2. destruct (IH m' h2 p') as (m2 & h3 & Hd & Ht & He & Hs2 & Hst2); [congruence|done| |].
    { unfold hangs. rewrite Hr. case_decide as H64; [injection H64 as ->; split; [by exists nd2|done]|].
      split; [|done]. exists nd2. split; [done|]. right. split; [|done]. apply size_insert_2, Hsize. lia. }
    exists m2, h3. rewrite Hseq in *. split; [done|]. split; [done|]. split; [done|]. split; congruence.
Qed.

(** ** Adding *)

Lemma evolves_trans s h a h' b h'' c : evolves s h a h' b → evolves s h' b h'' c → evolves s h a h'' c.
Proof.
  intros H1 H2. split.
  - intros x nd Hx. destruct (ev_keep _ _ _ _ _ H1 x nd Hx) as (nd' & Hx' & Hor).
    destruct (ev_keep _ _ _ _ _ H2 x nd' Hx') as (nd'' & Hx'' & Hor'). exists nd''. split; [done|].
    destruct Hor as [->|?]; [|by right]. destruct Hor' as [->|[Hs Hf]]; [by left|right]. split; [done|].
    destruct (ev_new _ _ _ _ _ H1 x Hf); [congruence|done].
  - intros x Hx. destruct (ev_new _ _ _ _ _ H2 x Hx) as [Hn|Hf]; [left; by eapply ev_dom|by apply (ev_new _ _ _ _ _ H1)].
  - intros x nd Hx Hl. destruct (ev_seq _ _ _ _ _ H2 x nd Hx Hl) as [Hl'|?]; [|by right].
    destruct (ev_new _ _ _ _ _ H2 x Hx) as [?|Hf]; [congruence|]. by apply (ev_seq _ _ _ _ _ H1).
Qed.

(** A node without children reaches only itself. *)
Lemma reach_childless h l nd x : h !! l = Some nd → (∀ i, 0 <= i < 16 → getChild nd i = None) → reach h l x → x = l.
Proof. intros Hl Hn [->|(nd' & i & c & Hl' & Hi & Hc & _)]%reach_inv; [done|]. simplify_eq. by rewrite Hn in Hc. Qed.

Lemma nulls_no_child nd i : mChildren nd = nulls → getChild nd i = None.
Proof.
  intros H. unfold getChild. rewrite H. unfold nulls. generalize (Z.to_nat i). intros m.
  do 16 (destruct m as [|m]; [done|]). by destruct m.
Qed.

(** A new node at a new address *)
Lemma evolves_alloc s h nd : mChildren nd = nulls → mSeq nd = s → evolves s h None (<[next_loc h := nd]> h) (Some (next_loc h)).
Proof.
  intros Hn Hs. pose proof (next_loc_fresh h) as Hf.
  assert (∀ x, reach (<[next_loc h := nd]> h) (next_loc h) x → x = next_loc h) as Honly.
  { intros x Hx. eapply reach_childless in Hx; [done|by rewrite lookup_insert_eq|]. intros i _. by apply nulls_no_child. }
  split.
  - intros x nd' Hx. exists nd'. split; [|by left]. rewrite lookup_insert_ne; [done|]. congruence.
  - intros x Hx. apply Honly in Hx as ->. by left.
  - intros x nd' Hx Hl. apply Honly in Hx as ->. rewrite lookup_insert_eq in Hl. injection Hl as <-. by right.
Qed.

(** The node that [makeInner] leaves *)
Definition hollow (s : Z) : TreeNode := mkNode 0 zeros nulls None s tnINNER 0.

Lemma hollow_inner n h s : s ≠ 0 → inner_node (rep n h) n h (hollow s) ∅.
Proof.
  intros Hs. assert (∀ i, getChild (hollow s) i = None) as Hg by (intros i; by apply nulls_no_child).
  constructor; try done.
  - intros i Hi. rewrite Hg, bool_decide_true by done. reflexivity.
  - intros i Hi _. split; [apply part_empty|]. unfold getChildHash, hollow, zeros. cbn [mHashes]. generalize (Z.to_nat i). intros m.
    do 16 (destruct m as [|m]; [done|]). by destruct m.
  - intros i c _ Hc. by rewrite Hg in Hc.
  - by left.
Qed.

Lemma itemNode_leaf k v s : leaf_node (itemNode sha512half (mkItem k v) ty s) k v ∧ mSeq (itemNode sha512half (mkItem k v) ty s) = s.
Proof.
  unfold itemNode, updateHash. cbn [mType mItem mHash].
  split; [constructor; try (by case_if)|by case_if]. unfold leaf_hash, itemNode, updateHash. cbn [mType mItem mHash]. by destruct (_ =? 0).
Qed.

Lemma leaf_rep n h l nd k v : h !! l = Some nd → leaf_node nd k v → rep n h l {[k := v]}.
Proof. intros Hl Hleaf. destruct n; exists nd; (split; [done|]); left; eauto. Qed.

(** A leaf put into an empty branch of the map's own node *)
Lemma put_leaf s n h p nd X k v :
  h !! p = Some nd → inner_node (rep n h) n h nd X → mSeq nd = s → s ≠ 0 → getChild nd (dig n k) = None →
  let l := next_loc h in
  let h1 := <[l := itemNode sha512half (mkItem k v) ty s]> h in
  let nd2 := setChild nd (dig n k) (Some l) in
  h1 !! p = Some nd ∧
  inner_node (rep n (<[p := nd2]> h1)) n (<[p := nd2]> h1) nd2 (<[k := v]> X) ∧ evolves s h (Some p) (<[p := nd2]> h1) (Some p).
Proof.
  intros Hp Hin Hs Hnz Hc l h1 nd2. destruct (itemNode_leaf k v s) as [Hleaf Hsq].
  pose proof (next_loc_fresh h) as Hf. fold l in Hf. split; [unfold h1; rewrite lookup_insert_ne; congruence|].
  pose proof (in_empty _ _ _ _ _ _ _ Hin _ (dig_range n k) Hc) as [He _].
  pose proof (set_child_node s n h h1 p p nd X (<[k := v]> X) (dig n k) (Some l)) as H. rewrite reseq_id in H by done. cbv zeta in H.
  apply H; try done.
  - apply dig_range.
  - rewrite Hc. apply evolves_alloc; [apply (ln_children _ _ _ _ _ Hleaf)|done].
  - by left.
  - intros j Hj Hne. by rewrite part_insert, decide_False.
  - rewrite part_insert, decide_True, He by done. split; [apply insert_non_empty|].
    rewrite insert_empty. eapply leaf_rep; [unfold h1; by rewrite lookup_insert_eq|done].
Qed.

(** Both leaves of a split, as the code adds them *)
Definition put_two (h : heap) (node : loc) (b1 b2 : Z) (n1 n2 : TreeNode) : result heap :=
  let '(l, h) := alloc h n1 in
  h ← modify h node (λ n, setChild n b1 (Some l));
  let '(l, h) := alloc h n2 in
  modify h node (λ n, setChild n b2 (Some l)).

Section split.
  Context (t k : Z) (v w : blob) (m : SHAMap).
  Hypothesis Ht : is_u256 t.
  Hypothesis Htk : t ≠ k.
  Hypothesis Hs : m_seq m ≠ 0.

Definition both : content := <[t := v]> {[k := w]}.

Lemma both_size : (2 <= size both)%nat.
Proof.
  apply size_2. exists t, k. split; [done|]. unfold both. rewrite lookup_insert_eq, lookup_insert_ne, lookup_singleton_eq by done. split; by eexists.
Qed.

(** Where the tags part *)
Lemma split_end n h q :
  dig n t ≠ dig n k → h !! q = Some (hollow (m_seq m)) →
  ∃ h5, put_two h q (dig n t) (dig n k) (itemNode sha512half (mkItem t v) ty (m_seq m)) (itemNode sha512half (mkItem k w) ty (m_seq m)) = Ok h5
    ∧ rep (S n) h5 q both ∧ evolves (m_seq m) h (Some q) h5 (Some q).
Proof.
  intros Hd Hq. assert (∀ i, getChild (hollow (m_seq m)) i = None) as Hg by (intros i; by apply nulls_no_child).
  destruct (put_leaf (m_seq m) n h q _ ∅ t v Hq (hollow_inner n h _ Hs)) as (Hq1 & Hin1 & Hev1); [done..|].
  set (h1 := <[next_loc h := _]> h) in *. set (nd2 := setChild (hollow _) _ _) in *. set (h2 := <[q := nd2]> h1) in *.
  assert (h2 !! q = Some nd2) as Hq2 by (unfold h2; by rewrite lookup_insert_eq).
  destruct (put_leaf (m_seq m) n h2 q nd2 _ k w Hq2 Hin1) as (Hq3 & Hin3 & Hev3); [done..| |].
  { unfold nd2. rewrite getChild_setChild by (done || apply dig_range). by rewrite decide_False by done. }
  eexists. split; [|split].
  - unfold put_two, alloc, modify, deref. cbv beta iota. fold h1. rewrite Hq1. cbn [mbind result_bind]. fold nd2. fold h2. rewrite Hq3. reflexivity.
  - eexists. split; [by rewrite lookup_insert_eq|]. right. split; [apply both_size|].
    replace both with (<[k := w]> (<[t := v]> (∅ : content))); [exact Hin3|]. unfold both. rewrite insert_insert_ne by done. by rewrite insert_empty.
  - by eapply evolves_trans.
Qed.

(** Above it, where they share a digit *)
Lemma split_link n h q h1 q' st :
  dig n t = dig n k → (n < 64)%nat → h !! q = Some (hollow (m_seq m)) → evolves (m_seq m) h None h1 (Some q') → rep n h1 q' both →
  ∃ h2, dirtyUp m h1 ((q, id_at (S n) t) :: st) t q' = dirtyUp m h2 st t q
    ∧ rep (S n) h2 q both ∧ evolves (m_seq m) h (Some q) h2 (Some q).
Proof.
  intros Hd Hn Hq Hev Hr. assert (∀ i, getChild (hollow (m_seq m)) i = None) as Hg by (intros i; by apply nulls_no_child).
  assert (h1 !! q = Some (hollow (m_seq m))) as Hq1 by (eapply ev_same; [exact Hev|done|tauto]).
  assert (∀ j, part n j both = if decide (j = dig n t) then both else ∅) as Hpart.
  { intros j. unfold both. rewrite part_insert, part_singleton. rewrite <- Hd. repeat case_decide; done || congruence. }
  destruct (set_child_node (m_seq m) n h h1 q q _ ∅ both (dig n t) (Some q') Hq (hollow_inner n h _ Hs) (dig_range n t) Hs) as [Hin2 Hev2].
  { by rewrite Hg. }
  { by left. }
  { intros j Hj Hne. by rewrite Hpart, decide_False, part_empty. }
  { rewrite Hpart, decide_True by done. split; [by eapply rep_nonempty|done]. }
  rewrite reseq_id in Hin2, Hev2 by done. cbv zeta in Hin2, Hev2. eexists. split; [|split; [|exact Hev2]].
  - cbn [dirtyUp]. unfold unshareNode, deref. rewrite Hq1. cbn [mbind result_bind mSeq hollow]. rewrite Z.eqb_refl. cbn [negb].
    cbn [mbind result_bind]. unfold modify, deref. rewrite Hq1. cbn [mbind result_bind]. rewrite id_at_branch by done. reflexivity.
  - eexists. split; [by rewrite lookup_insert_eq|]. right. split; [apply both_size|exact Hin2].
Qed.

Lemma split_spec n : ∀ fuel h q st,
  (n < fuel)%nat → (n < 64)%nat → t / 16 ^ Z.of_nat (S n) = k / 16 ^ Z.of_nat (S n) → h !! q = Some (hollow (m_seq m)) →
  ∃ q2 b1 b2 chain h1 h5 h6, split_loop fuel m h t k q (id_at (S n) t) st = Ok (q2, b1, b2, chain ++ st, h1)
    ∧ put_two h1 q2 b1 b2 (itemNode sha512half (mkItem t v) ty (m_seq m)) (itemNode sha512half (mkItem k w) ty (m_seq m)) = Ok h5
    ∧ dirtyUp m h5 (chain ++ st) t q2 = dirtyUp m h6 st t q
    ∧ rep (S n) h6 q both ∧ evolves (m_seq m) h (Some q) h6 (Some q).
Proof.
  induction n as [|n IH]; intros [|fuel] h q st Hf Hn Ha Hq; try lia; cbn [split_loop]; rewrite !id_at_branch by lia.
  - destruct (Z.eqb_spec (dig 0 t) (dig 0 k)) as [Hd|Hd].
    + exfalso. apply Htk. pose proof (div_step 0 t) as H1. pose proof (div_step 0 k) as H2. change (16 ^ Z.of_nat 0) with 1 in H1, H2.
      rewrite Z.div_1_r in H1, H2. lia.
    + destruct (split_end 0 h q Hd Hq) as (h5 & Hp & Hr & Hev). exists q, (dig 0 t), (dig 0 k), [], h, h5, h5. done.
  - destruct (Z.eqb_spec (dig (S n) t) (dig (S n) k)) as [Hd|Hd].
    + cbn [alloc]. set (q' := next_loc h). change (makeInner (newNode (m_seq m))) with (hollow (m_seq m)).
      set (h' := <[q' := hollow (m_seq m)]> h). rewrite id_at_child by (done || lia).
      destruct (IH fuel h' q' ((q, id_at (S (S n)) t) :: st)) as (q2 & b1 & b2 & chain & h1 & h5 & h6 & Hsp & Hpt & Hdu & Hr & Hev);
        [lia..| | |].
      { rewrite (div_step (S n) t), (div_step (S n) k). lia. }
      { unfold h'. by rewrite lookup_insert_eq. }
      destruct (split_link (S n) h q h6 q' st Hd Hn Hq) as (h7 & Hdu7 & Hr7 & Hev7); [|done|].
      { eapply evolves_trans; [|exact Hev]. by apply evolves_alloc. }
      exists q2, b1, b2, (chain ++ [(q, id_at (S (S n)) t)]), h1, h5, h7. rewrite <- app_assoc. cbn [app].
      split; [done|]. split; [done|]. split; [by rewrite Hdu|done].
    + destruct (split_end (S n) h q Hd Hq) as (h5 & Hp & Hr & Hev). exists q, (dig (S n) t), (dig (S n) k), [], h, h5, h5. done.
Qed.
End split.

(** What a change promises: the new content, in a tree that grew out of the old one *)
Definition changed (m : SHAMap) (h : heap) (m' : SHAMap) (h' : heap) (M' : content) : Prop :=
  root_rep h' (m_root m') M' ∧ evolves (m_seq m) h (Some (m_root m)) h' (Some (m_root m'))
  ∧ m_seq m' = m_seq m ∧ m_state m' = m_state m.

Lemma add_to_leaf m h M t v n st l nd X k w :
  map_Forall (λ k _, is_u256 k) M → is_u256 t → m_seq m ≠ 0 →
  path h (m_root m) M t n st l X → (n < 64)%nat → h !! l = Some nd → X = {[k := w]} → leaf_node nd k w → t ≠ k →
  ∃ l' h1 nd' h2 q2 b1 b2 st2 h3 h5 m' h', unshareNode m h l (id_at n t) = Ok (l', m, h1) ∧ h1 !! l' = Some nd'
    ∧ leaf_node nd' k w ∧ modify h1 l' makeInner = Ok h2
    ∧ split_loop max_depth m h2 t k l' (id_at n t) st = Ok (q2, b1, b2, st2, h3)
    ∧ put_two h3 q2 b1 b2 (itemNode sha512half (mkItem t v) ty (m_seq m)) (itemNode sha512half (mkItem k w) ty (m_seq m)) = Ok h5
    ∧ dirtyUp m h5 st2 t q2 = Ok (m', h') ∧ top_rep h' (m_root m') (<[t := v]> M)
    ∧ evolves (m_seq m) h (Some (m_root m)) h' (Some (m_root m')) ∧ m_seq m' = m_seq m ∧ m_state m' = m_state m.
Proof.
  intros Hu Ht Hs Hpath Hn Hl HX Hleaf Htk.
  destruct (unshare_spec m h l nd (id_at n t) Hl) as (l' & h1 & nd' & Hun & Hnd' & -> & Hor).
  rewrite id_at_isRoot, bool_decide_false in Hun by lia. cbn [andb] in Hun.
  assert (leaf_node nd' k w ∧ mSeq nd' = m_seq m) as [Hleaf' Hseq'].
  { rewrite Hnd'. case_decide; [done|]. unfold copyNode. rewrite (ln_item _ _ _ _ _ Hleaf). split; [|done]. constructor; try done; simpl; apply Hleaf. }
  assert (makeInner nd' = hollow (m_seq m)) as Hmk.
  { unfold makeInner, hollow. by rewrite (ln_children _ _ _ _ _ Hleaf'), Hseq'. }
  assert (agree_with n t X) as Ha by by eapply path_agree.
  assert (k / 16 ^ Z.of_nat n = t / 16 ^ Z.of_nat n) as Hkt by (apply Ha; rewrite HX, lookup_singleton_eq; by eexists).
  destruct n as [|n]; [change (16 ^ Z.of_nat 0) with 1 in Hkt; rewrite !Z.div_1_r in Hkt; congruence|].
  set (h2 := <[l' := hollow (m_seq m)]> h).
  assert (evolves (m_seq m) h (Some l) h2 (Some l')) as Hev0.
  { split.
    - intros x ndx Hx. unfold h2. destruct (decide (x = l')) as [->|]; [|rewrite lookup_insert_ne by done; eauto].
      rewrite lookup_insert_eq. eexists. split; [done|]. right. destruct Hor as [[-> Hsq]|]; [|congruence]. simplify_eq. split; [done|constructor].
    - intros x Hx. cbn [from] in *. eapply reach_childless in Hx; [subst x|unfold h2; by rewrite lookup_insert_eq|intros; by apply nulls_no_child].
      destruct Hor as [[-> _]|]; [right; constructor|by left].
    - intros x ndx Hx Hlx. cbn [from] in *. eapply reach_childless in Hx; [subst x|unfold h2; by rewrite lookup_insert_eq|intros; by apply nulls_no_child].
      unfold h2 in Hlx. rewrite lookup_insert_eq in Hlx. injection Hlx as <-. by right. }
  destruct (split_spec t k v w m Ht Htk Hs n max_depth h2 l' st) as (q2 & b1 & b2 & chain & h3 & h5 & h6 & Hsp & Hpt & Hdu & Hr & Hev);
    [unfold max_depth; lia|lia|done|unfold h2; by rewrite lookup_insert_eq|].
  destruct (dirtyUp_spec h (m_root m) M t v (S n) st l X Hpath m h6 l' Hs) as (m' & h' & Hd & Htop & He & Hsq & Hst).
  { by eapply evolves_trans. }
  { unfold hangs. rewrite decide_False by lia. split; [|done]. rewrite HX. exact Hr. }
  exists l', (<[l' := nd']> h), nd', h2, q2, b1, b2, (chain ++ st), h3, h5, m', h'.
  split; [done|]. split; [by rewrite lookup_insert_eq|]. split; [done|]. split.
  { unfold modify, deref. rewrite lookup_insert_eq. cbn [mbind result_bind]. rewrite Hmk, insert_insert_eq. done. }
  split; [done|]. split; [done|]. split; [by rewrite Hdu|]. done.
Qed.

Lemma add_to_inner m h M t v n st p nd X :
  m_seq m ≠ 0 → path h (m_root m) M t (S n) st p X → h !! p = Some nd → inner_node (rep n h) n h nd X →
  ((n < 63)%nat → (2 <= size X)%nat) → getChild nd (dig n t) = None →
  ∃ p' m1 h1 nd1 h2 m' h', unshareNode m h p (id_at (S n) t) = Ok (p', m1, h1) ∧ m_seq m1 = m_seq m ∧ h1 !! p' = Some nd1
    ∧ isInner nd1 = true
    ∧ modify (alloc h1 (itemNode sha512half (mkItem t v) ty (m_seq m))).2 p' (λ n', setChild n' (dig n t) (Some (next_loc h1))) = Ok h2
    ∧ dirtyUp m1 h2 st t p' = Ok (m', h') ∧ top_rep h' (m_root m') (<[t := v]> M)
    ∧ evolves (m_seq m) h (Some (m_root m)) h' (Some (m_root m')) ∧ m_seq m' = m_seq m ∧ m_state m' = m_state m.
Proof.
  intros Hs Hpath Hp Hin Hsize Hc. pose proof (path_height _ _ _ _ _ _ _ _ Hpath) as Hn.
  destruct (unshare_inner m h p nd (id_at (S n) t) Hp (in_item _ _ _ _ _ _ _ Hin)) as (p' & h1 & Hu & Hh1 & Hor).
  set (leaf := itemNode sha512half (mkItem t v) ty (m_seq m)). destruct (itemNode_leaf t v (m_seq m)) as [Hleaf Hlseq]. fold leaf in Hleaf, Hlseq.
  pose proof (next_loc_fresh h1) as Hf. set (l := next_loc h1) in *. set (hc := <[l := leaf]> h1).
  assert (h1 !! p' = Some (reseq nd (m_seq m))) as Hp1 by (by rewrite Hh1, lookup_insert_eq).
  assert (∀ x ndx, h !! x = Some ndx → h1 !! x = Some ndx) as Hsub.
  { intros x ndx Hx. rewrite Hh1. destruct (decide (x = p')) as [->|]; [|by rewrite lookup_insert_ne].
    destruct Hor as [[-> Hsq]|]; [|congruence]. rewrite lookup_insert_eq. simplify_eq. by rewrite reseq_id. }
  assert (∀ x, reach hc l x → l = x) as Hrl.
  { intros x Hx. eapply reach_childless in Hx; [done|unfold hc; by rewrite lookup_insert_eq|]. intros j _. apply nulls_no_child, (ln_children _ _ _ _ _ Hleaf). }
  destruct (set_child_node (m_seq m) n h hc p p' nd X (<[t := v]> X) (dig n t) (Some l) Hp Hin (dig_range n t) Hs) as [Hin2 Hev2].
  { rewrite Hc. split.
    - intros x ndx Hx. exists ndx. split; [|by left]. unfold hc. rewrite lookup_insert_ne; [by apply Hsub|]. intros <-. apply Hsub in Hx. congruence.
    - intros x Hx. apply Hrl in Hx as <-. left. destruct (h !! l) as [ndl|] eqn:Hll; [|done]. apply Hsub in Hll. congruence.
    - intros x ndx Hx Hlx. apply Hrl in Hx as <-. unfold hc in Hlx. rewrite lookup_insert_eq in Hlx. injection Hlx as <-. by right. }
  { destruct Hor as [?|?]; [by left|right]. split; [done|]. intros Hx%Hrl. congruence. }
  { intros j Hj Hne. by rewrite part_insert, decide_False. }
  { rewrite part_insert, decide_True by done. split; [apply insert_non_empty|].
    rewrite (proj1 (in_empty _ _ _ _ _ _ _ Hin _ (dig_range n t) Hc)), insert_empty. eapply leaf_rep; [unfold hc; by rewrite lookup_insert_eq|done]. }
  set (m1 := if isRoot (id_at (S n) t) && bool_decide (p' ≠ p) then set_root m p' else m) in *.
  assert (m_seq m1 = m_seq m ∧ m_state m1 = m_state m) as [Hs1 Hst1] by (unfold m1; by case_if).
  assert (m_root m1 = if decide (S n = 64%nat) then p' else m_root m) as Hr1.
  { unfold m1. rewrite id_at_isRoot by lia. case_decide as H64; [|rewrite bool_decide_false by done; done].
    rewrite bool_decide_true by done. cbn [andb]. rewrite H64 in Hpath. apply path_top in Hpath as (Hpr & _ & _).
    case_bool_decide; [done|]. rewrite <- Hpr. symmetry. apply dec_stable. tauto. }
  set (h2 := <[p' := _]> hc) in *.
  destruct (dirtyUp_spec h (m_root m) M t v (S n) st p X Hpath m1 h2 p' ltac:(congruence)) as (m' & h' & Hd & Htop & He & Hsq & Hst).
  { rewrite Hs1. exact Hev2. }
  { unfold hangs. rewrite Hr1. case_decide as H64; [injection H64 as ->|]; (split; [|done]); (eexists; split; [unfold h2; by rewrite lookup_insert_eq|]); [done|].
    right. split; [|done]. apply size_insert_2, Hsize. lia. }
  rewrite Hs1 in *. exists p', m1, h1, (reseq nd (m_seq m)), h2, m', h'. split; [done|]. split; [done|]. split; [done|].
  split; [unfold isInner; simpl; by rewrite (in_type _ _ _ _ _ _ _ Hin)|]. split.
  { unfold alloc. cbn [snd]. fold l leaf hc. assert (hc !! p' = Some (reseq nd (m_seq m))) as Hpc by (unfold hc; rewrite lookup_insert_ne; congruence).
    unfold modify, deref. rewrite Hpc. reflexivity. }
  split; [exact Hd|]. split; [done|]. split; [done|]. split; [congruence|congruence].
Qed.

Lemma bind_Ok {A B} (a : A) (f : A → result B) : (Ok a ≫= f) = f a.
Proof. done. Qed.

Lemma deref_Ok h l nd : h !! l = Some nd → deref h l = Ok nd.
Proof. unfold deref. by intros ->. Qed.

(** Adding an item that is not there; one that is there stays. *)
Lemma addGiveItem_spec m h M item isTransaction hasMeta :
  root_rep h (m_root m) M → is_u256 (i_tag item) → m_seq m ≠ 0 → leaf_type isTransaction hasMeta = ty →
  match M !! i_tag item with
  | Some _ => addGiveItem sha512half m h item isTransaction hasMeta = Ok (false, m, h)
  | None => ∃ m' h', addGiveItem sha512half m h item isTransaction hasMeta = Ok (true, m', h')
      ∧ changed m h m' h' (<[i_tag item := i_data item]> M)
  end.
Proof.
  intros Hr Ht Hs Hty. destruct item as [t v]. cbn [i_tag i_data] in *. pose proof (proj1 Hr) as Hu.
  destruct (getStack_path m h M t Hr Ht) as (n & st & l & nd & X & Hpath & Hl & Hg & Hor).
  rewrite <- (path_lookup _ _ _ _ _ _ _ _ Hpath). unfold addGiveItem. cbn [i_tag]. rewrite Hty, Hg. cbn [mbind result_bind].
  assert (deref h l = Ok nd) as -> by (unfold deref; by rewrite Hl). cbn [mbind result_bind].
  assert (∀ m' h', top_rep h' (m_root m') (<[t := v]> M) → evolves (m_seq m) h (Some (m_root m)) h' (Some (m_root m')) →
    m_seq m' = m_seq m → m_state m' = m_state m → changed m h m' h' (<[t := v]> M)) as Hfin.
  { intros m' h' H1 H2 H3 H4. split; [split; [|done]|done]. by apply map_Forall_insert_2. }
  destruct Hor as [(k & w & Hn & HX & Hleaf)|(n' & -> & Hin & Hsize & Hc)].
  - destruct (leaf_isLeaf _ _ ty_leaf _ _ _ Hleaf) as (-> & _ & _). rewrite (ln_item _ _ _ _ _ Hleaf). cbn [andb i_tag].
    destruct (Z.eqb_spec k t) as [->|Hne]; [by rewrite HX, lookup_singleton_eq|]. rewrite HX, lookup_singleton_ne by done.
    destruct (add_to_leaf m h M t v n st l nd X k w) as (l' & h1 & nd' & h2 & q2 & b1 & b2 & st2 & h3 & h5 & m' & h' & Hun & Hl' & Hleaf' & Hmk & Hsp & Hpt & Hd & H1 & H2 & H3 & H4); [done..|].
    exists m', h'. split; [|by apply Hfin]. rewrite Hun, bind_Ok. cbv beta iota. rewrite (deref_Ok _ _ _ Hl'), bind_Ok.
    destruct (leaf_isLeaf _ _ ty_leaf _ _ _ Hleaf') as (_ & -> & _). rewrite (ln_item _ _ _ _ _ Hleaf'). rewrite Hmk, bind_Ok. cbn [i_tag].
    rewrite Hsp, bind_Ok. cbv beta iota. unfold put_two in Hpt. destruct (alloc h3 _) as [l1 h3'].
    apply result_bind_Ok in Hpt as (h4 & Hm1 & Hpt). rewrite Hm1, bind_Ok. destruct (alloc h4 _) as [l2 h4'].
    rewrite Hpt, bind_Ok. by rewrite Hd, bind_Ok.
  - destruct (inner_isInner _ _ _ _ _ _ _ Hin) as (-> & _ & _). cbn [andb].
    assert (X !! t = None) as ->.
    { pose proof (in_empty _ _ _ _ _ _ _ Hin _ (dig_range n' t) Hc) as [He _]. apply (f_equal (.!! t)) in He.
      by rewrite lookup_part, decide_True, lookup_empty in He. }
    destruct (add_to_inner m h M t v n' st l nd X) as (p' & m1 & h1 & nd1 & h2 & m' & h' & Hun & Hs1 & Hp1 & Hinn & Hm & Hd & H1 & H2 & H3 & H4); [done..|].
    exists m', h'. split; [|by apply Hfin]. rewrite Hun. cbn [mbind result_bind]. unfold deref at 1. rewrite Hp1. cbn [mbind result_bind].
    pose proof (path_height _ _ _ _ _ _ _ _ Hpath). rewrite Hinn, Hs1, id_at_branch by lia. cbn [alloc snd] in Hm |- *. rewrite Hm.
    cbn [mbind result_bind]. by rewrite Hd.
Qed.
End write.
