(* ===== verification/SHAMapDelete.v ===== *)
(** * Deleting and updating an item *)

From S2P Require Import Prelude Bytes Serializer SHAMapNodeID SHAMapTreeNode SHAMap SHAMapRep SHAMapRead SHAMapWrite.

(** The branches of a node that are not empty *)
Definition live (nd : TreeNode) : list Z := filter (λ i, isEmptyBranch nd i = false) branches16.

Lemma branches16_NoDup : NoDup branches16.
Proof. unfold branches16. repeat (constructor; [rewrite ?elem_of_cons, elem_of_nil; lia|]). constructor. Qed.

Lemma live_NoDup nd : NoDup (live nd).
Proof. apply NoDup_filter, branches16_NoDup. Qed.

Lemma getBranchCount_live nd : getBranchCount nd = Z.of_nat (length (live nd)).
Proof.
  assert (∀ l c, foldl (λ count i, if isEmptyBranch nd i then count else count + 1) c l
    = c + Z.of_nat (length (filter (λ i, isEmptyBranch nd i = false) l))) as H; [|apply (H branches16 0)].
  intros l. induction l as [|i l IH]; intros c; cbn [foldl]; [simpl; lia|]. rewrite IH, filter_cons.
  destruct (isEmptyBranch nd i); [by rewrite decide_False|]. rewrite decide_True by done. cbn [length]. lia.
Qed.

Lemma find_live nd : find (λ i, negb (isEmptyBranch nd i)) branches16 = head (live nd).
Proof.
  unfold live. induction branches16 as [|i l IH]; [done|]. cbn [find]. rewrite filter_cons.
  destruct (isEmptyBranch nd i); cbn [negb]; [by rewrite decide_False|by rewrite decide_True].
Qed.

Lemma NoDup_single (l : list Z) d : NoDup l → (∀ i, i ∈ l ↔ i = d) → l = [d].
Proof.
  intros Hn H. apply Permutation_singleton_r. apply NoDup_Permutation; [done|apply NoDup_singleton|].
  intros i. by rewrite H, list_elem_of_singleton.
Qed.

Section del.
  Context (sha512half : blob → Z) (ty : TNType).
  Hypothesis ty_leaf : ty ≠ tnERROR ∧ ty ≠ tnINNER.

Notation leaf_node := (leaf_node sha512half ty).
Notation inner_node := (inner_node sha512half ty).
Notation rep := (rep sha512half ty).
Notation root_rep := (root_rep sha512half ty).
Notation tree_at := (tree_at sha512half ty).
Notation path := (path sha512half ty).
Notation top_rep := (top_rep sha512half ty).
Notation leaf_hash := (leaf_hash sha512half ty).

Lemma live_in R n h nd X i : inner_node R n h nd X → (i ∈ live nd ↔ 0 <= i < 16 ∧ part n i X ≠ ∅).
Proof.
  intros Hin. unfold live. rewrite list_elem_of_filter, branches16_in. split.
  - intros [He Hi]. split; [done|]. destruct (inner_branch _ _ _ _ _ _ _ i Hin Hi) as [[? _]|(c & _ & _ & _ & ? & _)]; congruence.
  - intros [Hi Hne]. split; [|done]. by destruct (inner_branch _ _ _ _ _ _ _ i Hin Hi) as [[_ ?]|(c & ? & _)].
Qed.

Lemma part_nonempty n i (X : content) : part n i X ≠ ∅ → ∃ k, is_Some (X !! k) ∧ dig n k = i.
Proof. intros (k & v & Hk)%map_choose. rewrite lookup_part in Hk. case_decide; [|done]. exists k. split; [by eexists|done]. Qed.

Lemma live_single R n h nd k v : inner_node R n h nd {[k := v]} → live nd = [dig n k].
Proof.
  intros Hin. apply NoDup_single; [apply live_NoDup|]. intros i. rewrite (live_in _ _ _ _ _ _ Hin), part_singleton.
  split; [intros [_ Hne]; by case_decide|]. intros ->. split; [apply dig_range|]. rewrite decide_True by done. apply map_non_empty_singleton.
Qed.

(** All on one branch, or at least two items *)
Lemma live_cases R n h nd X :
  inner_node R n h nd X → X ≠ ∅ →
  (∃ i c, live nd = [i] ∧ 0 <= i < 16 ∧ getChild nd i = Some c ∧ descendThrow nd i = Ok c ∧ R c X)
  ∨ ((2 <= length (live nd))%nat ∧ (2 <= size X)%nat).
Proof.
  intros Hin Hne. destruct (live nd) as [|i [|j L]] eqn:HL.
  - destruct Hne. apply map_empty. intros k. destruct (X !! k) as [v|] eqn:Hk; [|done].
    assert (dig n k ∈ live nd) as Hl; [|rewrite HL in Hl; by apply not_elem_of_nil in Hl].
    apply (live_in _ _ _ _ _ _ Hin). split; [apply dig_range|]. intros He. apply (f_equal (.!! k)) in He.
    by rewrite lookup_part, decide_True, lookup_empty, Hk in He.
  - left. assert (i ∈ live nd) as Hi by (rewrite HL; by apply elem_of_cons; left). apply (live_in _ _ _ _ _ _ Hin) in Hi as [Hi Hp].
    destruct (inner_branch _ _ _ _ _ _ _ i Hin Hi) as [[_ ?]|(c & _ & Hc & Hd & _ & Hr)]; [done|]. exists i, c. split; [done|]. split; [done|]. split; [done|]. split; [done|].
    replace (part n i X) with X in Hr; [done|]. apply map_eq. intros k. rewrite lookup_part. case_decide as Hk; [done|].
    destruct (X !! k) as [v|] eqn:Hkv; [|done]. assert (dig n k ∈ live nd) as Hl; [|rewrite HL, list_elem_of_singleton in Hl; congruence].
    apply (live_in _ _ _ _ _ _ Hin). split; [apply dig_range|]. intros He. apply (f_equal (.!! k)) in He.
    by rewrite lookup_part, decide_True, lookup_empty, Hkv in He.
  - right. split; [simpl; lia|]. pose proof (live_NoDup nd) as Hnd. rewrite HL in Hnd. apply NoDup_cons in Hnd as [Hij _].
    assert (i ∈ live nd ∧ j ∈ live nd) as [Hi Hj].
    { rewrite HL, !elem_of_cons. tauto. }
    apply (live_in _ _ _ _ _ _ Hin) in Hi as [_ Hi], Hj as [_ Hj]. apply part_nonempty in Hi as (k1 & Hk1 & Hd1), Hj as (k2 & Hk2 & Hd2).
    apply size_2. exists k1, k2. split_and!; [|done..]. intros ->. apply Hij. rewrite <- Hd1, Hd2. by apply elem_of_cons; left.
Qed.

(** ** [onlyBelow] *)

Lemma only_branch_live R n h nd X order acc :
  inner_node R n h nd X → (∀ i, i ∈ order → 0 <= i < 16) →
  only_branch nd order acc
  = match acc, filter (λ i, isEmptyBranch nd i = false) order with
    | _, [] => Ok (Some acc)
    | None, [i] => Ok (Some (getChild nd i))
    | _, _ => Ok None
    end.
Proof.
  intros Hin. revert acc. induction order as [|i order IH]; intros acc Ho; cbn [only_branch]; [by destruct acc|].
  assert (0 <= i < 16) as Hi by (apply Ho; by apply elem_of_cons; left).
  assert (∀ j, j ∈ order → 0 <= j < 16) as Ho' by (intros j Hj; apply Ho; by apply elem_of_cons; right).
  rewrite filter_cons. destruct (inner_branch _ _ _ _ _ _ _ i Hin Hi) as [[-> _]|(c & -> & Hc & -> & _)].
  - rewrite decide_False by done. by apply IH.
  - rewrite decide_True by done. destruct acc as [a|]; [done|]. cbn [mbind result_bind]. rewrite IH by done. rewrite Hc.
    by destruct (filter _ order).
Qed.

Lemma onlyBelow_spec n : ∀ fuel h l X,
  tree_at n h l X → X ≠ ∅ → (n < fuel)%nat →
  (∀ k v, X = {[k := v]} → onlyBelow_loop fuel h l = Ok (Some (mkItem k v)))
  ∧ ((2 <= size X)%nat → onlyBelow_loop fuel h l = Ok None).
Proof.
  induction n as [|n IH]; intros [|fuel] h l X (nd & Hl & Hnode) Hne Hf; [lia| |lia|];
    cbn [onlyBelow_loop]; rewrite (deref_Ok _ _ _ Hl); cbn [mbind result_bind].
  all: destruct Hnode as [(k & v & -> & Hleaf)|Hin]; [|try done].
  1,2: destruct (leaf_isLeaf _ _ ty_leaf _ _ _ Hleaf) as (-> & _ & _); cbn [negb]; rewrite (ln_item _ _ _ _ _ Hleaf);
    split; [intros k' v' Heq; apply map_singleton_inj in Heq as [-> ->]; done|rewrite map_size_singleton; lia].
  destruct (inner_isInner _ _ _ _ _ _ _ Hin) as (-> & _ & _). cbn [negb].
  rewrite (only_branch_live _ _ _ _ _ branches16 None Hin) by (intros i; apply branches16_in). fold (live nd).
  destruct (live_cases _ _ _ _ _ Hin Hne) as [(i & c & -> & Hi & -> & _ & Hr)|[Hlen Hsize]].
  - cbn [mbind result_bind]. apply IH; [by apply rep_tree|done|lia].
  - destruct (live nd) as [|i [|j L]]; simpl in Hlen; [lia..|]. cbn [mbind result_bind]. split; [|done].
    intros k v ->. rewrite map_size_singleton in Hsize. lia.
Qed.

(** ** A leaf in place of an inner node *)

Lemma updateHash_leaf nd k v : mItem nd = Some (mkItem k v) → mType nd = ty → mHash (updateHash sha512half nd).1 = leaf_hash k v.
Proof.
  intros Hi Ht. unfold leaf_hash, SHAMapRep.leaf_hash, itemNode, updateHash. rewrite Hi, Ht. cbn [mItem mType mHash].
  set (nh := match ty with tnERROR => _ | _ => _ end). set (nh' := match ty with tnERROR => _ | _ => _ end).
  assert (nh = nh') as <- by (unfold nh, nh'; destruct ty_leaf; by destruct ty).
  destruct (Z.eqb_spec nh (mHash nd)), (Z.eqb_spec nh 0); simpl; congruence.
Qed.

Lemma setItem_leaf nd k v :
  mChildren nd = nulls → leaf_node (setItem sha512half nd (mkItem k v) ty).1 k v ∧ mSeq (setItem sha512half nd (mkItem k v) ty).1 = mSeq nd.
Proof.
  intros Hc. unfold setItem. set (nd' := mkNode _ _ _ _ _ _ _).
  assert (mHash (updateHash sha512half nd').1 = leaf_hash k v) as Hh by by apply updateHash_leaf.
  split; [constructor; [..|done]|]; unfold updateHash; by case_if.
Qed.

(** A node of the map's own, changed once more into one without children *)
Lemma evolves_touch s h a h2 p nd2 nd3 :
  evolves s h a h2 (Some p) → h2 !! p = Some nd2 → mSeq nd2 = s → mChildren nd3 = nulls → mSeq nd3 = s → evolves s h a (<[p := nd3]> h2) (Some p).
Proof.
  intros Hev Hp Hs Hn Hs3. split.
  - intros x nd Hx. destruct (decide (x = p)) as [->|Hne]; [|rewrite lookup_insert_ne by done; by apply (ev_keep _ _ _ _ _ Hev)].
    rewrite lookup_insert_eq. eexists. split; [done|]. right. destruct (ev_keep _ _ _ _ _ Hev p nd Hx) as (nd' & Hp' & [->|?]); [|done].
    simplify_eq. split; [done|]. destruct (ev_new _ _ _ _ _ Hev p) as [?|?]; [constructor|congruence|done].
  - intros x Hx. cbn [from] in Hx. eapply reach_childless in Hx; [subst x|by rewrite lookup_insert_eq|intros; by apply nulls_no_child].
    apply (ev_new _ _ _ _ _ Hev). constructor.
  - intros x nd Hx Hl. cbn [from] in Hx. eapply reach_childless in Hx; [subst x|by rewrite lookup_insert_eq|intros; by apply nulls_no_child].
    rewrite lookup_insert_eq in Hl. injection Hl as <-. by right.
Qed.

(** ** Deleting *)

Section way_back.
  Context (h : heap) (root : loc) (M : content) (t : Z).

(** What is attached below on the way back, or the finished tree *)
Definition attached (n : nat) (m : SHAMap) (hole : loc) (hc : heap) (c : option loc) (X : content) : Prop :=
  if decide (n = 64%nat) then top_rep hc (m_root m) X ∧ evolves (m_seq m) h (Some root) hc (Some (m_root m))
  else m_root m = root ∧ evolves (m_seq m) h (Some hole) hc c ∧ match c with None => X = ∅ | Some x => rep n hc x X end.

(** The node after [setChild], below the root: pulled up when one item is left *)
Lemma settle m hc st n p' nd2 X' :
  hc !! p' = Some nd2 → inner_node (rep n hc) n hc nd2 X' → mSeq nd2 = m_seq m → X' ≠ ∅ → (n < 64)%nat →
  ∃ h3, (let bc := getBranchCount nd2 in
         if bc =? 0 then del_loop sha512half m hc t ty st None
         else if bc =? 1 then
           item ← onlyBelow hc p';
           match item with
           | Some item =>
               h ← modify hc p' (λ n,
                 let n := match find (λ i, negb (isEmptyBranch n i)) branches16 with Some i => setChild n i None | None => n end in
                 (setItem sha512half n item ty).1);
               del_loop sha512half m h t ty st (Some p')
           | None => del_loop sha512half m hc t ty st (Some p')
           end
         else del_loop sha512half m hc t ty st (Some p')) = del_loop sha512half m h3 t ty st (Some p')
    ∧ rep (S n) h3 p' X' ∧ ∀ a, evolves (m_seq m) h a hc (Some p') → evolves (m_seq m) h a h3 (Some p').
Proof.
  intros Hp Hin Hs Hne Hn. rewrite getBranchCount_live. cbv zeta.
  assert (tree_at (S n) hc p' X') as Htree by (exists nd2; split; [done|by right]).
  destruct (onlyBelow_spec (S n) max_depth hc p' X' Htree Hne ltac:(unfold max_depth; lia)) as [Hone Htwo].
  destruct (decide (2 <= size X')%nat) as [Hsz|Hsz].
  - exists hc. split; [|split; [|done]].
    + unfold onlyBelow. rewrite (Htwo Hsz), bind_Ok. destruct (live_cases _ _ _ _ _ Hin Hne) as [(i & c & -> & _)|[Hlen _]]; [done|].
      destruct (Z.eqb_spec (Z.of_nat (length (live nd2))) 0); [lia|]. destruct (Z.eqb_spec (Z.of_nat (length (live nd2))) 1); [lia|done].
    + exists nd2. split; [done|]. right. done.
  - destruct (size_1 X' Hne Hsz) as (k & v & ->). rewrite (live_single _ _ _ _ _ _ Hin). cbn [length Z.of_nat Z.eqb Pos.of_succ_nat Pos.eqb].
    unfold onlyBelow. rewrite (Hone k v eq_refl), bind_Ok. unfold modify. rewrite (deref_Ok _ _ _ Hp), !bind_Ok. cbv zeta.
    rewrite find_live, (live_single _ _ _ _ _ _ Hin). cbn [head]. set (nd3 := setChild nd2 (dig n k) None).
    assert (mChildren nd3 = nulls) as Hnull.
    { apply list_eq. intros j. pose proof (in_children _ _ _ _ _ _ _ Hin) as Hlen. destruct (decide (j < 16)%nat) as [Hj|Hj].
      - unfold nulls. rewrite lookup_replicate_2 by done. pose proof (getChild_setChild nd2 (dig n k) None (Z.of_nat j) Hlen (dig_range n k) ltac:(lia)) as Hg.
        fold nd3 in Hg. unfold getChild in Hg at 1. rewrite Nat2Z.id in Hg.
        destruct (lookup_lt_is_Some_2 (mChildren nd3) j) as [x Hx]; [unfold nd3; simpl; rewrite length_insert; lia|].
        rewrite Hx. rewrite (nth_lookup_Some _ _ _ _ Hx) in Hg. rewrite Hg. f_equal. case_decide as Hd; [done|].
        destruct (getChild nd2 (Z.of_nat j)) as [c|] eqn:Hc; [|done].
        destruct (in_child _ _ _ _ _ _ _ Hin (Z.of_nat j) c ltac:(lia) Hc) as (Hpe & _). by rewrite part_singleton, decide_False in Hpe.
      - rewrite !lookup_ge_None_2; [done|unfold nulls; rewrite length_replicate; lia|unfold nd3; simpl; rewrite length_insert; lia]. }
    destruct (setItem_leaf nd3 k v Hnull) as [Hleaf Hseq].
    eexists. split; [done|]. split.
    + eapply leaf_rep; [by rewrite lookup_insert_eq|done].
    + intros a Hev. eapply evolves_touch; [exact Hev|exact Hp|done|apply (ln_children _ _ _ _ _ Hleaf)|by rewrite Hseq].
Qed.

Lemma del_loop_spec n st hole X :
  path h root M t n st hole X → ∀ m hc c, m_seq m ≠ 0 → attached n m hole hc c (delete t X) →
  ∃ m' h', del_loop sha512half m hc t ty st c = Ok (m', h') ∧ top_rep h' (m_root m') (delete t M)
    ∧ evolves (m_seq m) h (Some root) h' (Some (m_root m')) ∧ m_seq m' = m_seq m ∧ m_state m' = m_state m.
Proof.
  induction 1 as [|n st p nd hole X Hpath IH Hp Hin Hsize Hhole]; intros m hc c Hs Hat.
  - destruct Hat as [Ht Hev]. exists m, hc. done.
  - pose proof (path_height _ _ _ _ _ _ _ _ _ _ Hpath) as Hn. unfold attached in Hat. rewrite decide_False in Hat by lia.
    destruct Hat as (Hroot & Hev & Hc).
    destruct (step_up sha512half ty ty_leaf m h root M t n st p nd X hole hc c (delete t X) Hpath Hp Hin Hhole Hs Hev Hroot)
      as (p' & m' & nd2 & h2 & Hu & Hm & Hp2 & Hin2 & Hev2 & Hseq2 & Hseq & Hst & Hr).
    { intros j Hj Hne. by rewrite part_delete, decide_False. }
    { rewrite part_delete, decide_True by done. destruct c as [x|]; [|done]. split; [by eapply rep_nonempty|done]. }
    cbn [del_loop]. rewrite Hu, bind_Ok. cbv beta iota. rewrite id_at_branch by lia. rewrite Hm, bind_Ok. rewrite id_at_isRoot by lia.
    rewrite <- Hseq in Hev2, Hseq2. assert (m_seq m' ≠ 0) as Hs' by congruence.
    destruct (decide (S n = 64%nat)) as [H64|H64].
    + rewrite bool_decide_true by done. destruct (IH m' h2 c Hs') as (m2 & h3 & Hd & Ht & He & Hs2 & Hst2).
      { unfold attached. rewrite decide_True by done. rewrite Hr. injection H64 as ->. apply path_top in Hpath as (-> & _ & _).
        split; [by exists nd2|done]. }
      exists m2, h3. rewrite Hseq in *. split_and!; [done..|congruence|congruence].
    + rewrite bool_decide_false by done. rewrite (deref_Ok _ _ _ Hp2), bind_Ok.
      destruct (settle m' h2 st n p' nd2 (delete t X) Hp2 Hin2 Hseq2) as (h3 & Hset & Hr3 & Hev3); [|lia|].
      { apply size_2 in Hsize as (k1 & k2 & Hk & H1 & H2); [|lia]. intros He.
        assert (∀ k, is_Some (X !! k) → k = t) as Hall; [|by rewrite (Hall k1 H1), (Hall k2 H2) in Hk].
        intros k Hk'. destruct (decide (k = t)); [done|]. apply (f_equal (.!! k)) in He. rewrite lookup_delete_ne, lookup_empty in He by done.
        rewrite He in Hk'. by destruct Hk'. }
      cbv zeta in Hset |- *. rewrite Hset.
      destruct (IH m' h3 (Some p') Hs') as (m2 & h4 & Hd & Ht & He & Hs2 & Hst2).
      { unfold attached. rewrite decide_False by done. split; [done|]. split; [by apply Hev3|done]. }
      exists m2, h4. rewrite Hseq in *. split_and!; [done..|congruence|congruence].
Qed.
End way_back.

(** Deleting an item that is there; otherwise nothing happens. *)
Lemma delItem_spec m h M t :
  root_rep h (m_root m) M → is_u256 t → m_seq m ≠ 0 →
  match M !! t with
  | Some _ => ∃ m' h', delItem sha512half m h t = Ok (true, m', h') ∧ changed sha512half ty m h m' h' (delete t M)
  | None => delItem sha512half m h t = Ok (false, m, h)
  end.
Proof.
  intros Hr Ht Hs. pose proof (proj1 Hr) as Hu.
  destruct (getStack_path sha512half ty ty_leaf m h M t Hr Ht) as (n & st & l & nd & X & Hpath & Hl & Hg & Hor).
  rewrite <- (path_lookup _ _ _ _ _ _ _ _ _ _ Hpath). unfold delItem. rewrite Hg, bind_Ok. rewrite (deref_Ok _ _ _ Hl), bind_Ok.
  destruct Hor as [(k & w & Hn & HX & Hleaf)|(n' & -> & Hin & Hsize & Hc)].
  - rewrite (ln_item _ _ _ _ _ Hleaf), (ln_type _ _ _ _ _ Hleaf). cbn [i_tag].
    destruct (Z.eqb_spec k t) as [->|Hne]; [|by rewrite HX, lookup_singleton_ne by done]. rewrite HX, lookup_singleton_eq.
    destruct (del_loop_spec h (m_root m) M t n st l X Hpath m h None Hs) as (m' & h' & -> & Htop & Hev & Hsq & Hst).
    { unfold attached. rewrite decide_False by lia. split; [done|]. split; [|by rewrite HX, delete_singleton_eq].
      split; [|done..]. intros x ndx Hx. eauto. }
    rewrite bind_Ok. exists m', h'. split; [done|]. split; [|done]. split; [by apply map_Forall_delete|done].
  - rewrite (in_item _ _ _ _ _ _ _ Hin). assert (X !! t = None) as ->; [|done].
    pose proof (in_empty _ _ _ _ _ _ _ Hin _ (dig_range n' t) Hc) as [He _]. apply (f_equal (.!! t)) in He.
    by rewrite lookup_part, decide_True, lookup_empty in He.
Qed.

(** ** Updating *)

Lemma root_dom h r M x : root_rep h r M → reach h r x → is_Some (h !! x).
Proof.
  intros (_ & nd & Hr & Hin) [->|(nd' & i & c & Hr' & Hi & Hc & Hx)]%reach_inv; [by eexists|]. simplify_eq.
  destruct (in_child _ _ _ _ _ _ _ Hin i c Hi Hc) as (_ & Hrc & _). by eapply rep_dom.
Qed.

(** A tree depends only on the nodes it reaches. *)
Lemma root_frame h h' r M : root_rep h r M → (∀ x, reach h r x → h' !! x = h !! x) → root_rep h' r M.
Proof.
  intros (Hu & nd & Hr & Hin) Hf. split; [done|]. exists nd. split; [rewrite Hf; [done|constructor]|].
  eapply inner_node_mono; [exact Hin|]. intros i c Hi Hc Hrc. split.
  - eapply rep_frame; [exact Hrc|]. intros x Hx. apply Hf. by eapply reach_child.
  - intros _. unfold hash_at. rewrite Hf; [done|]. eapply reach_child; [done..|constructor].
Qed.

(** New nodes do not matter to a tree. *)
Lemma root_grow s h h' r M :
  root_rep h r M → (∀ x nd, h !! x = Some nd → h' !! x = Some nd) → root_rep h' r M ∧ evolves s h (Some r) h' (Some r).
Proof.
  intros Hr Hg. assert (∀ x, reach h r x → h' !! x = h !! x) as Hf.
  { intros x Hx. destruct (root_dom _ _ _ _ Hr Hx) as [nd Hnd]. rewrite Hnd. by apply Hg. }
  split; [by eapply root_frame|]. split; [intros x nd Hx; eauto|intros x Hx; right; by eapply reach_agree|].
  intros x nd Hx Hl. left. rewrite <- Hf; [done|]. by eapply reach_agree.
Qed.

Lemma setItem_unchanged nd k v w :
  leaf_node nd k w → (leaf_hash k v = leaf_hash k w → v = w) → (setItem sha512half nd (mkItem k v) ty).2 = false →
  v = w ∧ (setItem sha512half nd (mkItem k v) ty).1 = nd.
Proof.
  intros Hleaf Hcol Hch. unfold setItem in *. set (nd' := mkNode _ _ _ _ _ _ _) in *.
  assert ((updateHash sha512half nd').1 = nd') as Hsame by (unfold updateHash in *; by case_if).
  assert (mHash (updateHash sha512half nd').1 = leaf_hash k v) as Hh by by apply updateHash_leaf.
  rewrite Hsame in *. change (mHash nd') with (mHash nd) in Hh. rewrite (ln_hash _ _ _ _ _ Hleaf) in Hh.
  split; [by apply Hcol|]. rewrite <- (Hcol (eq_sym Hh)) in Hleaf. unfold nd'.
  rewrite <- (ln_item _ _ _ _ _ Hleaf), <- (ln_type _ _ _ _ _ Hleaf). by destruct nd.
Qed.

(** Updating an item that is there, when its new data does not have the hash of the old *)
Lemma updateGiveItem_spec m h M item isTransaction hasMeta :
  root_rep h (m_root m) M → is_u256 (i_tag item) → m_seq m ≠ 0 → leaf_type isTransaction hasMeta = ty →
  match M !! i_tag item with
  | Some w =>
      (leaf_hash (i_tag item) (i_data item) = leaf_hash (i_tag item) w → i_data item = w) →
      ∃ m' h', updateGiveItem sha512half m h item isTransaction hasMeta = Ok (true, m', h')
        ∧ changed sha512half ty m h m' h' (<[i_tag item := i_data item]> M)
  | None => updateGiveItem sha512half m h item isTransaction hasMeta = Ok (false, m, h)
  end.
Proof.
  intros Hr Ht Hs Hty. destruct item as [t v]. cbn [i_tag i_data] in *. pose proof (proj1 Hr) as Hu.
  destruct (getStack_path sha512half ty ty_leaf m h M t Hr Ht) as (n & st & l & nd & X & Hpath & Hl & Hg & Hor).
  pose proof (path_lookup _ _ _ _ _ _ _ _ _ _ Hpath) as HMX. rewrite <- HMX.
  unfold updateGiveItem. cbn [i_tag]. rewrite Hty, Hg, !bind_Ok. rewrite (deref_Ok _ _ _ Hl), !bind_Ok.
  destruct Hor as [(k & w & Hn & HX & Hleaf)|(n' & -> & Hin & Hsize & Hc)].
  2:{ destruct (inner_isInner _ _ _ _ _ _ _ Hin) as (-> & _). cbn [negb orb]. assert (X !! t = None) as ->; [|done].
      pose proof (in_empty _ _ _ _ _ _ _ Hin _ (dig_range n' t) Hc) as [He _]. apply (f_equal (.!! t)) in He.
      by rewrite lookup_part, decide_True, lookup_empty in He. }
  destruct (leaf_isLeaf _ _ ty_leaf _ _ _ Hleaf) as (-> & _). rewrite (ln_item _ _ _ _ _ Hleaf). cbn [negb orb i_tag].
  destruct (Z.eqb_spec k t) as [->|Hne]; [|by rewrite HX, lookup_singleton_ne by done]. rewrite HX, lookup_singleton_eq in HMX |- *. cbn [negb].
  intros Hcol. destruct (unshare_spec m h l nd (id_at n t) Hl) as (l' & h1 & nd' & Hun & Hnd' & -> & Hor).
  rewrite id_at_isRoot, bool_decide_false in Hun by lia. cbn [andb] in Hun. rewrite Hun, bind_Ok. cbv beta iota.
  rewrite (deref_Ok _ l' nd') by (by rewrite lookup_insert_eq). rewrite bind_Ok.
  assert (leaf_node nd' t w ∧ mSeq nd' = m_seq m) as [Hleaf' Hseq'].
  { rewrite Hnd'. case_decide; [done|]. unfold copyNode. rewrite (ln_item _ _ _ _ _ Hleaf). split; [|done]. constructor; try done; simpl; apply Hleaf. }
  destruct (setItem_leaf nd' t v (ln_children _ _ _ _ _ Hleaf')) as [Hleaf3 Hseq3].
  pose proof (setItem_unchanged nd' t v w Hleaf' Hcol) as Hunch.
  destruct (setItem sha512half nd' (mkItem t v) ty) as [nd3 ch]. cbn [fst snd] in *. cbv zeta. rewrite insert_insert_eq.
  destruct ch; cbn [negb].
  - set (h3 := <[l' := nd3]> h).
    assert (evolves (m_seq m) h (Some l) h3 (Some l')) as Hev.
    { split.
      - intros x ndx Hx. unfold h3. destruct (decide (x = l')) as [->|]; [|rewrite lookup_insert_ne by done; eauto].
        rewrite lookup_insert_eq. eexists. split; [done|]. right. destruct Hor as [[-> Hsq]|]; [|congruence]. simplify_eq. split; [done|constructor].
      - intros x Hx. cbn [from] in *. eapply reach_childless in Hx;
          [subst x|unfold h3; by rewrite lookup_insert_eq|intros; apply nulls_no_child, (ln_children _ _ _ _ _ Hleaf3)].
        destruct Hor as [[-> _]|]; [right; constructor|by left].
      - intros x ndx Hx Hlx. cbn [from] in *. eapply reach_childless in Hx;
          [subst x|unfold h3; by rewrite lookup_insert_eq|intros; apply nulls_no_child, (ln_children _ _ _ _ _ Hleaf3)].
        unfold h3 in Hlx. rewrite lookup_insert_eq in Hlx. injection Hlx as <-. right. congruence. }
    destruct (dirtyUp_spec sha512half ty ty_leaf h (m_root m) M t v n st l X Hpath m h3 l' Hs Hev) as (m' & h' & -> & Htop & He & Hsq & Hst).
    { unfold hangs. rewrite decide_False by lia. split; [|done]. rewrite HX, insert_singleton_eq.
      eapply leaf_rep; [unfold h3; by rewrite lookup_insert_eq|done]. }
    rewrite bind_Ok. exists m', h'. split; [done|]. split; [|done]. split; [by apply map_Forall_insert_2|done].
  - destruct (Hunch eq_refl) as [-> ->]. exists m, (<[l' := nd']> h). split; [done|].
    destruct (root_grow (m_seq m) h (<[l' := nd']> h) (m_root m) M Hr) as [Hr' Hev].
    { intros x ndx Hx. destruct (decide (x = l')) as [->|]; [|by rewrite lookup_insert_ne]. rewrite lookup_insert_eq.
      destruct Hor as [[-> Hsq]|]; [|congruence]. simplify_eq. by rewrite decide_True. }
    rewrite (insert_id M t w) by done. split; [exact Hr'|]. done.
Qed.
End del.
