(* ===== verification/SHAMapHash.v ===== *)
(** * The hash of a tree

    [walkSubTree] brings every hash up to date, on nodes of the map's own; [getHash] returns the
    hash of the content. *)

From S2P Require Import Prelude Bytes Serializer SHAMapNodeID SHAMapTreeNode SHAMap SHAMapRep SHAMapRead SHAMapWrite SHAMapDelete.

Lemma nth_branches (f : Z → Z) i : 0 <= i < 16 → nth (Z.to_nat i) (f <$> branches16) 0 = f i.
Proof.
  intros Hi. assert (i ∈ branches16) as (j & Hj)%list_elem_of_lookup_1 by by apply branches16_in.
  assert (Z.to_nat i = j) as -> by (do 16 (destruct j as [|j]; [injection Hj as <-; done|]); done).
  apply nth_lookup_Some. by rewrite list_lookup_fmap, Hj.
Qed.

Section hash.
  Context (sha512half : blob → Z) (ty : TNType).
  Hypothesis ty_leaf : ty ≠ tnERROR ∧ ty ≠ tnINNER.

Notation leaf_node := (leaf_node sha512half ty).
Notation inner_node := (inner_node sha512half ty).
Notation rep := (rep sha512half ty).
Notation root_rep := (root_rep sha512half ty).
Notation top_rep := (top_rep sha512half ty).
Notation mhash := (mhash sha512half ty).
Notation inner_hash := (inner_hash sha512half).
Notation root_hash := (root_hash sha512half ty).

(** ** The map's own copy *)

Definition own_copy (s : Z) (h : heap) (c : loc) (cn : TreeNode) (c' : loc) (h' : heap) (cn' : TreeNode) : Prop :=
  (c' = c ∧ h' = h ∧ cn' = cn ∧ mSeq cn = s) ∨ (h !! c' = None ∧ cn' = copyNode cn s ∧ h' = <[c' := cn']> h).

Lemma preFlushNode_own m h c cn :
  h !! c = Some cn → ∃ c' h' cn', preFlushNode m h c = Ok (c', h') ∧ own_copy (m_seq m) h c cn c' h' cn'.
Proof.
  intros Hc. unfold preFlushNode. rewrite (deref_Ok _ _ _ Hc), bind_Ok. destruct (Z.eqb_spec (mSeq cn) (m_seq m)) as [Hs|Hs]; cbn [negb].
  - exists c, h, cn. split; [done|]. by left.
  - do 3 eexists. split; [reflexivity|]. right. split; [apply next_loc_fresh|done].
Qed.

Lemma own_lookup s h c cn c' h' cn' : h !! c = Some cn → own_copy s h c cn c' h' cn' → h' !! c' = Some cn' ∧ mSeq cn' = s.
Proof.
  intros Hc [(-> & -> & -> & Hs)|(Hf & -> & ->)]; [done|]. split; [by rewrite lookup_insert_eq|]. unfold copyNode. by destruct (mItem cn).
Qed.

Lemma own_evolves s h c cn c' h' cn' :
  h !! c = Some cn → own_copy s h c cn c' h' cn' → (∀ x, reach h c x → is_Some (h !! x)) →
  (∀ i, 0 <= i < 16 → getChild cn' i = getChild cn i) → evolves s h (Some c) h' (Some c').
Proof.
  intros Hc Hown Hdom Hch. destruct Hown as [(-> & -> & -> & Hs)|(Hf & Hcn & ->)].
  - split; [intros x nd Hx; eauto|intros x Hx; by right|intros x nd' _ Hl; by left].
  - split.
    + intros x nd Hx. exists nd. split; [|by left]. rewrite lookup_insert_ne; [done|]. congruence.
    + intros x Hx. cbn [from] in *. apply reach_inv in Hx as [->|(nd & i & d & Hl & Hi & Hd & Hx)]; [by left|right].
      rewrite lookup_insert_eq in Hl. injection Hl as <-. rewrite Hch in Hd by done. eapply reach_child; [done..|].
      eapply reach_agree; [|exact Hx]. intros y Hy. rewrite lookup_insert_ne; [done|]. intros <-.
      destruct (Hdom c') as [? ?]; [by eapply reach_child|congruence].
    + intros x nd' Hx Hl. cbn [from] in *. apply reach_inv in Hx as [->|(nd & i & d & Hl' & Hi & Hd & Hx)].
      * right. rewrite lookup_insert_eq in Hl. injection Hl as <-. rewrite Hcn. unfold copyNode. by destruct (mItem cn).
      * left. rewrite lookup_insert_eq in Hl'. injection Hl' as <-. rewrite Hch in Hd by done.
        rewrite lookup_insert_ne in Hl; [done|]. intros <-. eapply reach_agree in Hx.
        -- destruct (Hdom c') as [? ?]; [by eapply reach_child|congruence].
        -- intros y Hy. rewrite lookup_insert_ne; [done|]. intros <-. destruct (Hdom c') as [? ?]; [by eapply reach_child|congruence].
Qed.

Lemma own_inner s n h c cn c' h' cn' X :
  s ≠ 0 → h !! c = Some cn → inner_node (rep n h) n h cn X → own_copy s h c cn c' h' cn' →
  inner_node (rep n h') n h' cn' X ∧ evolves s h (Some c) h' (Some c').
Proof.
  intros Hs Hc Hin Hown.
  assert (∀ x, reach h c x → is_Some (h !! x)) as Hdom.
  { intros x [->|(nd & i & d & Hl & Hi & Hd & Hx)]%reach_inv; [by eexists|]. simplify_eq.
    destruct (in_child _ _ _ _ _ _ _ Hin i d Hi Hd) as (_ & Hr & _). by eapply rep_dom. }
  assert (cn' = reseq cn s) as Hcn'.
  { destruct Hown as [(_ & _ & -> & <-)|(_ & -> & _)]; [by rewrite reseq_id|]. apply copy_inner, (in_item _ _ _ _ _ _ _ Hin). }
  split; [|eapply own_evolves; [done..|]; intros i _; by rewrite Hcn'].
  assert (∀ y, is_Some (h !! y) → h' !! y = h !! y) as Hag.
  { intros y [nd Hy]. destruct Hown as [(_ & -> & _)|(Hf & _ & ->)]; [done|]. rewrite lookup_insert_ne; [done|]. congruence. }
  assert (inner_node (rep n h') n h' cn X) as Hin'.
  { eapply inner_node_mono; [exact Hin|]. intros i d Hi Hd Hr. split.
    - eapply rep_frame; [exact Hr|]. intros x Hx. apply Hag. by eapply rep_dom.
    - intros _. unfold hash_at. rewrite Hag; [done|]. eapply rep_dom; [exact Hr|constructor]. }
  rewrite Hcn'. destruct Hin'. constructor; try done.
Qed.

Lemma own_leaf s n h c cn c' h' cn' k v :
  h !! c = Some cn → leaf_node cn k v → own_copy s h c cn c' h' cn' →
  leaf_node cn' k v ∧ rep n h' c' {[k := v]} ∧ evolves s h (Some c) h' (Some c').
Proof.
  intros Hc Hleaf Hown. destruct (own_lookup _ _ _ _ _ _ _ Hc Hown) as [Hc' _].
  assert (leaf_node cn' k v) as Hleaf'.
  { destruct Hown as [(_ & _ & -> & _)|(_ & -> & _)]; [done|]. unfold copyNode. rewrite (ln_item _ _ _ _ _ Hleaf). constructor; try done; simpl; apply Hleaf. }
  split; [done|]. split; [by eapply leaf_rep|]. eapply own_evolves; [done..| |].
  - intros x Hx. eapply reach_childless in Hx; [subst x; by eexists|done|]. intros i _. by eapply leaf_no_child.
  - intros i _. by rewrite !(leaf_no_child _ _ _ _ _ i Hleaf), (leaf_no_child _ _ _ _ _ i Hleaf').
Qed.

(** ** One node brought up to date *)

(** Every node below has a property: not shared, or the map's own. *)
Definition below_all (P : TreeNode → Prop) (h : heap) (l : loc) : Prop := ∀ x nd, reach h l x → h !! x = Some nd → P nd.
Notation unshared := (below_all (λ nd, mSeq nd ≠ 0)).
Notation owned s := (below_all (λ nd, mSeq nd = s)).

Lemma below_frame P h h' l : (∀ y, reach h l y → h' !! y = h !! y) → below_all P h l → below_all P h' l.
Proof. intros Hf Hb x nd Hx Hl. eapply reach_agree in Hx; [|done]. rewrite Hf in Hl by done. by eapply Hb. Qed.

Lemma below_child P h l nd i c : below_all P h l → h !! l = Some nd → 0 <= i < 16 → getChild nd i = Some c → below_all P h c.
Proof. intros Hb Hl Hi Hc x ndx Hx. apply Hb. by eapply reach_child. Qed.

Lemma below_node (P : TreeNode → Prop) h l nd :
  h !! l = Some nd → P nd → (∀ i c, 0 <= i < 16 → getChild nd i = Some c → below_all P h c) → below_all P h l.
Proof.
  intros Hl HP Hc x ndx [->|(nd' & i & c & Hl' & Hi & Hg & Hx)]%reach_inv Hlx; [congruence|]. simplify_eq. by eapply Hc.
Qed.

(** The child of a node after its turn: its own, and with its hash *)
Definition flushed (s : Z) (n : nat) (h : heap) (c : loc) (h' : heap) (c' : loc) (X : content) : Prop :=
  rep n h' c' X ∧ hash_at h' c' = mhash n X ∧ evolves s h (Some c) h' (Some c') ∧ (unshared h c → owned s h' c').

Lemma updateHash_same nd k v : leaf_node nd k v → (updateHash sha512half nd).1 = nd.
Proof.
  intros Hleaf. pose proof (updateHash_leaf sha512half ty ty_leaf nd k v (ln_item _ _ _ _ _ Hleaf) (ln_type _ _ _ _ _ Hleaf)) as Hh.
  rewrite <- (ln_hash _ _ _ _ _ Hleaf) in Hh. revert Hh. unfold updateHash.
  match goal with |- context [?x =? mHash nd] => destruct (Z.eqb_spec x (mHash nd)) end; [done|]. cbn [fst mHash]. congruence.
Qed.

(** The hashes the children have *)
Lemma deep_hashes n h nd X :
  inner_node (rep n h) n h nd X → (∀ i c, 0 <= i < 16 → getChild nd i = Some c → hash_at h c = mhash n (part n i X)) →
  zip_with (λ c h', match c with Some l => hash_at h l | None => h' end) (mChildren nd) (mHashes nd)
  = (λ i, mhash n (part n i X)) <$> branches16.
Proof.
  intros Hin Hh. pose proof (in_hashes _ _ _ _ _ _ _ Hin) as Hl1. pose proof (in_children _ _ _ _ _ _ _ Hin) as Hl2.
  apply list_eq. intros j. destruct (decide (j < 16)%nat) as [Hj|Hj].
  - assert (branches16 !! j = Some (Z.of_nat j)) as Hb.
    { do 16 (destruct j as [|j]; [done|]). lia. }
    rewrite list_lookup_fmap, Hb, lookup_zip_with. cbn [fmap option_fmap option_map].
    destruct (lookup_lt_is_Some_2 (mChildren nd) j) as [c Hc]; [lia|]. destruct (lookup_lt_is_Some_2 (mHashes nd) j) as [x Hx]; [lia|].
    rewrite Hc, Hx. cbn [mbind option_bind]. f_equal.
    assert (getChild nd (Z.of_nat j) = c) as Hg by (unfold getChild; rewrite Nat2Z.id; by apply nth_lookup_Some).
    destruct c as [c|]; [by apply Hh; [lia|]|].
    destruct (in_empty _ _ _ _ _ _ _ Hin (Z.of_nat j) ltac:(lia) Hg) as [-> Hz]. rewrite mhash_empty.
    unfold getChildHash in Hz. rewrite Nat2Z.id in Hz. by rewrite (nth_lookup_Some _ _ _ _ Hx) in Hz.
  - rewrite !lookup_ge_None_2; [done|rewrite length_fmap; simpl; lia|rewrite length_zip_with; lia].
Qed.

Lemma inner_not_isEmpty R n h nd X : inner_node R n h nd X → X ≠ ∅ → mIsBranch nd ≠ 0.
Proof.
  intros Hin (k & v & Hk)%map_choose Hz.
  destruct (inner_branch _ _ _ _ _ _ _ (dig n k) Hin (dig_range n k)) as [[_ He]|(c & Hb & _)].
  - apply (f_equal (.!! k)) in He. by rewrite lookup_part, decide_True, lookup_empty, Hk in He.
  - unfold isEmptyBranch in Hb. by rewrite Hz in Hb.
Qed.

(** [updateHashDeep] when the children have their hashes *)
Lemma update_deep s n h p nd X :
  h !! p = Some nd → inner_node (rep n h) n h nd X → X ≠ ∅ → mSeq nd = s → s ≠ 0 →
  (∀ i c, 0 <= i < 16 → getChild nd i = Some c → hash_at h c = mhash n (part n i X)) →
  let nd2 := updateHashDeep sha512half nd (hash_at h) in
  let h2 := <[p := nd2]> h in
  inner_node (rep n h2) n h2 nd2 X ∧ mHash nd2 = inner_hash (mhash n) n X ∧ mSeq nd2 = s ∧ evolves s h (Some p) h2 (Some p)
  ∧ ((∀ i c, 0 <= i < 16 → getChild nd i = Some c → owned s h c) → owned s h2 p).
Proof.
  intros Hp Hin Hne Hs Hnz Hh nd2 h2.
  pose proof (inner_not_isEmpty _ _ _ _ _ Hin Hne) as Hbr.
  assert (nd2 = mkNode (inner_hash (mhash n) n X) ((λ i, mhash n (part n i X)) <$> branches16) (mChildren nd) None s tnINNER (mIsBranch nd)) as Hnd2.
  { unfold nd2, updateHashDeep. rewrite (deep_hashes n h nd X Hin Hh). unfold updateHash. cbn [mType mItem mHashes mIsBranch mHash mSeq mChildren].
    rewrite (in_type _ _ _ _ _ _ _ Hin), (in_item _ _ _ _ _ _ _ Hin), Hs. destruct (Z.eqb_spec (mIsBranch nd) 0); [done|]. cbn [negb].
    unfold inner_hash, SHAMapRep.inner_hash. rewrite decide_False by done. case_if; cbn [fst]; [|done]. zbool. congruence. }
  assert (∀ i, getChild nd2 i = getChild nd i) as Hg by (intros i; by rewrite Hnd2).
  assert (∀ i c x, 0 <= i < 16 → getChild nd i = Some c → reach h c x → h2 !! x = h !! x) as Hkeep.
  { intros i c x Hi Hc Hx. unfold h2. rewrite lookup_insert_ne; [done|]. intros <-.
    destruct (in_child _ _ _ _ _ _ _ Hin i c Hi Hc) as (_ & Hr & _). eapply child_not_above; [exact Hr|exact Hp|exact Hi|exact Hc|exact Hx]. }
  split; [|split; [by rewrite Hnd2|split; [by rewrite Hnd2|split]]].
  - pose proof Hin as [? ? ? ? ? Hbranch Hempty Hchild ? ?]. rewrite Hnd2. constructor; try done.
    + intros i Hi Hc. change (getChild nd i = None) in Hc. destruct (Hempty i Hi Hc) as [He _]. split; [done|].
      unfold getChildHash. cbn [mHashes]. rewrite (nth_branches (λ i, mhash n (part n i X))) by done. by rewrite He, mhash_empty.
    + intros i c Hi Hc. change (getChild nd i = Some c) in Hc. destruct (Hchild i c Hi Hc) as (Hpe & Hr & _). split; [done|].
      rewrite <- Hnd2. fold h2. split; [eapply rep_frame; [exact Hr|]; intros x Hx; by eapply Hkeep|]. intros _. split.
      * unfold getChildHash. rewrite Hnd2. cbn [mHashes]. by apply (nth_branches (λ i, mhash n (part n i X))).
      * unfold hash_at. rewrite (Hkeep i c c) by (done || constructor). by apply Hh.
    + by right.
  - split.
    + intros x ndx Hx. unfold h2. destruct (decide (x = p)) as [->|]; [|rewrite lookup_insert_ne by done; eauto].
      rewrite lookup_insert_eq. eexists. split; [done|]. right. simplify_eq. split; [done|constructor].
    + intros x Hx. right. cbn [from] in *. apply reach_inv in Hx as [->|(nd' & i & c & Hl & Hi & Hc & Hx)]; [constructor|].
      unfold h2 in Hl. rewrite lookup_insert_eq in Hl. injection Hl as <-. rewrite Hg in Hc. eapply reach_child; [done..|].
      eapply reach_agree; [|exact Hx]. intros y Hy. by eapply Hkeep.
    + intros x ndx Hx Hlx. cbn [from] in *. apply reach_inv in Hx as [->|(nd' & i & c & Hl & Hi & Hc & Hx)].
      * unfold h2 in Hlx. rewrite lookup_insert_eq in Hlx. injection Hlx as <-. right. by rewrite Hnd2.
      * unfold h2 in Hl. rewrite lookup_insert_eq in Hl. injection Hl as <-. rewrite Hg in Hc. left.
        rewrite <- (Hkeep i c x); [done..|]. eapply reach_agree; [|exact Hx]. intros y Hy. by eapply Hkeep.
  - intros Hown. eapply (below_node _ _ _ nd2); [unfold h2; by rewrite lookup_insert_eq|by rewrite Hnd2|]. intros i c Hi Hc. rewrite Hg in Hc.
    eapply below_frame; [|by eapply Hown]. intros y Hy. by eapply Hkeep.
Qed.

(** ** The whole tree *)

(** A shared node has its hash. *)
Lemma shared_hash n h c cn X : rep n h c X → h !! c = Some cn → mSeq cn = 0 → hash_at h c = mhash n X.
Proof.
  intros Hr Hc Hs. pose proof (rep_nonempty _ _ _ _ _ _ Hr) as Hne. unfold hash_at. rewrite Hc.
  destruct n as [|n]; destruct Hr as (cn' & Hc' & [(k & v & -> & Hleaf)|Hin]); simplify_eq; try done.
  - by rewrite mhash_leaf, (ln_hash _ _ _ _ _ Hleaf).
  - by rewrite mhash_leaf, (ln_hash _ _ _ _ _ Hleaf).
  - destruct Hin as [Hsz Hin]. rewrite mhash_inner by done. destruct (in_hash _ _ _ _ _ _ _ Hin) as [Hz|?]; [|done].
    by destruct (in_seq _ _ _ _ _ _ _ Hin Hs Hne).
Qed.

Section walk.
  Context (m : SHAMap).
  Hypothesis Hnz : m_seq m ≠ 0.
  Notation s := (m_seq m).

(** The work on an inner node, as a promise about the function that does it *)
Definition walks (n : nat) (below : heap → loc → result heap) : Prop :=
  ∀ h p nd X, h !! p = Some nd → inner_node (rep n h) n h nd X → X ≠ ∅ → mSeq nd = s →
  ∃ h' nd', below h p = Ok h' ∧ h' !! p = Some nd' ∧ inner_node (rep n h') n h' nd' X
    ∧ mHash nd' = inner_hash (mhash n) n X ∧ mSeq nd' = s ∧ evolves s h (Some p) h' (Some p) ∧ (unshared h p → owned s h' p).

(** One child that is not shared *)
Lemma walk_child n below h c cn X :
  (∀ n', n = S n' → walks n' below) → rep n h c X → h !! c = Some cn →
  ∃ c' h2 h3, preFlushNode m h c = Ok (c', h2)
    ∧ (if isInner cn then below h2 c' else modify h2 c' (λ c, (updateHash sha512half c).1)) = Ok h3 ∧ flushed s n h c h3 c' X.
Proof.
  intros Hbelow Hr Hc. destruct (preFlushNode_own m h c cn Hc) as (c' & h2 & cn' & Hpf & Hown). exists c', h2.
  destruct (own_lookup _ _ _ _ _ _ _ Hc Hown) as [Hc' Hs'].
  assert ((∃ k v, X = {[k := v]} ∧ leaf_node cn k v) ∨ ∃ n', n = S n' ∧ (2 <= size X)%nat ∧ inner_node (rep n' h) n' h cn X) as Hcase.
  { destruct n as [|n]; destruct Hr as (cn2 & Hc2 & Hor); simplify_eq; destruct Hor as [?|Hor]; [by left|done|by left|right; eauto]. }
  destruct Hcase as [(k & v & -> & Hleaf)|(n' & -> & Hsz & Hin)].
  - destruct (own_leaf s n _ _ _ _ _ _ k v Hc Hleaf Hown) as (Hleaf' & Hr' & Hev).
    destruct (leaf_isLeaf _ _ ty_leaf _ _ _ Hleaf) as (_ & -> & _). exists h2. split; [done|]. split.
    + unfold modify. rewrite (deref_Ok _ _ _ Hc'), bind_Ok, (updateHash_same _ _ _ Hleaf'), insert_id by done. done.
    + split; [done|]. split; [unfold hash_at; rewrite Hc', mhash_leaf; apply (ln_hash _ _ _ _ _ Hleaf')|]. split; [done|]. intros _.
      eapply below_node; [done..|]. intros i d _ Hd. by rewrite (leaf_no_child _ _ _ _ _ i Hleaf') in Hd.
  - destruct (own_inner s n' _ _ _ _ _ _ X Hnz Hc Hin Hown) as [Hin' Hev]. destruct (inner_isInner _ _ _ _ _ _ _ Hin) as (_ & -> & _).
    destruct (Hbelow n' eq_refl h2 c' cn' X Hc' Hin') as (h3 & nd3 & Hb & Hc3 & Hin3 & Hh3 & Hs3 & Hev3 & Hown3);
      [by eapply rep_nonempty|done|]. exists h3. split; [done|]. split; [done|]. split.
    + exists nd3. split; [done|]. right. done.
    + split; [unfold hash_at; by rewrite Hc3, mhash_inner|]. split; [by eapply evolves_trans|]. intros Hus. apply Hown3.
      intros x nd Hx Hl. destruct (ev_seq _ _ _ _ _ Hev x nd Hx Hl) as [Hl'|]; [|congruence].
      destruct (ev_new _ _ _ _ _ Hev x Hx) as [?|Hf]; [congruence|]. by eapply Hus.
Qed.

(** The loop over the branches: those before [order] have been done. *)
Lemma walk_children_spec n below X (U : Prop) order : ∀ h p nd,
  (∀ n', n = S n' → walks n' below) → (∀ i, i ∈ order → 0 <= i < 16) → NoDup order →
  h !! p = Some nd → inner_node (rep n h) n h nd X → mSeq nd = s →
  (∀ i c, 0 <= i < 16 → getChild nd i = Some c →
     if decide (i ∈ order) then U → unshared h c else hash_at h c = mhash n (part n i X) ∧ (U → owned s h c)) →
  ∃ h' nd', walk_children sha512half below m p order h = Ok h' ∧ h' !! p = Some nd' ∧ inner_node (rep n h') n h' nd' X ∧ mSeq nd' = s
    ∧ (∀ i c, 0 <= i < 16 → getChild nd' i = Some c → hash_at h' c = mhash n (part n i X) ∧ (U → owned s h' c))
    ∧ evolves s h (Some p) h' (Some p).
Proof.
  induction order as [|pos order IH]; intros h p nd Hbelow Ho Hnodup Hp Hin Hs Hdone.
  { exists h, nd. split; [done|]. split; [done|]. split; [done|]. split; [done|]. split.
    - intros i c Hi Hc. specialize (Hdone i c Hi Hc). rewrite decide_False in Hdone by apply not_elem_of_nil. done.
    - split; [intros x ndx Hx; eauto|intros x Hx; by right|intros x nd' _ Hl; by left]. }
  apply NoDup_cons in Hnodup as [Hnin Hnodup].
  cbn [walk_children]. rewrite (deref_Ok _ _ _ Hp), bind_Ok. assert (0 <= pos < 16) as Hpos by (apply Ho; by apply elem_of_cons; left).
  assert (∀ i, i ∈ order → 0 <= i < 16) as Ho' by (intros i Hi; apply Ho; by apply elem_of_cons; right).
  assert (∀ i c, 0 <= i < 16 → i ≠ pos → getChild nd i = Some c →
    if decide (i ∈ order) then U → unshared h c else hash_at h c = mhash n (part n i X) ∧ (U → owned s h c)) as Hothers.
  { intros i c Hi Hne Hc. specialize (Hdone i c Hi Hc). destruct (decide (i ∈ order)) as [Hio|Hio].
    - rewrite decide_True in Hdone by (apply elem_of_cons; by right). done.
    - rewrite decide_False in Hdone by (rewrite elem_of_cons; by intros [?|?]). done. }
  assert (evolves s h (Some p) h (Some p)) as Hrefl by (split; [intros x ndx Hx; eauto|intros x Hx; by right|intros x nd' _ Hl; by left]).
  (* the rest of the loop, from the heap after this branch *)
  assert (∀ h1 nd1, h1 !! p = Some nd1 → inner_node (rep n h1) n h1 nd1 X → mSeq nd1 = s → evolves s h (Some p) h1 (Some p) →
    (∀ i c, 0 <= i < 16 → getChild nd1 i = Some c →
       if decide (i ∈ order) then U → unshared h1 c else hash_at h1 c = mhash n (part n i X) ∧ (U → owned s h1 c)) →
    ∃ h' nd', walk_children sha512half below m p order h1 = Ok h' ∧ h' !! p = Some nd' ∧ inner_node (rep n h') n h' nd' X ∧ mSeq nd' = s
      ∧ (∀ i c, 0 <= i < 16 → getChild nd' i = Some c → hash_at h' c = mhash n (part n i X) ∧ (U → owned s h' c))
      ∧ evolves s h (Some p) h' (Some p)) as Hrest.
  { intros h1 nd1 H1 H2 H3 H4 H5. destruct (IH h1 p nd1 Hbelow Ho' Hnodup H1 H2 H3 H5) as (h' & nd' & Hw & ? & ? & ? & ? & Hev').
    exists h', nd'. split; [done|]. split; [done|]. split; [done|]. split; [done|]. split; [done|]. by eapply evolves_trans. }
  destruct (inner_branch _ _ _ _ _ _ _ pos Hin Hpos) as [[He Hpe]|(c & He & Hc & _ & _ & Hr)]; rewrite He.
  { rewrite bind_Ok. apply (Hrest h nd); try done. intros i c Hi Hc. apply Hothers; [done| |done].
    intros ->. destruct (in_child _ _ _ _ _ _ _ Hin _ _ Hi Hc) as [? _]. done. }
  rewrite Hc. destruct (rep_dom _ _ _ _ _ _ c Hr) as [cn Hcn]; [constructor|]. rewrite (deref_Ok _ _ _ Hcn), bind_Ok.
  pose proof (Hdone pos c Hpos Hc) as Hpu. rewrite decide_True in Hpu by (by apply elem_of_cons; left).
  destruct (Z.eqb_spec (mSeq cn) 0) as [H0|H0].
  { rewrite bind_Ok. apply (Hrest h nd); try done. intros i d Hi Hd. destruct (decide (i = pos)) as [->|Hne]; [|by apply Hothers].
    rewrite decide_False by done. rewrite Hc in Hd. injection Hd as <-. split; [by eapply shared_hash|].
    intros Hu. by destruct (Hpu Hu c cn (reach_refl _ _) Hcn). }
  destruct (walk_child n below h c cn (part n pos X) Hbelow Hr Hcn) as (c' & h2 & h3 & -> & Hw & Hr3 & Hh3 & Hev3 & Hown3).
  rewrite bind_Ok. cbv beta iota. rewrite Hw, bind_Ok.
  assert (h3 !! p = Some nd) as Hp3.
  { eapply ev_same; [exact Hev3|done|]. cbn [from]. eapply child_not_above; [exact Hr|exact Hp|exact Hpos|exact Hc]. }
  unfold modify. rewrite (deref_Ok _ _ _ Hp3), !bind_Ok.
  destruct (share_child_node sha512half ty ty_leaf s n h h3 p nd X pos c c' Hp Hin Hpos Hs Hc Hev3 Hr3 Hh3) as (Hin4 & Hev4 & Hsib & Hnew).
  eapply Hrest; [by rewrite lookup_insert_eq|exact Hin4|done|exact Hev4|].
  intros i d Hi Hd. rewrite getChild_shareChild in Hd by (done || apply (in_children _ _ _ _ _ _ _ Hin)).
  case_decide as Hip.
  - subst i. injection Hd as <-. rewrite decide_False by done. split; [unfold hash_at; rewrite Hnew by constructor; exact Hh3|].
    intros Hu. eapply below_frame; [exact Hnew|]. by apply Hown3, Hpu.
  - specialize (Hothers i d Hi Hip Hd). pose proof (λ y, Hsib i d y Hi Hip Hd) as Hfr. case_decide.
    + intros Hu. eapply below_frame; [exact Hfr|]. by apply Hothers.
    + destruct Hothers as [H1 H2]. split; [unfold hash_at; rewrite (Hfr d) by constructor; exact H1|].
      intros Hu. eapply below_frame; [exact Hfr|]. by apply H2.
Qed.

Lemma walkSubTree_spec n : ∀ fuel, (n < fuel)%nat → walks n (walkSubTree_node sha512half fuel m).
Proof.
  induction n as [n IH] using lt_wf_ind. intros [|fuel] Hf; [lia|]. intros h p nd X Hp Hin Hne Hs. cbn [walkSubTree_node].
  destruct (walk_children_spec n (walkSubTree_node sha512half fuel m) X (unshared h p) branches16 h p nd)
    as (h1 & nd1 & -> & Hp1 & Hin1 & Hs1 & Hall & Hev1).
  { intros n' ->. apply IH; lia. }
  { intros i. apply branches16_in. }
  { apply branches16_NoDup. }
  { done. } { done. } { done. }
  { intros i c Hi Hc. rewrite decide_True by by apply branches16_in. intros Hu. by eapply below_child. }
  rewrite bind_Ok. unfold modify. rewrite (deref_Ok _ _ _ Hp1), bind_Ok.
  destruct (update_deep s n h1 p nd1 X Hp1 Hin1 Hne Hs1 Hnz) as (Hin2 & Hh2 & Hs2 & Hev2 & Hown2).
  { intros i c Hi Hc. by apply (Hall i c). }
  do 2 eexists. split; [reflexivity|]. split; [by rewrite lookup_insert_eq|]. split; [exact Hin2|]. split; [done|]. split; [done|].
  split; [by eapply evolves_trans|]. intros Hu. apply Hown2. intros i c Hi Hc. by apply (Hall i c).
Qed.
End walk.

(** [unshare] keeps the content; a tree that is not empty and not shared gets its hash. *)
Lemma unshare_root m h M :
  root_rep h (m_root m) M → m_seq m ≠ 0 →
  ∃ m' h' nd, unshare sha512half m h = Ok (m', h') ∧ changed sha512half ty m h m' h' M
    ∧ h' !! m_root m' = Some nd ∧ mHash nd = root_hash M
    ∧ (unshared h (m_root m) → M ≠ ∅ → owned (m_seq m) h' (m_root m')).
Proof.
  intros Hr Hs. pose proof Hr as (Hu & nd & Hl & Hin). unfold unshare. rewrite (deref_Ok _ _ _ Hl), bind_Ok.
  assert (changed sha512half ty m h m h M) as Hsame by (split; [done|]; split; [by eapply (proj2 (root_grow sha512half ty (m_seq m) h h (m_root m) M Hr (λ x nd H, H)))|done]).
  destruct (decide (M = ∅)) as [->|Hne].
  - assert (isEmpty nd = true) as ->.
    { unfold isEmpty. apply Z.eqb_eq. apply bits16_ext; [apply (in_bits _ _ _ _ _ _ _ Hin)|lia|]. intros i Hi. rewrite Z.bits_0.
      destruct (inner_branch _ _ _ _ _ _ _ i Hin Hi) as [[He _]|(c & _ & _ & _ & Hp & _)]; [|by rewrite part_empty in Hp].
      rewrite isEmptyBranch_bit in He by lia. by apply negb_true_iff in He. }
    rewrite orb_true_r. exists m, h, nd. split; [done|]. split; [done|]. split; [done|]. split; [|done].
    unfold root_hash, SHAMapRep.root_hash. destruct (in_hash _ _ _ _ _ _ _ Hin) as [->| ->]; [|done]. unfold inner_hash. by rewrite decide_True.
  - assert (isEmpty nd = false) as -> by (apply Z.eqb_neq; by eapply inner_not_isEmpty). rewrite orb_false_r.
    destruct (Z.eqb_spec (mSeq nd) 0) as [H0|H0].
    { exists m, h, nd. split; [done|]. split; [done|]. split; [done|]. split.
      - destruct (in_hash _ _ _ _ _ _ _ Hin) as [Hz|?]; [|done]. by destruct (in_seq _ _ _ _ _ _ _ Hin H0 Hne).
      - intros Hus. by destruct (Hus _ nd (reach_refl _ _) Hl). }
    destruct (preFlushNode_own m h (m_root m) nd Hl) as (p & h2 & nd2 & -> & Hown). rewrite bind_Ok. cbv beta iota.
    destruct (inner_isInner _ _ _ _ _ _ _ Hin) as (-> & _ & _).
    destruct (own_lookup _ _ _ _ _ _ _ Hl Hown) as [Hp2 Hs2]. destruct (own_inner _ _ _ _ _ _ _ _ M Hs Hl Hin Hown) as [Hin2 Hev2].
    destruct (walkSubTree_spec m Hs 63 max_depth ltac:(unfold max_depth; lia) h2 p nd2 M Hp2 Hin2 Hne Hs2) as (h3 & nd3 & -> & Hp3 & Hin3 & Hh3 & _ & Hev3 & Hown3).
    rewrite bind_Ok. exists (set_root m p), h3, nd3. split; [done|]. split.
    { split; [split; [done|by exists nd3]|]. split; [by eapply evolves_trans|done]. }
    split; [done|]. split; [done|]. intros Hus _. apply Hown3.
    intros x ndx Hx Hlx. destruct (ev_seq _ _ _ _ _ Hev2 x ndx Hx Hlx) as [Hl'|]; [|congruence].
    destruct (ev_new _ _ _ _ _ Hev2 x Hx) as [?|Hf]; [congruence|]. by eapply Hus.
Qed.

(** The hash of a map is the hash of its content. *)
Lemma getHash_spec m h M :
  root_rep h (m_root m) M → m_seq m ≠ 0 →
  ∃ m' h', getHash sha512half m h = Ok (root_hash M, m', h') ∧ changed sha512half ty m h m' h' M
    ∧ (∃ nd, h' !! m_root m' = Some nd ∧ mHash nd = root_hash M).
Proof.
  intros Hr Hs. pose proof Hr as (Hu & nd & Hl & Hin). unfold getHash. rewrite (deref_Ok _ _ _ Hl), bind_Ok.
  destruct (Z.eqb_spec (mHash nd) 0) as [Hz|Hz].
  - destruct (unshare_root m h M Hr Hs) as (m' & h' & nd' & -> & Hch & Hl' & Hh & _). rewrite bind_Ok. cbv beta iota.
    rewrite (deref_Ok _ _ _ Hl'), bind_Ok, Hh. exists m', h'. eauto.
  - destruct (in_hash _ _ _ _ _ _ _ Hin) as [?|Hh]; [done|]. rewrite Hh. exists m, h. split; [done|]. split; [|eauto].
    split; [done|]. split; [by eapply (proj2 (root_grow sha512half ty (m_seq m) h h (m_root m) M Hr (λ x nd H, H)))|done].
Qed.
End hash.
