(* ===== verification/SHAMapShare.v ===== *)
(** * Maps that share nodes

    Several maps of one heap: a change of one map leaves the others as they are, as long as they
    share no node the map owns ([apart]); [snapShot] makes a map that is apart from the one it
    was made of, unless the latter is empty. *)

From S2P Require Import Prelude Bytes Serializer SHAMapNodeID SHAMapTreeNode SHAMap SHAMapRep SHAMapRead SHAMapWrite SHAMapDelete SHAMapHash.

(** No node that both trees reach has sequence number [s]. *)
Definition apart (s : Z) (h : heap) (a b : loc) : Prop :=
  ∀ x nd, h !! x = Some nd → reach h a x → reach h b x → mSeq nd ≠ s.

Section share.
  Context (sha512half : blob → Z) (ty : TNType).
  Hypothesis ty_leaf : ty ≠ tnERROR ∧ ty ≠ tnINNER.

Notation leaf_node := (leaf_node sha512half ty).
Notation inner_node := (inner_node sha512half ty).
Notation rep := (rep sha512half ty).
Notation root_rep := (root_rep sha512half ty).

(** A change of [a] does not touch what [b] reaches. *)
Lemma apart_keeps s h a h' a' b M x :
  evolves s h (Some a) h' (Some a') → root_rep h b M → apart s h a b → reach h b x → h' !! x = h !! x.
Proof.
  intros Hev Hb Hap Hx. destruct (root_dom _ _ _ _ _ _ Hb Hx) as [nd Hnd]. rewrite Hnd.
  destruct (ev_keep _ _ _ _ _ Hev x nd Hnd) as (nd' & Hnd' & [->|[Hs Hf]]); [done|]. by destruct (Hap x nd Hnd Hf Hx).
Qed.

Lemma evolves_other s h a h' a' b M :
  evolves s h (Some a) h' (Some a') → root_rep h b M → apart s h a b →
  root_rep h' b M ∧ ∀ s', apart s' h a b → apart s' h' a' b.
Proof.
  intros Hev Hb Hap. pose proof (λ x, apart_keeps s h a h' a' b M x Hev Hb Hap) as Hk. split; [by eapply root_frame|].
  intros s' Hap' x nd Hx Hax Hbx. assert (reach h b x) as Hbx' by by eapply reach_agree.
  rewrite Hk in Hx by done. destruct (ev_new _ _ _ _ _ Hev x Hax) as [?|Hf]; [congruence|]. by apply (Hap' x nd).
Qed.

(** ** The sequence numbers of a tree *)

(** Every node is of the map itself or of a map it was made of, and none is marked as shared. *)
Definition seqs_ok (s : Z) (h : heap) (r : loc) : Prop := below_all (λ nd, 1 <= mSeq nd <= s) h r.

Lemma evolves_seqs s h a h' a' : 1 <= s → evolves s h (Some a) h' (Some a') → seqs_ok s h a → seqs_ok s h' a'.
Proof.
  intros Hs Hev Hok x nd Hx Hl. destruct (ev_seq _ _ _ _ _ Hev x nd Hx Hl) as [Hold| ->]; [|lia].
  destruct (ev_new _ _ _ _ _ Hev x Hx) as [?|Hf]; [congruence|]. by eapply Hok.
Qed.

(** A map with a higher sequence number is free to change. *)
Lemma seqs_apart s s' h a b : seqs_ok s h a → s < s' → apart s' h a b.
Proof. intros Hok Hs x nd Hx Ha _. destruct (Hok x nd Ha Hx). lia. Qed.

Lemma apart_sym s h a b : apart s h a b → apart s h b a.
Proof. intros H x nd Hx Hb Ha. by eapply H. Qed.

(** ** [newMap] *)

Lemma newMap_spec h s : 1 <= s → let '(m, h') := newMap h s in
  root_rep h' (m_root m) ∅ ∧ seqs_ok s h' (m_root m) ∧ m_seq m = s ∧ ∀ x nd, h !! x = Some nd → h' !! x = Some nd.
Proof.
  intros Hs. unfold newMap, alloc. cbn [m_root m_seq]. pose proof (next_loc_fresh h) as Hf. split; [|split; [|split; [done|]]].
  - split; [apply map_Forall_empty|]. eexists. split; [by rewrite lookup_insert_eq|].
    change (makeInner (newNode s)) with (hollow s). apply hollow_inner. lia.
  - eapply below_node; [by rewrite lookup_insert_eq|simpl; lia|]. intros i c Hi. change (makeInner (newNode s)) with (hollow s).
    by rewrite nulls_no_child.
  - intros x nd Hx. rewrite lookup_insert_ne by congruence. done.
Qed.

(** ** [snapShot] *)

(** A snapshot stands for the same content; it is free to change, and so is the map it was made
    of unless that one is immutable. *)
Lemma snapShot_spec a h M isMutable :
  root_rep h (m_root a) M → seqs_ok (m_seq a) h (m_root a) → 1 <= m_seq a < 2 ^ 32 - 1 → M ≠ ∅ →
  ∃ b h', snapShot sha512half a h isMutable = Ok (b, h') ∧ root_rep h' (m_root a) M ∧ root_rep h' (m_root b) M
    ∧ m_seq b = m_seq a + 1 ∧ apart (m_seq b) h' (m_root b) (m_root a)
    ∧ (is_immutable a = false → apart (m_seq a) h' (m_root a) (m_root b)).
Proof.
  intros Hr Hok Hs Hne. unfold snapShot. set (nb := mkMap _ _ _).
  assert (m_seq nb = m_seq a + 1) as Hnb by (cbn [nb m_seq]; apply u32_id; unfold is_u32; lia).
  destruct (negb (is_immutable a) || negb isMutable) eqn:Hb.
  - destruct (unshare_root sha512half ty ty_leaf nb h M Hr ltac:(lia)) as (b & h' & nd & -> & (Hrb & Hev & Hsb & _) & _ & _ & Hown).
    assert (∀ x, reach h (m_root a) x → h' !! x = h !! x) as Hk.
    { intros x Hx. destruct (root_dom _ _ _ _ _ _ Hr Hx) as [ndx Hndx]. rewrite Hndx.
      destruct (ev_keep _ _ _ _ _ Hev x ndx Hndx) as (nd' & Hnd' & [->|[Hsx _]]); [done|]. destruct (Hok x ndx Hx Hndx). lia. }
    assert (below_all (λ nd, mSeq nd = m_seq nb) h' (m_root b)) as Ho by (apply Hown; [|done]; intros x ndx Hx Hl; destruct (Hok x ndx Hx Hl); lia).
    assert (∀ s, apart s h' (m_root a) (m_root b)) as Hap.
    { intros s x ndx Hl Ha Hxb. specialize (Ho x ndx Hxb Hl). cbv beta in Ho. eapply reach_agree in Ha; [|done].
      rewrite Hk in Hl by done. destruct (Hok x ndx Ha Hl). lia. }
    exists b, h'. split; [done|]. split; [by eapply root_frame|]. split; [done|]. split; [congruence|].
    split; [apply apart_sym|]; auto.
  - exists nb, h. apply orb_false_iff in Hb as [Hb _]. split; [done|]. split; [done|]. split; [done|]. split; [done|]. split.
    + rewrite Hnb. eapply seqs_apart; [exact Hok|lia].
    + intros Hi. by rewrite Hi in Hb.
Qed.
End share.

(** ** Sequences of changes *)

(** The operations that change a map.  [getHash] is one: it computes the hashes that are out of
    date. *)
Inductive change := Add (item : SHAMapItem) | Update (item : SHAMapItem) | Delete (tag : Z) | Hash.

Section changes.
  Context (sha512half : blob → Z) (isTransaction hasMeta : bool).

Definition apply_change (m : SHAMap) (h : heap) (c : change) : result (SHAMap * heap) :=
  match c with
  | Add item => '(_, m, h) ← addGiveItem sha512half m h item isTransaction hasMeta; Ok (m, h)
  | Update item => '(_, m, h) ← updateGiveItem sha512half m h item isTransaction hasMeta; Ok (m, h)
  | Delete tag => '(_, m, h) ← delItem sha512half m h tag; Ok (m, h)
  | Hash => '(_, m, h) ← getHash sha512half m h; Ok (m, h)
  end.

(** What they do to a content: an item is added only where there is none, and updated only where
    there is one. *)
Definition change_content (M : content) (c : change) : content :=
  match c with
  | Add item => match M !! i_tag item with Some _ => M | None => <[i_tag item := i_data item]> M end
  | Update item => match M !! i_tag item with Some _ => <[i_tag item := i_data item]> M | None => M end
  | Delete tag => delete tag M
  | Hash => M
  end.

Fixpoint apply_changes (m : SHAMap) (h : heap) (cs : list change) : result (SHAMap * heap) :=
  match cs with
  | [] => Ok (m, h)
  | c :: cs => '(m, h) ← apply_change m h c; apply_changes m h cs
  end.

Notation ty := (leaf_type isTransaction hasMeta).
Notation root_rep := (root_rep sha512half ty).
Notation leaf_hash := (leaf_hash sha512half ty).

(** The tags are 256-bit numbers, and no update replaces data by data with the same hash. *)
Definition change_ok (M : content) (c : change) : Prop :=
  match c with
  | Add item => is_u256 (i_tag item)
  | Update item => is_u256 (i_tag item) ∧
      match M !! i_tag item with Some w => leaf_hash (i_tag item) (i_data item) = leaf_hash (i_tag item) w → i_data item = w | None => True end
  | Delete tag => is_u256 tag
  | Hash => True
  end.

Fixpoint changes_ok (M : content) (cs : list change) : Prop :=
  match cs with [] => True | c :: cs => change_ok M c ∧ changes_ok (change_content M c) cs end.

Lemma leaf_type_leaf : ty ≠ tnERROR ∧ ty ≠ tnINNER.
Proof. by destruct isTransaction, hasMeta. Qed.

Lemma apply_change_spec m h M c :
  root_rep h (m_root m) M → m_seq m ≠ 0 → change_ok M c →
  ∃ m' h', apply_change m h c = Ok (m', h') ∧ changed sha512half ty m h m' h' (change_content M c).
Proof.
  intros Hr Hs Hok.
  assert (changed sha512half ty m h m h M) as Hsame
    by (split; [done|]; split; [by eapply (proj2 (root_grow sha512half ty (m_seq m) h h (m_root m) M Hr (λ x nd H, H)))|done]).
  destruct c as [item|item|tag|]; cbn [apply_change change_content change_ok] in *.
  - pose proof (addGiveItem_spec sha512half ty leaf_type_leaf m h M item isTransaction hasMeta Hr Hok Hs eq_refl) as H.
    destruct (M !! i_tag item); [|destruct H as (m' & h' & H & Hc)]; rewrite H, bind_Ok; eauto.
  - destruct Hok as [Hu Hc].
    pose proof (updateGiveItem_spec sha512half ty leaf_type_leaf m h M item isTransaction hasMeta Hr Hu Hs eq_refl) as H.
    destruct (M !! i_tag item); [destruct (H Hc) as (m' & h' & H' & Hc'); rewrite H', bind_Ok|rewrite H, bind_Ok]; eauto.
  - pose proof (delItem_spec sha512half ty leaf_type_leaf m h M tag Hr Hok Hs) as H. destruct (M !! tag) eqn:Ht.
    + destruct H as (m' & h' & H & Hc). rewrite H, bind_Ok; eauto.
    + rewrite H, bind_Ok, delete_id by done. eauto.
  - destruct (getHash_spec sha512half ty leaf_type_leaf m h M Hr Hs) as (m' & h' & H & Hc & _). rewrite H, bind_Ok. eauto.
Qed.

Lemma changed_trans m h m1 h1 M1 m2 h2 M2 :
  changed sha512half ty m h m1 h1 M1 → changed sha512half ty m1 h1 m2 h2 M2 → changed sha512half ty m h m2 h2 M2.
Proof.
  intros (_ & He1 & Hs1 & Ht1) (Hr2 & He2 & Hs2 & Ht2). rewrite Hs1 in He2, Hs2. rewrite Ht1 in Ht2.
  split; [done|]. split; [by eapply evolves_trans|done].
Qed.

Lemma apply_changes_spec cs : ∀ m h M,
  root_rep h (m_root m) M → m_seq m ≠ 0 → changes_ok M cs →
  ∃ m' h', apply_changes m h cs = Ok (m', h') ∧ changed sha512half ty m h m' h' (foldl change_content M cs).
Proof.
  induction cs as [|c cs IH]; intros m h M Hr Hs Hok; cbn [apply_changes foldl].
  - exists m, h. split; [done|]. split; [done|]. split; [by eapply (proj2 (root_grow sha512half ty (m_seq m) h h (m_root m) M Hr (λ x nd H, H)))|done].
  - destruct Hok as [Hc Hok]. destruct (apply_change_spec m h M c Hr Hs Hc) as (m1 & h1 & -> & H1). rewrite bind_Ok. cbv beta iota.
    pose proof H1 as (Hr1 & _ & Hs1 & _).
    destruct (IH m1 h1 _ Hr1 ltac:(congruence) Hok) as (m2 & h2 & -> & H2). exists m2, h2. split; [done|]. by eapply changed_trans.
Qed.
End changes.
