(* ===== verification/SHAMapMerkle.v ===== *)
(** * The hash of a tree names its content

    The byte strings that are hashed for a content, one per node, are [hashed].  As long as no two
    of them collide, contents with the same hash are the same: the prefix of a byte string tells
    leaves from inner nodes, and the rest gives the item or the hashes of the sixteen parts.  The
    hash of a transaction without metadata does not cover its tag, so there the tag has to be that
    hash, as it is for the transaction sets of the consensus. *)

From S2P Require Import Prelude Bytes Serializer SHAMapNodeID SHAMapTreeNode SHAMap SHAMapRep SHAMapRead SHAMapWrite SHAMapDelete SHAMapHash.

Lemma be256_inj x y : is_u256 x → is_u256 y → be256 x = be256 y → x = y.
Proof.
  intros Hx Hy H. apply (f_equal be_val) in H. unfold be256, is_u256 in *.
  rewrite !be_val_bytes_id in H by (change (256 ^ Z.of_nat 32) with (2 ^ 256); lia). done.
Qed.

Lemma concat_be256_inj xs : ∀ ys,
  length xs = length ys → Forall is_u256 xs → Forall is_u256 ys → concat (be256 <$> xs) = concat (be256 <$> ys) → xs = ys.
Proof.
  induction xs as [|x xs IH]; intros [|y ys] Hl Hx Hy H; try done. cbn [fmap list_fmap concat] in H.
  apply app_inj_1 in H as [H1 H2]; [|by rewrite !be256_length]. inversion Hx; inversion Hy; subst.
  f_equal; [by apply be256_inj|]. apply IH; auto.
Qed.

Section merkle.
  Context (sha512half : blob → Z) (ty : TNType).
  Hypothesis ty_leaf : ty ≠ tnERROR ∧ ty ≠ tnINNER.

Notation mhash := (mhash sha512half ty).
Notation inner_hash := (inner_hash sha512half).
Notation root_hash := (root_hash sha512half ty).
Notation leaf_hash := (leaf_hash sha512half ty).

(** What is hashed for a leaf and for an inner node *)
Definition leaf_bytes (k : Z) (v : blob) : blob :=
  match ty with
  | tnTRANSACTION_NM => (add32 transactionID []).2 ++ v
  | tnTRANSACTION_MD => (add32 txNode []).2 ++ v ++ be256 k
  | _ => (add32 leafNode []).2 ++ v ++ be256 k
  end.

Definition inner_bytes (n : nat) (M : content) : blob :=
  (add32 innerNode []).2 ++ concat (be256 <$> ((λ i, mhash n (part n i M)) <$> branches16)).

Fixpoint hashed (n : nat) (M : content) : list blob :=
  match map_to_list M with
  | [] => []
  | [(k, v)] => [leaf_bytes k v]
  | _ => match n with O => [] | S n => inner_bytes n M :: concat ((λ i, hashed n (part n i M)) <$> branches16) end
  end.

(** For the whole tree *)
Definition root_hashed (M : content) : list blob := inner_bytes 63 M :: concat ((λ i, hashed 63 (part 63 i M)) <$> branches16).

Lemma leaf_hash_bytes k v : leaf_hash k v = sha512half (leaf_bytes k v).
Proof.
  unfold leaf_hash, SHAMapRep.leaf_hash, itemNode, updateHash, leaf_bytes, getPrefixHash, addBitString, addRaw. cbn [mItem mType mHash snd i_tag i_data].
  destruct ty_leaf. destruct ty; try done; rewrite <- ?app_assoc;
    match goal with |- context [?x =? 0] => destruct (Z.eqb_spec x 0) end; simpl; done.
Qed.

(** No two byte strings of a list collide, and their hashes are proper. *)
Definition collision_free (L : list blob) : Prop :=
  (∀ x, x ∈ L → 0 < sha512half x < 2 ^ 256) ∧ ∀ x y, x ∈ L → y ∈ L → sha512half x = sha512half y → x = y.

(** Where the hash of an item does not cover the tag, the tag is that hash. *)
Definition tags_ok (M : content) : Prop := ty = tnTRANSACTION_NM → ∀ k v, M !! k = Some v → k = sha512half (leaf_bytes k v).

(** The three shapes of a content *)
Lemma content_cases n M :
  agree n M → (M = ∅ ∧ mhash n M = 0) ∨ (∃ k v, M = {[k := v]} ∧ hashed n M = [leaf_bytes k v] ∧ mhash n M = sha512half (leaf_bytes k v))
  ∨ ∃ n', n = S n' ∧ M ≠ ∅ ∧ mhash n M = sha512half (inner_bytes n' M)
      ∧ hashed n M = inner_bytes n' M :: concat ((λ i, hashed n' (part n' i M)) <$> branches16).
Proof.
  intros Ha. destruct (decide (M = ∅)) as [->|Hne]; [left; by rewrite mhash_empty|right].
  destruct (decide (2 <= size M)%nat) as [H2|H2].
  - right. destruct n as [|n].
    { apply size_2 in H2 as (k1 & k2 & Hk & H1 & H2). destruct Hk. specialize (Ha k1 k2 H1 H2). change (16 ^ Z.of_nat 0) with 1 in Ha.
      by rewrite !Z.div_1_r in Ha. }
    exists n. split; [done|]. split; [done|]. split.
    + rewrite mhash_inner by done. unfold inner_hash, SHAMapRep.inner_hash. by rewrite decide_False.
    + rewrite <- length_map_to_list in H2. cbn [hashed]. destruct (map_to_list M) as [|[k v] [|x l]]; simpl in H2; [lia..|done].
  - left. destruct (size_1 M Hne H2) as (k & v & ->). exists k, v. split; [done|]. rewrite mhash_leaf, leaf_hash_bytes.
    split; [|done]. destruct n; simpl; by rewrite map_to_list_singleton.
Qed.

Lemma leaf_bytes_inj k k' v v' :
  is_u256 k → is_u256 k' → (ty = tnTRANSACTION_NM → k = sha512half (leaf_bytes k v) ∧ k' = sha512half (leaf_bytes k' v')) →
  leaf_bytes k v = leaf_bytes k' v' → k = k' ∧ v = v'.
Proof.
  intros Hk Hk' Ht H. assert (ty = tnTRANSACTION_NM → k = k') as Hnm by (intros Hnm; destruct (Ht Hnm) as [-> ->]; congruence).
  unfold leaf_bytes in H. clear Ht. destruct ty_leaf.
  destruct ty; try done; apply app_inv_head in H; [by auto|..]; apply app_inj_2 in H as [-> H]; rewrite ?be256_length; try done;
    split; try done; by apply be256_inj.
Qed.

Lemma leaf_not_inner k v n M : leaf_bytes k v ≠ inner_bytes n M.
Proof. unfold leaf_bytes, inner_bytes. destruct ty; intros H; discriminate H. Qed.

Lemma mhash_range L n M : agree n M → hashed n M ⊆ L → collision_free L → is_u256 (mhash n M).
Proof.
  intros Ha HL [Hr _]. assert (∀ x, x ∈ hashed n M → is_u256 (sha512half x)) as Hx by (intros x Hx; pose proof (Hr x (HL x Hx)); unfold is_u256; lia).
  destruct (content_cases n M Ha) as [[_ ->]|[(k & v & _ & Hh & ->)|(n' & _ & _ & -> & Hh)]]; [unfold is_u256; lia|..];
    apply Hx; rewrite Hh; constructor.
Qed.

Lemma hashed_part n i M x : 0 <= i < 16 → x ∈ hashed n (part n i M) → x ∈ concat ((λ i, hashed n (part n i M)) <$> branches16).
Proof. intros Hi Hx. apply list_elem_of_In, in_concat. exists (hashed n (part n i M)). rewrite <- !list_elem_of_In. split; [|done].
  apply list_elem_of_fmap. exists i. split; [done|]. by apply branches16_in. Qed.

(** Equal bytes of inner nodes: equal hashes of the parts *)
Lemma inner_bytes_inj L n M M' :
  agree (S n) M → agree (S n) M' → collision_free L →
  concat ((λ i, hashed n (part n i M)) <$> branches16) ⊆ L → concat ((λ i, hashed n (part n i M')) <$> branches16) ⊆ L →
  inner_bytes n M = inner_bytes n M' → ∀ i, 0 <= i < 16 → mhash n (part n i M) = mhash n (part n i M').
Proof.
  intros Ha Ha' Hcf HL HL' H i Hi. apply app_inv_head in H.
  assert (∀ X, agree (S n) X → concat ((λ i, hashed n (part n i X)) <$> branches16) ⊆ L →
    Forall is_u256 ((λ i, mhash n (part n i X)) <$> branches16)) as Hall.
  { intros X HX HXL. apply Forall_fmap, Forall_forall. intros j Hj%branches16_in. eapply mhash_range; [by apply agree_part| |done].
    intros x Hx. apply HXL. by eapply hashed_part. }
  apply concat_be256_inj in H; [|by rewrite !length_fmap|by apply Hall..].
  apply (f_equal (λ l, nth (Z.to_nat i) l 0)) in H. by rewrite !nth_branches in H.
Qed.

Definition proper (M : content) : Prop := map_Forall (λ k _, is_u256 k) M ∧ tags_ok M.

Lemma proper_part n i M : proper M → proper (part n i M).
Proof.
  intros [Hu Ht]. split.
  - intros k v Hk. eapply Hu, lookup_weaken; [exact Hk|apply part_subseteq].
  - intros Hty k v Hk. apply (Ht Hty). eapply lookup_weaken; [done|apply part_subseteq].
Qed.

Lemma mhash_inj L n : ∀ M M',
  agree n M → agree n M' → proper M → proper M' → collision_free L → hashed n M ⊆ L → hashed n M' ⊆ L →
  mhash n M = mhash n M' → M = M'.
Proof.
  induction n as [n IH] using lt_wf_ind. intros M M' Ha Ha' Hp Hp' Hcf HL HL' H. pose proof Hcf as [Hr Hinj].
  destruct (content_cases n M Ha) as [[HM Hh]|[(k & v & HM & Hb & Hh)|(m & Hn & _ & Hh & Hb)]];
    destruct (content_cases n M' Ha') as [[HM' Hh']|[(k' & v' & HM' & Hb' & Hh')|(m' & Hm & _ & Hh' & Hb')]]; rewrite Hh, Hh' in H;
    try rewrite Hb in HL; try rewrite Hb' in HL'.
  - by subst.
  - pose proof (Hr (leaf_bytes k' v') (HL' _ ltac:(constructor))). lia.
  - pose proof (Hr (inner_bytes m' M') (HL' _ ltac:(constructor))). lia.
  - pose proof (Hr (leaf_bytes k v) (HL _ ltac:(constructor))). lia.
  - subst M M'. apply Hinj in H; [|by apply HL, list_elem_of_here|by apply HL', list_elem_of_here].
    destruct Hp as [Hu Ht], Hp' as [Hu' Ht']. apply map_Forall_singleton in Hu, Hu'.
    apply leaf_bytes_inj in H as [-> ->]; [done..|]. intros Hty. split; [apply (Ht Hty k)|apply (Ht' Hty k')]; by rewrite lookup_singleton_eq.
  - apply Hinj in H; [|by apply HL, list_elem_of_here|by apply HL', list_elem_of_here]. by apply leaf_not_inner in H.
  - pose proof (Hr (inner_bytes m M) (HL _ ltac:(constructor))). lia.
  - apply Hinj in H; [|by apply HL, list_elem_of_here|by apply HL', list_elem_of_here]. symmetry in H. by apply leaf_not_inner in H.
  - subst n. injection Hm as <-. apply Hinj in H; [|by apply HL, list_elem_of_here|by apply HL', list_elem_of_here].
    assert (∀ X, inner_bytes m X :: concat ((λ i, hashed m (part m i X)) <$> branches16) ⊆ L →
      ∀ i, 0 <= i < 16 → hashed m (part m i X) ⊆ L) as Hsub.
    { intros X HX i Hi x Hx. apply HX, list_elem_of_further. by eapply hashed_part. }
    apply (parts_eq m m). intros i Hi. apply (IH m); try done; [lia|by apply agree_part|by apply agree_part|by apply proper_part|by apply proper_part|by apply Hsub|by apply Hsub|].
    eapply (inner_bytes_inj L); try done; intros x Hx; [apply HL|apply HL']; by apply list_elem_of_further.
Qed.

Lemma root_hash_inj L M M' :
  proper M → proper M' → collision_free L → root_hashed M ⊆ L → root_hashed M' ⊆ L → root_hash M = root_hash M' → M = M'.
Proof.
  intros Hp Hp' Hcf HL HL' H. pose proof Hcf as [Hr Hinj].
  assert (inner_bytes 63 M ∈ L) as Hm by apply HL, list_elem_of_here. assert (inner_bytes 63 M' ∈ L) as Hm' by apply HL', list_elem_of_here.
  unfold root_hash, SHAMapRep.root_hash, inner_hash, SHAMapRep.inner_hash in H. destruct (decide (M = ∅)) as [->|Hne], (decide (M' = ∅)) as [->|Hne'].
  - done.
  - pose proof (Hr _ Hm') as Hz. unfold inner_bytes in Hz. unfold getPrefixHash in H. lia.
  - pose proof (Hr _ Hm) as Hz. unfold inner_bytes in Hz. unfold getPrefixHash in H. lia.
  - change (sha512half (inner_bytes 63 M) = sha512half (inner_bytes 63 M')) in H. apply Hinj in H; [|done..].
    assert (∀ X, root_hashed X ⊆ L → ∀ i, 0 <= i < 16 → hashed 63 (part 63 i X) ⊆ L) as Hsub.
    { intros X HX i Hi x Hx. apply HX, list_elem_of_further. by eapply hashed_part. }
    pose proof (agree_root M (proj1 Hp)) as Ha. pose proof (agree_root M' (proj1 Hp')) as Ha'.
    apply (parts_eq 63 63). intros i Hi.
    refine (mhash_inj L 63 _ _ (agree_part 63 i M Ha) (agree_part 63 i M' Ha') (proper_part 63 i M Hp) (proper_part 63 i M' Hp') Hcf (Hsub M HL i Hi) (Hsub M' HL' i Hi) _).
    refine (inner_bytes_inj L 63 M M' Ha Ha' Hcf _ _ H i Hi); intros x Hx; [apply HL|apply HL']; by apply list_elem_of_further.
Qed.
End merkle.
