(* ===== verification/SHAMapDelta.v ===== *)
(** * Comparing two trees

    Model of [src/src/common/shamap/impl/SHAMapDelta.cpp]: the table of the differences between
    two maps.  Branches with the same hash are skipped, and the comparison gives up when there are
    too many differences.  The loops work on explicit stacks, as in the code; the number of nodes
    they may take from a stack is a parameter, and the theorems say how many are enough. *)

From S2P Require Import Prelude Bytes Serializer SHAMapNodeID SHAMapTreeNode SHAMap SHAMapRep SHAMapRead SHAMapWrite SHAMapDelete SHAMapHash SHAMapShare SHAMapMerkle.

Notation DeltaRef := (option SHAMapItem * option SHAMapItem)%type.
Notation Delta := (gmap Z DeltaRef).

(** [differences.insert (...)], which keeps an entry there is, and [if (--maxCount <= 0) return
    false]: whether to go on *)
Definition record (differences : Delta) (maxCount : Z) (tag : Z) (ref : DeltaRef) : bool * Delta * Z :=
  let differences := match differences !! tag with Some _ => differences | None => <[tag := ref]> differences end in
  let maxCount := maxCount - 1 in
  (negb (maxCount <=? 0), differences, maxCount).

(** The items of this map and of the other one, in the order of the table *)
Definition delta_ref (isFirstMap : bool) (item other : option SHAMapItem) : DeltaRef :=
  if isFirstMap then (item, other) else (other, item).

Fixpoint push_branches (n : TreeNode) (order : list Z) (nodeStack : list loc) : result (list loc) :=
  match order with
  | [] => Ok nodeStack
  | i :: order =>
      if isEmptyBranch n i then push_branches n order nodeStack
      else child ← descendThrow n i; push_branches n order (child :: nodeStack)
  end.

Fixpoint walkBranch_loop (fuel : nat) (h : heap) (otherMapItem : option SHAMapItem) (isFirstMap : bool)
    (nodeStack : list loc) (emptyBranch : bool) (differences : Delta) (maxCount : Z) : result (bool * Delta * Z) :=
  match fuel with
  | O => Throw out_of_fuel
  | S fuel =>
      match nodeStack with
      | [] =>
          match if emptyBranch then None else otherMapItem with
          | Some other => Ok (record differences maxCount (i_tag other) (delta_ref isFirstMap None (Some other)))
          | None => Ok (true, differences, maxCount)
          end
      | node :: nodeStack =>
          n ← deref h node;
          if isInner n then
            nodeStack ← push_branches n branches16 nodeStack;
            walkBranch_loop fuel h otherMapItem isFirstMap nodeStack emptyBranch differences maxCount
          else
            match mItem n with
            | None => Throw null_pointer
            | Some item =>
                let next emptyBranch '(go, differences, maxCount) :=
                  if go : bool then walkBranch_loop fuel h otherMapItem isFirstMap nodeStack emptyBranch differences maxCount
                  else Ok (false, differences, maxCount) in
                match if emptyBranch then None else otherMapItem with
                | Some other =>
                    if negb (i_tag item =? i_tag other) then
                      next emptyBranch (record differences maxCount (i_tag item) (delta_ref isFirstMap (Some item) None))
                    else if negb (bool_decide (i_data item = i_data other)) then
                      next true (record differences maxCount (i_tag item) (delta_ref isFirstMap (Some item) (Some other)))
                    else next true (true, differences, maxCount)
                | None => next emptyBranch (record differences maxCount (i_tag item) (delta_ref isFirstMap (Some item) None))
                end
            end
      end
  end.

Definition walkBranch (fuel : nat) (h : heap) (node : loc) (otherMapItem : option SHAMapItem) (isFirstMap : bool)
    (differences : Delta) (maxCount : Z) : result (bool * Delta * Z) :=
  walkBranch_loop fuel h otherMapItem isFirstMap [node] (match otherMapItem with Some _ => false | None => true end) differences maxCount.

(** The branches of two inner nodes *)
Fixpoint compare_branches (fuel : nat) (h : heap) (ourNode otherNode : TreeNode) (order : list Z)
    (nodeStack : list (loc * loc)) (differences : Delta) (maxCount : Z) : result (bool * list (loc * loc) * Delta * Z) :=
  match order with
  | [] => Ok (true, nodeStack, differences, maxCount)
  | i :: order =>
      if negb (getChildHash ourNode i =? getChildHash otherNode i) then
        if isEmptyBranch otherNode i then
          iNode ← descendThrow ourNode i;
          '(go, differences, maxCount) ← walkBranch fuel h iNode None true differences maxCount;
          if go : bool then compare_branches fuel h ourNode otherNode order nodeStack differences maxCount
          else Ok (false, nodeStack, differences, maxCount)
        else if isEmptyBranch ourNode i then
          iNode ← descendThrow otherNode i;
          '(go, differences, maxCount) ← walkBranch fuel h iNode None false differences maxCount;
          if go : bool then compare_branches fuel h ourNode otherNode order nodeStack differences maxCount
          else Ok (false, nodeStack, differences, maxCount)
        else
          our ← descendThrow ourNode i;
          other ← descendThrow otherNode i;
          compare_branches fuel h ourNode otherNode order ((our, other) :: nodeStack) differences maxCount
      else compare_branches fuel h ourNode otherNode order nodeStack differences maxCount
  end.

Definition the_item (n : TreeNode) : result SHAMapItem :=
  match mItem n with Some item => Ok item | None => Throw null_pointer end.

(** One pair of nodes: whether to go on, and the pairs that are left *)
Definition compare_pair (fuel : nat) (h : heap) (ourNode otherNode : loc) (nodeStack : list (loc * loc))
    (differences : Delta) (maxCount : Z) : result (bool * list (loc * loc) * Delta * Z) :=
  our ← deref h ourNode;
  other ← deref h otherNode;
  if isLeaf our && isLeaf other then
    our ← the_item our;
    other ← the_item other;
    if i_tag our =? i_tag other then
      if negb (bool_decide (i_data our = i_data other)) then
        let '(go, differences, maxCount) := record differences maxCount (i_tag our) (Some our, Some other) in
        Ok (go, nodeStack, differences, maxCount)
      else Ok (true, nodeStack, differences, maxCount)
    else
      let '(go, differences, maxCount) := record differences maxCount (i_tag our) (Some our, None) in
      if go : bool then
        let '(go, differences, maxCount) := record differences maxCount (i_tag other) (None, Some other) in
        Ok (go, nodeStack, differences, maxCount)
      else Ok (false, nodeStack, differences, maxCount)
  else if isInner our && isLeaf other then
    item ← the_item other;
    '(go, differences, maxCount) ← walkBranch fuel h ourNode (Some item) true differences maxCount;
    Ok (go, nodeStack, differences, maxCount)
  else if isLeaf our && isInner other then
    item ← the_item our;
    '(go, differences, maxCount) ← walkBranch fuel h otherNode (Some item) false differences maxCount;
    Ok (go, nodeStack, differences, maxCount)
  else if isInner our && isInner other then compare_branches fuel h our other branches16 nodeStack differences maxCount
  else Ok (true, nodeStack, differences, maxCount).

Fixpoint compare_loop (fuel wfuel : nat) (h : heap) (nodeStack : list (loc * loc)) (differences : Delta) (maxCount : Z)
    : result (bool * Delta * Z) :=
  match fuel with
  | O => Throw out_of_fuel
  | S fuel =>
      match nodeStack with
      | [] => Ok (true, differences, maxCount)
      | (ourNode, otherNode) :: nodeStack =>
          '(go, nodeStack, differences, maxCount) ← compare_pair wfuel h ourNode otherNode nodeStack differences maxCount;
          if go : bool then compare_loop fuel wfuel h nodeStack differences maxCount else Ok (false, differences, maxCount)
      end
  end.

(** [compare], which computes the hashes that are out of date: the answer, the table, and the maps
    and the heap after it *)
Definition compare (sha512half : blob → Z) (fuel : nat) (m otherMap : SHAMap) (h : heap) (differences : Delta) (maxCount : Z)
    : result (bool * Delta * SHAMap * SHAMap * heap) :=
  '(ours, m, h) ← getHash sha512half m h;
  '(others, otherMap, h) ← getHash sha512half otherMap h;
  if ours =? others then Ok (true, differences, m, otherMap, h)
  else
    '(complete, differences, _) ← compare_loop fuel fuel h [(m_root m, m_root otherMap)] differences maxCount;
    Ok (complete, differences, m, otherMap, h).

(** ** Lists of differences *)

(** The differences of two contents, as a list without repetitions *)
Definition entry (k : Z) (x y : option blob) : DeltaRef := (mkItem k <$> x, mkItem k <$> y).

Record enum (E : list (Z * DeltaRef)) (X Y : content) : Prop := {
  en_nodup : NoDup E.*1;
  en_in : ∀ k p, (k, p) ∈ E ↔ X !! k ≠ Y !! k ∧ p = entry k (X !! k) (Y !! k)
}.

(** Entering them into the table, one after the other *)
Fixpoint feed (E : list (Z * DeltaRef)) (d : Delta) (c : Z) : bool * Delta * Z :=
  match E with
  | [] => (true, d, c)
  | (k, p) :: E => let '(go, d, c) := record d c k p in if go : bool then feed E d c else (false, d, c)
  end.

Lemma feed_app E E' d c : feed (E ++ E') d c = let '(go, d, c) := feed E d c in if go : bool then feed E' d c else (false, d, c).
Proof.
  revert d c. induction E as [|[k p] E IH]; intros d c; [done|]. cbn [app feed].
  destruct (record d c k p) as [[[] d'] c']; [apply IH|done].
Qed.

Lemma enum_same X : enum [] X X.
Proof. split; [constructor|]. intros k p. rewrite elem_of_nil. tauto. Qed.

Lemma enum_one k x y : x ≠ y →
  enum [(k, entry k x y)] (match x with Some v => {[k := v]} | None => ∅ end) (match y with Some v => {[k := v]} | None => ∅ end).
Proof.
  intros Hne. assert (∀ (z : option blob) k', (match z with Some v => {[k := v]} | None => ∅ end : content) !! k' = if decide (k' = k) then z else None) as Hl.
  { intros z k'. destruct z; case_decide; subst; rewrite ?lookup_singleton_eq, ?lookup_empty; try done. by rewrite lookup_singleton_ne. }
  split; [apply NoDup_singleton|]. intros k' p. rewrite list_elem_of_singleton, !Hl. case_decide; [subst|].
  - split; [by intros [= ->]|by intros [_ ->]].
  - split; [by intros [= -> _]|by intros [? _]].
Qed.

(** The digits of a content, and the differences of two contents that share none *)
Lemma enum_app E1 E2 X1 X2 Y1 Y2 :
  enum E1 X1 Y1 → enum E2 X2 Y2 → (∀ k, (X1 !! k = None ∧ Y1 !! k = None) ∨ (X2 !! k = None ∧ Y2 !! k = None)) →
  enum (E1 ++ E2) (X1 ∪ X2) (Y1 ∪ Y2).
Proof.
  intros [Hn1 He1] [Hn2 He2] Hd.
  assert (∀ k, ((X1 ∪ X2) !! k = X1 !! k ∧ (Y1 ∪ Y2) !! k = Y1 !! k ∧ X2 !! k = Y2 !! k)
    ∨ ((X1 ∪ X2) !! k = X2 !! k ∧ (Y1 ∪ Y2) !! k = Y2 !! k ∧ X1 !! k = Y1 !! k)) as Hu.
  { intros k. rewrite !lookup_union. destruct (Hd k) as [[-> ->]|[-> ->]]; [right|left]; rewrite ?(left_id None union), ?(right_id None union); done. }
  split.
  - rewrite fmap_app. apply NoDup_app. split; [done|]. split; [|done].
    intros k [[k1 p1] [-> H1]]%list_elem_of_fmap [[k2 p2] [Hk H2]]%list_elem_of_fmap. cbn [fst] in Hk. subst k2.
    apply He1 in H1 as [H1 _]. apply He2 in H2 as [H2 _]. cbn [fst] in *. destruct (Hd k1) as [[Ha Hb]|[Ha Hb]]; congruence.
  - intros k p. rewrite elem_of_app, He1, He2. destruct (Hu k) as [(-> & -> & Hs)|(-> & -> & Hs)]; naive_solver.
Qed.

(** Seen from the other map *)
Definition side (isFirstMap : bool) (E : list (Z * DeltaRef)) (X Y : content) : Prop := if isFirstMap then enum E X Y else enum E Y X.

Lemma side_app b E1 E2 X1 X2 Y1 Y2 :
  side b E1 X1 Y1 → side b E2 X2 Y2 → (∀ k, (X1 !! k = None ∧ Y1 !! k = None) ∨ (X2 !! k = None ∧ Y2 !! k = None)) →
  side b (E1 ++ E2) (X1 ∪ X2) (Y1 ∪ Y2).
Proof. intros H1 H2 H. destruct b; cbn [side] in *; apply enum_app; try done. intros k. specialize (H k). tauto. Qed.

Lemma side_one b k x y : x ≠ y →
  side b [(k, delta_ref b (mkItem k <$> x) (mkItem k <$> y))] (match x with Some v => {[k := v]} | None => ∅ end) (match y with Some v => {[k := v]} | None => ∅ end).
Proof. intros H. destruct b; cbn [side delta_ref]; by apply (enum_one k _ _). Qed.

Lemma side_same b X : side b [] X X.
Proof. destruct b; apply enum_same. Qed.

(** What the table holds in the end *)
Lemma feed_table E d c :
  NoDup E.*1 → (∀ k, k ∈ E.*1 → d !! k = None) → 1 <= c →
  feed E d c = if decide (Z.of_nat (length E) < c) then (true, list_to_map E ∪ d, c - Z.of_nat (length E))
               else (false, list_to_map (take (Z.to_nat c) E) ∪ d, 0).
Proof.
  revert d c. induction E as [|[k p] E IH]; intros d c Hn Hd Hc; cbn [feed].
  - rewrite decide_True by (simpl; lia). rewrite list_to_map_nil, (left_id ∅ union). f_equal. simpl. lia.
  - inversion_clear Hn as [|? ? Hk Hn']. unfold record. rewrite (Hd k) by constructor.
    assert (∀ l, k ∉ l.*1 → list_to_map l ∪ <[k := p]> d = list_to_map ((k, p) :: l) ∪ d) as Hmv.
    { intros l Hl. rewrite list_to_map_cons, <- insert_union_l, <- insert_union_r; [done|]. by apply not_elem_of_list_to_map_1. }
    destruct (Z.leb_spec (c - 1) 0); cbn [negb].
    + rewrite decide_False by (simpl; lia). replace (Z.to_nat c) with 1%nat by lia. cbn [take]. rewrite take_0, <- Hmv by (simpl; apply not_elem_of_nil).
      rewrite list_to_map_nil, (left_id ∅ union). f_equal. lia.
    + rewrite IH; [|done| |lia].
      * cbn [length]. rewrite Nat2Z.inj_succ. destruct (decide (Z.of_nat (length E) < c - 1)).
        -- rewrite decide_True by lia. rewrite Hmv by done. f_equal. lia.
        -- rewrite decide_False by lia. replace (Z.to_nat c) with (S (Z.to_nat (c - 1))) by lia. cbn [take]. rewrite Hmv; [done|].
           intros Hin. apply Hk. rewrite <- (take_drop (Z.to_nat (c - 1)) E), fmap_app. apply elem_of_app. by left.
      * intros k' Hk'. rewrite lookup_insert_ne by (intros ->; done). apply Hd. by constructor.
Qed.

(** ** Some digits of a content *)

Definition parts (n : nat) (order : list Z) (X : content) : content := filter (λ kv, dig n kv.1 ∈ order) X.

Lemma lookup_parts n order X k : parts n order X !! k = if decide (dig n k ∈ order) then X !! k else None.
Proof.
  unfold parts. destruct (decide (dig n k ∈ order)) as [Hd|Hd].
  - destruct (X !! k) as [v|] eqn:Hk; [by apply map_lookup_filter_Some_2|]. apply map_lookup_filter_None_2. by left.
  - apply map_lookup_filter_None_2. right. by intros v _.
Qed.

Lemma parts_nil n X : parts n [] X = ∅.
Proof. apply map_empty. intros k. rewrite lookup_parts, decide_False by apply not_elem_of_nil. done. Qed.

Lemma parts_cons n i order X : parts n (i :: order) X = part n i X ∪ parts n order X.
Proof.
  apply map_eq. intros k. rewrite lookup_union, lookup_part, !lookup_parts. destruct (decide (dig n k = i)) as [->|Hne].
  - rewrite decide_True by constructor. destruct (decide (i ∈ order)), (X !! k); done.
  - rewrite (left_id None union). destruct (decide (dig n k ∈ order)).
    + by rewrite decide_True by by constructor.
    + by rewrite decide_False by (rewrite elem_of_cons; tauto).
Qed.

Lemma parts_cons_disjoint n i order X : i ∉ order → part n i X ##ₘ parts n order X.
Proof.
  intros Hi. apply map_disjoint_spec. intros k v w Hk Hk'. rewrite lookup_part in Hk. rewrite lookup_parts in Hk'.
  destruct (decide (dig n k = i)) as [Hd|]; [|done]. destruct (decide (dig n k ∈ order)); [|done]. by rewrite Hd in *.
Qed.

Lemma parts_all n order X : (∀ i, 0 <= i < 16 → i ∈ order) → parts n order X = X.
Proof. intros H. apply map_eq. intros k. rewrite lookup_parts, decide_True; [done|]. apply H, dig_range. Qed.

Lemma size_parts_cons n i order X : i ∉ order → size (parts n (i :: order) X) = (size (part n i X) + size (parts n order X))%nat.
Proof. intros Hi. rewrite parts_cons. apply map_size_disj_union, parts_cons_disjoint, Hi. Qed.

Lemma nonempty_size (X : content) : X ≠ ∅ → (1 <= size X)%nat.
Proof. intros H. destruct (size X) eqn:Hs; [|lia]. by apply map_size_empty_inv in Hs. Qed.

Section delta.
  Context (sha512half : blob → Z) (ty : TNType).
  Hypothesis ty_leaf : ty ≠ tnERROR ∧ ty ≠ tnINNER.

Notation leaf_node := (leaf_node sha512half ty).
Notation inner_node := (inner_node sha512half ty).
Notation rep := (rep sha512half ty).
Notation root_rep := (root_rep sha512half ty).
Notation mhash := (mhash sha512half ty).
Notation root_hash := (root_hash sha512half ty).
Notation hashed := (hashed sha512half ty).

(** The children of a node, in some order *)
Definition kids (nd : TreeNode) (order : list Z) : list loc := omap (getChild nd) order.

Lemma push_branches_spec R n h nd X order : ∀ st,
  inner_node R n h nd X → (∀ i, i ∈ order → 0 <= i < 16) → push_branches nd order st = Ok (reverse (kids nd order) ++ st).
Proof.
  induction order as [|i order IH]; intros st Hin Hi; [done|]. cbn [push_branches kids omap list_omap].
  rewrite (in_branch _ _ _ _ _ _ _ Hin) by (apply Hi; constructor). unfold descendThrow. destruct (getChild nd i) as [c|] eqn:Hc.
  - rewrite bool_decide_eq_false_2 by done. rewrite bind_Ok, IH; [|done|intros; apply Hi; by constructor].
    rewrite reverse_cons, <- app_assoc. done.
  - rewrite bool_decide_eq_true_2 by done. apply IH; [done|intros; apply Hi; by constructor].
Qed.

Lemma kids_reverse nd order : reverse (kids nd order) = kids nd (reverse order).
Proof.
  induction order as [|i order IH]; [done|]. rewrite reverse_cons. unfold kids in *. rewrite omap_app. cbn [omap list_omap].
  destruct (getChild nd i); [rewrite reverse_cons, IH; done|by rewrite app_nil_r].
Qed.

(** ** [walkBranch] *)

Section walk_branch.
  Context (h : heap) (other : option SHAMapItem) (b : bool).

(** The item of the other map, as long as it is not matched, where it belongs below a node *)
Definition other_part (eb : bool) (X : content) : content :=
  match if eb then None else other with
  | Some o => if decide (is_Some (X !! i_tag o)) then {[i_tag o := i_data o]} else ∅
  | None => ∅
  end.

(** Whether it is matched after that node *)
Definition after (eb : bool) (X : content) : bool :=
  match if eb then None else other with Some o => bool_decide (is_Some (X !! i_tag o)) | None => eb end.

Lemma other_part_dom eb X k : X !! k = None → other_part eb X !! k = None.
Proof.
  intros Hk. unfold other_part. destruct (if eb then None else other) as [o|]; [|done]. case_decide as Ho; [|done].
  destruct (decide (k = i_tag o)) as [->|]; [rewrite Hk in Ho; by destruct Ho|]. by rewrite lookup_singleton_ne.
Qed.

Lemma other_part_union eb X1 X2 : X1 ##ₘ X2 → other_part eb (X1 ∪ X2) = other_part eb X1 ∪ other_part (after eb X1) X2.
Proof.
  intros Hd. unfold after. unfold other_part at 1 2. destruct eb; [done|]. destruct other as [o|] eqn:Ho; [|unfold other_part; by rewrite Ho].
  assert (is_Some ((X1 ∪ X2) !! i_tag o) ↔ is_Some (X1 !! i_tag o) ∨ is_Some (X2 !! i_tag o)) as Hiff by by rewrite lookup_union_is_Some.
  destruct (decide (is_Some (X1 !! i_tag o))) as [H1|H1].
  - rewrite bool_decide_eq_true_2 by done. rewrite decide_True by tauto. unfold other_part. by rewrite (right_id ∅ union).
  - rewrite bool_decide_eq_false_2 by done. rewrite (left_id ∅ union). unfold other_part. rewrite Ho.
    destruct (decide (is_Some (X2 !! i_tag o))); [by rewrite decide_True by tauto|by rewrite decide_False by tauto].
Qed.

Lemma after_union eb X1 X2 : after eb (X1 ∪ X2) = after (after eb X1) X2.
Proof.
  unfold after. destruct eb; [done|]. destruct other as [o|] eqn:Ho; [|done].
  assert (is_Some ((X1 ∪ X2) !! i_tag o) ↔ is_Some (X1 !! i_tag o) ∨ is_Some (X2 !! i_tag o)) as Hiff by by rewrite lookup_union_is_Some.
  destruct (decide (is_Some (X1 !! i_tag o))) as [H1|H1].
  - rewrite !bool_decide_eq_true_2 by tauto. done.
  - rewrite (bool_decide_eq_false_2 _ H1). by apply bool_decide_ext; tauto.
Qed.

Notation loop := (λ fuel st eb d c, walkBranch_loop fuel h other b st eb d c).

(** What the loop does with some nodes of the stack that stand for [X] *)
Definition walked (ls : list loc) (X : content) (cost : nat) (eb : bool) : Prop :=
  ∃ k E, (k <= cost)%nat ∧ side b E X (other_part eb X) ∧
    ∀ fuel st d c, loop (k + fuel)%nat (ls ++ st) eb d c
      = let '(go, d, c) := feed E d c in if go : bool then loop fuel st (after eb X) d c else Ok (false, d, c).

Lemma walked_app ls1 ls2 X1 X2 k1 k2 eb :
  X1 ##ₘ X2 → walked ls1 X1 k1 eb → walked ls2 X2 k2 (after eb X1) → walked (ls1 ++ ls2) (X1 ∪ X2) (k1 + k2) eb.
Proof.
  intros Hd (c1 & E1 & Hc1 & HE1 & H1) (c2 & E2 & Hc2 & HE2 & H2). exists (c1 + c2)%nat, (E1 ++ E2). split; [lia|]. split.
  - rewrite other_part_union by done. apply side_app; [done..|]. intros k. destruct (X1 !! k) as [v|] eqn:Hk.
    + right. assert (X2 !! k = None) as Hk2 by by eapply map_disjoint_Some_l. split; [done|]. by apply other_part_dom.
    + left. split; [done|]. by apply other_part_dom.
  - intros fuel st d c. rewrite <- app_assoc, <- Nat.add_assoc, H1, feed_app. destruct (feed E1 d c) as [[[] d1] c1']; [|done].
    rewrite H2, after_union. done.
Qed.

Lemma walked_leaf l nd k v eb : h !! l = Some nd → leaf_node nd k v → walked [l] {[k := v]} 1 eb.
Proof.
  intros Hl Hleaf. destruct (leaf_isLeaf _ _ ty_leaf _ _ _ Hleaf) as (_ & Hi & _). unfold walked, other_part, after.
  assert (∀ fuel st d c, walkBranch_loop (1 + fuel) h other b ([l] ++ st) eb d c
    = match if eb then None else other with
      | Some o => if negb (k =? i_tag o) then
           let '(go, d, c) := record d c k (delta_ref b (Some (mkItem k v)) None) in if go : bool then loop fuel st eb d c else Ok (false, d, c)
         else if negb (bool_decide (v = i_data o)) then
           let '(go, d, c) := record d c k (delta_ref b (Some (mkItem k v)) (Some o)) in if go : bool then loop fuel st true d c else Ok (false, d, c)
         else loop fuel st true d c
      | None => let '(go, d, c) := record d c k (delta_ref b (Some (mkItem k v)) None) in if go : bool then loop fuel st eb d c else Ok (false, d, c)
      end) as Hstep.
  { intros fuel st d c. cbn [walkBranch_loop Nat.add app]. rewrite (deref_Ok _ _ _ Hl), bind_Ok, Hi, (ln_item _ _ _ _ _ Hleaf). cbv beta iota zeta.
    cbn [i_tag i_data]. done. }
  destruct (if eb then None else other) as [[k' v']|] eqn:Ho; cbn [i_tag i_data] in *.
  - destruct (Z.eqb_spec k k') as [<-|Hk]; cbn [negb] in Hstep.
    + rewrite lookup_singleton_eq, decide_True, bool_decide_eq_true_2 by done.
      destruct (decide (v = v')) as [<-|Hv].
      * exists 1%nat, []. split; [done|]. split; [apply side_same|]. intros. rewrite Hstep, bool_decide_eq_true_2 by done. done.
      * exists 1%nat, [(k, delta_ref b (Some (mkItem k v)) (Some (mkItem k v')))]. split; [done|].
        split; [apply (side_one b k (Some v) (Some v')); congruence|].
        intros. rewrite Hstep, bool_decide_eq_false_2 by done. cbn [negb feed]. by destruct (record d c k _) as [[[] ?] ?].
    + rewrite lookup_singleton_ne, decide_False, bool_decide_eq_false_2 by (done || by intros [? ?]).
      exists 1%nat, [(k, delta_ref b (Some (mkItem k v)) None)]. split; [done|]. split; [by apply (side_one b k (Some v) None)|].
      intros. rewrite Hstep. cbn [feed]. destruct eb; [done|]. by destruct (record d c k _) as [[[] ?] ?].
  - exists 1%nat, [(k, delta_ref b (Some (mkItem k v)) None)]. split; [done|]. split; [by apply (side_one b k (Some v) None)|].
    intros. rewrite Hstep. cbn [feed]. by destruct (record d c k _) as [[[] ?] ?].
Qed.

(** The children of an inner node *)
Lemma walked_kids n nd X order : ∀ eb,
  (∀ l Y eb, rep n h l Y → walked [l] Y (S n * size Y) eb) →
  inner_node (rep n h) n h nd X → (∀ i, i ∈ order → 0 <= i < 16) → NoDup order →
  walked (kids nd order) (parts n order X) (S n * size (parts n order X)) eb.
Proof.
  induction order as [|i order IH]; intros eb Hch Hin Hi Hnd.
  - exists 0%nat, []. rewrite parts_nil. split; [lia|].
    assert (∀ k, ¬ is_Some ((∅ : content) !! k)) as Hno by (intros k; rewrite lookup_empty; by intros []).
    unfold other_part, after. destruct eb; [split; [apply side_same|done]|]. destruct other as [o|]; [|split; [apply side_same|done]].
    rewrite decide_False, bool_decide_eq_false_2 by apply Hno. split; [apply side_same|done].
  - inversion_clear Hnd as [|? ? Hni Hnd']. rewrite size_parts_cons, Nat.mul_add_distr_l, parts_cons by done.
    assert (0 <= i < 16) as Hi' by (apply Hi; constructor). cbn [kids omap list_omap].
    assert (∀ eb, walked (kids nd order) (parts n order X) (S n * size (parts n order X)) eb) as Hrest.
    { intros eb'. apply IH; [done|done|intros; apply Hi; by constructor|done]. }
    destruct (getChild nd i) as [c|] eqn:Hc.
    + apply (walked_app [c]); [by apply parts_cons_disjoint|apply Hch, (in_child _ _ _ _ _ _ _ Hin i c Hi' Hc)|done].
    + destruct (in_empty _ _ _ _ _ _ _ Hin i Hi' Hc) as [-> _]. rewrite (left_id ∅ union), map_size_empty, Nat.mul_0_r. apply Hrest.
Qed.

Lemma walked_inner n l nd X eb :
  (∀ l Y eb, rep n h l Y → walked [l] Y (S n * size Y) eb) →
  h !! l = Some nd → inner_node (rep n h) n h nd X → walked [l] X (S (S n * size X)) eb.
Proof.
  intros Hch Hl Hin.
  destruct (walked_kids n nd X (reverse branches16) eb Hch Hin) as (k & E & Hk & HE & Hw).
  { intros i. rewrite elem_of_reverse. apply branches16_in. }
  { rewrite reverse_Permutation. apply branches16_NoDup. }
  rewrite (parts_all n (reverse branches16)) in Hk, HE, Hw by (intros i Hi; by apply elem_of_reverse, branches16_in).
  exists (S k), E. split; [lia|]. split; [done|]. intros fuel st d c. cbn [Nat.add walkBranch_loop app].
  rewrite (deref_Ok _ _ _ Hl), bind_Ok. destruct (inner_isInner _ _ _ _ _ _ _ Hin) as (_ & -> & _).
  rewrite (push_branches_spec _ _ _ _ _ _ _ Hin) by (intros i; apply branches16_in). rewrite bind_Ok, kids_reverse. apply Hw.
Qed.

Lemma walked_node n : ∀ l X eb, rep n h l X → walked [l] X (S n * size X) eb.
Proof.
  induction n as [|n IH]; intros l X eb Hr; pose proof (nonempty_size _ (rep_nonempty _ _ _ _ _ _ Hr)) as Hs;
    destruct Hr as (nd & Hl & [(k & v & -> & Hleaf)|Hin]); [|done| |].
  1,2: destruct (walked_leaf l nd k v eb Hl Hleaf) as (c & E & Hc & H); exists c, E; split; [lia|done].
  destruct Hin as [_ Hin]. destruct (walked_inner n l nd X eb IH Hl Hin) as (c & E & Hc & H). exists c, E. split; [lia|done].
Qed.
End walk_branch.

(** The other side: its item, or nothing *)
Definition other_content (other : option SHAMapItem) : content :=
  match other with Some o => {[i_tag o := i_data o]} | None => ∅ end.

Lemma walked_branch h other b l X cost fuel :
  walked h other b [l] X cost (match other with Some _ => false | None => true end) → (S cost <= fuel)%nat →
  ∃ E, side b E X (other_content other) ∧ ∀ d c, walkBranch fuel h l other b d c = Ok (feed E d c).
Proof.
  intros (k & E & Hk & HE & Hw) Hf. unfold walkBranch. replace fuel with (k + S (fuel - k - 1))%nat by lia.
  change [l] with ([l] ++ []). unfold other_part, after in *. destruct other as [[t v]|]; cbn [other_content i_tag i_data] in *.
  - case_decide as Ht.
    + rewrite bool_decide_eq_true_2 in Hw by done. exists E. split; [done|]. intros d c. rewrite Hw. by destruct (feed E d c) as [[[] ?] ?].
    + rewrite bool_decide_eq_false_2 in Hw by done. exists (E ++ [(t, delta_ref b None (Some (mkItem t v)))]). split.
      * rewrite <- (right_id ∅ union X), <- (left_id ∅ union {[t := v]}). apply side_app; [done|by apply (side_one b t None (Some v))|].
        intros k'. rewrite !lookup_empty. destruct (decide (k' = t)) as [->|].
        -- left. split; [by apply eq_None_not_Some|done].
        -- right. by rewrite lookup_singleton_ne.
      * intros d c. rewrite Hw, feed_app. destruct (feed E d c) as [[[] d'] c']; [|done]. cbn [walkBranch_loop feed i_tag].
        by destruct (record d' c' t _) as [[[] ?] ?].
  - exists E. split; [done|]. intros d c. rewrite Hw. by destruct (feed E d c) as [[[] ?] ?].
Qed.

(** ** [compare] *)

Section pairs.
  Context (h : heap) (L : list blob) (wfuel : nat).
  Hypothesis L_free : collision_free sha512half L.

(** What is known of a node of one of the trees: its hash is up to date. *)
Record known (n : nat) (l : loc) (X : content) : Prop := {
  kn_rep : rep n h l X;
  kn_hash : hash_at h l = mhash n X;
  kn_agree : agree n X;
  kn_proper : proper sha512half ty X;
  kn_hashed : hashed n X ⊆ L;
  kn_fuel : (S (S n * size X) <= wfuel)%nat
}.

(** An inner node: the tree below is known, but it may be the root. *)
Record known_inner (n : nat) (nd : TreeNode) (X : content) : Prop := {
  ki_inner : inner_node (rep n h) n h nd X;
  ki_hash : mHash nd ≠ 0 ∨ X = ∅;
  ki_agree : agree (S n) X;
  ki_proper : proper sha512half ty X;
  ki_hashed : ∀ i, 0 <= i < 16 → hashed n (part n i X) ⊆ L;
  ki_fuel : (S (S n * size X) <= wfuel)%nat
}.

Lemma part_size n i X : (size (part n i X) <= size X)%nat.
Proof. apply map_subseteq_size, part_subseteq. Qed.

Lemma ki_child n nd X i c : known_inner n nd X → 0 <= i < 16 → getChild nd i = Some c → known n c (part n i X).
Proof.
  intros [Hin Hh Ha Hp HL Hf] Hi Hc. destruct (in_child _ _ _ _ _ _ _ Hin i c Hi Hc) as (Hne & Hr & Hch).
  destruct Hh as [Hh| ->]; [|by rewrite part_empty in Hne]. split; [done|by apply Hch|by apply agree_part|by apply proper_part|by apply HL|]. pose proof (part_size n i X). nia.
Qed.

Lemma ki_childHash n nd X i : known_inner n nd X → 0 <= i < 16 → getChildHash nd i = mhash n (part n i X).
Proof.
  intros [Hin Hh _ _ _ _] Hi. destruct (getChild nd i) as [c|] eqn:Hc.
  - destruct (in_child _ _ _ _ _ _ _ Hin i c Hi Hc) as (Hne & _ & Hch). destruct Hh as [Hh| ->]; [by apply Hch|by rewrite part_empty in Hne].
  - destruct (in_empty _ _ _ _ _ _ _ Hin i Hi Hc) as [-> ->]. by rewrite mhash_empty.
Qed.

(** Branches with the same hash have the same items. *)
Lemma ki_same n nd nd' X Y i :
  known_inner n nd X → known_inner n nd' Y → 0 <= i < 16 → getChildHash nd i = getChildHash nd' i → part n i X = part n i Y.
Proof.
  intros HX HY Hi H. rewrite (ki_childHash _ _ _ _ HX Hi), (ki_childHash _ _ _ _ HY Hi) in H.
  eapply (mhash_inj sha512half ty ty_leaf L n); [by apply agree_part, (ki_agree _ _ _ HX)|by apply agree_part, (ki_agree _ _ _ HY)| | |done
    |by apply (ki_hashed _ _ _ HX)|by apply (ki_hashed _ _ _ HY)|done]; apply proper_part; [apply (ki_proper _ _ _ HX)|apply (ki_proper _ _ _ HY)].
Qed.

(** The branches that are put off: both sides have one, and they differ. *)
Definition later (nd nd' : TreeNode) (i : Z) : bool :=
  negb (getChildHash nd i =? getChildHash nd' i) && negb (isEmptyBranch nd' i) && negb (isEmptyBranch nd i).

Definition pairs (nd nd' : TreeNode) (order : list Z) : list (loc * loc) :=
  omap (λ i, match getChild nd i, getChild nd' i with Some c, Some c' => Some (c, c') | _, _ => None end) order.

(** One branch that is not put off *)
Lemma compare_now n nd nd' X Y i :
  known_inner n nd X → known_inner n nd' Y → 0 <= i < 16 → later nd nd' i = false →
  ∃ E, enum E (part n i X) (part n i Y) ∧
    ∀ order st d c, compare_branches wfuel h nd nd' (i :: order) st d c
    = let '(go, d, c) := feed E d c in if go : bool then compare_branches wfuel h nd nd' order st d c else Ok (false, st, d, c).
Proof.
  intros HX HY Hi Hl. cbn [compare_branches]. destruct (Z.eqb_spec (getChildHash nd i) (getChildHash nd' i)) as [Heq|Hne]; cbn [negb].
  { exists []. rewrite (ki_same _ _ _ _ _ _ HX HY Hi Heq). split; [apply enum_same|done]. }
  unfold later in Hl. rewrite (proj2 (Z.eqb_neq _ _) Hne) in Hl. cbn [negb andb] in Hl.
  pose proof (ki_inner _ _ _ HX) as Hin. pose proof (ki_inner _ _ _ HY) as Hin'.
  rewrite (in_branch _ _ _ _ _ _ _ Hin i Hi), (in_branch _ _ _ _ _ _ _ Hin' i Hi) in *.
  assert (∀ b l Z, known n l Z → ∃ E, side b E Z ∅ ∧ ∀ d c, walkBranch wfuel h l None b d c = Ok (feed E d c)) as Hw.
  { intros b l Z HZ. eapply (walked_branch h None b l Z (S n * size Z)); [by apply walked_node, (kn_rep _ _ _ HZ)|apply (kn_fuel _ _ _ HZ)]. }
  unfold descendThrow. destruct (getChild nd' i) as [c'|] eqn:Hc', (getChild nd i) as [c0|] eqn:Hc; 
    try done; repeat first [rewrite bool_decide_eq_true_2 by done|rewrite bool_decide_eq_false_2 by done];
    repeat first [rewrite bool_decide_eq_true_2 in Hl by done|rewrite bool_decide_eq_false_2 in Hl by done]; cbn [negb andb] in *; try done.
  - destruct (Hw false c' _ (ki_child _ _ _ _ _ HY Hi Hc')) as (E & HE & Hwb). exists E.
    rewrite (proj1 (in_empty _ _ _ _ _ _ _ Hin i Hi Hc)). split; [done|]. intros order st d c. rewrite bind_Ok, Hwb, bind_Ok.
    by destruct (feed E d c) as [[[] ?] ?].
  - destruct (Hw true c0 _ (ki_child _ _ _ _ _ HX Hi Hc)) as (E & HE & Hwb). exists E.
    rewrite (proj1 (in_empty _ _ _ _ _ _ _ Hin' i Hi Hc')). split; [done|]. intros order st d c. rewrite bind_Ok, Hwb, bind_Ok.
    by destruct (feed E d c) as [[[] ?] ?].
  - destruct Hne. by rewrite (proj2 (in_empty _ _ _ _ _ _ _ Hin i Hi Hc)), (proj2 (in_empty _ _ _ _ _ _ _ Hin' i Hi Hc')).
Qed.

Lemma pairs_reverse nd nd' order : reverse (pairs nd nd' order) = pairs nd nd' (reverse order).
Proof.
  induction order as [|i order IH]; [done|]. rewrite reverse_cons. unfold pairs in *. rewrite omap_app. cbn [omap list_omap].
  destruct (getChild nd i), (getChild nd' i); rewrite ?app_nil_r; [rewrite reverse_cons, IH; done|done..].
Qed.

Lemma enum_parts E1 E2 n o1 o2 X Y :
  enum E1 (parts n o1 X) (parts n o1 Y) → enum E2 (parts n o2 X) (parts n o2 Y) → (∀ i, i ∈ o1 → i ∉ o2) →
  enum (E1 ++ E2) (parts n (o1 ++ o2) X) (parts n (o1 ++ o2) Y).
Proof.
  intros H1 H2 Hd.
  assert (∀ Z : content, parts n (o1 ++ o2) Z = parts n o1 Z ∪ parts n o2 Z) as Hu.
  { intros Z. apply map_eq. intros k. rewrite lookup_union, !lookup_parts. destruct (decide (dig n k ∈ o1)) as [Hk|Hk].
    - rewrite decide_True by (apply elem_of_app; by left). rewrite decide_False by by apply Hd. by rewrite (right_id None union).
    - rewrite (left_id None union). destruct (decide (dig n k ∈ o2)); [rewrite decide_True|rewrite decide_False]; rewrite ?elem_of_app; tauto. }
  rewrite !Hu. apply enum_app; [done..|]. intros k. rewrite !lookup_parts. destruct (decide (dig n k ∈ o1)) as [H|]; [right|by left].
  destruct (decide (dig n k ∈ o2)) as [H'|]; [|done]. by destruct (Hd _ H).
Qed.

Lemma enum_part E1 E2 n i order X Y :
  enum E1 (part n i X) (part n i Y) → enum E2 (parts n order X) (parts n order Y) → i ∉ order →
  enum (E1 ++ E2) (parts n (i :: order) X) (parts n (i :: order) Y).
Proof.
  intros H1 H2 Hi. assert (∀ Z : content, parts n [i] Z = part n i Z) as Hs by (intros Z; by rewrite parts_cons, parts_nil, (right_id ∅ union)).
  apply (enum_parts E1 E2 n [i] order); [by rewrite !Hs|done|]. intros j ->%list_elem_of_singleton. done.
Qed.

Notation later_in nd nd' order := (filter (λ i, later nd nd' i = true) order).
Notation now_in nd nd' order := (filter (λ i, later nd nd' i = false) order).

Lemma pairs_later nd nd' X Y n i :
  known_inner n nd X → known_inner n nd' Y → 0 <= i < 16 → later nd nd' i = true →
  ∃ c c', getChild nd i = Some c ∧ getChild nd' i = Some c'.
Proof.
  intros HX HY Hi Hl. unfold later in Hl. apply andb_true_iff in Hl as [[_ H2%negb_true_iff]%andb_true_iff H1%negb_true_iff].
  rewrite (in_branch _ _ _ _ _ _ _ (ki_inner _ _ _ HX) i Hi) in H1. rewrite (in_branch _ _ _ _ _ _ _ (ki_inner _ _ _ HY) i Hi) in H2.
  apply bool_decide_eq_false in H1, H2. destruct (getChild nd i), (getChild nd' i); eauto; done.
Qed.

Lemma compare_branches_spec n nd nd' X Y order :
  known_inner n nd X → known_inner n nd' Y → (∀ i, i ∈ order → 0 <= i < 16) → NoDup order →
  ∃ E, enum E (parts n (now_in nd nd' order) X) (parts n (now_in nd nd' order) Y) ∧
    ∀ st d c, ∃ st', compare_branches wfuel h nd nd' order st d c
    = let '(go, d, c) := feed E d c in Ok (go, if go : bool then reverse (pairs nd nd' (later_in nd nd' order)) ++ st else st', d, c).
Proof.
  induction order as [|i order IH]; intros HX HY Hi Hnd.
  { exists []. rewrite !parts_nil. split; [apply enum_same|]. intros. by exists []. }
  inversion_clear Hnd as [|? ? Hni Hnd']. assert (0 <= i < 16) as Hi' by (apply Hi; constructor).
  destruct IH as (E & HE & Hc); [done|done|intros; apply Hi; by constructor|done|].
  rewrite !filter_cons. destruct (later nd nd' i) eqn:Hl.
  - rewrite decide_False, decide_True by done. destruct (pairs_later _ _ _ _ _ _ HX HY Hi' Hl) as (c1 & c2 & Hc1 & Hc2).
    exists E. split; [done|]. intros st d c. destruct (Hc ((c1, c2) :: st) d c) as (st' & Hc'). exists st'.
    cbn [compare_branches pairs omap list_omap]. unfold later in Hl. apply andb_true_iff in Hl as [[-> ->%negb_true_iff]%andb_true_iff ->%negb_true_iff].
    unfold descendThrow. rewrite Hc1, Hc2, !bind_Ok, Hc'. destruct (feed E d c) as [[[] ?] ?]; [|done]. rewrite reverse_cons, <- app_assoc. done.
  - rewrite decide_True, decide_False by done. destruct (compare_now n nd nd' X Y i HX HY Hi' Hl) as (E1 & HE1 & Hc1).
    exists (E1 ++ E). split. { apply enum_part; [done..|]. by intros [_ ?]%list_elem_of_filter. }
    intros st d c. rewrite feed_app, Hc1. destruct (feed E1 d c) as [[[] d1] c1]; [apply Hc|by exists st].
Qed.

(** ** The loop *)

Definition compared (ps : list (loc * loc)) (X Y : content) (cost : nat) : Prop :=
  ∃ k E, (k <= cost)%nat ∧ enum E X Y ∧ ∀ fuel st d c,
    compare_loop (k + fuel) wfuel h (ps ++ st) d c
    = let '(go, d, c) := feed E d c in if go : bool then compare_loop fuel wfuel h st d c else Ok (false, d, c).

Lemma compared_pairs n nd nd' X Y order :
  (∀ l l' X Y, known n l X → known n l' Y → compared [(l, l')] X Y (S n * size X)) →
  known_inner n nd X → known_inner n nd' Y → (∀ i, i ∈ order → 0 <= i < 16 ∧ later nd nd' i = true) → NoDup order →
  compared (pairs nd nd' order) (parts n order X) (parts n order Y) (S n * size (parts n order X)).
Proof.
  intros Hch HX HY. induction order as [|i order IH]; intros Hi Hnd.
  { exists 0%nat, []. rewrite !parts_nil. split; [lia|]. split; [apply enum_same|done]. }
  inversion_clear Hnd as [|? ? Hni Hnd']. destruct (Hi i ltac:(constructor)) as [Hi' Hl].
  destruct (pairs_later _ _ _ _ _ _ HX HY Hi' Hl) as (c1 & c2 & Hc1 & Hc2). unfold compared. cbn [pairs omap list_omap]. rewrite Hc1, Hc2.
  destruct (Hch c1 c2 _ _ (ki_child _ _ _ _ _ HX Hi' Hc1) (ki_child _ _ _ _ _ HY Hi' Hc2)) as (k1 & E1 & Hk1 & HE1 & H1).
  destruct IH as (k2 & E2 & Hk2 & HE2 & H2); [intros; apply Hi; by constructor|done|].
  exists (k1 + k2)%nat, (E1 ++ E2). split; [rewrite size_parts_cons by done; lia|]. split; [by apply enum_part|].
  intros fuel st d c. rewrite <- Nat.add_assoc. cbn [app]. rewrite (H1 (k2 + fuel)%nat (pairs nd nd' order ++ st)), feed_app.
  destruct (feed E1 d c) as [[[] d1] c1']; [apply H2|done].
Qed.

Lemma compared_inner n l l' nd nd' X Y :
  (∀ l l' X Y, known n l X → known n l' Y → compared [(l, l')] X Y (S n * size X)) →
  h !! l = Some nd → h !! l' = Some nd' → known_inner n nd X → known_inner n nd' Y →
  compared [(l, l')] X Y (S (S n * size X)).
Proof.
  intros Hch Hl Hl' HX HY.
  destruct (compare_branches_spec n nd nd' X Y branches16 HX HY) as (E1 & HE1 & H1); [intros i; apply branches16_in|apply branches16_NoDup|].
  destruct (compared_pairs n nd nd' X Y (reverse (later_in nd nd' branches16)) Hch HX HY) as (k & E2 & Hk & HE2 & H2).
  { intros i. rewrite elem_of_reverse, list_elem_of_filter, branches16_in. tauto. }
  { rewrite reverse_Permutation. apply NoDup_filter, branches16_NoDup. }
  exists (S k), (E1 ++ E2). split.
  { assert (size (parts n (reverse (later_in nd nd' branches16)) X) <= size X)%nat by (apply map_subseteq_size, map_filter_subseteq). nia. }
  split.
  - assert (∀ Z : content, parts n (now_in nd nd' branches16 ++ reverse (later_in nd nd' branches16)) Z = Z) as Hall.
    { intros Z. apply parts_all. intros i Hi. rewrite elem_of_app, elem_of_reverse, !list_elem_of_filter, branches16_in. destruct (later nd nd' i); tauto. }
    rewrite <- (Hall X), <- (Hall Y). apply enum_parts; [done..|]. intros i. rewrite elem_of_reverse, !list_elem_of_filter. intros [? _] [? _]. congruence.
  - intros fuel st d c. cbn [Nat.add compare_loop app]. unfold compare_pair. rewrite (deref_Ok _ _ _ Hl), (deref_Ok _ _ _ Hl'), !bind_Ok.
    destruct (inner_isInner _ _ _ _ _ _ _ (ki_inner _ _ _ HX)) as (-> & -> & _).
    destruct (inner_isInner _ _ _ _ _ _ _ (ki_inner _ _ _ HY)) as (-> & -> & _). cbn [andb].
    destruct (H1 st d c) as (st' & ->). rewrite feed_app. destruct (feed E1 d c) as [[[] d1] c1]; rewrite bind_Ok; [|done].
    rewrite pairs_reverse. apply H2.
Qed.

(** The two kinds of node *)
Lemma known_cases n l X : known n l X →
  ∃ nd, h !! l = Some nd ∧ ((∃ k v, X = {[k := v]} ∧ leaf_node nd k v) ∨ ∃ n', n = S n' ∧ X ≠ ∅ ∧ known_inner n' nd X).
Proof.
  intros HX. pose proof HX as [Hr Hh Ha Hp HL Hf]. pose proof (rep_nonempty _ _ _ _ _ _ Hr) as Hne.
  destruct n as [|n]; destruct Hr as (nd & Hl & [Hleaf|Hin]); [by eauto|done|by eauto|]. exists nd. split; [done|]. right. exists n.
  split; [done|]. split; [done|]. destruct Hin as [H2 Hin]. unfold hash_at in Hh. rewrite Hl in Hh.
  destruct (content_cases sha512half ty ty_leaf (S n) X Ha) as [[? _]|[(k & v & -> & _)|(n' & Hn & _ & Hm & Hb)]]; [done|by rewrite map_size_singleton in H2; lia|].
  injection Hn as <-. rewrite Hb in HL. split; [done| |done|done| |lia].
  - left. rewrite Hh, Hm. destruct L_free as [Hr _]. pose proof (Hr (inner_bytes sha512half ty n X) (HL _ ltac:(constructor))). lia.
  - intros i Hi x Hx. apply HL, list_elem_of_further. by eapply hashed_part.
Qed.

Lemma compared_node n : ∀ l l' X Y, known n l X → known n l' Y → compared [(l, l')] X Y (S n * size X).
Proof.
  induction n as [n IH] using lt_wf_ind. intros l l' X Y HX HY.
  pose proof (nonempty_size _ (rep_nonempty _ _ _ _ _ _ (kn_rep _ _ _ HX))) as Hs.
  destruct (known_cases _ _ _ HX) as (nd & Hl & HcX). destruct (known_cases _ _ _ HY) as (nd' & Hl' & HcY).
  assert (∀ b r other Z, known n r Z → ∃ E, side b E Z {[i_tag other := i_data other]} ∧ ∀ d c, walkBranch wfuel h r (Some other) b d c = Ok (feed E d c)) as Hw.
  { intros b r other Z HZ. eapply (walked_branch h (Some other) b r Z (S n * size Z)); [by apply walked_node, (kn_rep _ _ _ HZ)|apply (kn_fuel _ _ _ HZ)]. }
  (* one step of the loop that enters [E] into the table *)
  assert (∀ E, enum E X Y → (∀ st d c, compare_pair wfuel h l l' st d c = let '(go, d, c) := feed E d c in Ok (go, st, d, c)) →
    compared [(l, l')] X Y (S n * size X)) as Hone.
  { intros E HE Hp. exists 1%nat, E. split; [nia|]. split; [done|]. intros fuel st d c. cbn [Nat.add compare_loop app].
    rewrite Hp. by destruct (feed E d c) as [[[] ?] ?]. }
  unfold compare_pair in Hone. rewrite (deref_Ok _ _ _ Hl), (deref_Ok _ _ _ Hl') in Hone.
  destruct HcX as [(k & v & -> & Hleaf)|(m & -> & _ & Hki)]; [destruct (leaf_isLeaf _ _ ty_leaf _ _ _ Hleaf) as (E1 & E2 & _)|destruct (inner_isInner _ _ _ _ _ _ _ (ki_inner _ _ _ Hki)) as (E1 & E2 & _)];
    (destruct HcY as [(k' & v' & -> & Hleaf')|(m' & Hm & _ & Hki')]; [destruct (leaf_isLeaf _ _ ty_leaf _ _ _ Hleaf') as (E3 & E4 & _)|destruct (inner_isInner _ _ _ _ _ _ _ (ki_inner _ _ _ Hki')) as (E3 & E4 & _)]).
  - do 2 setoid_rewrite bind_Ok in Hone. rewrite E1, E3 in Hone. unfold the_item in Hone. rewrite (ln_item _ _ _ _ _ Hleaf), (ln_item _ _ _ _ _ Hleaf') in Hone.
    cbn [andb] in Hone. do 2 setoid_rewrite bind_Ok in Hone. cbn [i_tag i_data] in Hone. destruct (Z.eqb_spec k k') as [->|Hk].
    + destruct (decide (v = v')) as [->|Hv].
      * apply (Hone []); [apply enum_same|]. intros. by rewrite bool_decide_eq_true_2.
      * apply (Hone [(k', entry k' (Some v) (Some v'))]); [apply (enum_one k' (Some v) (Some v')); congruence|]. intros st d c.
        rewrite bool_decide_eq_false_2 by done. cbn [negb feed]. unfold entry. by destruct (record d c k' _) as [[[] ?] ?].
    + apply (Hone ([(k, entry k (Some v) None)] ++ [(k', entry k' None (Some v'))])).
      * rewrite <- (right_id ∅ union {[k := v]}), <- (left_id ∅ union {[k' := v']}).
        apply enum_app; [by apply (enum_one k (Some v) None)|by apply (enum_one k' None (Some v'))|].
        intros j. destruct (decide (j = k)) as [->|]; [right; by rewrite lookup_singleton_ne|left; by rewrite lookup_singleton_ne].
      * intros st d c. rewrite feed_app. cbn [feed]. unfold entry. cbn [fmap option_fmap option_map].
        destruct (record d c k _) as [[[] d1] c1]; [|done]. by destruct (record d1 c1 k' _) as [[[] ?] ?].
  - destruct (Hw false l' (mkItem k v) Y HY) as (E & HE & Hwb). apply (Hone E HE). intros st d c. rewrite !bind_Ok, E1, E2, E3, E4. cbn [andb].
    unfold the_item. rewrite (ln_item _ _ _ _ _ Hleaf), bind_Ok, Hwb, bind_Ok. done.
  - destruct (Hw true l (mkItem k' v') X HX) as (E & HE & Hwb). apply (Hone E HE). intros st d c. rewrite !bind_Ok, E1, E2, E3, E4. cbn [andb].
    unfold the_item. rewrite (ln_item _ _ _ _ _ Hleaf'), bind_Ok, Hwb, bind_Ok. done.
  - injection Hm as <-. destruct (compared_inner m l l' nd nd' X Y) as (c & E & Hc & HE); [apply IH; lia|done..|].
    exists c, E. split; [lia|done].
Qed.

(** The root *)
Lemma known_root l nd M :
  root_rep h l M → h !! l = Some nd → mHash nd = root_hash M → proper sha512half ty M → root_hashed sha512half ty M ⊆ L →
  (S (64 * size M) <= wfuel)%nat → known_inner 63 nd M.
Proof.
  intros (_ & nd' & Hl & Hin) Hl' Hh Hp HL Hf. simplify_eq. split; [done| |apply agree_root, Hp|done| |exact Hf].
  - destruct (decide (M = ∅)) as [->|Hne]; [by right|left]. rewrite Hh. unfold root_hash, SHAMapRep.root_hash, inner_hash. rewrite decide_False by done.
    destruct L_free as [Hr _]. pose proof (Hr _ (HL (inner_bytes sha512half ty 63 M) ltac:(apply list_elem_of_here))) as Hz.
    unfold inner_bytes in Hz. unfold getPrefixHash. lia.
  - intros i Hi x Hx. apply HL, list_elem_of_further. by eapply hashed_part.
Qed.
End pairs.

(** [compare] enters the differences of the two contents into the table, in some order, and stops
    when there are too many. *)
Lemma compare_spec m1 m2 h M1 M2 L fuel d c :
  root_rep h (m_root m1) M1 → root_rep h (m_root m2) M2 → m_seq m1 ≠ 0 → m_seq m2 ≠ 0 →
  apart (m_seq m1) h (m_root m1) (m_root m2) → apart (m_seq m2) h (m_root m1) (m_root m2) →
  proper sha512half ty M1 → proper sha512half ty M2 → collision_free sha512half L →
  root_hashed sha512half ty M1 ⊆ L → root_hashed sha512half ty M2 ⊆ L → (64 * (size M1 + size M2) + 2 <= fuel)%nat →
  ∃ E m1' m2' h', enum E M1 M2
    ∧ compare sha512half fuel m1 m2 h d c = (let '(go, d, _) := feed E d c in Ok (go, d, m1', m2', h'))
    ∧ root_rep h' (m_root m1') M1 ∧ root_rep h' (m_root m2') M2.
Proof.
  intros H1 H2 Hs1 Hs2 Ha1 Ha2 Hp1 Hp2 Hcf HL1 HL2 Hf. unfold compare.
  destruct (getHash_spec sha512half ty ty_leaf m1 h M1 H1 Hs1) as (m1' & h1 & -> & (Hr1 & Hev1 & _) & nd1 & Hl1 & Hh1). rewrite bind_Ok. cbv beta iota.
  destruct (evolves_other sha512half ty _ _ _ _ _ _ _ Hev1 H2 Ha1) as [H2' Ha']. specialize (Ha' _ Ha2).
  destruct (getHash_spec sha512half ty ty_leaf m2 h1 M2 H2' Hs2) as (m2' & h2 & -> & (Hr2 & Hev2 & _) & nd2 & Hl2 & Hh2). rewrite bind_Ok. cbv beta iota.
  apply apart_sym in Ha'. destruct (evolves_other sha512half ty _ _ _ _ _ _ _ Hev2 Hr1 Ha') as [Hr1' _].
  assert (h2 !! m_root m1' = Some nd1) as Hl1' by (rewrite <- Hl1; eapply apart_keeps; [exact Hev2|exact Hr1|exact Ha'|constructor]).
  destruct (Z.eqb_spec (root_hash M1) (root_hash M2)) as [Heq|Hne].
  { pose proof (root_hash_inj sha512half ty ty_leaf L M1 M2 Hp1 Hp2 Hcf HL1 HL2 Heq) as <-. exists [], m1', m2', h2. split; [apply enum_same|done]. }
  assert (known_inner h2 L fuel 63 nd1 M1) as Hki1 by (eapply known_root; [exact Hcf|exact Hr1'|exact Hl1'|exact Hh1|exact Hp1|exact HL1|lia]).
  assert (known_inner h2 L fuel 63 nd2 M2) as Hki2 by (eapply known_root; [exact Hcf|exact Hr2|exact Hl2|exact Hh2|exact Hp2|exact HL2|lia]).
  destruct (compared_inner h2 L fuel Hcf 63 (m_root m1') (m_root m2') nd1 nd2 M1 M2 (compared_node h2 L fuel Hcf 63) Hl1' Hl2 Hki1 Hki2)
    as (k & E & Hk & HE & Hc).
  change (S 63) with 64%nat in Hk. exists E, m1', m2', h2. split; [done|]. split; [|done].
  assert (compare_loop fuel fuel h2 [(m_root m1', m_root m2')] d c = Ok (feed E d c)) as ->.
  { pose proof (Hc (S (fuel - k - 1)) [] d c) as Hc'. cbn [app] in Hc'. replace (k + S (fuel - k - 1))%nat with fuel in Hc' by lia.
    rewrite Hc'. by destruct (feed E d c) as [[[] ?] ?]. }
  rewrite bind_Ok. by destruct (feed E d c) as [[? ?] ?].
Qed.
End delta.

(** ** The table *)

(** The differences of two contents, tag by tag *)
Definition diff_of (X Y : content) : Delta :=
  map_imap (λ k xy, Some (entry k xy.1 xy.2)) (merge (λ x y, if decide (x = y) then None else Some (x, y)) X Y).

Lemma lookup_diff_of X Y k : diff_of X Y !! k = if decide (X !! k = Y !! k) then None else Some (entry k (X !! k) (Y !! k)).
Proof.
  unfold diff_of. rewrite map_lookup_imap, lookup_merge. destruct (X !! k) as [x|], (Y !! k) as [y|]; unfold diag_None; by case_decide.
Qed.

Lemma enum_table E X Y : enum E X Y → list_to_map E = diff_of X Y ∧ length E = size (diff_of X Y).
Proof.
  intros [Hn He]. assert ((list_to_map E : Delta) = diff_of X Y) as Heq.
  { apply map_eq. intros k. rewrite lookup_diff_of. case_decide as Hk.
    - apply not_elem_of_list_to_map_1. intros [[k' p] [-> Hp]]%list_elem_of_fmap. apply He in Hp. tauto.
    - apply elem_of_list_to_map_1; [done|]. by apply He. }
  split; [done|]. rewrite <- Heq. symmetry. by apply map_size_list_to_map.
Qed.

(** What entering them into an empty table gives *)
Lemma feed_diff E X Y c : enum E X Y → 1 <= c →
  ∃ d c', feed E ∅ c = (bool_decide (Z.of_nat (size (diff_of X Y)) < c), d, c') ∧ d ⊆ diff_of X Y
    ∧ if bool_decide (Z.of_nat (size (diff_of X Y)) < c) then d = diff_of X Y else Z.of_nat (size d) = c.
Proof.
  intros HE Hc. destruct (enum_table _ _ _ HE) as [Ht Hl]. pose proof (en_nodup _ _ _ HE) as Hn.
  rewrite feed_table by (done || intros; apply lookup_empty). rewrite Hl, !map_union_empty.
  destruct (decide (Z.of_nat (size (diff_of X Y)) < c)) as [Hs|Hs].
  - rewrite bool_decide_eq_true_2 by done. rewrite Ht. eauto.
  - rewrite bool_decide_eq_false_2 by done. do 2 eexists. split; [reflexivity|].
    assert (NoDup (take (Z.to_nat c) E).*1) as Hnt by (rewrite fmap_take; by eapply sublist_NoDup; [|apply sublist_take]). split.
    + apply map_subseteq_spec. intros k p Hp. rewrite <- Ht. apply elem_of_list_to_map_1; [done|].
      apply elem_of_list_to_map_2 in Hp. rewrite <- (take_drop (Z.to_nat c) E). apply elem_of_app. by left.
    + rewrite map_size_list_to_map by done. rewrite length_take. lia.
Qed.
