(* ===== verification/SHAMapClaims.v ===== *)
(** * Properties of the hash tree

    What the components of the hash tree promise together, stated for maps that a sequence of
    operations made out of an empty one. *)

From S2P Require Import Prelude Bytes Serializer SHAMapNodeID SHAMapTreeNode SHAMap SHAMapRep SHAMapRead SHAMapWrite SHAMapDelete SHAMapHash SHAMapShare SHAMapMerkle SHAMapDelta.

(** ** Walking over the items *)

(** The loop by which the program goes over a map: [peekFirstItem], then [peekNextItem] of the tag
    of the item before *)
Fixpoint items_from (fuel : nat) (m : SHAMap) (h : heap) (item : option SHAMapItem) : result (list SHAMapItem) :=
  match item with
  | None => Ok []
  | Some item =>
      match fuel with
      | O => Throw out_of_fuel
      | S fuel => next ← peekNextItem m h (i_tag item); rest ← items_from fuel m h next; Ok (item :: rest)
      end
  end.

Definition all_items (fuel : nat) (m : SHAMap) (h : heap) : result (list SHAMapItem) :=
  first ← peekFirstItem m h; items_from fuel m h first.

(** ** Two maps that change in turn *)

(** [true] is the first map, [false] the second. *)
Fixpoint apply_both (sha512half : blob → Z) (isTransaction hasMeta : bool) (a b : SHAMap) (h : heap) (ops : list (bool * change))
    : result (SHAMap * SHAMap * heap) :=
  match ops with
  | [] => Ok (a, b, h)
  | (true, c) :: ops => '(a, h) ← apply_change sha512half isTransaction hasMeta a h c; apply_both sha512half isTransaction hasMeta a b h ops
  | (false, c) :: ops => '(b, h) ← apply_change sha512half isTransaction hasMeta b h c; apply_both sha512half isTransaction hasMeta a b h ops
  end.

Definition ops_of (who : bool) (ops : list (bool * change)) : list change := (filter (λ o, o.1 = who) ops).*2.

Section claims.
  Context (sha512half : blob → Z) (isTransaction hasMeta : bool).

Notation ty := (leaf_type isTransaction hasMeta).
Notation root_rep := (root_rep sha512half ty).
Notation apply_changes := (apply_changes sha512half isTransaction hasMeta).
Notation apply_both := (apply_both sha512half isTransaction hasMeta).
Notation changes_ok := (changes_ok sha512half isTransaction hasMeta).

(** Whether a tag comes after an item or is the item's *)
Definition in_reach (r : option SHAMapItem) (k : Z) : Prop := match r with Some i => i_tag i <= k | None => False end.
#[local] Instance in_reach_dec r k : Decision (in_reach r k).
Proof. destruct r; [apply Z_le_dec|right; by intros []]. Defined.

(** The item that is the first of those with [P] *)
Definition first_of (M : content) (P : Z → Prop) (r : option SHAMapItem) : Prop :=
  match r with
  | Some i => M !! i_tag i = Some (i_data i) ∧ P (i_tag i) ∧ ∀ k, is_Some (M !! k) → P k → k = i_tag i ∨ i_tag i < k
  | None => ∀ k, is_Some (M !! k) → ¬ P k
  end.

Lemma first_of_reach M t r k : first_of M (λ k, t < k) r → is_Some (M !! k) → in_reach r k ↔ t < k.
Proof.
  intros Hr Hk. destruct r as [i|]; cbn [first_of in_reach] in *.
  - destruct Hr as (_ & Hlt & Hn). split; [lia|]. intros H. destruct (Hn k Hk H); lia.
  - split; [done|apply Hr, Hk].
Qed.

Lemma items_from_spec m h M fuel : ∀ P r,
  root_rep h (m_root m) M → first_of M P r → (size (filter (λ kv, in_reach r kv.1) M) <= fuel)%nat →
  ∃ l, items_from fuel m h r = Ok l ∧ StronglySorted Z.lt (i_tag <$> l) ∧ ∀ k v, mkItem k v ∈ l ↔ M !! k = Some v ∧ in_reach r k.
Proof.
  induction fuel as [|fuel IH]; intros P [[t v]|] Hr Hm Hf.
  2,4: exists []; split; [done|]; split; [constructor|]; intros; rewrite elem_of_nil; cbn; tauto.
  all: destruct Hm as (Ht & _ & _); cbn [i_tag i_data] in Ht.
  - exfalso. apply Nat.le_0_r, map_size_empty_inv in Hf. apply (f_equal (.!! t)) in Hf. rewrite lookup_empty in Hf.
    apply map_lookup_filter_None in Hf as [?|Hf]; [congruence|]. apply (Hf v Ht). cbn. lia.
  - cbn [items_from i_tag].
    destruct (peekNextItem_spec sha512half ty (leaf_type_leaf isTransaction hasMeta) m h M t Hr (proj1 Hr _ _ Ht)) as (next & -> & Hn). rewrite bind_Ok.
    assert (first_of M (λ k, t < k) next) as Hn' by (destruct next as [i|]; [destruct Hn as (? & ? & ?); cbn; auto|exact Hn]).
    pose proof (λ k, first_of_reach M t next k Hn') as Hin.
    destruct (IH _ next Hr Hn') as (l & -> & Hs & Hl).
    { apply Nat.lt_succ_r. eapply Nat.lt_le_trans; [|exact Hf]. apply map_subset_size, map_subset_alt. split.
      - apply map_subseteq_spec. intros k w [Hk Hw]%map_lookup_filter_Some. apply map_lookup_filter_Some_2; [done|].
        cbn in *. apply (Hin k) in Hw; [lia|by eexists].
      - exists t. split; [|exists v; apply map_lookup_filter_Some_2; [done|cbn; lia]].
        apply map_lookup_filter_None_2. right. intros w _ Hw. cbn in Hw. apply (Hin t) in Hw; [lia|by eexists]. }
    rewrite bind_Ok. exists (mkItem t v :: l). split; [done|]. split.
    + cbn [fmap list_fmap i_tag]. constructor; [done|]. apply Forall_fmap, Forall_forall. intros [k w] [Hk Hw]%Hl. cbn.
      apply (Hin k) in Hw; [done|by eexists].
    + intros k w. rewrite elem_of_cons, Hl. cbn [in_reach i_tag]. split.
      * intros [[= -> ->]|[Hk Hw]]; [split; [done|lia]|]. split; [done|]. apply (Hin k) in Hw; [lia|by eexists].
      * intros [Hk Hle]. destruct (decide (k = t)) as [->|]; [left; congruence|right]. split; [done|]. apply (Hin k); [by eexists|lia].
Qed.

(** Going over a map gives its items in the order of their tags. *)
Lemma all_items_spec m h M fuel :
  root_rep h (m_root m) M → (size M <= fuel)%nat →
  ∃ l, all_items fuel m h = Ok l ∧ StronglySorted Z.lt (i_tag <$> l) ∧ ∀ k v, mkItem k v ∈ l ↔ M !! k = Some v.
Proof.
  intros Hr Hf. unfold all_items. destruct (peekFirstItem_spec sha512half ty (leaf_type_leaf isTransaction hasMeta) m h M Hr) as (r & -> & He). rewrite bind_Ok.
  destruct (items_from_spec m h M fuel (λ _, True) r Hr) as (l & -> & Hs & Hl).
  - destruct r as [i|]; cbn in *; [destruct He as [? Hn]; split; [done|]; split; [done|]; intros; by apply Hn|].
    subst M. intros k [? Hk]. by rewrite lookup_empty in Hk.
  - etrans; [|exact Hf]. apply map_subseteq_size, map_filter_subseteq.
  - exists l. split; [done|]. split; [done|]. intros k v. rewrite Hl. split; [tauto|]. intros Hk. split; [done|].
    destruct r as [i|]; cbn in *; [|by subst M; rewrite lookup_empty in Hk]. destruct He as [_ Hn]. destruct (Hn k ltac:(by eexists)); lia.
Qed.

(** ** Two maps *)

(** Both maps are whole, and neither may change a node of the other; the first may be frozen. *)
Record pair_ok (frozen : bool) (h : heap) (a b : SHAMap) (A B : content) : Prop := {
  po_a : root_rep h (m_root a) A;
  po_b : root_rep h (m_root b) B;
  po_sa : m_seq a ≠ 0;
  po_sb : m_seq b ≠ 0;
  po_ba : apart (m_seq b) h (m_root b) (m_root a);
  po_ab : frozen = false → apart (m_seq a) h (m_root a) (m_root b)
}.

Lemma apply_both_spec frozen ops : ∀ h a b A B,
  pair_ok frozen h a b A B → (frozen = true → ops_of true ops = []) → changes_ok A (ops_of true ops) → changes_ok B (ops_of false ops) →
  ∃ a' b' h', apply_both a b h ops = Ok (a', b', h')
    ∧ pair_ok frozen h' a' b' (foldl change_content A (ops_of true ops)) (foldl change_content B (ops_of false ops)).
Proof.
  induction ops as [|[who c] ops IH]; intros h a b A B Hok Hz HA HB; [by exists a, b, h|]. pose proof Hok as [Ha Hb Hsa Hsb Hba Hab].
  unfold ops_of in *. rewrite !filter_cons in *. cbn [SHAMapClaims.apply_both fst] in *. destruct who.
  - rewrite decide_True in * by done. rewrite decide_False in * by done. cbn [fmap list_fmap snd foldl SHAMapShare.changes_ok] in *.
    destruct frozen; [by specialize (Hz eq_refl)|]. specialize (Hab eq_refl). destruct HA as [Hc HA].
    destruct (apply_change_spec sha512half isTransaction hasMeta a h A c Ha Hsa Hc) as (a1 & h1 & -> & (Hr1 & Hev & Hs1 & _)). rewrite bind_Ok. cbv beta iota.
    destruct (evolves_other sha512half ty _ _ _ _ _ _ _ Hev Hb Hab) as [Hb1 Hap].
    apply (IH h1 a1 b); [|done|done|done]. split; [done|done|congruence|done|apply apart_sym, Hap, apart_sym, Hba|intros _; rewrite Hs1; by apply Hap].
  - rewrite decide_False in * by done. rewrite decide_True in * by done. cbn [fmap list_fmap snd foldl SHAMapShare.changes_ok] in *.
    destruct HB as [Hc HB].
    destruct (apply_change_spec sha512half isTransaction hasMeta b h B c Hb Hsb Hc) as (b1 & h1 & -> & (Hr1 & Hev & Hs1 & _)). rewrite bind_Ok. cbv beta iota.
    destruct (evolves_other sha512half ty _ _ _ _ _ _ _ Hev Ha Hba) as [Ha1 Hap].
    apply (IH h1 a b1); [|done|done|done]. split; [done|done|done|congruence|rewrite Hs1; by apply Hap|intros Hz'; apply apart_sym, Hap, apart_sym, Hab, Hz'].
Qed.
End claims.

(** A map that a sequence of operations made out of an empty one *)
Definition build (sha512half : blob → Z) (isTransaction hasMeta : bool) (seq : Z) (cs : list change) : result (SHAMap * heap) :=
  let '(m, h) := newMap ∅ seq in apply_changes sha512half isTransaction hasMeta m h cs.

Definition content_of (cs : list change) : content := foldl change_content ∅ cs.

Lemma build_spec sha512half isTransaction hasMeta seq cs :
  1 <= seq → changes_ok sha512half isTransaction hasMeta ∅ cs →
  ∃ m h, build sha512half isTransaction hasMeta seq cs = Ok (m, h)
    ∧ root_rep sha512half (leaf_type isTransaction hasMeta) h (m_root m) (content_of cs)
    ∧ seqs_ok seq h (m_root m) ∧ m_seq m = seq ∧ m_state m = Modifying.
Proof.
  intros Hs Hok. unfold build. pose proof (newMap_spec sha512half (leaf_type isTransaction hasMeta) ∅ seq Hs) as H.
  destruct (newMap ∅ seq) as [m0 h0] eqn:Hn. destruct H as (Hr & Hq & Hm & _).
  destruct (apply_changes_spec sha512half isTransaction hasMeta cs m0 h0 ∅ Hr ltac:(lia) Hok) as (m & h & -> & (Hr' & Hev & Hs' & Ht)).
  exists m, h. split; [done|]. split; [done|]. rewrite Hm in *. split; [by eapply evolves_seqs|]. split; [done|].
  rewrite Ht. by injection Hn as <- _.
Qed.

Lemma leaf_type_ok isTransaction hasMeta : leaf_type isTransaction hasMeta ≠ tnERROR ∧ leaf_type isTransaction hasMeta ≠ tnINNER.
Proof. by destruct isTransaction, hasMeta. Qed.

(** ** Properties *)

(** C29: The tree is a finite map.  After any sequence of additions, updates, deletions and hash
    computations, starting from an empty map, every tag looks up what the same sequence leaves in
    a finite map; an item is added exactly where there is none, and deleted exactly where there is
    one.  No operation fails. *)
Theorem tree_refines_map sha512half isTransaction hasMeta seq cs :
  1 <= seq → changes_ok sha512half isTransaction hasMeta ∅ cs →
  ∃ m h, build sha512half isTransaction hasMeta seq cs = Ok (m, h) ∧ ∀ t, is_u256 t →
    peekItem m h t = Ok (mkItem t <$> content_of cs !! t)
    ∧ hasItem m h t = Ok (bool_decide (is_Some (content_of cs !! t)))
    ∧ (∃ m' h', delItem sha512half m h t = Ok (bool_decide (is_Some (content_of cs !! t)), m', h'))
    ∧ ∀ v, ∃ m' h', addGiveItem sha512half m h (mkItem t v) isTransaction hasMeta = Ok (bool_decide (content_of cs !! t = None), m', h').
Proof.
  intros Hs Hok. pose proof (leaf_type_ok isTransaction hasMeta) as Hty.
  destruct (build_spec sha512half isTransaction hasMeta seq cs Hs Hok) as (m & h & Hb & Hr & _ & Hm & _).
  exists m, h. split; [done|]. intros t Ht. split; [by eapply peekItem_spec|]. split; [by eapply hasItem_spec|]. split; [|intros v].
  - pose proof (delItem_spec _ _ Hty m h _ t Hr Ht ltac:(lia)) as Hd. destruct (content_of cs !! t).
    + destruct Hd as (m' & h' & Hd & _). eauto.
    + eauto.
  - pose proof (addGiveItem_spec _ _ Hty m h _ (mkItem t v) isTransaction hasMeta Hr Ht ltac:(lia) eq_refl) as Ha. cbn [i_tag i_data] in Ha.
    destruct (content_of cs !! t); [eauto|]. destruct Ha as (m' & h' & Ha & _). eauto.
Qed.

(** Going over a map with [peekFirstItem] and [peekNextItem] gives every item once, in the
    order of the tags, and ends. *)
Theorem items_in_order sha512half isTransaction hasMeta seq cs fuel :
  1 <= seq → changes_ok sha512half isTransaction hasMeta ∅ cs → (size (content_of cs) <= fuel)%nat →
  ∃ m h l, build sha512half isTransaction hasMeta seq cs = Ok (m, h) ∧ all_items fuel m h = Ok l
    ∧ StronglySorted Z.lt (i_tag <$> l) ∧ ∀ k v, mkItem k v ∈ l ↔ content_of cs !! k = Some v.
Proof.
  intros Hs Hok Hf. destruct (build_spec sha512half isTransaction hasMeta seq cs Hs Hok) as (m & h & Hb & Hr & _).
  destruct (all_items_spec sha512half isTransaction hasMeta m h _ fuel Hr Hf) as (l & Hl & H). by exists m, h, l.
Qed.

(** C30: The hash names the content.  Two maps, however they came about, have the same hash if and
    only if they have the same items, unless two of the byte strings that were hashed collide. *)
Theorem hash_names_content sha512half isTransaction hasMeta seq1 seq2 cs1 cs2 :
  1 <= seq1 → 1 <= seq2 → changes_ok sha512half isTransaction hasMeta ∅ cs1 → changes_ok sha512half isTransaction hasMeta ∅ cs2 →
  tags_ok sha512half (leaf_type isTransaction hasMeta) (content_of cs1) → tags_ok sha512half (leaf_type isTransaction hasMeta) (content_of cs2) →
  collision_free sha512half (root_hashed sha512half (leaf_type isTransaction hasMeta) (content_of cs1)
    ++ root_hashed sha512half (leaf_type isTransaction hasMeta) (content_of cs2)) →
  ∃ m1 h1 m2 h2 x1 x2 m1' h1' m2' h2',
    build sha512half isTransaction hasMeta seq1 cs1 = Ok (m1, h1) ∧ build sha512half isTransaction hasMeta seq2 cs2 = Ok (m2, h2)
    ∧ getHash sha512half m1 h1 = Ok (x1, m1', h1') ∧ getHash sha512half m2 h2 = Ok (x2, m2', h2')
    ∧ (x1 = x2 ↔ content_of cs1 = content_of cs2).
Proof.
  intros Hs1 Hs2 Hok1 Hok2 Ht1 Ht2 Hcf. pose proof (leaf_type_ok isTransaction hasMeta) as Hty.
  destruct (build_spec sha512half isTransaction hasMeta seq1 cs1 Hs1 Hok1) as (m1 & h1 & Hb1 & Hr1 & _ & Hm1 & _).
  destruct (build_spec sha512half isTransaction hasMeta seq2 cs2 Hs2 Hok2) as (m2 & h2 & Hb2 & Hr2 & _ & Hm2 & _).
  destruct (getHash_spec _ _ Hty m1 h1 _ Hr1 ltac:(lia)) as (m1' & h1' & Hg1 & _).
  destruct (getHash_spec _ _ Hty m2 h2 _ Hr2 ltac:(lia)) as (m2' & h2' & Hg2 & _).
  do 10 eexists. split; [exact Hb1|]. split; [exact Hb2|]. split; [exact Hg1|]. split; [exact Hg2|]. split; [|by intros ->].
  intros Heq. refine (root_hash_inj sha512half _ Hty _ (content_of cs1) (content_of cs2) (conj (proj1 Hr1) Ht1) (conj (proj1 Hr2) Ht2) Hcf _ _ Heq);
    intros x Hx; apply elem_of_app; [by left|by right].
Qed.

(** A map, its snapshot, and what both do afterwards *)
Definition fork (sha512half : blob → Z) (isTransaction hasMeta : bool) (seq : Z) (cs : list change) (immutable isMutable : bool)
    (ops : list (bool * change)) : result (SHAMap * SHAMap * heap) :=
  '(a, h) ← build sha512half isTransaction hasMeta seq cs;
  let a := if immutable then setImmutable a else a in
  '(b, h) ← snapShot sha512half a h isMutable;
  apply_both sha512half isTransaction hasMeta a b h ops.

Lemma fork_spec sha512half isTransaction hasMeta seq cs immutable isMutable ops :
  1 <= seq < 2 ^ 32 - 1 → changes_ok sha512half isTransaction hasMeta ∅ cs → content_of cs ≠ ∅ →
  (immutable = true → ops_of true ops = []) →
  changes_ok sha512half isTransaction hasMeta (content_of cs) (ops_of true ops) →
  changes_ok sha512half isTransaction hasMeta (content_of cs) (ops_of false ops) →
  ∃ a b h, fork sha512half isTransaction hasMeta seq cs immutable isMutable ops = Ok (a, b, h)
    ∧ pair_ok sha512half isTransaction hasMeta immutable h a b (content_of (cs ++ ops_of true ops)) (content_of (cs ++ ops_of false ops)).
Proof.
  intros Hs Hok Hne Hz HA HB. pose proof (leaf_type_ok isTransaction hasMeta) as Hty. unfold fork.
  destruct (build_spec sha512half isTransaction hasMeta seq cs ltac:(lia) Hok) as (a & h & -> & Hr & Hq & Hm & Hst). rewrite bind_Ok. cbv beta iota zeta.
  set (a' := if immutable then setImmutable a else a).
  assert (m_root a' = m_root a ∧ m_seq a' = seq ∧ is_immutable a' = immutable) as (Hra & Hsa & Hia)
    by (unfold a', is_immutable; destruct immutable; cbn; [done|by rewrite Hst]).
  destruct (snapShot_spec sha512half _ Hty a' h (content_of cs) isMutable) as (b & h1 & -> & Ha & Hb & Hsb & Hap & Hap'); [by rewrite Hra|by rewrite Hra, Hsa|lia|done|].
  rewrite bind_Ok. cbv beta iota. unfold content_of. rewrite !foldl_app. apply apply_both_spec; [|done..].
  rewrite Hia in Hap'. split; [done|done|lia|lia|done|done].
Qed.

(** C31: A snapshot is a value of its own.  However a map that is not empty and its snapshot go on
    changing, in whatever order, each shows what its own operations leave; a map that is immutable
    stays as it is while a snapshot of it, which shares its nodes, changes. *)
Theorem snapshot_isolated sha512half isTransaction hasMeta seq cs immutable isMutable ops :
  1 <= seq < 2 ^ 32 - 1 → changes_ok sha512half isTransaction hasMeta ∅ cs → content_of cs ≠ ∅ →
  (immutable = true → ops_of true ops = []) →
  changes_ok sha512half isTransaction hasMeta (content_of cs) (ops_of true ops) →
  changes_ok sha512half isTransaction hasMeta (content_of cs) (ops_of false ops) →
  ∃ a b h, fork sha512half isTransaction hasMeta seq cs immutable isMutable ops = Ok (a, b, h)
    ∧ ∀ t, is_u256 t → peekItem a h t = Ok (mkItem t <$> content_of (cs ++ ops_of true ops) !! t)
        ∧ peekItem b h t = Ok (mkItem t <$> content_of (cs ++ ops_of false ops) !! t).
Proof.
  intros Hs Hok Hne Hz HA HB. pose proof (leaf_type_ok isTransaction hasMeta) as Hty.
  destruct (fork_spec sha512half isTransaction hasMeta seq cs immutable isMutable ops Hs Hok Hne Hz HA HB) as (a & b & h & Hf & [Ha Hb _ _ _ _]).
  exists a, b, h. split; [done|]. intros t Ht. split; by eapply peekItem_spec.
Qed.

(** C32: [compare] of two maps whose nodes are in memory, and which share no node that either may
    still change (two separate maps, or a map and its snapshot, after any changes of both).  It
    ends, without an error, and answers whether fewer than [maxCount] tags differ.  If so, the
    table is exactly the differences; otherwise the answer is false, and the table holds
    [maxCount] of the differences.  With exactly [maxCount] differences the table is complete and
    the answer is false all the same (the comment of the code has true for every complete table).
    Both maps hold what they did.  The fuel bounds the nodes on the stack by the depth of 64 below
    each item. *)
Theorem compare_exact sha512half ty a b h A B fuel maxCount :
  ty ≠ tnERROR ∧ ty ≠ tnINNER →
  root_rep sha512half ty h (m_root a) A → root_rep sha512half ty h (m_root b) B →
  tags_ok sha512half ty A → tags_ok sha512half ty B →
  m_seq a ≠ 0 → m_seq b ≠ 0 →
  apart (m_seq a) h (m_root a) (m_root b) → apart (m_seq b) h (m_root a) (m_root b) →
  collision_free sha512half (root_hashed sha512half ty A ++ root_hashed sha512half ty B) →
  1 <= maxCount → (64 * (size A + size B) + 2 <= fuel)%nat →
  ∃ complete d a' b' h', compare sha512half fuel a b h ∅ maxCount = Ok (complete, d, a', b', h')
    ∧ complete = bool_decide (Z.of_nat (size (diff_of A B)) < maxCount)
    ∧ d ⊆ diff_of A B
    ∧ (if complete then d = diff_of A B else Z.of_nat (size d) = maxCount)
    ∧ (Z.of_nat (size (diff_of A B)) = maxCount → complete = false ∧ d = diff_of A B)
    ∧ root_rep sha512half ty h' (m_root a') A ∧ root_rep sha512half ty h' (m_root b') B.
Proof.
  intros Hty Ha Hb HtA HtB Hsa Hsb Hab Hba Hcf Hc Hf.
  destruct (compare_spec sha512half ty Hty a b h A B _ fuel ∅ maxCount Ha Hb Hsa Hsb Hab Hba
    (conj (proj1 Ha) HtA) (conj (proj1 Hb) HtB) Hcf) as (E & a' & b' & h' & HE & Hcmp & Hra & Hrb).
  { intros x Hx. apply elem_of_app. by left. }
  { intros x Hx. apply elem_of_app. by right. }
  { done. }
  destruct (feed_diff E A B maxCount HE Hc) as (d & c' & Hfd & Hsub & Hd). rewrite Hfd in Hcmp.
  exists (bool_decide (Z.of_nat (size (diff_of A B)) < maxCount)), d, a', b', h'. do 4 (split; [done|]). split; [|done].
  intros Heq. rewrite bool_decide_eq_false_2 in * by lia. split; [done|]. apply map_subseteq_size_eq; [done|lia].
Qed.

(** ** A small example *)

(** A stand-in for the hash function *)
Definition toy_hash (l : blob) : Z := 1 + foldl (λ a x, (a * 257 + x + 7) mod 1000003) 5 l.

(** Tags that part at the first digit, and two that part at the third *)
Definition tag1 : Z := Eval vm_compute in 7 * 16 ^ 63 + 16 ^ 61.
Definition tag2 : Z := Eval vm_compute in 7 * 16 ^ 63 + 2 * 16 ^ 61.
Definition tag3 : Z := Eval vm_compute in 9 * 16 ^ 63.
Definition toy_changes : list change :=
  [Add (mkItem tag1 [1; 2]); Add (mkItem tag3 [3]); Hash; Add (mkItem tag2 [4]); Update (mkItem tag3 [5; 6]); Delete tag1; Add (mkItem tag1 [7])].
Definition toy_changes' : list change := [Add (mkItem tag1 [7]); Add (mkItem tag2 [4]); Add (mkItem tag3 [5; 6])].
Definition toy_ops : list (bool * change) := [(true, Delete tag3); (false, Update (mkItem tag1 [8])); (false, Hash); (true, Add (mkItem 5 [9]))].

Definition collision_free_check (h : blob → Z) (L : list blob) : bool :=
  forallb (λ x, (0 <? h x) && (h x <? 2 ^ 256)) L && forallb (λ x, forallb (λ y, negb (h x =? h y) || bool_decide (x = y)) L) L.

Lemma collision_free_checked h L : collision_free_check h L = true → collision_free h L.
Proof.
  intros [H1 H2]%andb_true_iff. rewrite forallb_forall in H1, H2. split.
  - intros x Hx%list_elem_of_In. specialize (H1 x Hx). lia.
  - intros x y Hx%list_elem_of_In Hy%list_elem_of_In Heq. specialize (H2 x Hx). rewrite forallb_forall in H2. specialize (H2 y Hy).
    apply orb_true_iff in H2 as [H2|H2]; [|by apply bool_decide_eq_true in H2]. rewrite Heq, Z.eqb_refl in H2. done.
Qed.

(** An executable form of [changes_ok], which compares the data where it is updated *)
Fixpoint changes_check (M : content) (cs : list change) : bool :=
  match cs with
  | [] => true
  | c :: cs =>
      match c with
      | Add item => (0 <=? i_tag item) && (i_tag item <? 2 ^ 256)
      | Update item => (0 <=? i_tag item) && (i_tag item <? 2 ^ 256) &&
          match M !! i_tag item with
          | Some w => negb (leaf_hash toy_hash tnACCOUNT_STATE (i_tag item) (i_data item) =? leaf_hash toy_hash tnACCOUNT_STATE (i_tag item) w)
          | None => true
          end
      | Delete tag => (0 <=? tag) && (tag <? 2 ^ 256)
      | Hash => true
      end && changes_check (change_content M c) cs
  end.

Lemma changes_checked cs : ∀ M, changes_check M cs = true → changes_ok toy_hash false false M cs.
Proof.
  induction cs as [|c cs IH]; intros M H; [done|]. cbn [changes_check] in H. apply andb_true_iff in H as [H1 H2]. split; [|by apply IH].
  destruct c; cbn [change_ok]; unfold is_u256; try lia. apply andb_true_iff in H1 as [H1 H3]. split; [lia|]. destruct (M !! _); [|done].
  intros Heq. apply negb_true_iff, Z.eqb_neq in H3. done.
Qed.

Lemma tag3_u256 : is_u256 tag3.
Proof. unfold is_u256, tag3. lia. Qed.

Ltac toy_ok := apply changes_checked; vm_compute; reflexivity.

Ltac toy_tags := let H := fresh in intros H; discriminate H.

Lemma tree_refines_map_witness : ∃ m h, build toy_hash false false 1 toy_changes = Ok (m, h) ∧ peekItem m h tag3 = Ok (Some (mkItem tag3 [5; 6])).
Proof.
  destruct (tree_refines_map toy_hash false false 1 toy_changes) as (m & h & Hb & Ht); [lia|toy_ok|].
  exists m, h. split; [exact Hb|]. destruct (Ht tag3 tag3_u256) as [Hp _]. etrans; [exact Hp|]. vm_compute. reflexivity.
Defined.

Lemma items_in_order_witness : ∃ m h, build toy_hash false false 1 toy_changes = Ok (m, h) ∧ ∃ l, all_items 3 m h = Ok l.
Proof.
  destruct (items_in_order toy_hash false false 1 toy_changes 3) as (m & h & l & Hb & Hl & _); [lia|toy_ok|vm_compute; lia|].
  exists m, h. split; [exact Hb|]. exists l. exact Hl.
Defined.

Lemma hash_names_content_witness : content_of toy_changes = content_of toy_changes' ∧ ∃ m1 h1 m2 h2 x m1' h1' m2' h2',
  build toy_hash false false 1 toy_changes = Ok (m1, h1) ∧ build toy_hash false false 4 toy_changes' = Ok (m2, h2)
  ∧ getHash toy_hash m1 h1 = Ok (x, m1', h1') ∧ getHash toy_hash m2 h2 = Ok (x, m2', h2').
Proof.
  assert (content_of toy_changes = content_of toy_changes') as Heq by (vm_compute; reflexivity). split; [exact Heq|].
  destruct (hash_names_content toy_hash false false 1 4 toy_changes toy_changes')
    as (m1 & h1 & m2 & h2 & x1 & x2 & m1' & h1' & m2' & h2' & Hb1 & Hb2 & Hg1 & Hg2 & Hx); [lia|lia|toy_ok|toy_ok|toy_tags|toy_tags| |].
  - apply collision_free_checked. vm_compute. reflexivity.
  - apply Hx in Heq. subst x2. exists m1, h1, m2, h2, x1, m1', h1', m2', h2'.
    split; [exact Hb1|]. split; [exact Hb2|]. split; [exact Hg1|exact Hg2].
Defined.

Lemma snapshot_isolated_witness : ∃ a b h, fork toy_hash false false 1 toy_changes false true toy_ops = Ok (a, b, h)
  ∧ peekItem a h tag3 = Ok None ∧ peekItem b h tag3 = Ok (Some (mkItem tag3 [5; 6])).
Proof.
  destruct (snapshot_isolated toy_hash false false 1 toy_changes false true toy_ops) as (a & b & h & Hf & Ht);
    [lia|toy_ok|vm_compute; discriminate|intros Hf; discriminate Hf|toy_ok|toy_ok|].
  exists a, b, h. split; [exact Hf|]. destruct (Ht tag3 tag3_u256) as [Ha Hb].
  split; [etrans; [exact Ha|]|etrans; [exact Hb|]]; vm_compute; reflexivity.
Defined.

(** A map and its snapshot, of which three tags have come to differ: with room for four, and with
    room for just three. *)
Lemma compare_exact_witness : ∃ a b h, fork toy_hash false false 1 toy_changes false true toy_ops = Ok (a, b, h)
  ∧ (∃ d a' b' h', compare toy_hash 500 a b h ∅ 4 = Ok (true, d, a', b', h') ∧ size d = 3%nat)
  ∧ ∃ d a' b' h', compare toy_hash 500 a b h ∅ 3 = Ok (false, d, a', b', h') ∧ size d = 3%nat.
Proof.
  set (A := content_of (toy_changes ++ ops_of true toy_ops)). set (B := content_of (toy_changes ++ ops_of false toy_ops)).
  destruct (fork_spec toy_hash false false 1 toy_changes false true toy_ops) as (a & b & h & Hfk & [Ha Hb Hsa Hsb Hba Hab]);
    [lia|toy_ok|vm_compute; discriminate|done|toy_ok|toy_ok|].
  assert (collision_free toy_hash (root_hashed toy_hash tnACCOUNT_STATE A ++ root_hashed toy_hash tnACCOUNT_STATE B)) as Hcf
    by (apply collision_free_checked; vm_compute; reflexivity).
  assert (size (diff_of A B) = 3%nat) as Hd by (vm_compute; reflexivity).
  assert (64 * (size A + size B) + 2 <= 500)%nat as Hsz by (vm_compute; lia).
  exists a, b, h. split; [exact Hfk|]. split.
  - destruct (compare_exact toy_hash tnACCOUNT_STATE a b h A B 500 4) as (c & d & a' & b' & h' & Hc & -> & _ & Heq & _);
      [exact (leaf_type_ok false false)|exact Ha|exact Hb|toy_tags|toy_tags|exact Hsa|exact Hsb|exact (Hab eq_refl)|exact (apart_sym _ _ _ _ Hba)|exact Hcf|lia|exact Hsz|].
    rewrite Hd in Hc, Heq. rewrite bool_decide_eq_true_2 in Hc, Heq by lia. exists d, a', b', h'. split; [exact Hc|]. rewrite Heq. exact Hd.
  - destruct (compare_exact toy_hash tnACCOUNT_STATE a b h A B 500 3) as (c & d & a' & b' & h' & Hc & _ & _ & _ & Heq & _);
      [exact (leaf_type_ok false false)|exact Ha|exact Hb|toy_tags|toy_tags|exact Hsa|exact Hsb|exact (Hab eq_refl)|exact (apart_sym _ _ _ _ Hba)|exact Hcf|lia|exact Hsz|].
    rewrite Hd in Heq. destruct (Heq eq_refl) as [-> ->]. exists (diff_of A B), a', b', h'. split; [exact Hc|exact Hd].
Defined.

(** A map without items is not copied: an item added to the map after [snapShot] shows in the
    snapshot, even in one that is not mutable. *)
Definition empty_snapshot : result (option SHAMapItem * option SHAMapItem) :=
  let '(a, h) := newMap ∅ 1 in
  '(b, h) ← snapShot toy_hash a h false;
  before ← peekItem b h tag1;
  '(_, a, h) ← addGiveItem toy_hash a h (mkItem tag1 [1]) false false;
  after ← peekItem b h tag1;
  Ok (before, after).

Example snapshot_of_empty : empty_snapshot = Ok (None, Some (mkItem tag1 [1])).
Proof. vm_compute. reflexivity. Qed.
